(* ===== verification/_CoqProject ===== *)
-Q . S2P
Prelude.v
CString.v
Heap.v
Mutex.v
Results.v
ResultsConc.v
Log.v
Conf.v
Lua.v
World.v
Verify.v
Cache.v
Loader.v
ExecUnix.v
Popen.v
ExecWin.v
Platform.v
Debugger.v
Service.v
Main.v
WinMain.v
Octets.v
Mime.v
QuotedPrintable.v
MimeText.v
Pack.v
Transport.v
Socket.v
Sleep.v
Net.v
SocketOps.v
Inet.v
Auxiliar.v
Buffer.v
Tcp.v
TcpTyping.v
Udp.v
Select.v
TcpSelect.v
SslContext.v
SslStore.v
Ssl.v
SslSession.v
SslToy.v
SslLink.v
