(* ===== verification/Prelude.v ===== *)
(** * The Cloudkick agent: a verification development

    The agent (its source calls itself "equus") is a C program that embeds a Lua
    interpreter.  The C side reads a configuration file, builds a Lua state whose
    module loaders are its own, runs a bootstrap script in it, and gives the
    scripts what they need from the system: a queue for the results of checks
    that run in other threads, a cache of downloaded modules, the running of
    commands, a logger, a debugger, sockets and encoders.  On Windows it also
    installs and controls itself as a service.  This library models that C code
    and proves what makes it correct.  Source paths below are relative to
    [src/src/] for the agent and to [src/extern/] for the libraries it links.

    ** How the parts interact

    [equus.c] starts everything: [Main.v] composes the log, the configuration,
    the run count and restart flag, the module cache and the Lua state that
    [Loader.v] builds for every run of the script.  The script calls back into
    [Cache.v] and [Loader.v] (modules; a developer's modules only with a
    signature that [Verify.v] accepts), into the result queue ([Results.v], and
    [ResultsConc.v] when threads push to it), and into [ExecUnix.v],
    [ExecWin.v], [Popen.v] and [Platform.v].  Signals re-enter [Conf.v] and
    [Log.v] while the script runs.  The loader's preload table also hands the
    interpreter the C modules of luasocket and the pack library: [Mime.v],
    [QuotedPrintable.v], [MimeText.v], [Pack.v], and the connections of [Tcp.v]:
    an object is a class ([Auxiliar.v]), a descriptor opened by name ([Inet.v],
    [SocketOps.v]), time limits ([Socket.v]) and a buffer ([Buffer.v]) on the
    interface [Transport.v], which [Socket.v] implements for any kernel that
    satisfies its laws.  [Net.v] is the system all sockets share, a table of
    descriptors, and it satisfies these laws for each open descriptor in turn;
    [TcpTyping.v] puts the parts together for sessions of many objects, and
    [TcpSelect.v] for a script that waits for several of them ([Select.v]).
    [Udp.v] is built from the same parts.  The agent talks to its server over
    the TLS connections of luasec: a context ([SslContext.v]) makes connections
    ([Ssl.v]), which wait on the descriptors of [Net.v] for what OpenSSL wants and
    are another implementation of [Transport.v] ([SslSession.v]), so that
    [Buffer.v] serves them too.

    ** Files

    Foundations.
    - this file: outcomes of a call ([Ok], or [Stop] with the way control left),
      the state monad [C] with its notation [let! x := m in k], loops with fuel,
      weakest preconditions [wp] and the rewriting that runs them ([wp_simpl]),
      loop rules (an invariant, a measure), 32 and 64 bit wrap-around;
    - [CString.v]: strings and the C library calls on them; [Heap.v]: a heap in
      which freed blocks stay recognisable, and ownership as a list of blocks;
      [Mutex.v]: threads interleaved action by action, and the reduction to
      serial runs of whole critical sections; [World.v]: system objects as a
      ledger, system answers as functions of the history of calls; [Lua.v]: the
      Lua stack and tables seen through the C API; [Octets.v]: octets, tables,
      shifts and masks, the feeding of blocks to an incremental filter.

    The agent.
    - [Results.v], [ResultsConc.v]: [equus_util.c] 518-582;
    - [Log.v]: [equus_util.c] 212-498;
    - [Conf.v]: [equus_conf.c], [equus_util.c] 39-205;
    - [Verify.v]: [equus_util.c] 154-194;
    - [Cache.v], [Loader.v]: [equus_loader.c];
    - [ExecUnix.v], [ExecWin.v], [Popen.v]: [equus_portable.c];
    - [Platform.v]: the small services of [equus_util.c];
    - [Debugger.v]: [mojosetup_luadebugger.c];
    - [Service.v]: [equus_service.c];
    - [Main.v], [WinMain.v]: [equus.c].

    Libraries bound into its interpreter.
    - [Mime.v] (Base64), [QuotedPrintable.v], [MimeText.v] (wrapping, line ends,
      dot stuffing): [luasocket/src/mime.c];
    - [Pack.v]: [pack/lpack.c];
    - [Transport.v]: [luasocket/src/io.h], [io.c]; [Socket.v]: [timeout.c] and
      the transfers of [usocket.c]; [Sleep.v]: the end of [timeout.c]; [Net.v]:
      the system calls; [SocketOps.v]: the rest of [usocket.c]; [Inet.v]:
      [inet.c]; [Auxiliar.v]: [auxiliar.c], [options.c]; [Buffer.v]: [buffer.c];
      [Tcp.v], [TcpTyping.v]: [tcp.c]; [Udp.v]: [udp.c]; [Select.v],
      [TcpSelect.v]: [select.c];
    - [SslContext.v]: [luasec/src/context.c]; [SslStore.v]: what its objects own;
      [Ssl.v]: [luasec/src/ssl.c], [usocket.c]; [SslSession.v]: what is documented
      of OpenSSL's connections, and the transport they make; [SslToy.v]: a system
      that satisfies it; [SslLink.v]: the abstract connection they refine.
      luasec's [buffer.c], [timeout.c] and [io.c] are luasocket's, less what
      nothing here uses.

    A definition has the name of the C function it models, with its guards in the
    order of the code's; a helper without a C name models a part of the function
    its comment names (a round of a loop, a branch).  Global variables are the
    fields of the component's [state], heap structures are blocks of [Heap.v]
    where the code allocates them, [free] and [close] included, and fixed-size
    arrays carry their bound.

    ** What the theorems show

    - The two shared data structures refine abstract ones: the result list a
      stack ([results_refine_stack]), the module cache a map that keeps the first
      text of a name ([cache_refines_map]).  Under any schedule of pushing and
      popping threads no result is lost or delivered twice
      ([concurrent_results_conserved]), and the connection loop sends each
      exactly once ([drain_sends_everything]).
    - Modules: the signature check answers 0 exactly when the signature is valid
      ([equus_verify_spec]), an unverified module is never loaded
      ([local_load_only_verified]), a new state gets the agent's loaders after
      those it had, where requiring the HTTP loader keeps what is there (it may add
      globals) ([loaders_installed]); what the cache really keeps is the source
      (the lemma [cached_module_is_the_source]).
    - The life of the process: the script is run again exactly while it asks for
      it ([agent_restarts_until_told]), an error ends the agent with status 1
      ([agent_error_exits]), SIGUSR1 reloads (the lemma [reload_signal_spec]);
      loading a configuration, from any file, agrees with a reference parser and
      frees what it replaces ([load_config_spec]).
    - Commands: everything a command writes is returned with its status, with
      every descriptor closed ([exec_collects_output], [child_runs_command] for an
      agent whose standard streams are open, [win32_exec_releases],
      [popen_capture_spec], the lemma [pipe_win32_spec]).
    - The log never writes to or closes a closed file and each line fits its
      buffer ([log_session_safe], [equus_log_writes_line]); a debugging session
      does what its commands say, whatever the code does that is run from it, and
      leaves the Lua stack and the log level as they were; a [clear] of the newest
      breakpoint is a use of a null pointer ([debugger_session], the lemma
      [breakpoint_clear_spec]).
    - The Windows service: starting and stopping end whatever the service manager
      answers ([service_stop_ends], [service_start_ends]), and the last report it
      makes is the right one however its threads interleave
      ([service_final_report]); the switches decide how the program runs (the
      lemma [switches_spec]).
    - Encodings: Base64 is RFC 4648 and both it and quoted-printable are read
      back, however the data is cut into blocks ([base64_stream_spec],
      [base64_roundtrip], [qp_roundtrip]); lines stay within their width
      ([qpwrp_bounds_lines]); line ends and dot stuffing (the lemma [eol_converts],
      [dot_transparent]); binary records are read back on machines of either byte
      order ([pack_unpack_roundtrip]), and where the ends of the fields are [int]s
      reading stays inside the string ([unpack_in_bounds]).
    - Connections: a transfer, an accept or a connect on a socket ends within its
      time limit ([socket_recv_in_time], the lemma [socket_accept_in_time]) and a
      sleep lasts (the lemma [sleep_lasts]); sockets satisfy the transport laws (the instance
      [socket_laws]), and on any transport that does, buffered objects deliver
      the stream in order and without loss ([buffer_receive_spec]); a host is
      looked up, and the resolver's answer told to Lua in full ([toip_spec]).
      Whatever scripts do with TCP objects, with numbers that fit their C types and
      descriptors handed over as [adopts] and [foreign] say ([setfd], [tcp(fd)]),
      each object's class says the truth about its descriptor, no descriptor is
      lost or shared ([tcp_session_types]), and the objects are independent pairs
      of streams ([tcp_refines_streams]).  A script that waits for many objects is
      given those that hold octets and those that the call of the system's
      [select] on the objects' descriptors reports ([tcp_select_spec]).
      A datagram never overruns the array it is received in
      ([udp_receivefrom_bounded]).
    - TLS: whatever a script asks of a connection, it refines an abstract one, two
      streams while it lives and what was read ahead once it is closed, data that
      has to be sent again included ([ssl_refines_link]); the handshake ends in
      time ([ssl_handshake_in_time]); making one gives it the role of its context
      and no descriptor ([ssl_create_spec]); a closed one has no defined answer to
      a transfer ([closed_connection_undefined]).  Contexts give back what they
      take but for certificates loaded from memory ([contexts_released]), and
      their flags are disjunctions of a table's codes ([flags_by_name]).

    Where the code does not do what it means to, a theorem states what it does:
    [popped_nodes_leak], [set_path_to_stderr_reads_freed_path],
    [failed_reload_loses_url], [refused_module_leaks_state],
    [found_entry_dangles_after_clear], [fork_failure_leaks_pipes],
    [long_message_ends_agent], [breakpoint_hit_inverted], [stackwalk_lines],
    [early_stop_is_lost], [late_stop_hides_end],
    [created_file_is_not_the_config], [unb64_loses_leading_nul],
    [unpack_size_overflow], [unpack_before_string], [unpack_count_overflow],
    [child_loses_output], [internal_error_is_timeout], [receive_short_number],
    [sleep_lasts], [tcp_select_spec] (when the system call fails),
    [closed_connection_undefined], [ssl_create_spec] (closing before [setfd]),
    [contexts_released] (certificates).

    ** Bounds and fuel

    A loop runs with fuel, and the outcome [OutOfFuel] is excluded by its
    theorem.  Where the number of rounds follows from the arguments the model
    passes it (the length of a list, a string or a heap, a count plus one);
    elsewhere the theorem asks for more fuel than a stated measure: the octets
    of a stream for [Buffer.v], the answers the kernel has left for
    [ExecUnix.v], the interruptions still to come for [Socket.v], [SocketOps.v]
    and [Sleep.v], interruptions and octets for a method in [TcpTyping.v],
    interruptions and objects for [Select.v], interruptions and the times OpenSSL
    asks to wait, and octets, for [SslLink.v], the time left and the progress
    still possible for [Service.v].  Machine integers are
    integers with their wrap-around where the code can reach it ([u32], [u64],
    [i32]); a conversion or an overflow without a defined result is the outcome
    [Undefined], as is any access to a dead block.

    ** Not modelled, and why

    - The Lua scripts (the connection protocol of [lua/remote/helen.lua], the
      checks, the module downloader) and the Java bridge: other languages.  Only
      the loop of [helen.lua] that drains the queue is here, as the queue's
      client.
    - The interpreter itself, OpenSSL, the C library and the kernel: parameters,
      with what is documented of them as the hypotheses of the theorems.
      Failures of [malloc] are not followed.  The interpreter's stack is taken to
      have room for what is pushed, which [lpack.c] does not check.
    - [uuidgen.c] is a separate tool; the SWIG interface generates its code when
      the agent is built; the debug runtime that the memory probe of
      [equus_util.c] calls in a debug build.
    - Of luasocket, local sockets ([unix.c], [tcp.c] over another address family),
      and what a peer receives of datagrams; the theorems on sessions of TCP
      objects leave out descriptors that scripts hand to an object by number
      although they are another's, closed or of another kind ([setfd] and
      [tcp(fd)], which the source calls very dangerous).  Of luasec, the socket layer of its Windows build
      ([wsocket.c]).  The other linked libraries (alien, lanes, sigar) are outside
      this library.
    - OpenSSL's connections are assumed to end: each answer that asks to wait is
      one of finitely many, as an interruption is.  A session of several TLS
      objects is not a theorem; that a request touches only the object's own
      descriptor and connection is ([ssl_refines_link]).
    - Time is exact: [double] seconds are whole microseconds. *)

From Stdlib Require Export ZArith Lia Ascii String.
From stdpp Require Export base list gmap gmultiset strings.

#[global] Open Scope Z_scope.
#[global] Open Scope list_scope.

(** ** Outcomes of a C call

    A call either returns, or control leaves the function for good. *)

Inductive failure : Type :=
| LuaError (msg : string)    (** [luaL_error]: a longjmp to the enclosing [lua_pcall] *)
| Exited (code : Z)          (** [exit(code)] *)
| Aborted                    (** [abort()] *)
| Deadlock                   (** waiting for a mutex the caller already holds *)
| Blocked                    (** a system call that never returns *)
| Execed (args : list (list ascii))   (** [execvp] replaced the process image *)
| Undefined (why : string)   (** undefined behaviour of C *)
| OutOfFuel.                 (** the model's loop bound was reached *)

Inductive outcome (A : Type) : Type :=
| Ok (a : A)
| Stop (f : failure).
Arguments Ok {A} a.
Arguments Stop {A} f.

#[global] Instance failure_eq_dec : EqDecision failure.
Proof. solve_decision. Defined.

(** ** The C monad: state passing with early termination *)

Definition C (W A : Type) : Type := W -> outcome A * W.

Definition ret {W A} (a : A) : C W A := fun w => (Ok a, w).
Definition stop {W A} (f : failure) : C W A := fun w => (Stop f, w).
Definition bind {W A B} (m : C W A) (k : A -> C W B) : C W B :=
  fun w => match m w with
           | (Ok a, w') => k a w'
           | (Stop f, w') => (Stop f, w')
           end.
Definition get {W} : C W W := fun w => (Ok w, w).
Definition put {W} (w' : W) : C W unit := fun _ => (Ok tt, w').
Definition modify {W} (f : W -> W) : C W unit := fun w => (Ok tt, f w).
Definition gets {W A} (f : W -> A) : C W A := fun w => (Ok (f w), w).

Declare Scope c_scope.
Delimit Scope c_scope with C.
Bind Scope c_scope with C.
#[global] Open Scope c_scope.
Notation "'let!' x ':=' m 'in' k" := (bind m (fun x => k))
  (at level 10, x name, m at level 100, k at level 200) : c_scope.
Notation "'let!' ' p ':=' m 'in' k" := (bind m (fun x => match x with p => k end))
  (at level 10, p pattern, m at level 100, k at level 200) : c_scope.
Notation "m ;;; k" := (bind m (fun _ => k))
  (at level 199, k at level 200, right associativity) : c_scope.

(** [for (;;)]-style loops: [body] sees the loop-carried locals and either goes
    round again ([inl]) or leaves the loop ([inr]).  [fuel] bounds the rounds. *)
Fixpoint loop {W S A} (fuel : nat) (body : S -> C W (S + A)) (s : S) : C W A :=
  match fuel with
  | O => stop OutOfFuel
  | Datatypes.S n =>
      let! r := body s in
      match r with
      | inl s' => loop n body s'
      | inr a => ret a
      end
  end.

(** Running a computation on a part of a larger state. *)
Definition zoom {W S A} (view : W -> S) (set : S -> W -> W) (m : C S A) : C W A :=
  fun w => let '(o, s') := m (view w) in (o, set s' w).

(** ** Weakest preconditions *)

Definition wp {W A} (m : C W A) (Q : outcome A -> W -> Prop) (w : W) : Prop :=
  Q (m w).1 (m w).2.

#[global] Arguments wp : simpl never.
#[global] Arguments bind : simpl never.
#[global] Arguments zoom : simpl never.

(** What [bind m k] must establish, seen from the end of [m]. *)
Definition then_post {W A B} (k : A -> C W B) (Q : outcome B -> W -> Prop)
  (o : outcome A) (w : W) : Prop :=
  match o with Ok a => wp (k a) Q w | Stop f => Q (Stop f) w end.

Section Wp.
Context {W : Type}.

Lemma wp_ret {A} (a : A) Q (w : W) : wp (ret a) Q w = Q (Ok a) w.
Proof. reflexivity. Qed.

Lemma wp_stop {A} f (Q : outcome A -> W -> Prop) (w : W) : wp (stop f) Q w = Q (Stop f) w.
Proof. reflexivity. Qed.

Lemma wp_get Q (w : W) : wp get Q w = Q (Ok w) w.
Proof. reflexivity. Qed.

Lemma wp_put (w' : W) Q w : wp (put w') Q w = Q (Ok tt) w'.
Proof. reflexivity. Qed.

Lemma wp_modify (f : W -> W) Q w : wp (modify f) Q w = Q (Ok tt) (f w).
Proof. reflexivity. Qed.

Lemma wp_gets {A} (f : W -> A) Q w : wp (gets f) Q w = Q (Ok (f w)) w.
Proof. reflexivity. Qed.

Lemma wp_bind {A B} (m : C W A) (k : A -> C W B) Q w :
  wp (bind m k) Q w = wp m (then_post k Q) w.
Proof. unfold wp, bind, then_post. destruct (m w) as [[a|f] w']; reflexivity. Qed.

Lemma wp_mono {A} (m : C W A) (Q R : outcome A -> W -> Prop) w :
  wp m Q w -> (forall o w', Q o w' -> R o w') -> wp m R w.
Proof. unfold wp; auto. Qed.

Lemma wp_and {A} (m : C W A) (Q R : outcome A -> W -> Prop) w :
  wp m Q w -> wp m R w -> wp m (fun o w' => Q o w' /\ R o w') w.
Proof. unfold wp; auto. Qed.

Lemma wp_run {A} (m : C W A) (Q : outcome A -> W -> Prop) w :
  wp m Q w <-> exists o w', m w = (o, w') /\ Q o w'.
Proof.
  unfold wp. destruct (m w) as [o w']; cbn. split; [eauto|].
  intros (? & ? & [= <- <-] & H); exact H.
Qed.

(** *** Loops *)

(** The invariant rule: [I] holds of the locals and the state at the head of
    every round, and whatever ends the loop satisfies [Q]. *)
Lemma wp_loop {S A} (body : S -> C W (S + A)) (I : S -> W -> Prop) Q :
  (forall s w, I s w ->
     wp (body s) (fun o w' => match o with
                              | Ok (inl s') => I s' w'
                              | Ok (inr a) => Q (Ok a) w'
                              | Stop f => Q (Stop f) w'
                              end) w) ->
  (forall s w, I s w -> Q (Stop OutOfFuel) w) ->
  forall fuel s w, I s w -> wp (loop fuel body s) Q w.
Proof.
  intros Hbody Hfuel fuel; induction fuel as [|n IH]; intros s w HI; cbn [loop].
  - rewrite wp_stop; eauto.
  - rewrite wp_bind. eapply wp_mono; [by apply Hbody|].
    intros [[s'|a]|f] w' H; cbn; [apply IH| |]; done.
Qed.

(** The same with a variant: each further round decreases [mu], so [mu s w]
    rounds of fuel are never exhausted. *)
Lemma wp_loop_measure {S A} (body : S -> C W (S + A)) (I : S -> W -> Prop)
    (mu : S -> W -> nat) Q :
  (forall s w, I s w ->
     wp (body s) (fun o w' => match o with
                              | Ok (inl s') => I s' w' /\ (mu s' w' < mu s w)%nat
                              | Ok (inr a) => Q (Ok a) w'
                              | Stop f => Q (Stop f) w'
                              end) w) ->
  forall fuel s w, I s w -> (mu s w < fuel)%nat -> wp (loop fuel body s) Q w.
Proof.
  intros Hbody fuel; induction fuel as [|n IH]; intros s w HI Hmu; [lia|]. cbn [loop].
  rewrite wp_bind. eapply wp_mono; [by apply Hbody|].
  intros [[s'|a]|f] w' H; cbn; [|done..].
  destruct H; apply IH; [done|lia].
Qed.

(** More fuel does not change a run that ended. *)
Lemma loop_fuel_mono {S A} (body : S -> C W (S + A)) n k s w o w' :
  loop n body s w = (o, w') -> o <> Stop OutOfFuel -> loop (n + k) body s w = (o, w').
Proof.
  revert s w; induction n as [|n IH]; intros s w; cbn.
  - intros [= <- <-]; done.
  - unfold bind. destruct (body s w) as [[[s'|a]|f] w1]; cbn; [apply IH|done|done].
Qed.

(** The same rounds make the same loop. *)
Lemma wp_loop_ext {S A} (body body' : S -> C W (S + A)) fuel s Q w :
  (forall s w, body s w = body' s w) -> wp (loop fuel body' s) Q w -> wp (loop fuel body s) Q w.
Proof.
  intros Heq. unfold wp. enough (loop fuel body s w = loop fuel body' s w) as -> by done.
  revert s w. induction fuel as [|n IH]; intros s w; cbn; [done|].
  unfold bind. rewrite Heq. by destruct (body' s w) as [[[s'|a]|f] w'].
Qed.
End Wp.

#[global] Arguments loop : simpl never.

Lemma loop_S {W S A} n (body : S -> C W (S + A)) s :
  loop (Datatypes.S n) body s =
  let! r := body s in match r with inl s' => loop n body s' | inr a => ret a end.
Proof. reflexivity. Qed.

Create Rewrite HintDb wp.
#[global] Hint Rewrite @wp_ret @wp_stop @wp_get @wp_put @wp_modify @wp_gets @wp_bind : wp.

(** One round of symbolic execution. *)
Ltac wp_simpl := repeat (autorewrite with wp; cbn).

(** ** Machine integers *)

Definition u32 (z : Z) : Z := z mod 2 ^ 32.
Definition u64 (z : Z) : Z := z mod 2 ^ 64.
Definition i32 (z : Z) : Z := (z + 2 ^ 31) mod 2 ^ 32 - 2 ^ 31.

Lemma u32_range z : 0 <= u32 z < 2 ^ 32.
Proof. apply Z.mod_pos_bound; lia. Qed.

Lemma u32_small z : 0 <= z < 2 ^ 32 -> u32 z = z.
Proof. apply Z.mod_small. Qed.

Lemma i32_small z : - 2 ^ 31 <= z < 2 ^ 31 -> i32 z = z.
Proof. intros; unfold i32; rewrite Z.mod_small; lia. Qed.

(** Wrap-around subtraction recovers the elapsed time while it fits in 32 bits. *)
Lemma u32_sub_elapsed a b : 0 <= b - a < 2 ^ 32 -> u32 (u32 b - u32 a) = b - a.
Proof.
  intros H. unfold u32. rewrite <- Zminus_mod. by apply Z.mod_small.
Qed.

Create HintDb cint.
#[export] Hint Resolve u32_range u32_small i32_small : cint.

(** ** Frames *)

Lemma wp_zoom {W S A} (view : W -> S) (set : S -> W -> W) (m : C S A) Q w :
  wp (zoom view set m) Q w = wp m (fun o s => Q o (set s w)) (view w).
Proof. unfold wp, zoom. by destruct (m (view w)). Qed.
#[global] Hint Rewrite @wp_zoom : wp.

(** A computation that returns normally. *)
Definition returns {W A} (m : C W A) (w : W) : Prop := exists a w', m w = (Ok a, w').

Lemma wp_returns {W A} (m : C W A) w (Q : A -> W -> Prop) :
  wp m (fun o w' => match o with Ok a => Q a w' | Stop _ => False end) w ->
  exists a w', m w = (Ok a, w') /\ Q a w'.
Proof. unfold wp. destruct (m w) as [[a|f] w']; cbn; [eauto|done]. Qed.

(** Close a decidable goal by evaluating its decision. *)
Ltac by_decide := apply (bool_decide_unpack _); vm_compute; exact I.

Lemma lookup_rev {A} (l : list A) i : (i < length l)%nat -> rev l !! i = l !! (length l - S i)%nat.
Proof. intros Hi. rewrite rev_alt. by apply reverse_lookup. Qed.

Lemma filter_none {A} (P : A -> Prop) `{forall x, Decision (P x)} (l : list A) :
  (forall x, x ∈ l -> ~ P x) -> filter P l = [].
Proof.
  induction l as [|x l IH]; intros Hl; [done|]. rewrite filter_cons, decide_False by set_solver.
  apply IH. set_solver.
Qed.
