(* ===== verification/CString.v ===== *)
(** * C strings and buffers

    Memory is a list of characters; a C string is what stands before the first
    NUL.  Only the library calls the agent makes are here: [strcmp]/[strncmp]
    (as tests for equality), [strrchr], [atoi], [isspace], [fgets], the [%d]
    conversion, and writes into fixed-size buffers with their bounds. *)

From S2P Require Import Prelude.
From stdpp Require Export pretty.
#[global] Open Scope Z_scope.

Abbreviation bytes := (list ascii).

Definition of_string (s : string) : bytes := list_ascii_of_string s.
Definition to_string (b : bytes) : string := string_of_list_ascii b.
#[global] Arguments of_string : simpl never.
Notation "'b:' s" := (of_string s%string) (at level 1, s at level 0) : c_scope.

Definition NUL : ascii := Ascii.zero.
Definition LF : ascii := ascii_of_nat 10.
Definition CR : ascii := ascii_of_nat 13.
Definition SP : ascii := ascii_of_nat 32.

(** The string a pointer to this memory denotes. *)
Fixpoint cstr (m : bytes) : bytes :=
  match m with
  | [] => []
  | c :: m' => if decide (c = NUL) then [] else c :: cstr m'
  end.

Definition no_nul (m : bytes) : Prop := NUL ∉ m.
#[global] Instance no_nul_dec m : Decision (no_nul m) := _.

Definition str_eq (x y : bytes) : bool := bool_decide (cstr x = cstr y).

(** [strncmp(lit, p, length lit) == 0] for a literal without NULs. *)
Fixpoint has_prefix (lit p : bytes) : bool :=
  match lit, p with
  | [], _ => true
  | c :: lit', d :: p' => bool_decide (c = d) && has_prefix lit' p'
  | _ :: _, [] => false
  end.

(** [isspace] in the C locale. *)
Definition isspace (c : ascii) : bool :=
  let n := nat_of_ascii c in ((9 <=? n) && (n <=? 13) || (n =? 32))%nat.

Fixpoint skip_space (p : bytes) : bytes :=
  match p with
  | c :: p' => if isspace c then skip_space p' else p
  | [] => []
  end.

(** [fgets(buf, size, fp)]: at most [size - 1] characters, through a newline;
    the rest of the stream. [None] at the end of the file. *)
Fixpoint fgets_chunk (n : nat) (s : bytes) : bytes * bytes :=
  match n, s with
  | O, _ => ([], s)
  | _, [] => ([], [])
  | S n', c :: s' =>
      if decide (c = LF) then ([c], s')
      else let '(l, r) := fgets_chunk n' s' in (c :: l, r)
  end.

Definition fgets (size : nat) (s : bytes) : option (bytes * bytes) :=
  match s with
  | [] => None
  | _ => Some (fgets_chunk (size - 1) s)
  end.

(** The offset of the last [c] of the string, as [strrchr] finds it. *)
Fixpoint strrchr (c : ascii) (m : bytes) : option nat :=
  match m with
  | [] => None
  | d :: m' =>
      if decide (d = NUL) then None
      else match strrchr c m' with
           | Some i => Some (S i)
           | None => if decide (d = c) then Some O else None
           end
  end.

Definition digit (c : ascii) : option Z :=
  let n := nat_of_ascii c in
  if ((48 <=? n) && (n <=? 57))%nat then Some (Z.of_nat n - 48) else None.

Fixpoint digits (acc : Z) (p : bytes) : Z :=
  match p with
  | c :: p' => match digit c with Some d => digits (10 * acc + d) p' | None => acc end
  | [] => acc
  end.

(** [atoi], as [(int) strtol(p, NULL, 10)] with a 64-bit [long]. *)
Definition atoi (p : bytes) : Z :=
  let clamp z := Z.min (2 ^ 63 - 1) (Z.max (- 2 ^ 63) z) in
  match skip_space p with
  | c :: p' =>
      if decide (c = "-"%char) then i32 (clamp (- digits 0 p'))
      else if decide (c = "+"%char) then i32 (clamp (digits 0 p'))
      else i32 (clamp (digits 0 (c :: p')))
  | [] => 0
  end.

(** The [%d] conversion. *)
Definition dec (z : Z) : bytes := of_string (pretty z).

(** [memcpy] into a buffer at an offset: [None] when it would write outside. *)
Definition put_at (off : nat) (src buf : bytes) : option bytes :=
  if decide (off + length src <= length buf)%nat
  then Some (take off buf ++ src ++ drop (off + length src) buf)
  else None.

(** ** Facts *)

Lemma cstr_app_nul m r : no_nul m -> cstr (m ++ NUL :: r) = m.
Proof.
  unfold no_nul. induction m as [|c m IH]; intros H; cbn; [done|].
  apply not_elem_of_cons in H as [Hc Hm].
  rewrite decide_False by congruence. by rewrite IH.
Qed.

Lemma cstr_no_nul m : no_nul (cstr m).
Proof.
  unfold no_nul. induction m as [|c m IH]; cbn; [set_solver|].
  case_decide; [set_solver|]. rewrite not_elem_of_cons. naive_solver.
Qed.

Lemma cstr_id m : no_nul m -> cstr m = m.
Proof.
  unfold no_nul. induction m as [|c m IH]; intros H; cbn; [done|].
  apply not_elem_of_cons in H as [Hc Hm]. rewrite decide_False by congruence.
  f_equal. by apply IH.
Qed.

Lemma cstr_prefix m : exists r, m = cstr m ++ r.
Proof.
  induction m as [|c m [r IH]]; cbn; [by exists []|].
  case_decide; [by exists (c :: m)|]. exists r. cbn. by rewrite <- IH.
Qed.

Lemma cstr_length m : (length (cstr m) <= length m)%nat.
Proof. destruct (cstr_prefix m) as [r E]. rewrite E at 2. rewrite length_app; lia. Qed.

Lemma str_eq_spec x y : no_nul x -> no_nul y -> str_eq x y = bool_decide (x = y).
Proof. intros. unfold str_eq. by rewrite !cstr_id. Qed.

Lemma has_prefix_spec lit p : has_prefix lit p = true <-> exists r, p = lit ++ r.
Proof.
  revert p; induction lit as [|c lit IH]; intros [|d p]; cbn.
  - split; eauto.
  - split; eauto.
  - split; [done|]. intros [r [=]].
  - rewrite andb_true_iff, bool_decide_eq_true, IH. split.
    + intros [-> [r ->]]; eauto.
    + intros [r [= -> ->]]; eauto.
Qed.

Lemma fgets_chunk_app n s : (fgets_chunk n s).1 ++ (fgets_chunk n s).2 = s.
Proof.
  revert s; induction n as [|n IH]; intros [|c s]; cbn; try done.
  case_decide; [done|]. specialize (IH s). destruct (fgets_chunk n s); cbn in *. by rewrite IH.
Qed.

Lemma fgets_chunk_length n s : (length (fgets_chunk n s).1 <= n)%nat.
Proof.
  revert s; induction n as [|n IH]; intros [|c s]; cbn; try lia.
  case_decide; cbn; [lia|]. specialize (IH s). destruct (fgets_chunk n s); cbn in *. lia.
Qed.

(** [fgets] makes progress, which is what ends the loops that read lines. *)
Lemma fgets_progress size s l r :
  (1 < size)%nat -> fgets size s = Some (l, r) ->
  s = l ++ r /\ (length r < length s)%nat /\ (length l < size)%nat.
Proof.
  intros Hsz. destruct s as [|c s]; cbn; [done|]. intros [= E].
  destruct (size - 1)%nat as [|n] eqn:En; [lia|].
  pose proof (fgets_chunk_app (S n) (c :: s)) as Ha.
  pose proof (fgets_chunk_length (S n) (c :: s)) as Hl. rewrite E in Ha, Hl. cbn in Ha, Hl.
  split; [done|]. apply (f_equal length) in Ha. rewrite length_app in Ha. cbn in Ha.
  cbn [fgets_chunk] in E. case_decide; [injection E as <- <-; cbn in *; lia|].
  destruct (fgets_chunk n s) as [l' r']. injection E as <- <-. cbn in *; lia.
Qed.

Lemma put_at_length off src buf buf' :
  put_at off src buf = Some buf' -> length buf' = length buf.
Proof.
  unfold put_at. case_decide; [|done]. intros [= <-].
  rewrite !length_app, length_take, length_drop. lia.
Qed.

Lemma put_at_take off src buf buf' :
  put_at off src buf = Some buf' -> take (off + length src) buf' = take off buf ++ src.
Proof.
  unfold put_at. case_decide; [|done]. intros [= <-].
  rewrite app_assoc. apply take_app_length'.
  rewrite length_app, length_take. lia.
Qed.

Lemma put_at_fits off src buf :
  (off + length src <= length buf)%nat ->
  put_at off src buf = Some (take off buf ++ src ++ drop (off + length src) buf).
Proof. intros. unfold put_at. by rewrite decide_True. Qed.

Create HintDb cstr.
#[export] Hint Resolve cstr_no_nul cstr_length put_at_length : cstr.

Lemma no_nul_app x y : no_nul x -> no_nul y -> no_nul (x ++ y).
Proof. unfold no_nul. rewrite elem_of_app. by intros ?? [?|?]. Qed.

Lemma no_nul_take n x : no_nul x -> no_nul (take n x).
Proof.
  unfold no_nul. intros H Hin. apply H.
  apply elem_of_take in Hin as (i & Hi & _). by eapply list_elem_of_lookup_2.
Qed.

(** A prefix no longer than the string is a prefix of the memory it stands in. *)
Lemma take_cstr n m : (n <= length (cstr m))%nat -> take n m = take n (cstr m).
Proof.
  intros H. destruct (cstr_prefix m) as [r E]. rewrite E at 1. by apply take_app_le.
Qed.
#[export] Hint Resolve no_nul_app no_nul_take : cstr.

(** The pieces [fgets(buf, size, fp)] cuts a stream into. *)
Fixpoint fgets_all (fuel size : nat) (s : bytes) : list bytes :=
  match fuel with
  | O => []
  | S n => match fgets size s with
           | Some (l, r) => l :: fgets_all n size r
           | None => []
           end
  end.

Lemma fgets_all_concat size fuel : forall s,
  (1 < size)%nat -> (length s < fuel)%nat -> concat (fgets_all fuel size s) = s.
Proof.
  induction fuel as [|n IH]; intros s Hsz Hf; [lia|]. cbn [fgets_all].
  destruct (fgets size s) as [[l r]|] eqn:E; [|by destruct s].
  destruct (fgets_progress _ _ _ _ Hsz E) as (-> & Hr & _). cbn. rewrite IH; [done..|lia].
Qed.

Lemma fgets_all_fuel size : (1 < size)%nat -> forall n m s,
  (length s < n)%nat -> (length s < m)%nat -> fgets_all n size s = fgets_all m size s.
Proof.
  intros Hsz. induction n as [|n IH]; intros [|m] s Hn Hm; try lia. cbn [fgets_all].
  destruct (fgets size s) as [[l r]|] eqn:E; [|done].
  destruct (fgets_progress _ _ _ _ Hsz E) as (-> & Hr & _). f_equal. apply IH; lia.
Qed.

Lemma concat_cstr ls : no_nul (concat ls) -> concat (cstr <$> ls) = concat ls.
Proof.
  unfold no_nul. induction ls as [|l ls IH]; intros H; [done|]. cbn in *.
  rewrite cstr_id by (intros Hin; apply H; apply elem_of_app; by left).
  rewrite IH; [done|]. intros Hin. apply H. apply elem_of_app. by right.
Qed.
