(* ===== verification/Heap.v ===== *)
(** * The C heap

    Blocks live at addresses that are never handed out twice, so that a dangling
    pointer is recognisable: reading, writing or freeing a dead block is the
    outcome [Undefined].  [V] is the type of what a block holds; each component
    instantiates it with the structures it allocates.

    Ownership is tracked with [owns h L]: the heap holds exactly the blocks of
    the list [L], which matters only up to permutation. *)

From S2P Require Import Prelude.

(** A pointer; [None] is [NULL]. *)
Abbreviation ptr := (option positive).

Record heap (V : Type) : Type := Heap { cells : gmap positive V; brk : positive }.
Arguments Heap {V} cells brk.
Arguments cells {V} h.
Arguments brk {V} h.

Section Heap.
Context {V : Type}.

Definition empty_heap : heap V := Heap ∅ 1%positive.

(** [malloc] does not fail in this model. *)
Definition malloc (v : V) : C (heap V) ptr :=
  fun h => (Ok (Some (brk h)), Heap (<[brk h := v]> (cells h)) (Pos.succ (brk h))).

Definition load (p : ptr) : C (heap V) V :=
  match p with
  | None => stop (Undefined "null pointer dereference")
  | Some l => fun h => match cells h !! l with
                       | Some v => (Ok v, h)
                       | None => (Stop (Undefined "read of a dead block"), h)
                       end
  end.

Definition store (p : ptr) (v : V) : C (heap V) unit :=
  match p with
  | None => stop (Undefined "null pointer dereference")
  | Some l => fun h => match cells h !! l with
                       | Some _ => (Ok tt, Heap (<[l := v]> (cells h)) (brk h))
                       | None => (Stop (Undefined "write to a dead block"), h)
                       end
  end.

(** [free(NULL)] does nothing. *)
Definition free (p : ptr) : C (heap V) unit :=
  match p with
  | None => ret tt
  | Some l => fun h => match cells h !! l with
                       | Some _ => (Ok tt, Heap (delete l (cells h)) (brk h))
                       | None => (Stop (Undefined "free of a dead block"), h)
                       end
  end.

(** ** Ownership *)

Definition owns (h : heap V) (L : list (positive * V)) : Prop :=
  NoDup L.*1 /\ cells h = list_to_map L /\ Forall (fun l => (l < brk h)%positive) L.*1.

#[global] Instance owns_proper h : Proper ((≡ₚ) ==> iff) (owns h).
Proof.
  assert (forall L1 L2, L1 ≡ₚ L2 -> owns h L1 -> owns h L2) as Hgo.
  { intros L1 L2 HP (Hnd & Hc & Hb). unfold owns.
    pose proof (fmap_Permutation fst _ _ HP) as HK. rewrite <- HK.
    repeat split; [done| |done]. rewrite Hc. by apply list_to_map_proper. }
  intros L1 L2 HP; split; [by apply Hgo|]. apply Hgo. by symmetry.
Qed.

Lemma owns_empty : owns empty_heap [].
Proof. repeat split; constructor. Qed.

Lemma owns_lookup h L l v : owns h L -> (l, v) ∈ L -> cells h !! l = Some v.
Proof. intros (Hnd & -> & _) Hin. by apply elem_of_list_to_map. Qed.

Lemma owns_dead h L l : owns h L -> l ∉ L.*1 -> cells h !! l = None.
Proof. intros (Hnd & -> & _) Hin. by apply not_elem_of_list_to_map. Qed.

Lemma owns_size h L : owns h L -> size (cells h) = length L.
Proof. intros (Hnd & -> & _). by apply map_size_list_to_map. Qed.

Lemma owns_notin h l v L : owns h ((l, v) :: L) -> l ∉ L.*1.
Proof. intros (Hnd & _). by apply NoDup_cons in Hnd as [? _]. Qed.

Lemma owns_insert h L v :
  owns h L -> owns (Heap (<[brk h := v]> (cells h)) (Pos.succ (brk h))) ((brk h, v) :: L).
Proof.
  intros (Hnd & Hc & Hb). repeat split; cbn.
  - apply NoDup_cons; split; [|done]. intros Hin.
    rewrite Forall_forall in Hb. specialize (Hb _ Hin). lia.
  - by rewrite Hc.
  - constructor; [lia|]. eapply Forall_impl; [exact Hb|]. cbn; lia.
Qed.

Lemma owns_update h l v v' L :
  owns h ((l, v) :: L) -> owns (Heap (<[l := v']> (cells h)) (brk h)) ((l, v') :: L).
Proof.
  intros (Hnd & Hc & Hb). repeat split; cbn in *; [done| |done].
  rewrite Hc. apply insert_insert_eq.
Qed.

Lemma owns_delete h l v L :
  owns h ((l, v) :: L) -> owns (Heap (delete l (cells h)) (brk h)) L.
Proof.
  intros Ho. pose proof (owns_notin _ _ _ _ Ho) as Hn. destruct Ho as (Hnd & Hc & Hb).
  cbn in *. apply NoDup_cons in Hnd as [_ Hnd]. apply Forall_cons in Hb as [_ Hb].
  repeat split; [done| |done]. cbn. rewrite Hc. apply delete_insert_id.
  by apply not_elem_of_list_to_map.
Qed.

(** *** Rules of the four operations *)

Lemma wp_malloc v Q h L :
  owns h L ->
  (forall l h', owns h' ((l, v) :: L) -> Q (Ok (Some l)) h') -> wp (malloc v) Q h.
Proof. intros Ho HQ. apply HQ. by apply owns_insert. Qed.

Lemma wp_load l v Q h L :
  owns h L -> (l, v) ∈ L -> Q (Ok v) h -> wp (load (Some l)) Q h.
Proof. intros Ho Hin HQ. unfold wp; cbn. by rewrite (owns_lookup h L l v). Qed.

Lemma wp_store l v v' Q h L :
  owns h ((l, v) :: L) ->
  (forall h', owns h' ((l, v') :: L) -> Q (Ok tt) h') -> wp (store (Some l) v') Q h.
Proof.
  intros Ho HQ. unfold wp; cbn. rewrite (owns_lookup h _ l v Ho) by constructor.
  apply HQ. by eapply owns_update.
Qed.

Lemma wp_free l v Q h L :
  owns h ((l, v) :: L) ->
  (forall h', owns h' L -> Q (Ok tt) h') -> wp (free (Some l)) Q h.
Proof.
  intros Ho HQ. unfold wp; cbn. rewrite (owns_lookup h _ l v Ho) by constructor.
  apply HQ. by eapply owns_delete.
Qed.

Lemma wp_load_dead l Q h L :
  owns h L -> l ∉ L.*1 -> Q (Stop (Undefined "read of a dead block")) h ->
  wp (load (Some l)) Q h.
Proof. intros Ho Hn HQ. unfold wp; cbn. by rewrite (owns_dead h L l). Qed.

End Heap.

#[global] Arguments malloc : simpl never.
#[global] Arguments load : simpl never.
#[global] Arguments store : simpl never.
#[global] Arguments free : simpl never.

(** Membership of a block in a list written with [::] and [++]. *)
Ltac in_blocks :=
  first [ apply list_elem_of_here
        | apply list_elem_of_further; in_blocks
        | apply elem_of_app; first [ left; in_blocks | right; in_blocks ] ].

(** Ownership of the same blocks listed in another order. *)
Ltac reorder H := eapply owns_proper; [|exact H]; cbn; solve_Permutation.
