(* ===== verification/Mutex.v ===== *)
(** * Critical sections under one mutex are atomic

    Threads share data [D], each with its own locals [L]. A thread's program is a
    list of critical sections; a critical section is a list of actions, each one
    load or store of the shared data.  [step] interleaves the actions of all the
    threads, the mutex being the only thing that holds a thread back; [serial]
    runs a whole critical section at once.  The result: a configuration of the
    interleaved machine is always explained by a serial run, and no action of it
    is undefined when no serial run is. *)

From S2P Require Import Prelude.
From Stdlib Require Export Relations.
Open Scope Z_scope.

Section Mutex.
Context {D L : Type}.

Definition act : Type := L -> C D L.

Inductive thread : Type :=
| Outside (todo : list (list act)) (l : L)
| Inside (rest : list act) (todo : list (list act)) (l : L).

Record config : Type := Config {
  shared : D;
  holder : option nat;
  threads : list thread
}.

(** A critical section run without interruption. *)
Fixpoint run_acts (acts : list act) (l : L) : C D L :=
  match acts with
  | [] => ret l
  | a :: acts' => let! l' := a l in run_acts acts' l'
  end.

Inductive step : config -> config -> Prop :=
| step_lock d ts i cs todo l :
    ts !! i = Some (Outside (cs :: todo) l) ->
    step (Config d None ts) (Config d (Some i) (<[i := Inside cs todo l]> ts))
| step_act d o ts i (a : act) rest todo l l' d' :
    ts !! i = Some (Inside (a :: rest) todo l) ->
    a l d = (Ok l', d') ->
    step (Config d o ts) (Config d' o (<[i := Inside rest todo l']> ts))
| step_unlock d o ts i todo l :
    ts !! i = Some (Inside [] todo l) ->
    step (Config d o ts) (Config d None (<[i := Outside todo l]> ts)).

(** The same machine, driven by a schedule: thread [i] moves if it can. *)
Definition sched_step (i : nat) (c : config) : config :=
  match threads c !! i with
  | Some (Outside (cs :: todo) l) =>
      match holder c with
      | None => Config (shared c) (Some i) (<[i := Inside cs todo l]> (threads c))
      | Some _ => c
      end
  | Some (Inside (a :: rest) todo l) =>
      match a l (shared c) with
      | (Ok l', d') => Config d' (holder c) (<[i := Inside rest todo l']> (threads c))
      | (Stop _, _) => c
      end
  | Some (Inside [] todo l) => Config (shared c) None (<[i := Outside todo l]> (threads c))
  | _ => c
  end.

Definition run_sched (schedule : list nat) (c : config) : config :=
  fold_left (fun c i => sched_step i c) schedule c.

(** The serial machine has only threads outside their critical sections. *)
Inductive serial : config -> config -> Prop :=
| serial_step d ts i cs todo l l' d' :
    ts !! i = Some (Outside (cs :: todo) l) ->
    run_acts cs l d = (Ok l', d') ->
    serial (Config d None ts) (Config d' None (<[i := Outside todo l']> ts)).

Abbreviation steps := (clos_refl_trans_1n config step).
Abbreviation serials := (clos_refl_trans_1n config serial).

(** The thread at [i] is about to do an action that does not return. *)
Definition stuck_at (c : config) (i : nat) : Prop :=
  exists a rest todo l f, threads c !! i = Some (Inside (a :: rest) todo l) /\
    (a l (shared c)).1 = Stop f.

Definition is_outside (t : thread) : Prop :=
  match t with Outside _ _ => True | Inside _ _ _ => False end.

(** What the serial machine shows when the interleaved one shows [c]: the holder
    has already finished. *)
Definition explains (a c : config) : Prop :=
  holder a = None /\
  match holder c with
  | None => a = c /\ Forall is_outside (threads c)
  | Some i => exists rest todo l l',
      threads c !! i = Some (Inside rest todo l) /\
      run_acts rest l (shared c) = (Ok l', shared a) /\
      threads a = <[i := Outside todo l']> (threads c) /\
      (forall j t, j <> i -> threads c !! j = Some t -> is_outside t)
  end.

Variable Inv : D -> Prop.
(** [ok cs]: the critical sections the threads run. *)
Variable ok : list act -> Prop.
Hypothesis ok_runs : forall cs l d, ok cs -> Inv d ->
  exists l' d', run_acts cs l d = (Ok l', d') /\ Inv d'.

Definition ok_thread (t : thread) : Prop :=
  match t with Outside todo _ => Forall ok todo | Inside _ todo _ => Forall ok todo end.

Definition good (c : config) : Prop := Inv (shared c) /\ Forall ok_thread (threads c).

Lemma sched_step_sound i c : sched_step i c = c \/ step c (sched_step i c).
Proof.
  destruct c as [d o ts]. unfold sched_step; cbn.
  destruct (ts !! i) as [[[|cs todo] l|[|act0 rest] todo l]|] eqn:Hi; [by left| | | |by left].
  - destruct o; [by left|]. right. by econstructor.
  - right. by econstructor.
  - destruct (act0 l d) as [[l'|f] d'] eqn:Ha; [|by left]. right. by econstructor.
Qed.

Lemma run_sched_sound schedule : forall c, steps c (run_sched schedule c).
Proof.
  induction schedule as [|i schedule IH]; intros c; cbn; [apply rt1n_refl|].
  destruct (sched_step_sound i c) as [E|Hs]; [rewrite E; apply IH|].
  eapply Relation_Operators.rt1n_trans; [exact Hs|apply IH].
Qed.

Lemma sched_step_complete c c' : step c c' -> exists i, sched_step i c = c'.
Proof.
  intros [d ts i cs todo l Hi|d o ts i a rest todo l l' d' Hi Ha|d o ts i todo l Hi];
    exists i; unfold sched_step; cbn; rewrite Hi; [done|by rewrite Ha|done].
Qed.

Lemma run_sched_complete c c' : steps c c' -> exists schedule, run_sched schedule c = c'.
Proof.
  induction 1 as [c|c c1 c' Hs _ [schedule IH]]; [by exists []|].
  destruct (sched_step_complete _ _ Hs) as [i <-]. by exists (i :: schedule).
Qed.

Lemma serial_good a a' : good a -> serial a a' -> good a'.
Proof.
  intros [HI Hok] Hs. destruct Hs as [d ts i cs todo l l' d' Hi Hrun]. cbn in *.
  rewrite Forall_lookup in Hok. pose proof (Hok _ _ Hi) as Hcs. cbn in Hcs.
  apply Forall_cons in Hcs as [Hcs Htodo].
  destruct (ok_runs cs l d Hcs HI) as (l2 & d2 & Hr & HI2). rewrite Hr in Hrun.
  injection Hrun as <- <-. split; [done|]. cbn. apply Forall_lookup. intros j t Hj.
  apply list_lookup_insert_Some in Hj as [(<- & <- & _)|[_ Hj]]; [done|by eapply Hok].
Qed.

(** One interleaved step is matched by at most one serial step. *)
Lemma explains_step a c c' :
  good a -> explains a c -> step c c' ->
  exists a', clos_refl _ serial a a' /\ explains a' c'.
Proof.
  intros Hgood [Ha He] Hstep. destruct Hstep as [d ts i cs todo l Hi|d o ts i act0 rest todo l l' d' Hi Hact|d o ts i todo l Hi];
    cbn [holder threads shared] in He.
  - destruct He as [-> Hout]. destruct Hgood as [HI Hok]. cbn in HI, Hok.
    pose proof (proj1 (Forall_lookup _ _) Hok _ _ Hi) as Hcs. cbn in Hcs.
    apply Forall_cons in Hcs as [Hcs _].
    destruct (ok_runs cs l d Hcs HI) as (l2 & d2 & Hr & HI2).
    exists (Config d2 None (<[i := Outside todo l2]> ts)). split; [by apply r_step; econstructor|].
    split; [done|]. cbn. exists cs, todo, l, l2. split_and!.
    + apply list_lookup_insert_eq. by eapply lookup_lt_Some.
    + done.
    + by rewrite list_insert_insert_eq.
    + intros j t Hne Hj. rewrite list_lookup_insert_ne in Hj by done.
      by eapply (proj1 (Forall_lookup _ _) Hout).
  - exists a. split; [apply r_refl|]. split; [done|]. destruct o as [h|]; cbn in *.
    + destruct He as (rest0 & todo0 & l0 & l2 & Hh & Hr & Hts & Hout).
      destruct (decide (i = h)) as [->|Hne]; [|by destruct (Hout _ _ Hne Hi)].
      rewrite Hi in Hh. injection Hh as <- <- <-. cbn in Hr. unfold bind in Hr.
      rewrite Hact in Hr. exists rest, todo, l', l2. split_and!; [|done| |].
      * apply list_lookup_insert_eq. by eapply lookup_lt_Some.
      * by rewrite list_insert_insert_eq.
      * intros j t Hne Hj. rewrite list_lookup_insert_ne in Hj by done. by eapply Hout.
    + destruct He as [_ Hout]. by destruct (proj1 (Forall_lookup _ _) Hout _ _ Hi).
  - destruct o as [h|]; cbn in *.
    + destruct He as (rest0 & todo0 & l0 & l2 & Hh & Hr & Hts & Hout).
      destruct (decide (i = h)) as [->|Hne]; [|by destruct (Hout _ _ Hne Hi)].
      rewrite Hi in Hh. injection Hh as <- <- <-. cbn in Hr. injection Hr as <- Hd.
      exists a. split; [apply r_refl|]. split; [done|]. cbn. split.
      * destruct a; cbn in *; by subst.
      * apply Forall_lookup. intros j t Hj.
        apply list_lookup_insert_Some in Hj as [(<- & <- & _)|[Hne Hj]]; [done|by eapply Hout].
    + destruct He as [_ Hout]. by destruct (proj1 (Forall_lookup _ _) Hout _ _ Hi).
Qed.

Lemma steps_explained c c' a :
  steps c c' -> good a -> explains a c ->
  exists a', serials a a' /\ explains a' c' /\ good a'.
Proof.
  intros Hs; revert a. induction Hs as [c|c c1 c' Hstep Hs IH]; intros a Hg He.
  - exists a. split; [apply rt1n_refl|done].
  - destruct (explains_step _ _ _ Hg He Hstep) as (a1 & Ha1 & He1).
    assert (good a1) as Hg1 by (destruct Ha1; [by eapply serial_good|done]).
    destruct (IH _ Hg1 He1) as (a' & Ha' & He' & Hg'). exists a'. split; [|done].
    destruct Ha1; [by eapply Relation_Operators.rt1n_trans|done].
Qed.

(** A thread inside its critical section is never at an undefined action. *)
Lemma explains_not_stuck a c i : explains a c -> ~ stuck_at c i.
Proof.
  intros [_ He] (act0 & rest & todo & l & f & Hi & Hf). destruct (holder c) as [h|].
  - destruct He as (rest0 & todo0 & l0 & l2 & Hh & Hr & _ & Hout).
    destruct (decide (i = h)) as [->|Hne]; [|by destruct (Hout _ _ Hne Hi)].
    rewrite Hi in Hh. injection Hh as <- <- <-. cbn in Hr. unfold bind in Hr.
    destruct (act0 l (shared c)) as [o d]. cbn in Hf. by subst o.
  - destruct He as [_ Hout]. by destruct (proj1 (Forall_lookup _ _) Hout _ _ Hi).
Qed.

Lemma explains_refl d ts : Forall is_outside ts -> explains (Config d None ts) (Config d None ts).
Proof. by split. Qed.

End Mutex.
Arguments thread : clear implicits.
Arguments config : clear implicits.
