(* ===== verification/Results.v ===== *)
(** * The result list shared by the checks and the connection loop

    [equus_util.c], lines 518-582: checks push the text of their result from
    their own thread, the connection loop pops and sends them.  Nodes, result
    structures and payloads are separate heap blocks, as in the code. *)

From S2P Require Import Prelude CString Heap.
Open Scope Z_scope.

Inductive block : Type :=
| BData (d : bytes)                      (** the [char*] payload, its NUL included *)
| BResult (data : ptr) (length : Z)      (** [equus_result_t] *)
| BEntry (res : ptr) (next : ptr).       (** [eqr_list_t] *)

Record state : Type := State {
  mem : heap block;
  head : ptr;
  resmtx : bool;                         (** held or not *)
  logged : list bytes                    (** lines handed to [logInfo], last first *)
}.

Definition init : state := State empty_heap None false [].

Definition with_mem (m : heap block) (s : state) : state :=
  State m (head s) (resmtx s) (logged s).
Definition with_head (p : ptr) (s : state) : state :=
  State (mem s) p (resmtx s) (logged s).

Definition on_mem {A} (m : C (heap block) A) : C state A := zoom mem with_mem m.

Definition MTX_LOCK : C state unit :=
  fun s => if resmtx s then (Stop Deadlock, s)
           else (Ok tt, State (mem s) (head s) true (logged s)).
Definition MTX_UNLOCK : C state unit :=
  fun s => (Ok tt, State (mem s) (head s) false (logged s)).
Definition logInfo (line : bytes) : C state unit :=
  fun s => (Ok tt, State (mem s) (head s) (resmtx s) (line :: logged s)).

Definition load_entry (p : ptr) : C state (ptr * ptr) :=
  let! b := on_mem (load p) in
  match b with
  | BEntry r n => ret (r, n)
  | _ => stop (Undefined "eqr_list_t expected")
  end.

Definition load_result (p : ptr) : C state (ptr * Z) :=
  let! b := on_mem (load p) in
  match b with
  | BResult d n => ret (d, n)
  | _ => stop (Undefined "equus_result_t expected")
  end.

(** ** Operations *)

(** A fresh node holds no meaningful fields until they are assigned. *)
Definition push_rentry (res : ptr) : C state unit :=
  MTX_LOCK ;;;
  let! e := on_mem (malloc (BEntry None None)) in
  let! '(_, n) := load_entry e in
  on_mem (store e (BEntry res n)) ;;;
  let! h := gets head in
  let! '(r, _) := load_entry e in
  on_mem (store e (BEntry r h)) ;;;
  modify (with_head e) ;;;
  MTX_UNLOCK.

Definition pop_rentry : C state ptr :=
  MTX_LOCK ;;;
  let! h := gets head in
  match h with
  | None => MTX_UNLOCK ;;; ret None
  | Some _ =>
      let e := h in
      let! '(res, _) := load_entry e in
      let! '(_, next) := load_entry e in
      modify (with_head next) ;;;
      MTX_UNLOCK ;;;
      ret res
  end.

(** [data] is the memory the caller's pointer reaches: reading [len] bytes of it
    is undefined when it is shorter, and so is a negative [len]. *)
Definition equus_push_result (data : bytes) (len : Z) : C state unit :=
  logInfo (b:"Pushing " ++ dec len ++ b:" bytes") ;;;
  let! res := on_mem (malloc (BResult None 0)) in
  if decide (0 <= len < 2 ^ 31 - 1 /\ len <= Z.of_nat (length data)) then
    let! tmp := on_mem (malloc (BData (take (Z.to_nat len) data ++ [NUL]))) in
    on_mem (store res (BResult tmp len)) ;;;
    push_rentry res
  else stop (Undefined "memcpy outside the buffer").

Definition equus_pop_result : C state ptr := pop_rentry.

Definition equus_free_result (res : ptr) : C state unit :=
  match res with
  | None => ret tt
  | Some _ =>
      let! '(d, _) := load_result res in
      on_mem (free d) ;;;
      on_mem (free res)
  end.

(** The bytes the Lua side reads from a result: [res.data], [res.length]. *)
Definition read_result (res : ptr) : C state bytes :=
  let! '(d, n) := load_result res in
  let! b := on_mem (load d) in
  match b with
  | BData t => ret (take (Z.to_nat n) t)
  | _ => stop (Undefined "payload expected")
  end.

(** The sending loop of [helen.lua]: send, free, pop again, until [nil]. *)
Definition drain_round (p : ptr * list bytes) : C state (ptr * list bytes + list bytes) :=
  let '(res, sent) := p in
  match res with
  | None => ret (inr (rev sent))
  | Some _ =>
      let! d := read_result res in
      equus_free_result res ;;;
      let! res' := equus_pop_result in
      ret (inl (res', d :: sent))
  end.

Definition drain (fuel : nat) : C state (list bytes) :=
  let! res := equus_pop_result in
  loop fuel drain_round (res, []).

#[global] Arguments equus_free_result : simpl never.
#[global] Arguments read_result : simpl never.

(** ** What the list represents *)

Record entry : Type := Entry { eloc : positive; rloc : positive; dloc : positive; edata : bytes }.

Definition head_of (es : list entry) : ptr := e ← list.head es; Some (eloc e).

Definition result_blocks (e : entry) : list (positive * block) :=
  [(rloc e, BResult (Some (dloc e)) (Z.of_nat (length (edata e))));
   (dloc e, BData (edata e ++ [NUL]))].

Fixpoint blocks (es : list entry) : list (positive * block) :=
  match es with
  | [] => []
  | e :: es' => (eloc e, BEntry (Some (rloc e)) (head_of es')) :: result_blocks e ++ blocks es'
  end.

(** [s] holds the entries [es], newest first, and besides them exactly [X]. *)
Definition rep (s : state) (es : list entry) (X : list (positive * block)) : Prop :=
  head s = head_of es /\ resmtx s = false /\ owns (mem s) (blocks es ++ X).

(** A result that was popped and not freed yet. *)
Definition leaked (e : entry) (next : ptr) : positive * block :=
  (eloc e, BEntry (Some (rloc e)) next).

(** ** Helper lemmas *)

Lemma wp_result_lock (Q : outcome unit -> state -> Prop) s :
  resmtx s = false -> wp MTX_LOCK Q s = Q (Ok tt) (State (mem s) (head s) true (logged s)).
Proof. intros H. unfold wp, MTX_LOCK. by rewrite H. Qed.

Lemma wp_unlock (Q : outcome unit -> state -> Prop) s :
  wp MTX_UNLOCK Q s = Q (Ok tt) (State (mem s) (head s) false (logged s)).
Proof. done. Qed.

Lemma wp_logInfo line (Q : outcome unit -> state -> Prop) s :
  wp (logInfo line) Q s = Q (Ok tt) (State (mem s) (head s) (resmtx s) (line :: logged s)).
Proof. done. Qed.
#[local] Hint Rewrite wp_unlock wp_logInfo : wp.

Ltac mem_step := unfold on_mem; wp_simpl.

Lemma wp_load_node l r n (Q : outcome (ptr * ptr) -> state -> Prop) s L :
  owns (mem s) L -> (l, BEntry r n) ∈ L -> Q (Ok (r, n)) s ->
  wp (load_entry (Some l)) Q s.
Proof.
  intros Ho Hin HQ. unfold load_entry. mem_step.
  eapply wp_load; [done..|]. cbn. by destruct s.
Qed.

Lemma wp_load_result l d n (Q : outcome (ptr * Z) -> state -> Prop) s L :
  owns (mem s) L -> (l, BResult d n) ∈ L -> Q (Ok (d, n)) s ->
  wp (load_result (Some l)) Q s.
Proof.
  intros Ho Hin HQ. unfold load_result. mem_step.
  eapply wp_load; [done..|]. cbn. by destruct s.
Qed.

(** [push_rentry] puts its argument in front, whatever the list. *)
Lemma wp_push_rentry res (Q : outcome unit -> state -> Prop) s L :
  resmtx s = false -> owns (mem s) L ->
  (forall l h', owns h' ((l, BEntry res (head s)) :: L) ->
     Q (Ok tt) (State h' (Some l) false (logged s))) ->
  wp (push_rentry res) Q s.
Proof.
  intros Hm Ho HQ. unfold push_rentry. mem_step. rewrite wp_result_lock by done. mem_step. eapply wp_malloc; [exact Ho|]. intros l h1 H1; cbn.
  mem_step. eapply wp_load_node; [exact H1|by constructor|]. cbn.
  mem_step. eapply wp_store; [exact H1|]. intros h2 H2; cbn. mem_step.
  eapply wp_load_node; [exact H2|by constructor|]. cbn.
  mem_step. eapply wp_store; [exact H2|]. intros h3 H3; cbn. mem_step.
  by apply HQ.
Qed.

Lemma push_result_spec data len s es X :
  rep s es X -> 0 <= len < 2 ^ 31 - 1 -> len <= Z.of_nat (length data) ->
  wp (equus_push_result data len)
     (fun o s' => o = Ok tt /\ exists e, edata e = take (Z.to_nat len) data /\ rep s' (e :: es) X) s.
Proof.
  intros (Hh & Hm & Ho) Hlen Hdata. unfold equus_push_result. mem_step.
  eapply wp_malloc; [exact Ho|]. intros r h1 H1; cbn.
  rewrite decide_True by (split; [lia|done]). mem_step.
  eapply wp_malloc; [exact H1|]. intros d h2 H2; cbn. mem_step.
  rewrite Permutation_swap in H2.
  eapply wp_store; [exact H2|]. intros h3 H3; cbn.
  eapply wp_push_rentry; [done|exact H3|]. intros l h4 H4; cbn. split; [done|].
  exists (Entry l r d (take (Z.to_nat len) data)). split; [done|].
  split; [done|split; [done|]]. cbn. rewrite length_take_le, Z2Nat.id by lia.
  by rewrite <- Hh.
Qed.

Lemma pop_result_empty s X :
  rep s [] X -> equus_pop_result s = (Ok None, s).
Proof.
  intros (Hh & Hm & Ho). destruct s as [m hd mx lg]; cbn in *; subst. reflexivity.
Qed.

(** The node stays allocated: it moves to the blocks nobody points to. *)
Lemma pop_result_cons s e es X :
  rep s (e :: es) X ->
  wp equus_pop_result
     (fun o s' => o = Ok (Some (rloc e)) /\
        rep s' es (result_blocks e ++ leaked e (head_of es) :: X)) s.
Proof.
  intros (Hh & Hm & Ho). unfold equus_pop_result, pop_rentry. mem_step. rewrite wp_result_lock by done. mem_step.
  rewrite Hh; cbn. mem_step.
  eapply wp_load_node; [exact Ho|constructor|]. cbn. mem_step.
  eapply wp_load_node; [exact Ho|constructor|]. cbn. mem_step.
  split; [done|]. split; [done|split; [done|]]. cbn.
  reorder Ho.
Qed.

Lemma free_result_spec s e es X :
  rep s es (result_blocks e ++ X) ->
  wp (equus_free_result (Some (rloc e))) (fun o s' => o = Ok tt /\ rep s' es X) s.
Proof.
  intros (Hh & Hm & Ho). unfold equus_free_result. mem_step.
  eapply wp_load_result; [exact Ho|in_blocks|]. cbn. mem_step.
  assert (owns (mem s) ((dloc e, BData (edata e ++ [NUL])) ::
    (rloc e, BResult (Some (dloc e)) (Z.of_nat (length (edata e)))) :: blocks es ++ X)) as H1.
  by reorder Ho.
  eapply wp_free; [exact H1|]. intros h2 H2; cbn. mem_step.
  eapply wp_free; [exact H2|]. intros h3 H3; cbn. split; [done|]. split; [done|split; done].
Qed.

Lemma read_result_spec s e es X :
  rep s es (result_blocks e ++ X) ->
  wp (read_result (Some (rloc e))) (fun o s' => o = Ok (edata e) /\ s' = s) s.
Proof.
  intros (Hh & Hm & Ho). unfold read_result. mem_step.
  eapply wp_load_result; [exact Ho|in_blocks|]. cbn. mem_step.
  eapply wp_load; [exact Ho|in_blocks|]. cbn. mem_step.
  rewrite Nat2Z.id, take_app_length. by destruct s.
Qed.

(** ** The promise: a stack of results *)

Inductive op : Type :=
| Push (data : bytes) (len : Z)
| PopSend.                     (** pop; if there is a result, read it and free it *)

Definition valid_op (o : op) : Prop :=
  match o with
  | Push data len => 0 <= len < 2 ^ 31 - 1 /\ len <= Z.of_nat (length data)
  | PopSend => True
  end.

Definition exec_op (o : op) : C state (option bytes) :=
  match o with
  | Push data len => equus_push_result data len ;;; ret None
  | PopSend =>
      let! res := equus_pop_result in
      match res with
      | None => ret None
      | Some _ =>
          let! d := read_result res in
          equus_free_result res ;;;
          ret (Some d)
      end
  end.

Fixpoint exec_ops (os : list op) : C state (list (option bytes)) :=
  match os with
  | [] => ret []
  | o :: os' => let! r := exec_op o in let! rs := exec_ops os' in ret (r :: rs)
  end.

(** The abstract specification: a stack of byte strings. *)
Definition stack_op (st : list bytes) (o : op) : list bytes * option bytes :=
  match o, st with
  | Push data len, _ => (take (Z.to_nat len) data :: st, None)
  | PopSend, d :: st' => (st', Some d)
  | PopSend, [] => ([], None)
  end.

Fixpoint stack_ops (st : list bytes) (os : list op) : list bytes * list (option bytes) :=
  match os with
  | [] => (st, [])
  | o :: os' =>
      let '(st1, r) := stack_op st o in
      let '(st2, rs) := stack_ops st1 os' in (st2, r :: rs)
  end.

(** Results handed out so far. *)
Fixpoint served (rs : list (option bytes)) : nat :=
  match rs with
  | [] => 0
  | Some _ :: rs' => S (served rs')
  | None :: rs' => served rs'
  end.

(** The list stands for the stack [st], with [n] unreachable nodes besides. *)
Definition models (s : state) (st : list bytes) (n : nat) : Prop :=
  exists es X, rep s es X /\ map edata es = st /\ length X = n.

Lemma queue_models_init : models init [] 0.
Proof. exists [], []. split; [|done]. split; [done|split; [done|]]. apply owns_empty. Qed.

Lemma models_eq s st n m : models s st n -> n = m -> models s st m.
Proof. by intros ? <-. Qed.

Lemma length_queue_blocks es : length (blocks es) = (3 * length es)%nat.
Proof. induction es as [|e es IH]; cbn in *; lia. Qed.

Lemma queue_models_size s st n : models s st n -> size (cells (mem s)) = (3 * length st + n)%nat.
Proof.
  intros (es & X & (_ & _ & Ho) & <- & <-).
  rewrite (owns_size _ _ Ho), length_app, length_queue_blocks, length_map. lia.
Qed.

Lemma queue_op_models s st n o :
  models s st n -> valid_op o ->
  wp (exec_op o) (fun r s' => r = Ok (stack_op st o).2 /\
    models s' (stack_op st o).1 (n + served [(stack_op st o).2])) s.
Proof.
  intros (es & X & Hr & <- & <-) Hv. destruct o as [data len|]; cbn [exec_op].
  - wp_simpl. eapply wp_mono; [apply push_result_spec; [exact Hr|apply Hv..]|].
    intros o s' (-> & e & He & Hr'). cbn. wp_simpl. split; [done|].
    exists (e :: es), X. split_and!; [done| |cbn; lia]. cbn. by rewrite He.
  - wp_simpl. destruct es as [|e es].
    + unfold wp. rewrite (pop_result_empty _ _ Hr). cbn. split; [done|].
      exists [], X. split_and!; [done..|cbn; lia].
    + eapply wp_mono; [by apply pop_result_cons|]. intros o s' (-> & Hr'). cbn. wp_simpl.
      eapply wp_mono; [by eapply read_result_spec|]. intros o s2 (-> & ->). cbn. wp_simpl.
      eapply wp_mono; [by eapply free_result_spec|]. intros o s3 (-> & Hr3). cbn. wp_simpl.
      split; [done|]. exists es, (leaked e (head_of es) :: X). split_and!; [done..|cbn; lia].
Qed.

Lemma queue_ops_models os : forall s st n,
  models s st n -> Forall valid_op os ->
  wp (exec_ops os) (fun r s' => r = Ok (stack_ops st os).2 /\
    models s' (stack_ops st os).1 (n + served (stack_ops st os).2)) s.
Proof.
  induction os as [|o os IH]; intros s st n Hs Hv; cbn [exec_ops stack_ops].
  - wp_simpl. split; [done|]. by rewrite Nat.add_0_r.
  - apply Forall_cons in Hv as [Ho Hv]. wp_simpl.
    eapply wp_mono; [by apply queue_op_models|]. intros r s' (-> & Hs'). cbn. wp_simpl.
    eapply wp_mono; [by apply IH|]. intros r s2 (-> & Hs2). cbn. wp_simpl.
    destruct (stack_op st o) as [st1 r1]; cbn in *.
    destruct (stack_ops st1 os) as [st2 rs]; cbn in *. split; [done|].
    destruct r1; cbn in *.
    + by replace (n + S (served rs))%nat with (n + 1 + served rs)%nat by lia.
    + by rewrite Nat.add_0_r in Hs2.
Qed.

(** ** Properties *)

(** C1: refinement. Any sequence of pushes and pop-read-free rounds, run on the
    linked list from the program's initial state, returns normally and hands out
    exactly what a stack of byte strings would; the list left behind stands for
    the stack left behind. *)
Theorem results_refine_stack (os : list op) :
  Forall valid_op os ->
  exists s', exec_ops os init = (Ok (stack_ops [] os).2, s') /\
    exists n, models s' (stack_ops [] os).1 n.
Proof.
  intros Hv. pose proof (queue_ops_models os _ _ _ queue_models_init Hv) as H.
  unfold wp in H. destruct (exec_ops os init) as [o s']; cbn in H. destruct H as [-> H].
  eauto.
Qed.

Lemma results_refine_stack_witness :
  exists s', exec_ops [Push (b:"ab") 2; Push (b:"c") 1; PopSend; PopSend; PopSend] init
    = (Ok [None; None; Some (b:"c"); Some (b:"ab"); None], s') /\
    exists n, models s' [] n.
Proof.
  apply (results_refine_stack [Push (b:"ab") 2; Push (b:"c") 1; PopSend; PopSend; PopSend]).
  repeat constructor; vm_compute; congruence.
Defined.

(** Resource accounting. After any such sequence the heap holds three blocks
    for each result still queued and one dead list node for each result handed
    out: [equus_free_result] releases the payload and the structure, and nothing
    releases the [eqr_list_t] that [pop_rentry] unlinks. *)
Theorem popped_nodes_leak (os : list op) :
  Forall valid_op os ->
  exists s', exec_ops os init = (Ok (stack_ops [] os).2, s') /\
    size (cells (mem s'))
    = (3 * length (stack_ops [] os).1 + served (stack_ops [] os).2)%nat.
Proof.
  intros Hv. pose proof (queue_ops_models os _ _ _ queue_models_init Hv) as H.
  unfold wp in H. destruct (exec_ops os init) as [o s']; cbn in H. destruct H as [-> H].
  exists s'. split; [done|]. by apply queue_models_size.
Qed.

Lemma popped_nodes_leak_witness :
  exists s', exec_ops [Push (b:"ab") 2; PopSend; Push (b:"c") 1; PopSend] init
    = (Ok [None; Some (b:"ab"); None; Some (b:"c")], s') /\ size (cells (mem s')) = 2%nat.
Proof.
  apply (popped_nodes_leak [Push (b:"ab") 2; PopSend; Push (b:"c") 1; PopSend]).
  repeat constructor; vm_compute; congruence.
Defined.

Lemma drain_loop es : forall fuel s e X sent,
  rep s es (result_blocks e ++ leaked e (head_of es) :: X) -> (length es + 1 < fuel)%nat ->
  wp (loop fuel drain_round (Some (rloc e), sent))
     (fun o s' => o = Ok (rev sent ++ edata e :: map edata es) /\ models s' [] (length X + length es + 1)) s.
Proof.
  induction es as [|e2 es IH]; intros [|fuel] s e X sent Hr Hf; rewrite ?loop_S; try (cbn in Hf; lia);
    wp_simpl; (eapply wp_mono; [by eapply read_result_spec|]); intros o s1 (-> & ->); cbn; wp_simpl;
    (eapply wp_mono; [by eapply free_result_spec|]); intros o s2 (-> & Hr2); cbn; wp_simpl.
  - unfold wp at 1. rewrite (pop_result_empty _ _ Hr2). cbn. destruct fuel; [cbn in Hf; lia|].
    rewrite ?loop_S. wp_simpl. split; [done|]. exists [], (leaked e None :: X).
    split_and!; [done..|cbn; lia].
  - eapply wp_mono; [by apply pop_result_cons|]. intros o s3 (-> & Hr3). cbn. wp_simpl.
    eapply wp_mono; [apply (IH _ _ _ _ (edata e :: sent) Hr3); cbn in Hf; lia|].
    intros o s4 (-> & Hm). cbn. split; [by rewrite <- app_assoc|].
    eapply models_eq; [exact Hm|cbn; lia].
Qed.

(** C29: the connection loop's drain sends every queued result exactly once,
    newest first, ends, and leaves the list empty. *)
Theorem drain_sends_everything (fuel : nat) (s : state) (st : list bytes) (n : nat) :
  models s st n -> (length st < fuel)%nat ->
  wp (drain fuel) (fun o s' => o = Ok st /\ models s' [] (n + length st)) s.
Proof.
  intros (es & X & Hr & <- & <-) Hf. rewrite length_map in *. unfold drain.
  wp_simpl. destruct es as [|e es].
  - unfold wp at 1. rewrite (pop_result_empty _ _ Hr). cbn. destruct fuel; [cbn in Hf; lia|].
    rewrite ?loop_S. wp_simpl. split; [done|]. exists [], X. split_and!; [done..|cbn; lia].
  - eapply wp_mono; [by apply pop_result_cons|]. intros o s1 (-> & Hr1). cbn.
    eapply wp_mono; [apply (drain_loop es _ _ _ _ [] Hr1); cbn in Hf; lia|].
    intros o s2 (-> & Hm). split; [done|]. eapply models_eq; [exact Hm|cbn; lia].
Qed.

Lemma drain_sends_everything_witness :
  wp (drain 3) (fun o s' => o = Ok [b:"c"; b:"ab"] /\ models s' [] 2)
     (exec_ops [Push (b:"ab") 2; Push (b:"c") 1] init).2.
Proof.
  apply (drain_sends_everything 3 _ [b:"c"; b:"ab"] 0); [|cbn; lia].
  apply (queue_ops_models [Push (b:"ab") 2; Push (b:"c") 1] init [] 0 queue_models_init).
  repeat constructor; vm_compute; congruence.
Defined.
