(* ===== verification/ResultsConc.v ===== *)
(** * The result list under concurrency

    The critical sections of [push_rentry] and [pop_rentry] ([equus_util.c],
    lines 526-553) as sequences of single loads and stores, run by any number of
    threads under any schedule. *)

From S2P Require Import Prelude CString Heap Results Mutex.
Open Scope Z_scope.

(** A thread's registers, and the results it has popped (last first). *)
Record locals : Type := Locals { e : ptr; tmp : ptr; popped : list ptr }.

Definition push_acts (res : ptr) : list (act (D := state) (L := locals)) :=
  [ (fun l => let! p := on_mem (malloc (BEntry None None)) in ret (Locals p (tmp l) (popped l)));
    (fun l => let! '(_, n) := load_entry (e l) in on_mem (store (e l) (BEntry res n)) ;;; ret l);
    (fun l => let! h := gets head in ret (Locals (e l) h (popped l)));
    (fun l => let! '(r, _) := load_entry (e l) in on_mem (store (e l) (BEntry r (tmp l))) ;;; ret l);
    (fun l => modify (with_head (e l)) ;;; ret l) ].

(** With an empty list the remaining actions do nothing: the code has returned. *)
Definition unless_null (l : locals) (m : C state locals) : C state locals :=
  match e l with None => ret l | Some _ => m end.

Definition pop_acts : list (act (D := state) (L := locals)) :=
  [ (fun l => let! h := gets head in ret (Locals h (tmp l) (popped l)));
    (fun l => unless_null l (let! '(r, _) := load_entry (e l) in
                             ret (Locals (e l) (tmp l) (r :: popped l))));
    (fun l => unless_null l (let! '(_, n) := load_entry (e l) in
                             ret (Locals (e l) n (popped l))));
    (fun l => unless_null l (modify (with_head (tmp l)) ;;; ret l)) ].

(** ** Thread programs *)

Inductive cop : Type := CPush (res : positive) | CPop.

Definition acts_of (o : cop) : list (act (D := state) (L := locals)) :=
  match o with CPush r => push_acts (Some r) | CPop => pop_acts end.

Definition mk_thread (t : list cop * locals) : thread state locals :=
  Outside (acts_of <$> t.1) t.2.

Definition start (progs : list (list cop)) : config state locals :=
  Config init None ((fun p => mk_thread (p, Locals None None [])) <$> progs).

Definition thread_locals (t : thread state locals) : locals :=
  match t with Outside _ l => l | Inside _ _ l => l end.

Definition finished (t : thread state locals) : Prop :=
  match t with Outside [] _ => True | _ => False end.

(** Everything the threads popped, and everything they push. *)
Definition popped_by (c : config state locals) : list ptr :=
  concat ((fun t => popped (thread_locals t)) <$> threads c).

Definition pushes (p : list cop) : list ptr :=
  omap (fun o => match o with CPush r => Some (Some r) | CPop => None end) p.

(** ** The chain of nodes *)

Definition chain_head (ns : list (positive * ptr)) : ptr := n ← list.head ns; Some n.1.

Fixpoint chain_blocks (ns : list (positive * ptr)) : list (positive * block) :=
  match ns with
  | [] => []
  | (l, r) :: ns' => (l, BEntry r (chain_head ns')) :: chain_blocks ns'
  end.

Definition chained (s : state) (ns : list (positive * ptr)) : Prop :=
  head s = chain_head ns /\ exists X, owns (mem s) (chain_blocks ns ++ X).

(** ** The sections are those of the sequential functions *)

Ltac crush_sections :=
  repeat first [ done
               | progress unfold bind, zoom, on_mem, load_entry, load, store, malloc, gets, modify,
                   ret, stop, MTX_LOCK, MTX_UNLOCK, unless_null, with_mem, with_head
               | progress cbn in *
               | progress simplify_map_eq
               | progress simplify_eq
               | case_match ].

Lemma push_rentry_sections res l s :
  push_rentry res s = (MTX_LOCK ;;; run_acts (push_acts res) l ;;; MTX_UNLOCK) s.
Proof. unfold push_rentry, push_acts, run_acts. destruct s as [m h mx lg]. crush_sections. Qed.

Lemma pop_rentry_sections l s :
  pop_rentry s =
  (MTX_LOCK ;;; let! l' := run_acts pop_acts l in MTX_UNLOCK ;;;
   ret (match e l' with None => None | Some _ => default None (list.head (popped l')) end)) s.
Proof. unfold pop_rentry, pop_acts, run_acts. destruct s as [m h mx lg]. crush_sections. Qed.

Lemma wp_push_acts res l s ns :
  chained s ns ->
  wp (run_acts (push_acts res) l)
     (fun o s' => exists p t, o = Ok (Locals (Some p) t (popped l)) /\ chained s' ((p, res) :: ns)) s.
Proof.
  intros [Hh [X Ho]]. unfold push_acts. cbn [run_acts]. mem_step.
  eapply wp_malloc; [exact Ho|]. intros p h1 H1; cbn. mem_step.
  eapply wp_load_node; [exact H1|in_blocks|]. cbn. mem_step.
  eapply wp_store; [exact H1|]. intros h2 H2; cbn. mem_step.
  eapply wp_load_node; [exact H2|in_blocks|]. cbn. mem_step.
  eapply wp_store; [exact H2|]. intros h3 H3; cbn. mem_step.
  do 2 eexists. split; [done|]. split; [done|]. exists X. cbn. by rewrite <- Hh.
Qed.

Lemma wp_pop_acts l s ns :
  chained s ns ->
  wp (run_acts pop_acts l)
     (fun o s' => exists l', o = Ok l' /\
        match ns with
        | [] => popped l' = popped l /\ chained s' []
        | (_, r) :: ns' => popped l' = r :: popped l /\ chained s' ns'
        end) s.
Proof.
  intros [Hh [X Ho]]. unfold pop_acts. cbn [run_acts]. mem_step. rewrite Hh.
  destruct ns as [|[p r] ns]; unfold unless_null; cbn; mem_step.
  { eexists. split; [done|]. split; [done|]. by split; [|exists X]. }
  eapply wp_load_node; [exact Ho|in_blocks|]. cbn. mem_step.
  eapply wp_load_node; [exact Ho|in_blocks|]. cbn. mem_step.
  eexists. split; [done|]. split; [done|]. split; [done|].
  exists ((p, BEntry r (chain_head ns)) :: X). by reorder Ho.
Qed.

(** ** Accounting along serial runs *)

Definition chained_some (s : state) : Prop := exists ns, chained s ns.
Definition is_section (cs : list (act (D := state) (L := locals))) : Prop :=
  exists o, cs = acts_of o.

Lemma sections_run cs l d :
  is_section cs -> chained_some d ->
  exists l' d', run_acts cs l d = (Ok l', d') /\ chained_some d'.
Proof.
  intros [o ->] [ns Hc]. destruct o as [r|]; cbn [acts_of].
  - destruct (proj1 (wp_run _ _ _) (wp_push_acts (Some r) l d ns Hc))
      as (o & s' & Hr & p & t & -> & Hc').
    do 2 eexists. split; [exact Hr|]. by eexists.
  - destruct (proj1 (wp_run _ _ _) (wp_pop_acts l d ns Hc)) as (o & s' & Hr & l' & -> & Hm).
    exists l', s'. split; [done|]. destruct ns as [|[p r] ns]; destruct Hm; by eexists.
Qed.

(** The results [P] are spread over the threads' hands, the list, and the pushes
    still to come. *)
Definition accounted (P : list ptr) (c : config state locals) : Prop :=
  exists tl ns, threads c = mk_thread <$> tl /\ chained (shared c) ns /\
    concat ((fun t => popped t.2) <$> tl) ++ ns.*2 ++ concat ((fun t => pushes t.1) <$> tl) ≡ₚ P.

Lemma concat_fmap_insert {A B} (f : A -> list B) (tl : list A) i x y :
  tl !! i = Some x ->
  exists R, concat (f <$> tl) ≡ₚ f x ++ R /\ concat (f <$> <[i := y]> tl) ≡ₚ f y ++ R.
Proof.
  intros Hi. exists (concat (f <$> take i tl) ++ concat (f <$> drop (S i) tl)). split.
  - rewrite <- (take_drop_middle tl i x Hi) at 1.
    rewrite fmap_app, concat_app. cbn. solve_Permutation.
  - rewrite (insert_take_drop tl i y) by (by eapply lookup_lt_Some).
    rewrite fmap_app, concat_app. cbn. solve_Permutation.
Qed.

Lemma serial_accounted P a a' : accounted P a -> serial a a' -> accounted P a'.
Proof.
  intros (tl & ns & Hts & Hc & HP) Hs. destruct Hs as [d ts i cs todo l l' d' Hi Hr]. cbn in *.
  subst ts. rewrite list_lookup_fmap in Hi.
  destruct (tl !! i) as [[ops l0]|] eqn:Ht; [|done]. injection Hi as Hops ->.
  destruct ops as [|o ops]; [done|]. injection Hops as <- <-.
  destruct (concat_fmap_insert (fun t => popped t.2) tl i _ (ops, l') Ht) as (R1 & E1 & E1').
  destruct (concat_fmap_insert (fun t => pushes t.1) tl i _ (ops, l') Ht) as (R2 & E2 & E2').
  rewrite E1, E2 in HP. cbn in HP.
  assert (exists ns', chained d' ns' /\
    (popped l' ++ R1) ++ ns'.*2 ++ (pushes ops ++ R2) ≡ₚ P) as (ns' & Hc' & HP').
  { destruct o as [r|]; cbn [acts_of] in Hr.
    - destruct (proj1 (wp_run _ _ _) (wp_push_acts (Some r) l d ns Hc))
        as (o & s' & Hr' & p & t & -> & Hc').
      rewrite Hr' in Hr. injection Hr as <- <-. eexists. split; [exact Hc'|].
      cbn in *. rewrite <- HP. solve_Permutation.
    - destruct (proj1 (wp_run _ _ _) (wp_pop_acts l d ns Hc)) as (o & s' & Hr' & l1 & -> & Hm).
      rewrite Hr' in Hr. injection Hr as <- <-. destruct ns as [|[p r] ns]; destruct Hm as [-> Hc'];
        (eexists; split; [exact Hc'|]); cbn in *; rewrite <- HP; solve_Permutation. }
  exists (<[i := (ops, l')]> tl), ns'. split_and!; [|done|].
  - cbn. by rewrite list_fmap_insert.
  - rewrite E1', E2'. exact HP'.
Qed.

Lemma serials_accounted P a a' :
  clos_refl_trans_1n _ serial a a' -> accounted P a -> accounted P a'.
Proof. induction 1; eauto using serial_accounted. Qed.

Lemma start_accounted progs : accounted (concat (pushes <$> progs)) (start progs).
Proof.
  exists ((fun p => (p, Locals None None [])) <$> progs), []. split_and!.
  - cbn. by rewrite <- list_fmap_compose.
  - split; [done|]. exists []. apply owns_empty.
  - rewrite <- !list_fmap_compose. cbn.
    enough (concat ((fun t => popped t.2) ∘ (fun p : list cop => (p, Locals None None [])) <$> progs) = []) as E.
    { by rewrite E. }
    induction progs; cbn; done.
Qed.

Lemma start_good progs : good chained_some is_section (start progs).
Proof.
  split; [by exists []; split; [|exists []; apply owns_empty]|].
  apply Forall_fmap, Forall_true. intros p. cbn. apply Forall_fmap, Forall_true.
  intros o. by exists o.
Qed.

Lemma start_explains progs : explains (start progs) (start progs).
Proof. apply explains_refl. by apply Forall_fmap, Forall_true. Qed.

(** ** Property *)

(** C5: under any schedule of any threads pushing and popping, no thread is ever
    about to do an undefined memory access, and once all the threads have finished
    every pushed result is either in the list or was popped by exactly one thread:
    none is lost, none is delivered twice. *)
Theorem concurrent_results_conserved (progs : list (list cop)) (schedule : list nat) :
  let c := run_sched schedule (start progs) in
  (forall i, ~ stuck_at c i) /\
  (Forall finished (threads c) ->
   exists ns, chained (shared c) ns /\ popped_by c ++ ns.*2 ≡ₚ concat (pushes <$> progs)).
Proof.
  intros c. destruct (steps_explained _ _ sections_run _ _ _ (run_sched_sound schedule _)
    (start_good progs) (start_explains progs)) as (a & Hser & Hex & _). fold c in Hex.
  split; [intros i; by eapply explains_not_stuck|]. intros Hfin.
  destruct (serials_accounted _ _ _ Hser (start_accounted progs)) as (tl & ns & Hts & Hc & HP).
  destruct Hex as [Ha Hex]. destruct (holder c) as [h|].
  { destruct Hex as (rest & todo & l & l' & Hh & _).
    by pose proof (proj1 (Forall_lookup _ _) Hfin _ _ Hh). }
  destruct Hex as [-> _]. exists ns. split; [done|]. rewrite <- HP.
  unfold popped_by. rewrite Hts in *. rewrite <- list_fmap_compose.
  assert (concat ((fun t => pushes t.1) <$> tl) = []) as ->; [|by rewrite app_nil_r].
  rewrite Forall_fmap in Hfin. clear -Hfin.
  induction Hfin as [|[ops l] tl Hf _ IH]; [done|]. cbn. rewrite IH. by destruct ops.
Qed.
