(* ===== verification/Log.v ===== *)
(** * The logger

    [equus_util.c], lines 212-498, on POSIX: the log level, the current log
    file, its path, reopening on request, and the formatting of a line in a fixed
    4000 byte buffer.  What the C library answers ([fopen], [asctime_r],
    [strerror_r]) may depend on everything that happened before. *)

From S2P Require Import Prelude CString Heap.
Open Scope Z_scope.

(** ** Levels: [equus_log_level_e] *)

Definition EQUUS_LOG_NOTHING : Z := 0.
Definition EQUUS_LOG_CRITICAL : Z := 1.
Definition EQUUS_LOG_ERRORS : Z := 2.
Definition EQUUS_LOG_WARNINGS : Z := 3.
Definition EQUUS_LOG_INFO : Z := 4.
Definition EQUUS_LOG_DEBUG : Z := 5.
Definition EQUUS_LOG_EVERYTHING : Z := 6.

(** ** State *)

Inductive file : Type := Stderr | Opened (n : positive).
#[global] Instance file_eq_dec : EqDecision file.
Proof. solve_decision. Defined.

Inductive event : Type :=
| EOpen (path : bytes) (r : option positive)   (** [fopen(path, "ab")] *)
| EClose (f : file)
| EWrite (f : file) (data : bytes)
| EFlush (f : file).

(** [asctime_r] of the current time; whether the next [fopen] succeeds, else the
    [errno]; the text of an [errno]. *)
Record env : Type := Env {
  asctime : list event -> bytes;
  fopen_errno : list event -> bytes -> option Z;
  strerror : Z -> bytes
}.

Record state : Type := State {
  level : Z;                        (** [g_equus_log_level] *)
  fp : option file;                 (** [g_equus_log_fp] *)
  path : ptr;                       (** [g_equus_log_path] *)
  mem : heap bytes;
  open_files : gset positive;
  next_file : positive;
  trace : list event                (** last event first *)
}.

Definition init : state := State EQUUS_LOG_EVERYTHING None None empty_heap ∅ 1 [].

Definition with_level (z : Z) (s : state) : state :=
  State z (fp s) (path s) (mem s) (open_files s) (next_file s) (trace s).
Definition with_fp (f : option file) (s : state) : state :=
  State (level s) f (path s) (mem s) (open_files s) (next_file s) (trace s).
Definition with_path (p : ptr) (s : state) : state :=
  State (level s) (fp s) p (mem s) (open_files s) (next_file s) (trace s).
Definition with_mem (m : heap bytes) (s : state) : state :=
  State (level s) (fp s) (path s) m (open_files s) (next_file s) (trace s).
Definition emit (e : event) (s : state) : state :=
  State (level s) (fp s) (path s) (mem s) (open_files s) (next_file s) (e :: trace s).

Definition is_open (s : state) (f : file) : Prop :=
  match f with Stderr => True | Opened n => n ∈ open_files s end.
#[global] Instance is_open_dec s f : Decision (is_open s f).
Proof. destruct f; cbn; apply _. Defined.

Section Ops.
Variable E : env.

(** ** The C library's file operations *)

Definition fopen (p : bytes) : C state (option file) :=
  fun s => match fopen_errno E (trace s) p with
           | Some _ => (Ok None, emit (EOpen p None) s)
           | None =>
               let n := next_file s in
               (Ok (Some (Opened n)),
                State (level s) (fp s) (path s) (mem s) ({[n]} ∪ open_files s) (Pos.succ n)
                      (EOpen p (Some n) :: trace s))
           end.

Definition fclose (f : file) : C state unit :=
  fun s => match f with
           | Stderr => (Ok tt, emit (EClose f) s)
           | Opened n =>
               if decide (n ∈ open_files s) then
                 (Ok tt, State (level s) (fp s) (path s) (mem s) (open_files s ∖ {[n]})
                               (next_file s) (EClose f :: trace s))
               else (Stop (Undefined "fclose of a closed file"), s)
           end.

Definition fwrite (data : bytes) (f : file) : C state unit :=
  fun s => if decide (is_open s f) then (Ok tt, emit (EWrite f data) s)
           else (Stop (Undefined "write to a closed file"), s).

Definition fflush (f : file) : C state unit :=
  fun s => if decide (is_open s f) then (Ok tt, emit (EFlush f) s)
           else (Stop (Undefined "flush of a closed file"), s).

Definition memcpy_at (off : nat) (src buf : bytes) : C state bytes :=
  match put_at off src buf with
  | Some buf' => ret buf'
  | None => stop (Undefined "write outside the line buffer")
  end.

(** ** The logger's operations *)

Definition equus_log_level_set (l : Z) : C state unit := modify (with_level l).
Definition equus_log_level_get : C state Z := gets level.

(** The current log file; a null [g_equus_log_fp] becomes [stderr]. *)
Definition current_fp : C state file :=
  let! f := gets fp in
  match f with
  | Some f => ret f
  | None => modify (with_fp (Some Stderr)) ;;; ret Stderr
  end.

(** [len] is ignored: the string ends at its first NUL. *)
Definition equus_log_buf (str : bytes) (len : nat) : C state unit :=
  let! f := current_fp in
  fwrite (cstr str) f ;;;
  fflush f.

(** The tag for the level: the [switch] of [equus_log]. *)
Definition tag (l : Z) : bytes :=
  if decide (l = EQUUS_LOG_CRITICAL) then b:" CRT: "
  else if decide (l = EQUUS_LOG_ERRORS) then b:" ERR: "
  else if decide (l = EQUUS_LOG_WARNINGS) then b:" WRN: "
  else if decide (l = EQUUS_LOG_INFO) then b:" INF: "
  else if decide (l = EQUUS_LOG_DEBUG) then b:" DBG: "
  else b:" UNK: ".

Definition buf_size : nat := 4000%nat.

Definition equus_log (l : Z) (str : bytes) : C state unit :=
  let! cur := equus_log_level_get in
  if decide (cur < l) then ret tt
  else
    let slen := length (cstr str) in
    let! tr := gets trace in
    let! buf := memcpy_at 0 (asctime E tr) (replicate buf_size NUL) in
    let blen := 24%nat in
    let! buf := memcpy_at blen (tag l) buf in
    let blen := (blen + 6)%nat in
    let availlen := (buf_size - blen - 2)%nat in
    let slen := if decide (availlen < slen)%nat then availlen else slen in
    let! buf := memcpy_at blen (take slen str) buf in
    let blen := (blen + slen)%nat in
    let! buf := memcpy_at blen [LF; NUL] buf in
    let blen := (blen + 2)%nat in
    equus_log_buf buf blen ;;;
    let! f := gets fp in
    if decide (l = EQUUS_LOG_CRITICAL /\ f <> Some Stderr) then
      fwrite (take blen buf) Stderr ;;;
      fflush Stderr
    else ret tt.

(** [text] is what [vsnprintf] makes of the format and its arguments; [None] is
    its error return. The buffer keeps 3999 characters of it. *)
Definition equus_log_fmtv (l : Z) (text : option bytes) : C state unit :=
  let! cur := equus_log_level_get in
  if decide (l <= cur) then
    match text with
    | Some t => equus_log l (take 3999 t)
    | None => ret tt
    end
  else ret tt.

Definition equus_log_fmt (l : Z) (text : option bytes) : C state unit := equus_log_fmtv l text.
Definition equus_log_criticalf (text : option bytes) : C state unit :=
  equus_log_fmtv EQUUS_LOG_CRITICAL text.
Definition equus_log_errorf (text : option bytes) : C state unit :=
  equus_log_fmtv EQUUS_LOG_ERRORS text.
Definition equus_log_warningf (text : option bytes) : C state unit :=
  equus_log_fmtv EQUUS_LOG_WARNINGS text.
Definition equus_log_infof (text : option bytes) : C state unit :=
  equus_log_fmtv EQUUS_LOG_INFO text.
Definition equus_log_debugf (text : option bytes) : C state unit :=
  equus_log_fmtv EQUUS_LOG_DEBUG text.
Definition equus_log_critical (str : bytes) : C state unit := equus_log EQUUS_LOG_CRITICAL str.
Definition equus_log_error (str : bytes) : C state unit := equus_log EQUUS_LOG_ERRORS str.
Definition equus_log_warning (str : bytes) : C state unit := equus_log EQUUS_LOG_WARNINGS str.
Definition equus_log_info (str : bytes) : C state unit := equus_log EQUUS_LOG_INFO str.
Definition equus_log_debug (str : bytes) : C state unit := equus_log EQUUS_LOG_DEBUG str.

(** Reopen the log file; 1 and the old file kept when that fails. *)
Definition equus_log_rotate : C state Z :=
  let! old := gets fp in
  let! p := gets path in
  let finish (nxt : file) : C state Z :=
    modify (with_fp (Some nxt)) ;;;
    (match old with
     | Some (Opened n) => fclose (Opened n)
     | _ => ret tt
     end) ;;;
    equus_log EQUUS_LOG_INFO (b:"Log file started...") ;;;
    ret 0 in
  match p with
  | None => finish Stderr
  | Some _ =>
      let! text := zoom mem with_mem (load p) in
      let! tr := gets trace in
      let! nxt := fopen (cstr text) in
      match nxt with
      | None =>
          let err := default 0 (fopen_errno E tr (cstr text)) in
          let! text := zoom mem with_mem (load p) in
          equus_log_criticalf (Some (b:"Failed to open log file: " ++ cstr text ++
            b:" (errno=" ++ dec err ++ b:"," ++ take 255 (strerror E err) ++ b:")")) ;;;
          ret 1
      | Some f => finish f
      end
  end.

(** [None] is a null pointer. *)
Definition is_dash (p : option bytes) : bool :=
  match p with None => true | Some t => str_eq t (b:"-") end.

Definition equus_log_set_path (p : option bytes) : C state Z :=
  let! oldstr := gets path in
  let! cur := gets fp in
  (if is_dash p && bool_decide (cur <> Some Stderr) then
     modify (with_fp (Some Stderr)) ;;;
     match cur with Some f => fclose f | None => ret tt end
   else if is_dash p && bool_decide (cur = Some Stderr) then ret tt
   else
     let! nxt := zoom mem with_mem (malloc (cstr (default [] p) ++ [NUL])) in
     modify (with_path nxt)) ;;;
  (match oldstr with
   | Some _ => zoom mem with_mem (free oldstr)
   | None => ret tt
   end) ;;;
  equus_log_rotate.

End Ops.
#[global] Arguments equus_log : simpl never.
#[global] Arguments equus_log_rotate : simpl never.

(** ** Reference line *)

(** What one call writes to the current file: 24 characters of time, the tag, at
    most 3968 characters of the message, a newline. *)
Definition line (stamp : bytes) (l : Z) (str : bytes) : bytes :=
  take 24 stamp ++ tag l ++ take 3968 (cstr str) ++ [LF].

(** The documented shape of [asctime_r]'s text: 26 characters, the last two a
    newline and a NUL, no NUL among the first 24. *)
Definition asctime_shape (E : env) : Prop :=
  forall tr, length (asctime E tr) = 26%nat /\ no_nul (take 24 (asctime E tr)).

#[local] Arguments replicate : simpl never.
#[local] Arguments buf_size : simpl never.
#[local] Arguments take : simpl never.
#[local] Arguments Nat.sub : simpl never.
#[local] Arguments Nat.add : simpl never.
#[local] Arguments memcpy_at : simpl never.

Lemma length_tag l : length (tag l) = 6%nat.
Proof. unfold tag. repeat case_decide; reflexivity. Qed.

Lemma no_nul_tag l : no_nul (tag l).
Proof. unfold tag. repeat case_decide; by_decide. Qed.
#[local] Hint Resolve no_nul_tag : cstr.

Lemma no_nul_line stamp l str : no_nul (take 24 stamp) -> no_nul (line stamp l str).
Proof.
  intros H. unfold line. assert (no_nul [LF]) by by_decide.
  repeat apply no_nul_app; auto with cstr.
Qed.

Lemma wp_memcpy_at off src buf (Q : outcome bytes -> state -> Prop) s :
  (off + length src <= length buf)%nat ->
  (forall buf', length buf' = length buf ->
     take (off + length src) buf' = take off buf ++ src -> Q (Ok buf') s) ->
  wp (memcpy_at off src buf) Q s.
Proof.
  intros Hfit HQ. unfold memcpy_at. rewrite (put_at_fits off src buf Hfit).
  pose proof (put_at_fits off src buf Hfit) as E. wp_simpl. apply HQ.
  - by eapply put_at_length.
  - by eapply put_at_take.
Qed.

(** Where a line goes: the current file, and [stderr] as well when a critical
    line went to a file. A trailing NUL comes with that copy. *)
Definition line_events (f : file) (l : Z) (text : bytes) : list event :=
  (if decide (l = EQUUS_LOG_CRITICAL /\ f <> Stderr)
   then [EFlush Stderr; EWrite Stderr (text ++ [NUL])] else [])
  ++ [EFlush f; EWrite f text].

Definition target (s : state) : file := default Stderr (fp s).

Definition after_events (s : state) (es : list event) : state :=
  State (level s) (Some (target s)) (path s) (mem s) (open_files s) (next_file s)
        (es ++ trace s).

Section LineSpec.
Variable E : env.
Hypothesis HE : asctime_shape E.

Lemma wp_fwrite data f (Q : outcome unit -> state -> Prop) s :
  is_open s f -> Q (Ok tt) (emit (EWrite f data) s) -> wp (fwrite data f) Q s.
Proof. intros H HQ. unfold wp, fwrite. by rewrite decide_True. Qed.

Lemma wp_fflush f (Q : outcome unit -> state -> Prop) s :
  is_open s f -> Q (Ok tt) (emit (EFlush f) s) -> wp (fflush f) Q s.
Proof. intros H HQ. unfold wp, fflush. by rewrite decide_True. Qed.

Lemma wp_fclose n (Q : outcome unit -> state -> Prop) s :
  n ∈ open_files s ->
  Q (Ok tt) (State (level s) (fp s) (path s) (mem s) (open_files s ∖ {[n]})
                   (next_file s) (EClose (Opened n) :: trace s)) ->
  wp (fclose (Opened n)) Q s.
Proof. intros H HQ. unfold wp, fclose. by rewrite decide_True. Qed.

Lemma wp_current_fp (Q : outcome file -> state -> Prop) s :
  Q (Ok (target s)) (after_events s []) -> wp current_fp Q s.
Proof. destruct s as [lv [f|] p m op nf tr]; intros HQ; exact HQ. Qed.

Lemma wp_log_buf str n (Q : outcome unit -> state -> Prop) s :
  is_open s (target s) ->
  Q (Ok tt) (after_events s [EFlush (target s); EWrite (target s) (cstr str)]) ->
  wp (equus_log_buf str n) Q s.
Proof.
  intros Hopen HQ. unfold equus_log_buf. wp_simpl. apply wp_current_fp. cbn. wp_simpl.
  apply wp_fwrite; [done|]. cbn. by apply wp_fflush.
Qed.

(** One call, filtered or written in full. *)
Lemma log_line l str (Q : outcome unit -> state -> Prop) s :
  is_open s (target s) ->
  Q (Ok tt) (if decide (level s < l) then s
             else after_events s (line_events (target s) l (line (asctime E (trace s)) l str))) ->
  wp (equus_log E l str) Q s.
Proof.
  intros Hopen HQ. unfold equus_log, equus_log_level_get. wp_simpl. case_decide; [done|].
  destruct (HE (trace s)) as [Hlen Hnn]. remember (asctime E (trace s)) as st eqn:Est.
  set (len := length (cstr str)). pose proof (cstr_length str) as Hcl. fold len in Hcl. wp_simpl. rewrite <- Est.
  apply wp_memcpy_at; [rewrite length_replicate, Hlen; unfold buf_size; lia|]. intros b1 L1 T1. cbn. wp_simpl.
  rewrite length_replicate in L1. unfold buf_size in *. rewrite Hlen, Nat.add_0_l, take_0 in T1.
  apply wp_memcpy_at; [rewrite L1, length_tag; lia|]. intros b2 L2 T2. cbn. wp_simpl.
  rewrite length_tag in T2. rewrite L1 in L2.
  set (n := if decide _ then _ else _).
  assert (n <= len /\ n <= 3968 /\ n = Nat.min 3968 len)%nat as (Hn1 & Hn2 & Hn)
    by (unfold n; case_decide; lia).
  assert (length (take n str) = n) as Hlt by (rewrite length_take; lia).
  apply wp_memcpy_at; [rewrite L2, Hlt; lia|]. intros b3 L3 T3. cbn. wp_simpl.
  rewrite Hlt in T3. rewrite L2 in L3.
  apply wp_memcpy_at; [rewrite L3; cbn; lia|]. intros b4 L4 T4. cbn [then_post]. wp_simpl.
  assert (take (24 + 6 + n + 2) b4 = line st l str ++ [NUL]) as Hline.
  { change (length [LF; NUL]) with 2%nat in T4. rewrite T4, T3, T2.
    replace (take 24 b1) with (take 24 st) by (by rewrite <- (app_nil_l st), <- T1, take_take).
    unfold line. rewrite (take_cstr n str) by done.
    replace (take n (cstr str)) with (take 3968 (cstr str)); [by rewrite <- !app_assoc|].
    rewrite Hn. destruct (Nat.le_gt_cases 3968 len).
    - by rewrite Nat.min_l by lia.
    - rewrite Nat.min_r, !take_ge by (unfold len in *; lia). done. }
  assert (cstr b4 = line st l str) as Hcs.
  { rewrite <- (take_drop (24 + 6 + n + 2) b4), Hline, <- app_assoc.
    apply cstr_app_nul. by apply no_nul_line. }
  apply wp_log_buf; [done|]. rewrite Hcs. cbn [then_post]. wp_simpl.
  unfold line_events in HQ. cbn [fp after_events] in *.
  destruct (decide (l = EQUUS_LOG_CRITICAL /\ target s <> Stderr)) as [[-> Hf]|Hf].
  - rewrite decide_True by (split; [done|congruence]). wp_simpl.
    apply wp_fwrite; [done|]. cbn [then_post]. apply wp_fflush; [done|]. rewrite Hline. exact HQ.
  - rewrite decide_False by (intros [-> Hf']; apply Hf; split; congruence). wp_simpl. exact HQ.
Qed.
End LineSpec.

(** ** Well-formed logger states *)

Definition files_of (f : option file) : gset positive :=
  match f with Some (Opened n) => {[n]} | _ => ∅ end.

(** The only open file is the current log file; the heap holds exactly the path
    [p] of the logger, if it has one. *)
Definition log_ok (s : state) (p : option bytes) : Prop :=
  open_files s = files_of (fp s) /\
  (forall n, n ∈ open_files s -> (n < next_file s)%positive) /\
  match p with
  | None => path s = None /\ owns (mem s) []
  | Some t => no_nul t /\ exists l, path s = Some l /\ owns (mem s) [(l, t ++ [NUL])]
  end.

Lemma log_ok_init : log_ok init None.
Proof. split_and!; [done|set_solver|done|apply owns_empty]. Qed.

Lemma log_ok_open s p : log_ok s p -> is_open s (target s).
Proof.
  intros (Ho & _). unfold target. destruct (fp s) as [[|n]|]; cbn in *; [done| |done].
  rewrite Ho. set_solver.
Qed.

Lemma log_ok_after s p es : log_ok s p -> log_ok (after_events s es) p.
Proof.
  intros (Ho & Hn & Hp). split_and!; [|done|done]. cbn. rewrite Ho. unfold target.
  by destruct (fp s) as [[|n]|].
Qed.

Section Files.
Variable E : env.
Hypothesis HE : asctime_shape E.

Lemma wp_log_ok l str s p :
  log_ok s p ->
  wp (equus_log E l str) (fun o s' => o = Ok tt /\ log_ok s' p /\ target s' = target s /\
    level s' = level s) s.
Proof.
  intros H. apply log_line; [done|by eapply log_ok_open|]. split; [done|].
  case_decide; [done|]. split; [by apply log_ok_after|done].
Qed.

Lemma wp_fmtv_ok l text s p :
  log_ok s p ->
  wp (equus_log_fmtv E l text) (fun o s' => o = Ok tt /\ log_ok s' p /\ target s' = target s /\
    level s' = level s) s.
Proof.
  intros H. unfold equus_log_fmtv, equus_log_level_get. wp_simpl.
  case_decide; [destruct text; [by apply wp_log_ok|]|]; by wp_simpl.
Qed.

(** The end of [equus_log_rotate], once [g_equus_log_fp] is the next file. *)
Lemma wp_switch old nxt s p (Q : outcome Z -> state -> Prop) fs0 :
  fp s = Some nxt ->
  log_ok (State (level s) (fp s) (path s) (mem s) fs0 (next_file s) (trace s)) p ->
  open_files s = files_of old ∪ fs0 ->
  (forall n, old = Some (Opened n) -> n ∉ fs0) ->
  (forall s', log_ok s' p -> fp s' = Some nxt -> Q (Ok 0) s') ->
  wp (match old with Some (Opened n) => fclose (Opened n) | _ => ret tt end)
     (then_post (fun _ => equus_log E EQUUS_LOG_INFO (b:"Log file started...") ;;; ret 0) Q) s.
Proof.
  intros Hf Hok Hopen Hfs HQ. destruct s as [lv f pt m fs nf tr]; cbn in *. subst f.
  assert (forall s1, log_ok s1 p -> fp s1 = Some nxt ->
    then_post (fun _ => equus_log E EQUUS_LOG_INFO (b:"Log file started...") ;;; ret 0) Q (Ok tt) s1)
    as Hlog.
  { intros s1 H1 Hf1. cbn. wp_simpl. apply log_line; [done|by eapply log_ok_open|]. cbn. wp_simpl.
    case_decide; [by apply HQ|]. apply HQ; [by apply log_ok_after|].
    cbn. unfold target. by rewrite Hf1. }
  destruct old as [[|n]|]; cbn in Hopen; rewrite ?(left_id_L ∅ (∪)) in Hopen;
    [subst fs; rewrite wp_ret; by apply Hlog| |subst fs; rewrite wp_ret; by apply Hlog].
  apply wp_fclose; [cbn; set_solver|]. apply Hlog; [|done]. specialize (Hfs n eq_refl). cbn.
  replace (fs ∖ {[n]}) with fs0 by set_solver. destruct Hok as (H1 & H2 & H3). by split_and!.
Qed.

Lemma wp_rotate s p (Q : outcome Z -> state -> Prop) :
  log_ok s p ->
  (forall r s', log_ok s' p ->
     match p with
     | None => r = 0 /\ fp s' = Some Stderr
     | Some t => match fopen_errno E (trace s) t with
                 | None => r = 0 /\ fp s' = Some (Opened (next_file s))
                 | Some _ => r = 1 /\ target s' = target s
                 end
     end -> Q (Ok r) s') ->
  wp (equus_log_rotate E) Q s.
Proof.
  intros Hok HQ. pose proof Hok as (Ho & Hn & Hp). unfold equus_log_rotate. wp_simpl.
  destruct p as [t|].
  - destruct Hp as (Ht & l & Hl & Hm). rewrite Hl. wp_simpl.
    eapply wp_load; [exact Hm|in_blocks|]. cbn [then_post]. wp_simpl.
    rewrite cstr_app_nul by done. cbn [trace with_mem].
    replace (with_mem (mem s) s) with s by by destruct s.
    unfold wp at 1, fopen. destruct (fopen_errno E (trace s) t) as [err|] eqn:Herr; cbn; wp_simpl.
    + eapply wp_load; [exact Hm|in_blocks|]. cbn [then_post]. wp_simpl.
      assert (log_ok (with_mem (mem s) (emit (EOpen t None) s)) (Some t)) as Hok1.
      { split_and!; [done..|]. by eexists. }
      eapply wp_mono; [by eapply wp_fmtv_ok|]. intros o s' (-> & Hok' & Htg & _). cbn. wp_simpl.
      apply HQ; [done|]. by rewrite ?Herr.
    + pose proof (Hn (next_file s)) as Hfresh.
      apply (wp_switch _ (Opened (next_file s)) _ (Some t) _ {[next_file s]}); cbn; [done|..].
      * split; [done|]. split; cbn; [intros n ->%elem_of_singleton; lia|]. split; [done|]. by eexists.
      * rewrite <- Ho. set_solver.
      * intros n Hf. rewrite Hf in Ho. cbn in Ho.
        assert (n < next_file s)%positive by (apply Hn; set_solver). rewrite elem_of_singleton. lia.
      * intros s' H1 H2. apply HQ; [done|]. by rewrite ?Herr.
  - destruct Hp as [Hp Hm]. rewrite Hp. wp_simpl. apply (wp_switch _ Stderr _ None _ ∅); cbn; [done|..].
    + split_and!; [done|set_solver|done|done].
    + set_solver.
    + set_solver.
    + intros s' H1 H2. by apply HQ.
Qed.

Definition rotated (t : option bytes) (s s' : state) (r : Z) : Prop :=
  match t with
  | None => r = 0 /\ fp s' = Some Stderr
  | Some t => match fopen_errno E (trace s) t with
              | None => r = 0 /\ fp s' = Some (Opened (next_file s))
              | Some _ => r = 1 /\ target s' = target s
              end
  end.

Lemma wp_set_path t s p (Q : outcome Z -> state -> Prop) :
  log_ok s p -> no_nul t -> t <> b:"-" ->
  (forall r s', log_ok s' (Some t) -> rotated (Some t) s s' r -> Q (Ok r) s') ->
  wp (equus_log_set_path E (Some t)) Q s.
Proof.
  intros Hok Ht Hd HQ. unfold equus_log_set_path. wp_simpl.
  assert (str_eq t (b:"-") = false) as ->
    by (rewrite str_eq_spec by (done || by_decide); by rewrite bool_decide_false).
  cbn. wp_simpl. destruct Hok as (Ho & Hn & Hp).
  assert (exists L, owns (mem s) L /\
    match path s with Some l => exists v, L = [(l, v)] | None => L = [] end) as (L & HL & HLp).
  { destruct p as [u|]; [destruct Hp as (_ & l & -> & Hm); eauto|].
    destruct Hp as [-> Hm]; eauto. }
  eapply wp_malloc; [exact HL|]. intros l h1 H1. cbn. wp_simpl. rewrite cstr_id in H1 by done.
  destruct (path s) as [l0|] eqn:Hl0; wp_simpl.
  - destruct HLp as [v ->]. rewrite Permutation_swap in H1.
    eapply wp_free; [exact H1|]. intros h2 H2. cbn. wp_simpl.
    eapply (wp_rotate _ (Some t)); [split_and!; [done..|]; by eexists|]. cbn.
    intros r s' H3 H4. by apply HQ.
  - subst L. eapply (wp_rotate _ (Some t)); [split_and!; [done..|]; by eexists|]. cbn.
    intros r s' H3 H4. by apply HQ.
Qed.
End Files.

(** ** The level *)

(** Only [equus_log_level_set] changes the level, whatever the state. *)
Definition keeps_level {A} (m : C state A) : Prop := forall s, level (m s).2 = level s.

Lemma keeps_bind {A B} (m : C state A) (k : A -> C state B) :
  keeps_level m -> (forall a, keeps_level (k a)) -> keeps_level (bind m k).
Proof.
  intros Hm Hk s. unfold bind. specialize (Hm s). destruct (m s) as [[a|f] s']; cbn in *; [|done].
  by rewrite Hk.
Qed.

Create HintDb keeps.

Ltac keeps :=
  repeat first [solve [auto with keeps nocore] | apply keeps_bind; [|intros ?] | case_match
               | progress unfold equus_log_level_get, current_fp, equus_log_buf, memcpy_at, zoom];
  try (intros ?; cbn; repeat case_match; reflexivity).

Section Level.
Variable E : env.

Lemma keeps_fwrite d f : keeps_level (fwrite d f).
Proof. intros s. unfold fwrite. by case_match. Qed.
Lemma keeps_fflush f : keeps_level (fflush f).
Proof. intros s. unfold fflush. by case_match. Qed.

Lemma keeps_fopen p : keeps_level (fopen E p).
Proof. intros s. unfold fopen. by case_match. Qed.
#[local] Hint Resolve keeps_fwrite keeps_fflush keeps_fopen : keeps.

Lemma keeps_log l str : keeps_level (equus_log E l str).
Proof. unfold equus_log. keeps. Qed.
#[local] Hint Resolve keeps_log : keeps.

Lemma keeps_fmtv l text : keeps_level (equus_log_fmtv E l text).
Proof. unfold equus_log_fmtv. keeps. Qed.
#[local] Hint Resolve keeps_fmtv : keeps.

Lemma keeps_rotate : keeps_level (equus_log_rotate E).
Proof. unfold equus_log_rotate, equus_log_criticalf. keeps. Qed.
End Level.

(** ** A session with the logger *)

Inductive op : Type :=
| OLog (l : Z) (str : bytes)
| OFmt (l : Z) (text : option bytes)
| OLevel (l : Z)
| ORotate
| OPath (t : bytes).

Definition exec_op (E : env) (o : op) : C state unit :=
  match o with
  | OLog l str => equus_log E l str
  | OFmt l text => equus_log_fmtv E l text
  | OLevel l => equus_log_level_set l
  | ORotate => equus_log_rotate E ;;; ret tt
  | OPath t => equus_log_set_path E (Some t) ;;; ret tt
  end.

Fixpoint exec_ops (E : env) (os : list op) : C state unit :=
  match os with
  | [] => ret tt
  | o :: os' => exec_op E o ;;; exec_ops E os'
  end.

(** A path other than the one that stands for the standard error stream. *)
Definition real_path (o : op) : Prop :=
  match o with OPath t => no_nul t /\ t <> b:"-" | _ => True end.

Lemma exec_op_ok E o s p :
  asctime_shape E -> real_path o -> log_ok s p ->
  wp (exec_op E o) (fun r s' => r = Ok tt /\ exists p', log_ok s' p') s.
Proof.
  intros HE Ho Hs. destruct o as [l str|l text|l| |t]; cbn [exec_op].
  - eapply wp_mono; [by eapply wp_log_ok|]. intros r s' (-> & ? & _); eauto.
  - eapply wp_mono; [by eapply wp_fmtv_ok|]. intros r s' (-> & ? & _); eauto.
  - unfold equus_log_level_set. wp_simpl. split; [done|]. by exists p.
  - wp_simpl. eapply wp_rotate; [done..|]. intros r s' H _. cbn. wp_simpl. eauto.
  - destruct Ho as [Ht Hd]. wp_simpl. eapply wp_set_path; [done..|]. intros r s' H _. cbn. wp_simpl. eauto.
Qed.

Lemma exec_ops_ok E os : forall s p,
  asctime_shape E -> Forall real_path os -> log_ok s p ->
  wp (exec_ops E os) (fun r s' => r = Ok tt /\ exists p', log_ok s' p') s.
Proof.
  induction os as [|o os IH]; intros s p HE Ho Hs; cbn [exec_ops].
  - wp_simpl. eauto.
  - apply Forall_cons in Ho as [Ho Hos]. wp_simpl.
    eapply wp_mono; [by eapply exec_op_ok|]. intros r s' (-> & p' & Hs'). cbn. by eapply IH.
Qed.

(** ** A concrete environment for the witnesses *)

Definition env0 : env :=
  Env (fun _ => b:"Thu Jan  1 00:00:00 1970" ++ [LF; NUL])
      (fun tr p => if decide (p = b:"/ro") then Some 13 else None)
      (fun _ => b:"Permission denied").

Lemma env0_shape : asctime_shape env0.
Proof. intros tr. split; [reflexivity|]. by_decide. Qed.

(** ** Properties *)

(** C30: a call with a level that is enabled writes exactly one line to the current
    log file, the time, the tag, the first 3968 characters of the message and a
    newline, whatever the message; a critical line that went to a file is
    repeated on the standard error stream followed by a NUL; a disabled level
    writes nothing.  The 4000 byte buffer is never overrun. *)
Theorem equus_log_writes_line (E : env) (l : Z) (str : bytes) (s : state) :
  asctime_shape E -> is_open s (target s) ->
  equus_log E l str s =
  (Ok tt, if decide (level s < l) then s
          else after_events s (line_events (target s) l (line (asctime E (trace s)) l str))).
Proof.
  intros HE Ho. pose proof (log_line E HE l str (fun o s' => (o, s') =
    (Ok tt, if decide (level s < l) then s
          else after_events s (line_events (target s) l (line (asctime E (trace s)) l str)))) s Ho
    eq_refl) as H.
  unfold wp in H. by destruct (equus_log E l str s).
Qed.

Lemma equus_log_writes_line_witness :
  trace (equus_log env0 EQUUS_LOG_CRITICAL (b:"disk full") init).2
  = [EFlush Stderr; EWrite Stderr (b:"Thu Jan  1 00:00:00 1970 CRT: disk full" ++ [LF])].
Proof.
  rewrite (equus_log_writes_line env0 EQUUS_LOG_CRITICAL (b:"disk full") init env0_shape I).
  vm_compute. reflexivity.
Defined.

(** C9: any sequence of log calls, level changes, rotations and moves to another
    log file returns normally from the initial state, whichever [fopen]s fail:
    no write to or close of a closed file, no use of a freed path.  Afterwards
    the only open file is the current one and the only block on the heap is the
    current path. *)
Theorem log_session_safe (E : env) (os : list op) :
  asctime_shape E -> Forall real_path os ->
  exists s', exec_ops E os init = (Ok tt, s') /\ exists p, log_ok s' p.
Proof.
  intros HE Ho. pose proof (exec_ops_ok E os _ _ HE Ho log_ok_init) as H.
  unfold wp in H. destruct (exec_ops E os init) as [o s']; cbn in H. destruct H as [-> H]. eauto.
Qed.

Lemma log_session_safe_witness :
  exists s', exec_ops env0 [OPath (b:"/a"); OLog 1 (b:"x"); ORotate; OPath (b:"/ro"); ORotate] init
    = (Ok tt, s') /\ exists p, log_ok s' p.
Proof.
  apply (log_session_safe env0 [OPath (b:"/a"); OLog 1 (b:"x"); ORotate; OPath (b:"/ro"); ORotate]
    env0_shape).
  repeat constructor; try done; by_decide.
Defined.

(** Rotation. With a path, the file is reopened and the old one closed; when
    it cannot be opened, 1 is returned and lines keep going where they went. *)
Theorem rotate_reopens (E : env) (s : state) (t : bytes) :
  asctime_shape E -> log_ok s (Some t) ->
  exists s' r, equus_log_rotate E s = (Ok r, s') /\ log_ok s' (Some t) /\
    match fopen_errno E (trace s) t with
    | None => r = 0 /\ fp s' = Some (Opened (next_file s))
    | Some _ => r = 1 /\ target s' = target s
    end.
Proof.
  intros HE Hok. pose proof (wp_rotate E HE s (Some t) (fun o s' => exists r, o = Ok r /\
    log_ok s' (Some t) /\ rotated E (Some t) s s' r) Hok) as H.
  unfold wp in H. destruct (equus_log_rotate E s) as [o s']; cbn in H.
  destruct H as (r & -> & H); [intros; eauto|]. eauto.
Qed.

Lemma rotate_reopens_witness :
  exists s' r, equus_log_rotate env0 (exec_ops env0 [OPath (b:"/a")] init).2 = (Ok r, s') /\
    log_ok s' (Some (b:"/a")) /\ r = 0 /\ fp s' = Some (Opened 2).
Proof.
  apply (rotate_reopens env0 (exec_ops env0 [OPath (b:"/a")] init).2 (b:"/a") env0_shape).
  split; [by vm_compute|]. split; [by_decide|]. split; [by_decide|].
  exists 1%positive. split; [done|]. split; [by_decide|]. split; [by vm_compute|].
  repeat constructor.
Defined.

(** Going back to the standard error stream after a log file was set is a use
    of freed memory: [equus_log_set_path] frees the stored path but keeps the
    pointer, and [equus_log_rotate] reads it. *)
Theorem set_path_to_stderr_reads_freed_path (E : env) (s : state) (t : bytes) (p : option bytes) :
  log_ok s (Some t) -> is_dash p = true ->
  (equus_log_set_path E p s).1 = Stop (Undefined "read of a dead block").
Proof.
  intros (Ho & Hn & Ht & l & Hl & Hm) Hd.
  enough (wp (equus_log_set_path E p) (fun o _ => o = Stop (Undefined "read of a dead block")) s) as H
    by exact H.
  destruct s as [lv f pt m fs nf tr]; cbn in *. subst pt.
  assert (forall lv f fs nf tr,
    wp (free (Some l)) (fun o h => then_post (fun _ => equus_log_rotate E)
      (fun o _ => o = Stop (Undefined "read of a dead block")) o (State lv f (Some l) h fs nf tr)) m)
    as Hgo.
  { intros. eapply wp_free; [exact Hm|]. intros h2 H2. cbn. unfold equus_log_rotate. wp_simpl.
    eapply wp_load_dead; [exact H2|by apply not_elem_of_nil|done]. }
  unfold equus_log_set_path. wp_simpl. rewrite Hd.
  destruct (decide (f = Some Stderr)) as [Hf|Hf].
  - rewrite bool_decide_false by congruence. rewrite bool_decide_true by done. cbn. wp_simpl.
    apply Hgo.
  - rewrite bool_decide_true by done. wp_simpl. destruct f as [[|n]|]; [done| |].
    + apply wp_fclose; [cbn; rewrite Ho; set_solver|]. cbn. wp_simpl. apply Hgo.
    + wp_simpl. apply Hgo.
Qed.

Lemma set_path_to_stderr_reads_freed_path_witness :
  (equus_log_set_path env0 (Some (b:"-")) (exec_ops env0 [OPath (b:"/a")] init).2).1
  = Stop (Undefined "read of a dead block").
Proof.
  apply (set_path_to_stderr_reads_freed_path env0 _ (b:"/a")); [|by_decide].
  split; [by vm_compute|]. split; [by_decide|]. split; [by_decide|].
  exists 1%positive. split; [done|]. split; [by_decide|]. split; [by vm_compute|].
  repeat constructor.
Defined.
