(* ===== verification/Conf.v ===== *)
(** * Command line and configuration

    [equus_conf.c] and the parts of [equus_util.c] that own the configuration:
    [equus_set_argv] to [equus_get_argv] (43-61), [is_help_switch_present] (96-109),
    [equus_load_config] (128-152), [equus_url] (197-205).  The configuration
    structure and its string are heap blocks, so that reloading can be shown to
    leak nothing and to free nothing twice. *)

From S2P Require Import Prelude CString Heap.
Open Scope Z_scope.

(** What the build system defines. *)
Record build : Type := Build {
  win32 : bool;                               (** [_WIN32] *)
  EQUUS_PLATFORM : bytes;
  EQUUS_BOOTSTRAP_URL : option bytes
}.

(** The file system and the environment, which may change between two reads:
    the first argument counts the files opened so far. *)
Record env : Type := Env {
  file_content : nat -> bytes -> option bytes;   (** [fopen(path, "r")] and its bytes *)
  asprintf_fails : nat -> bool;                  (** out of memory *)
  ProgramFiles : option bytes                    (** [getenv("ProgramFiles")] *)
}.

Inductive block : Type :=
| BStr (s : bytes)                 (** a string, its NUL included *)
| BConf (resources : ptr).         (** [equus_conf_t] *)

Record state : Type := State {
  argc : Z;                        (** [global_argc] *)
  argv : option (list bytes);      (** [global_argv]; the array ends in a null pointer *)
  global_conf : ptr;
  mem : heap block;
  files : nat;                     (** streams open *)
  opened : nat;                    (** streams opened so far *)
  errs : list bytes                (** what was printed on [stderr], last first *)
}.

Definition init : state := State 0 None None empty_heap 0 0 [].

Definition with_argv (n : Z) (a : option (list bytes)) (s : state) : state :=
  State n a (global_conf s) (mem s) (files s) (opened s) (errs s).
Definition with_conf (p : ptr) (s : state) : state :=
  State (argc s) (argv s) p (mem s) (files s) (opened s) (errs s).
Definition with_mem (m : heap block) (s : state) : state :=
  State (argc s) (argv s) (global_conf s) m (files s) (opened s) (errs s).
Definition with_files (n : nat) (o : nat) (s : state) : state :=
  State (argc s) (argv s) (global_conf s) (mem s) n o (errs s).
Definition eprint (line : bytes) : C state unit :=
  modify (fun s => State (argc s) (argv s) (global_conf s) (mem s) (files s) (opened s)
                         (line :: errs s)).

Definition on_mem {A} (m : C (heap block) A) : C state A := zoom mem with_mem m.

(** ** The command line *)

Definition equus_set_argv (n : Z) (a : option (list bytes)) : C state unit :=
  modify (with_argv n a).

Definition equus_get_argc : C state Z := gets argc.

Definition equus_get_argv (offset : Z) : C state (option bytes) :=
  let! n := gets argc in
  let! a := gets argv in
  match a with
  | None => ret None
  | Some a =>
      if decide (n < offset) then ret None
      else if decide (offset < 0 \/ Z.of_nat (length a) < offset) then
        stop (Undefined "argv read out of bounds")
      else ret (a !! Z.to_nat offset)
  end.

(** [strcmp] of an argument: a null pointer must not reach it. *)
Definition arg_is (arg : option bytes) (lit : bytes) : C state bool :=
  match arg with
  | None => stop (Undefined "strcmp of a null pointer")
  | Some a => ret (str_eq a lit)
  end.

Definition is_help_switch_present : C state Z :=
  let! n := equus_get_argc in
  loop (S (Z.to_nat n)) (fun i =>
    let! n := equus_get_argc in
    if decide (i < n) then
      let! a := equus_get_argv i in
      let! h := arg_is a (b:"-h") in
      if h : bool then ret (inr 1)
      else
        let! a := equus_get_argv i in
        let! h := arg_is a (b:"--help") in
        ret (if h : bool then inr 1 else inl (i + 1))
    else ret (inr 0)) 1.

Definition default_path : bytes := b:"/etc/cloudkick.conf".

Definition get_config_path : C state bytes :=
  let! n := equus_get_argc in
  loop (S (Z.to_nat n)) (fun i =>
    if decide (i < n) then
      let! arg := equus_get_argv i in
      let! c := arg_is arg (b:"-c") in
      let! c := (if c : bool then ret true else arg_is arg (b:"--config")) in
      if c : bool then
        let! p := equus_get_argv (i + 1) in
        match p with
        | Some p => ret (inr p)
        | None => ret (inl (i + 1))
        end
      else ret (inl (i + 1))
    else ret (inr default_path)) 0.

(** ** Parsing *)

(** Every newline or carriage return of the string becomes a NUL, in place. *)
Definition nuke_newlines (p : bytes) : bytes :=
  let l := length (cstr p) in
  map (fun c => if decide (c = LF \/ c = CR) then NUL else c) (take l p) ++ drop l p.

(** The copy, and the memory the caller's pointer is left on. *)
Definition next_chunk (x : bytes) : C state (ptr * bytes) :=
  let p := skip_space x in
  let p := nuke_newlines p in
  let! c := on_mem (malloc (BStr (cstr p ++ [NUL]))) in
  ret (c, p).

Definition conf_resources (conf : ptr) : C state ptr :=
  let! b := on_mem (load conf) in
  match b with
  | BConf r => ret r
  | BStr _ => stop (Undefined "equus_conf_t expected")
  end.

(** [sizeof(buf)] of [conf_parse]. *)
Definition conf_buf : nat := Eval vm_compute in Z.to_nat 8096.

Definition conf_line (conf : ptr) (fp : bytes) : C state (bytes + Z) :=
  match fgets conf_buf fp with
  | None => ret (inr 0)
  | Some (buf, fp') =>
      let p := buf ++ [NUL] in
      if decide (list.head p = Some "#"%char) then ret (inl fp')
      else
        let p := skip_space p in
        if has_prefix (b:"resources") p then
          let p := drop 9 p in
          let! r := conf_resources conf in
          (match r with Some _ => on_mem (free r) | None => ret tt end) ;;;
          let! '(r', _) := next_chunk p in
          on_mem (store conf (BConf r')) ;;;
          ret (inl fp')
        else ret (inl fp')
  end.

(** Each round consumes a character at least, so the fuel is never used up. *)
Definition conf_parse (conf : ptr) (fp : bytes) : C state Z :=
  loop (S (length fp)) (conf_line conf) fp.

Section Load.
Variable B : build.
Variable E : env.

Definition fopen (path : bytes) : C state (option bytes) :=
  let! n := gets opened in
  match file_content E n path with
  | None => ret None
  | Some c =>
      modify (fun s => with_files (S (files s)) (S (opened s)) s) ;;;
      ret (Some c)
  end.

Definition fclose : C state unit :=
  modify (fun s => with_files (pred (files s)) (opened s) s).

Definition win_suffix : bytes := b:"\Cloudkick Agent\etc\cloudkick.cfg".

(** The path the platform's branch computes; [None] is its error return. *)
Definition conf_path : C state (option bytes) :=
  if win32 B then
    match ProgramFiles E with
    | None =>
        eprint (b:"Unable to get environment variable: ProgramFiles") ;;; ret None
    | Some programfiles =>
        let path := cstr programfiles ++ win_suffix in
        if decide (length path + 1 <= 512)%nat then ret (Some path)
        else stop (Undefined "sprintf outside path[512]")
    end
  else let! p := get_config_path in ret (Some p).

Definition load_string (p : ptr) : C state bytes :=
  let! b := on_mem (load p) in
  match b with
  | BStr t => ret (cstr t)
  | BConf _ => stop (Undefined "string expected")
  end.

Definition equus_conf_init (conf : ptr) : C state Z :=
  let! path := conf_path in
  match path with
  | None => ret (-1)
  | Some path =>
      let! fp := fopen path in
      match fp with
      | None =>
          eprint (b:"Unable to read configuration file: " ++ path) ;;; ret (-1)
      | Some content =>
          let! rv := conf_parse conf content in
          if decide (rv < 0) then ret rv
          else
            fclose ;;;
            let! r := conf_resources conf in
            match r with
            | None =>
                let url := default [] (EQUUS_BOOTSTRAP_URL B) in
                let! c := on_mem (malloc (BStr (cstr url ++ [NUL]))) in
                on_mem (store conf (BConf c)) ;;;
                ret 0
            | Some _ =>
                let! host := load_string r in
                let! n := gets opened in
                if asprintf_fails E n then
                  eprint (b:"asprintf failed.") ;;; ret (-1)
                else
                  let! p := on_mem (malloc (BStr (b:"http://" ++ host ++ b:"/" ++
                              EQUUS_PLATFORM B ++ b:"/" ++ [NUL]))) in
                  let! r := conf_resources conf in
                  (match r with Some _ => on_mem (free r) | None => ret tt end) ;;;
                  on_mem (store conf (BConf p)) ;;;
                  ret 0
            end
      end
  end.

Definition equus_conf_free (conf : ptr) : C state unit :=
  let! r := conf_resources conf in
  (match r with Some _ => on_mem (free r) | None => ret tt end) ;;;
  on_mem (free conf).

Definition equus_load_config : C state Z :=
  let! g := gets global_conf in
  match g with
  | Some _ =>
      let conf_old := g in
      let! conf_new := on_mem (malloc (BConf None)) in
      let! rv := equus_conf_init conf_new in
      modify (with_conf conf_new) ;;;
      equus_conf_free conf_old ;;;
      ret rv
  | None =>
      let! c := on_mem (malloc (BConf None)) in
      modify (with_conf c) ;;;
      let! rv := equus_conf_init c in
      ret rv
  end.

(** A null result is [None]. *)
Definition equus_url : C state (option bytes) :=
  let! g := gets global_conf in
  match EQUUS_BOOTSTRAP_URL B, g with
  | Some u, None => ret (Some u)
  | _, _ =>
      let! r := conf_resources g in
      match r with
      | None => ret None
      | Some _ => let! t := load_string r in ret (Some t)
      end
  end.

(** The part of [equus_util_atexit] that owns memory. *)
Definition atexit_free_conf : C state unit :=
  let! g := gets global_conf in
  match g with
  | Some _ => equus_conf_free g
  | None => ret tt
  end.

End Load.

#[global] Arguments conf_buf : simpl never.
#[global] Arguments fgets : simpl never.
#[global] Arguments conf_line : simpl never.
#[global] Arguments skip_space : simpl never.
#[global] Arguments equus_conf_init : simpl never.
#[global] Arguments equus_conf_free : simpl never.
#[global] Arguments conf_resources : simpl never.

(** ** The command line *)

(** [global_argv] is an array of [global_argc] strings followed by a null pointer. *)
Definition args (s : state) (a : list bytes) : Prop :=
  argv s = Some a /\ argc s = Z.of_nat (length a).

(** The argument that follows the first [-c] or [--config] that is followed by one. *)
Fixpoint config_path_spec (a : list bytes) : bytes :=
  match a with
  | x :: a' =>
      match a' with
      | y :: _ => if str_eq x (b:"-c") || str_eq x (b:"--config") then y else config_path_spec a'
      | [] => default_path
      end
  | [] => default_path
  end.

Lemma wp_get_argv a i (Q : outcome (option bytes) -> state -> Prop) s :
  args s a -> 0 <= i <= Z.of_nat (length a) ->
  Q (Ok (a !! Z.to_nat i)) s -> wp (equus_get_argv i) Q s.
Proof.
  intros [Ha Hn] Hi HQ. unfold equus_get_argv. wp_simpl. rewrite Ha, Hn.
  rewrite decide_False by lia. rewrite decide_False by lia. by wp_simpl.
Qed.

Lemma config_path_drop a i x :
  a !! i = Some x -> str_eq x (b:"-c") || str_eq x (b:"--config") = false \/ a !! S i = None ->
  config_path_spec (drop (S i) a) = config_path_spec (drop i a).
Proof.
  intros Hi Hc. rewrite (drop_S a x i Hi). destruct (drop (S i) a) as [|y r] eqn:E; [done|].
  cbn [config_path_spec]. destruct Hc as [->|Hn]; [done|].
  apply lookup_ge_None in Hn. apply (f_equal length) in E. rewrite length_drop in E.
  cbn in E. lia.
Qed.

Lemma wp_get_config_path a s :
  args s a ->
  wp get_config_path (fun o s' => o = Ok (config_path_spec a) /\ s' = s) s.
Proof.
  intros Ha. unfold get_config_path, equus_get_argc. wp_simpl.
  apply (wp_loop_measure _ (fun i s' => s' = s /\ 0 <= i <= argc s /\
    config_path_spec (drop (Z.to_nat i) a) = config_path_spec a) (fun i _ => Z.to_nat (argc s - i)));
    [|split_and!; [done|lia|destruct Ha; lia|done]|lia].
  intros i s1 (-> & Hi & Hspec). pose proof Ha as [_ Hn]. case_decide; wp_simpl.
  2: { split; [|done]. f_equal. rewrite <- Hspec, drop_ge by lia. done. }
  eapply wp_get_argv; [done|lia|]. cbn.
  destruct (lookup_lt_is_Some_2 a (Z.to_nat i)) as [x Hx]; [lia|]. rewrite Hx. wp_simpl.
  assert (forall b', b' = str_eq x (b:"-c") || str_eq x (b:"--config") ->
    wp (if b' : bool then
          let! p := equus_get_argv (i + 1) in
          match p with Some p => ret (inr p) | None => ret (inl (i + 1)) end
        else ret (inl (i + 1)))
       (fun o w => match o with
          | Ok (inl s') => (w = s /\ 0 <= s' <= argc s /\
              config_path_spec (drop (Z.to_nat s') a) = config_path_spec a) /\
              (Z.to_nat (argc s - s') < Z.to_nat (argc s - i))%nat
          | Ok (inr r) => Ok r = Ok (config_path_spec a) /\ w = s
          | Stop f => Stop f = Ok (config_path_spec a) /\ w = s end) s) as Hgo.
  { intros b' Hb. assert (str_eq x (b:"-c") || str_eq x (b:"--config") = false \/
      a !! S (Z.to_nat i) = None ->
      (s = s /\ 0 <= i + 1 <= argc s /\
        config_path_spec (drop (Z.to_nat (i + 1)) a) = config_path_spec a) /\
      (Z.to_nat (argc s - (i + 1)) < Z.to_nat (argc s - i))%nat) as Hnext.
    { intros Hc. split_and!; [done|lia|lia| |lia].
      rewrite Z2Nat.inj_add by lia. rewrite Nat.add_1_r.
      by rewrite (config_path_drop a _ x). }
    destruct b'; wp_simpl; [|apply Hnext; by left].
    eapply wp_get_argv; [done|lia|]. rewrite Z2Nat.inj_add by lia. rewrite Nat.add_1_r. cbn.
    destruct (a !! S (Z.to_nat i)) as [y|] eqn:Hy; wp_simpl; [|by apply Hnext; right].
    split; [|done]. f_equal. rewrite <- Hspec, (drop_S a x _ Hx), (drop_S a y _ Hy).
    cbn. by rewrite <- Hb. }
  destruct (str_eq x (b:"-c")) eqn:Hc; rewrite wp_ret; [by apply (Hgo true)|].
  by apply (Hgo (str_eq x (b:"--config"))).
Qed.

Definition help_present (a : list bytes) : bool :=
  existsb (fun x => str_eq x (b:"-h") || str_eq x (b:"--help")) (tail a).

Lemma wp_is_help a s :
  args s a ->
  wp is_help_switch_present
     (fun o s' => o = Ok (if help_present a then 1 else 0) /\ s' = s) s.
Proof.
  intros Ha. pose proof Ha as [_ Hn]. unfold is_help_switch_present, equus_get_argc. wp_simpl.
  apply (wp_loop_measure _ (fun i s' => s' = s /\ 1 <= i /\
    existsb (fun x => str_eq x (b:"-h") || str_eq x (b:"--help")) (drop (Z.to_nat i) a) =
    help_present a) (fun i _ => Z.to_nat (argc s - i)));
    [|split_and!; [done|lia|by destruct a]|lia].
  intros i s1 (-> & Hi & Hspec). wp_simpl. case_decide; wp_simpl.
  2: { split; [|done]. rewrite <- Hspec, drop_ge by lia. done. }
  destruct (lookup_lt_is_Some_2 a (Z.to_nat i)) as [x Hx]; [lia|].
  rewrite (drop_S a x _ Hx) in Hspec. cbn in Hspec.
  eapply wp_get_argv; [done|lia|]. cbn. rewrite Hx. wp_simpl.
  destruct (str_eq x (b:"-h")); wp_simpl; [by rewrite <- Hspec|].
  eapply wp_get_argv; [done|lia|]. cbn. rewrite Hx. wp_simpl.
  destruct (str_eq x (b:"--help")); wp_simpl; [by rewrite <- Hspec|].
  cbn in Hspec. split_and!; [done|lia| |lia].
  by rewrite Z2Nat.inj_add, Nat.add_1_r by lia.
Qed.

(** ** Parsing: reference semantics *)

(** The value a piece of the file sets, if it is a [resources] line. *)
Definition piece_value (buf : bytes) : option bytes :=
  let p := buf ++ [NUL] in
  if decide (list.head p = Some "#"%char) then None
  else let p := skip_space p in
       if has_prefix (b:"resources") p
       then Some (cstr (nuke_newlines (skip_space (drop 9 p)))) else None.

(** The pieces [fgets] cuts the file into. *)
Fixpoint pieces (fuel : nat) (s : bytes) : list bytes :=
  match fuel with
  | O => []
  | S n => match fgets conf_buf s with
           | None => []
           | Some (buf, s') => buf :: pieces n s'
           end
  end.

Definition last_value (r : option bytes) (bufs : list bytes) : option bytes :=
  fold_left (fun r buf => match piece_value buf with Some v => Some v | None => r end) bufs r.

Definition parse_value (content : bytes) : option bytes :=
  last_value None (pieces (S (length content)) content).

#[global] Arguments parse_value : simpl never.

(** The blocks of a configuration structure at [c]. *)
Definition conf_blocks (c : positive) (r : option (positive * bytes)) : list (positive * block) :=
  match r with
  | None => [(c, BConf None)]
  | Some (l, u) => [(c, BConf (Some l)); (l, BStr (u ++ [NUL]))]
  end.

(** The memory of [s] is the structure at [c] with value [r], and [X]. *)
Definition conf_at (s : state) (c : positive) (r : option bytes) (X : list (positive * block)) : Prop :=
  exists lr, snd <$> lr = r /\ owns (mem s) (conf_blocks c lr ++ X).

Lemma wp_conf_resources c lr (Q : outcome ptr -> state -> Prop) s X :
  owns (mem s) (conf_blocks c lr ++ X) -> Q (Ok (fst <$> lr)) s ->
  wp (conf_resources (Some c)) Q s.
Proof.
  intros Ho HQ. unfold conf_resources, on_mem. wp_simpl.
  destruct lr as [[l u]|]; (eapply wp_load; [exact Ho|in_blocks|]); cbn; wp_simpl; by destruct s.
Qed.

(** Replacing the string: free the old one if any, then point to the new one. *)
Lemma wp_free_resources c lr (Q : outcome unit -> state -> Prop) s X :
  owns (mem s) (conf_blocks c lr ++ X) ->
  (forall h, owns h ((c, BConf (fst <$> lr)) :: X) -> Q (Ok tt) (with_mem h s)) ->
  wp (match fst <$> lr with Some l => on_mem (free (Some l)) | None => ret tt end) Q s.
Proof.
  intros Ho HQ. unfold on_mem. destruct lr as [[l u]|]; cbn in *; wp_simpl.
  - rewrite Permutation_swap in Ho. eapply wp_free; [exact Ho|]. exact HQ.
  - replace s with (with_mem (mem s) s) by by destruct s. by apply HQ.
Qed.

Lemma wp_conf_line c r s X fp :
  conf_at s c r X ->
  wp (conf_line (Some c) fp)
     (fun o s' => exists h, s' = with_mem h s /\
        match fgets conf_buf fp with
        | None => o = Ok (inr 0) /\ conf_at s' c r X
        | Some (buf, fp') => o = Ok (inl fp') /\
            conf_at s' c (match piece_value buf with Some v => Some v | None => r end) X
        end) s.
Proof.
  intros (lr & Hr & Ho). unfold conf_line.
  assert (conf_at (with_mem (mem s) s) c r X) as Hc by (exists lr; done).
  assert (s = with_mem (mem s) s) as Hs by by destruct s.
  destruct (fgets conf_buf fp) as [[buf fp']|]; [|wp_simpl; eauto].
  unfold piece_value. case_decide; [wp_simpl; eauto|].
  destruct (has_prefix _ _); [|wp_simpl; eauto].
  wp_simpl. eapply wp_conf_resources; [exact Ho|]. cbn. wp_simpl.
  change (match fst <$> lr with Some _ => on_mem (free (fst <$> lr)) | None => ret tt end)
    with (match fst <$> lr with Some _ => on_mem (free (fst <$> lr)) | None => ret tt end).
  assert (forall (Q : outcome unit -> state -> Prop),
    (forall h, owns h ((c, BConf (fst <$> lr)) :: X) -> Q (Ok tt) (with_mem h s)) ->
    wp (match fst <$> lr with Some _ => on_mem (free (fst <$> lr)) | None => ret tt end) Q s) as Hfree.
  { intros Q HQ. pose proof (wp_free_resources c lr Q s X Ho HQ) as H1. by destruct lr as [[l u]|]. }
  apply Hfree. intros h1 H1. cbn. unfold next_chunk, on_mem. wp_simpl.
  eapply wp_malloc; [exact H1|]. intros l h2 H2. cbn. wp_simpl.
  rewrite Permutation_swap in H2. eapply wp_store; [exact H2|]. intros h3 H3. cbn. wp_simpl.
  exists h3. split; [done|]. split; [done|]. eexists (Some (l, _)). split; [done|exact H3].
Qed.

Lemma wp_conf_parse c fuel : forall fp r s X,
  (length fp < fuel)%nat -> conf_at s c r X ->
  wp (loop fuel (conf_line (Some c)) fp)
     (fun o s' => o = Ok 0 /\ exists h, s' = with_mem h s /\
        conf_at s' c (last_value r (pieces fuel fp)) X) s.
Proof.
  induction fuel as [|n IH]; intros fp r s X Hn Hc; [lia|]. rewrite loop_S. wp_simpl.
  eapply wp_mono; [by apply wp_conf_line|]. intros o s' (h & -> & Ho). cbn [pieces].
  destruct (fgets conf_buf fp) as [[buf fp']|] eqn:Ef; destruct Ho as [-> Hc']; cbn; [|wp_simpl; eauto].
  pose proof (fgets_progress conf_buf fp _ _ ltac:(vm_compute; lia) Ef) as (_ & Hp & _).
  eapply wp_mono; [apply IH; [lia|exact Hc']|]. intros o s' (-> & h2 & -> & Hc2).
  split; [done|]. by exists h2.
Qed.

Lemma wp_conf_parse_value c content s X :
  conf_at s c None X ->
  wp (conf_parse (Some c) content)
     (fun o s' => o = Ok 0 /\ exists h, s' = with_mem h s /\
        conf_at s' c (parse_value content) X) s.
Proof. intros Hc. apply wp_conf_parse; [lia|done]. Qed.

(** *** Lines *)

Definition plain_line (l : bytes) : Prop :=
  LF ∉ l /\ CR ∉ l /\ no_nul l /\ (length l + 1 < conf_buf)%nat.
#[global] Instance plain_line_dec l : Decision (plain_line l).
Proof. unfold plain_line. apply _. Defined.

Definition line_value (l : bytes) : option bytes :=
  if decide (list.head l = Some "#"%char) then None
  else let p := skip_space l in
       if has_prefix (b:"resources") p then Some (skip_space (drop 9 p)) else None.

Lemma fgets_chunk_line l r : forall n,
  LF ∉ l -> (length l < n)%nat -> fgets_chunk n (l ++ LF :: r) = (l ++ [LF], r).
Proof.
  induction l as [|c l IH]; intros [|n] Hl Hn; cbn in *; try lia; [done|].
  apply not_elem_of_cons in Hl as [Hc Hl]. rewrite decide_False by congruence.
  rewrite IH by (done || lia). done.
Qed.

Lemma pieces_lines ls : Forall plain_line ls -> forall fuel,
  (length (concat ((.++ [LF]) <$> ls)) < fuel)%nat ->
  pieces fuel (concat ((.++ [LF]) <$> ls)) = (.++ [LF]) <$> ls.
Proof.
  induction 1 as [|l ls (Hl & _ & _ & Hlen) _ IH]; intros [|n] Hn; cbn in *; try lia; [done|].
  rewrite <- app_assoc in *. cbn [app] in *.
  assert (fgets conf_buf (l ++ LF :: concat ((.++ [LF]) <$> ls))
          = Some (l ++ [LF], concat ((.++ [LF]) <$> ls))) as ->.
  { unfold fgets. destruct (l ++ _) eqn:E; [by destruct l|]. rewrite <- E.
    rewrite fgets_chunk_line by (done || lia). done. }
  rewrite IH; [done|]. rewrite length_app in Hn. cbn in Hn. lia.
Qed.

Lemma skip_space_cons c l : skip_space (c :: l) = if isspace c then skip_space l else c :: l.
Proof. reflexivity. Qed.

Lemma skip_space_tail l :
  skip_space (l ++ [LF; NUL]) =
  match skip_space l with [] => [NUL] | q => q ++ [LF; NUL] end.
Proof.
  induction l as [|c l IH]; [done|]. cbn [app]. rewrite !skip_space_cons. by destruct (isspace c).
Qed.

Lemma skip_space_sub l : exists r, l = r ++ skip_space l.
Proof.
  induction l as [|c l [r IH]]; [by exists []|]. rewrite skip_space_cons.
  destruct (isspace c); [exists (c :: r); cbn; by rewrite <- IH|by exists []].
Qed.

Lemma has_prefix_tail lit q : LF ∉ lit -> has_prefix lit (q ++ [LF; NUL]) = has_prefix lit q.
Proof.
  revert q. induction lit as [|c lit IH]; intros q Hl; [by destruct q|].
  apply not_elem_of_cons in Hl as [Hc Hl]. destruct q as [|d q]; cbn [has_prefix app].
  - rewrite bool_decide_false by congruence. done.
  - by rewrite IH.
Qed.

Lemma nuke_plain v : LF ∉ v -> CR ∉ v -> no_nul v -> cstr (nuke_newlines (v ++ [LF; NUL])) = v.
Proof.
  intros Hl Hc Hn. unfold nuke_newlines.
  assert (cstr (v ++ [LF; NUL]) = v ++ [LF]) as ->.
  { change [LF; NUL] with ([LF] ++ [NUL]). rewrite app_assoc. apply cstr_app_nul.
    apply no_nul_app; [done|by_decide]. }
  replace (v ++ [LF; NUL]) with ((v ++ [LF]) ++ [NUL]) by by rewrite <- app_assoc.
  rewrite take_app_length, drop_app_length, map_app, <- app_assoc. cbn.
  assert (map (fun c => if decide (c = LF \/ c = CR) then NUL else c) v = v) as ->.
  { clear Hn. induction v as [|c v IH]; [done|]. apply not_elem_of_cons in Hl as [? ?].
    apply not_elem_of_cons in Hc as [? ?]. cbn. rewrite decide_False by (intros [->| ->]; done).
    by rewrite IH. }
  by apply cstr_app_nul.
Qed.

Lemma piece_value_line l : plain_line l -> piece_value (l ++ [LF]) = line_value l.
Proof.
  intros (Hl & Hc & Hn & _). unfold piece_value, line_value. rewrite <- app_assoc. cbn [app].
  destruct l as [|c l]; [by vm_compute|]. cbn [app list.head].
  change (c :: l ++ [LF; NUL]) with ((c :: l) ++ [LF; NUL]). case_decide; [done|].
  rewrite skip_space_tail. destruct (skip_space_sub (c :: l)) as [r Hr].
  destruct (skip_space (c :: l)) as [|d q] eqn:Eq; [by vm_compute|].
  rewrite has_prefix_tail by by_decide.
  destruct (has_prefix _ (d :: q)) eqn:Hp; [|done]. f_equal.
  apply has_prefix_spec in Hp as [v Hv]. rewrite Hv in Hr |- *. rewrite <- !app_assoc.
  change 9%nat with (length (b:"resources")). rewrite !drop_app_length, skip_space_tail.
  destruct (skip_space_sub v) as [r' Hr'].
  destruct (skip_space v) as [|e w] eqn:Ew; [done|].
  apply nuke_plain; [intros Hin; apply Hl|intros Hin; apply Hc|intros Hin; apply Hn];
    rewrite Hr, Hr', !elem_of_app; by right; right; right.
Qed.

Lemma last_value_cons r buf bufs :
  last_value r (buf :: bufs) =
  last_value (match piece_value buf with Some v => Some v | None => r end) bufs.
Proof. reflexivity. Qed.

Lemma parse_value_lines ls :
  Forall plain_line ls ->
  parse_value (concat ((.++ [LF]) <$> ls)) = last (omap line_value ls).
Proof.
  intros Hls. unfold parse_value. rewrite pieces_lines by (done || lia).
  enough (forall r, last_value r ((.++ [LF]) <$> ls) =
    match last (omap line_value ls) with Some v => Some v | None => r end) as ->;
    [by destruct (last _)|].
  induction Hls as [|l ls Hl _ IH]; intros r; [done|]. rewrite fmap_cons, last_value_cons, piece_value_line by done.
  rewrite IH. cbn. destruct (line_value l) as [v|]; [|done].
  cbn. rewrite last_cons. by destruct (last (omap line_value ls)).
Qed.

(** ** Loading *)

(** The return value and the [resources] field that reading the file must give. *)
Definition conf_init_spec (B : build) (E : env) (n : nat) (path : bytes) : Z * option bytes :=
  match file_content E n path with
  | None => (-1, None)
  | Some content =>
      match parse_value content with
      | None => (0, Some (cstr (default [] (EQUUS_BOOTSTRAP_URL B))))
      | Some host =>
          if asprintf_fails E (S n) then (-1, Some host)
          else (0, Some (b:"http://" ++ host ++ b:"/" ++ EQUUS_PLATFORM B ++ b:"/"))
      end
  end.

(** Only the memory, the count of streams opened and the messages differ. *)
Definition same_frame (s s' : state) : Prop :=
  argc s' = argc s /\ argv s' = argv s /\ global_conf s' = global_conf s /\ files s' = files s.

Definition opt_no_nul (r : option bytes) : Prop := match r with Some u => no_nul u | None => True end.

Lemma last_value_no_nul bufs : forall r, opt_no_nul r -> opt_no_nul (last_value r bufs).
Proof.
  induction bufs as [|buf bufs IH]; intros r Hr; [done|]. rewrite last_value_cons.
  apply IH. unfold piece_value. case_decide; [done|]. cbn zeta.
  destruct (has_prefix _ _); [apply cstr_no_nul|done].
Qed.

Lemma parse_value_no_nul content : opt_no_nul (parse_value content).
Proof. by apply last_value_no_nul. Qed.

Lemma wp_load_string l u (Q : outcome bytes -> state -> Prop) s L :
  owns (mem s) L -> (l, BStr (u ++ [NUL])) ∈ L -> no_nul u -> Q (Ok u) s ->
  wp (load_string (Some l)) Q s.
Proof.
  intros Ho Hin Hn HQ. unfold load_string, on_mem. wp_simpl.
  eapply wp_load; [done..|]. cbn. wp_simpl. rewrite cstr_app_nul by done. by destruct s.
Qed.
#[global] Arguments load_string : simpl never.

Section LoadSpec.
Variable B : build.
Variable E : env.
Hypothesis posix : win32 B = false.

Lemma wp_conf_init c a s X :
  args s a -> conf_at s c None X ->
  wp (equus_conf_init B E (Some c))
     (fun o s' => same_frame s s' /\
        o = Ok (conf_init_spec B E (opened s) (config_path_spec a)).1 /\
        conf_at s' c (conf_init_spec B E (opened s) (config_path_spec a)).2 X) s.
Proof.
  intros Ha Hc. unfold equus_conf_init, conf_path, conf_init_spec. rewrite posix. wp_simpl.
  eapply wp_mono; [by apply wp_get_config_path|]. intros o s1 (-> & ->). cbn. wp_simpl.
  unfold fopen. wp_simpl. destruct (file_content E (opened s) _) as [content|]; cbn; wp_simpl; [|done].
  eapply wp_mono; [by apply wp_conf_parse_value|].
  intros o s' (-> & h & -> & Hc1). cbn. rewrite decide_False by lia. unfold fclose. wp_simpl.
  assert (opt_no_nul (parse_value content)) as Hnn by apply parse_value_no_nul.
  destruct Hc1 as (lr & Hr & Ho). cbn in Ho. eapply wp_conf_resources; [exact Ho|].
  unfold on_mem. destruct lr as [[l u]|]; cbn in Hr, Ho |- *; rewrite <- Hr in Hnn |- *; wp_simpl.
  - eapply wp_load_string; [exact Ho|in_blocks|exact Hnn|]. cbn. wp_simpl.
    destruct (asprintf_fails E (S (opened s))); cbn.
    + unfold eprint. wp_simpl. split; [done|]. split; [done|]. by exists (Some (l, u)).
    + wp_simpl. eapply wp_malloc; [exact Ho|]. intros p h1 H1. cbn. wp_simpl.
      eapply (wp_conf_resources c (Some (l, u)) _ _ ((p, _) :: X)); [reorder H1|]. cbn. wp_simpl.
      eapply (wp_free l _ _ _ ((c, BConf (Some l)) :: (p, _) :: X)); [reorder H1|].
      intros h2 H2. cbn. wp_simpl. eapply (wp_store c); [exact H2|]. intros h3 H3. cbn. wp_simpl.
      split; [done|]. split; [done|]. eexists (Some (p, _)). split; [done|]. cbn.
      rewrite <- !app_assoc. exact H3.
  - eapply wp_malloc; [exact Ho|]. intros p h1 H1. cbn. wp_simpl. rewrite Permutation_swap in H1.
    eapply (wp_store c); [exact H1|]. intros h2 H2. cbn. wp_simpl.
    split; [done|]. split; [done|]. by eexists (Some (p, _)).
Qed.

Lemma wp_conf_free c r s X :
  conf_at s c r X ->
  wp (equus_conf_free (Some c))
     (fun o s' => o = Ok tt /\ exists h, s' = with_mem h s /\ owns h X) s.
Proof.
  intros (lr & Hr & Ho). unfold equus_conf_free. wp_simpl.
  eapply wp_conf_resources; [exact Ho|]. unfold on_mem.
  destruct lr as [[l u]|]; cbn in *; wp_simpl.
  - eapply (wp_free l); [rewrite Permutation_swap in Ho; exact Ho|]. intros h1 H1. cbn. wp_simpl.
    eapply (wp_free c); [exact H1|]. intros h2 H2. cbn. split; [done|]. by exists h2.
  - eapply (wp_free c); [exact Ho|]. intros h2 H2. split; [done|]. by exists h2.
Qed.

(** The agent's configuration: absent, or a structure with this [resources]
    field; nothing else is allocated. *)
Definition conf_is (s : state) (v : option (option bytes)) : Prop :=
  match v with
  | None => global_conf s = None /\ owns (mem s) []
  | Some r => exists c, global_conf s = Some c /\ conf_at s c r []
  end.

Lemma wp_load_config a v s :
  args s a -> conf_is s v ->
  wp (equus_load_config B E)
     (fun o s' => args s' a /\ files s' = files s /\
        o = Ok (conf_init_spec B E (opened s) (config_path_spec a)).1 /\
        conf_is s' (Some (conf_init_spec B E (opened s) (config_path_spec a)).2)) s.
Proof.
  intros Ha Hv. unfold equus_load_config, on_mem. wp_simpl. destruct v as [r|].
  - destruct Hv as (c & Hg & lr & Hr & Ho). rewrite Hg. cbn. wp_simpl.
    eapply wp_malloc; [exact Ho|]. intros c2 h1 H1. cbn. wp_simpl.
    eapply wp_mono; [apply (wp_conf_init c2 a _ (conf_blocks c lr)); [done|]|].
    { exists None. split; [done|]. cbn. by rewrite app_nil_r in H1. }
    intros o s2 ((E1 & E2 & E3 & E4) & -> & lr2 & Hr2 & Ho2). cbn. wp_simpl.
    eapply wp_mono; [apply (wp_conf_free c r _ (conf_blocks c2 lr2))|].
    { exists lr. split; [done|]. cbn. by rewrite Permutation_app_comm in Ho2. }
    intros o s3 (-> & h & -> & Hh). cbn. wp_simpl. split_and!.
    + destruct Ha. split; cbn in *; congruence.
    + cbn in *. congruence.
    + done.
    + exists c2. split; [done|]. exists lr2. split; [done|]. cbn. by rewrite app_nil_r.
  - destruct Hv as [Hg Ho]. rewrite Hg. cbn. wp_simpl.
    eapply wp_malloc; [exact Ho|]. intros c h1 H1. cbn. wp_simpl.
    eapply wp_mono; [apply (wp_conf_init c a _ []); [done|]|].
    { exists None. done. }
    intros o s2 ((E1 & E2 & E3 & E4) & -> & Hc). cbn. wp_simpl. split_and!.
    + destruct Ha. split; cbn in *; congruence.
    + done.
    + done.
    + exists c. done.
Qed.
End LoadSpec.

(** ** Properties *)

(** The configuration file is the argument that follows the first [-c] or
    [--config] which is followed by an argument, and [/etc/cloudkick.conf] when
    there is none; no argument vector makes the search read out of bounds. *)
Theorem config_path_first_option (s : state) (a : list bytes) :
  args s a -> get_config_path s = (Ok (config_path_spec a), s).
Proof.
  intros Ha. pose proof (wp_get_config_path a s Ha) as H. unfold wp in H.
  destruct (get_config_path s); cbn in H. by destruct H as [-> ->].
Qed.

Lemma config_path_first_option_witness :
  let s := State 5 (Some [b:"agent"; b:"-l"; b:"x"; b:"--config"; b:"/c"]) None empty_heap 0 0 [] in
  get_config_path s = (Ok (b:"/c"), s).
Proof. apply (config_path_first_option _ [b:"agent"; b:"-l"; b:"x"; b:"--config"; b:"/c"]). done. Defined.

(** C10: loading the configuration in a POSIX build, for the first time or over an
    older one, whatever the file holds: the return value and the new [resources] are those
    of the reference parser, every stream opened is closed, the old structure and
    its string are freed exactly once and the heap then holds the new structure
    and its string only. *)
Theorem load_config_spec (B : build) (E : env) (s : state) (a : list bytes)
    (v : option (option bytes)) :
  win32 B = false -> args s a -> conf_is s v ->
  exists s', equus_load_config B E s
    = (Ok (conf_init_spec B E (opened s) (config_path_spec a)).1, s') /\
    conf_is s' (Some (conf_init_spec B E (opened s) (config_path_spec a)).2) /\
    files s' = files s /\ args s' a.
Proof.
  intros HB Ha Hv. pose proof (wp_load_config B E HB a v s Ha Hv) as H. unfold wp in H.
  destruct (equus_load_config B E s) as [o s']; cbn in H. destruct H as (? & ? & -> & ?). eauto.
Qed.

Definition env0 : env :=
  Env (fun n p => if decide (p = b:"/c") then
         Some (b:"# agent" ++ [LF] ++ b:"resources old" ++ [LF] ++ b:" resources  new.example" ++ [LF])
       else None) (fun _ => false) None.
Definition build0 : build := Build false (b:"linux-x86_64") None.
Definition start0 : state := State 3 (Some [b:"agent"; b:"-c"; b:"/c"]) None empty_heap 0 0 [].

Lemma load_config_spec_witness :
  exists s', equus_load_config build0 env0 start0 = (Ok 0, s') /\
    conf_is s' (Some (Some (b:"http://new.example/linux-x86_64/"))) /\ files s' = 0%nat /\
    args s' [b:"agent"; b:"-c"; b:"/c"].
Proof.
  apply (load_config_spec build0 env0 start0 [b:"agent"; b:"-c"; b:"/c"] None);
    [done|done|split; [done|apply owns_empty]].
Defined.

(** End to end. When the file is made of plain lines and its last
    [resources] line names [host], a load returns 0 and [equus_url] then answers
    [http://host/PLATFORM/]. *)
Theorem url_after_load (B : build) (E : env) (s : state) (a : list bytes)
    (v : option (option bytes)) (ls : list bytes) (host : bytes) :
  win32 B = false -> no_nul (EQUUS_PLATFORM B) -> args s a -> conf_is s v ->
  file_content E (opened s) (config_path_spec a) = Some (concat ((.++ [LF]) <$> ls)) ->
  Forall plain_line ls -> last (omap line_value ls) = Some host ->
  asprintf_fails E (S (opened s)) = false ->
  exists s' s'', equus_load_config B E s = (Ok 0, s') /\
    equus_url B s' = (Ok (Some (b:"http://" ++ host ++ b:"/" ++ EQUUS_PLATFORM B ++ b:"/")), s'').
Proof.
  intros HB Hp Ha Hv Hf Hls Hh Hm. pose proof (wp_load_config B E HB a v s Ha Hv) as H.
  unfold conf_init_spec in H. rewrite Hf, parse_value_lines, Hh, Hm in H by done. unfold wp in H.
  destruct (equus_load_config B E s) as [o s']; cbn in H. destruct H as (_ & _ & -> & c & Hg & lr & Hr & Ho).
  exists s'. destruct lr as [[l u]|]; cbn in Hr; [|done]. apply (inj Some) in Hr. subst u. cbn in Ho.
  assert (no_nul host) as Hn.
  { pose proof (parse_value_no_nul (concat ((.++ [LF]) <$> ls))) as Hnn.
    by rewrite parse_value_lines, Hh in Hnn. }
  enough (wp (equus_url B) (fun o _ => o = Ok (Some (b:"http://" ++ host ++ b:"/" ++ EQUUS_PLATFORM B ++ b:"/"))) s')
    as H1.
  { unfold wp in H1. destruct (equus_url B s') as [o s'']. cbn in H1. subst o. by exists s''. }
  unfold equus_url. wp_simpl. rewrite Hg.
  assert (wp (conf_resources (Some c)) (then_post (fun r => match r with
      | Some _ => let! t := load_string r in ret (Some t) | None => ret None end)
     (fun o _ => o = Ok (Some (b:"http://" ++ host ++ b:"/" ++ EQUUS_PLATFORM B ++ b:"/")))) s') as H1.
  { eapply (wp_conf_resources c (Some (l, _)) _ _ []); [exact Ho|]. cbn. wp_simpl.
    eapply wp_load_string; [exact Ho|in_blocks| |done].
    repeat apply no_nul_app; try done; by_decide. }
  destruct (EQUUS_BOOTSTRAP_URL B); wp_simpl; exact H1.
Qed.

Lemma url_after_load_witness :
  exists s' s'', equus_load_config build0 env0 start0 = (Ok 0, s') /\
    equus_url build0 s' = (Ok (Some (b:"http://new.example/linux-x86_64/")), s'').
Proof.
  apply (url_after_load build0 env0 start0 [b:"agent"; b:"-c"; b:"/c"] None
    [b:"# agent"; b:"resources old"; b:" resources  new.example"] (b:"new.example")); try done.
  - by_decide.
  - split; [done|apply owns_empty].
  - by_decide.
Defined.

(** A reload that cannot read the file returns -1 and has already replaced
    the working configuration: [equus_url] answers a null pointer. *)
Theorem failed_reload_loses_url (B : build) (E : env) (s : state) (a : list bytes) (u : bytes) :
  win32 B = false -> args s a -> conf_is s (Some (Some u)) ->
  file_content E (opened s) (config_path_spec a) = None ->
  exists s' s'', equus_load_config B E s = (Ok (-1), s') /\ equus_url B s' = (Ok None, s'').
Proof.
  intros HB Ha Hv Hf. pose proof (wp_load_config B E HB a _ s Ha Hv) as H.
  unfold conf_init_spec in H. rewrite Hf in H. unfold wp in H.
  destruct (equus_load_config B E s) as [o s']; cbn in H. destruct H as (_ & _ & -> & c & Hg & lr & Hr & Ho).
  destruct lr as [[l u']|]; cbn in Hr; [done|]. exists s', s'. split; [done|].
  enough (wp (equus_url B) (fun o s'' => (o, s'') = (Ok None, s')) s') as H1.
  { unfold wp in H1. by destruct (equus_url B s'). }
  unfold equus_url. wp_simpl. rewrite Hg.
  destruct (EQUUS_BOOTSTRAP_URL B); wp_simpl;
    (eapply (wp_conf_resources c None _ _ []); [exact Ho|]; cbn; wp_simpl; done).
Qed.

Definition env_gone : env := Env (fun _ _ => None) (fun _ => false) None.

Lemma failed_reload_loses_url_witness :
  exists s' s'', equus_load_config build0 env_gone (equus_load_config build0 env0 start0).2
    = (Ok (-1), s') /\ equus_url build0 s' = (Ok None, s'').
Proof.
  apply (failed_reload_loses_url build0 env_gone _ [b:"agent"; b:"-c"; b:"/c"]
    (b:"http://new.example/linux-x86_64/")); [done|by vm_compute| |done].
  apply (wp_load_config build0 env0 eq_refl [b:"agent"; b:"-c"; b:"/c"] None start0);
    [done|split; [done|apply owns_empty]].
Defined.

(** At exit nothing of the configuration stays allocated and nothing is
    freed twice, whatever the last load returned. *)
Theorem atexit_frees_conf (s : state) (v : option (option bytes)) :
  conf_is s v ->
  exists s', atexit_free_conf s = (Ok tt, s') /\ cells (mem s') = ∅.
Proof.
  intros Hv. enough (wp atexit_free_conf (fun o s' => o = Ok tt /\ cells (mem s') = ∅) s) as H.
  { unfold wp in H. destruct (atexit_free_conf s) as [o s']; cbn in H. destruct H as [-> H]; eauto. }
  unfold atexit_free_conf. wp_simpl. destruct v as [r|].
  - destruct Hv as (c & -> & Hc). eapply wp_mono; [by eapply wp_conf_free|].
    intros o s' (-> & h & -> & _ & Hh & _). done.
  - destruct Hv as (-> & _ & Hh & _). done.
Qed.

Lemma atexit_frees_conf_witness :
  exists s', atexit_free_conf (equus_load_config build0 env0 start0).2 = (Ok tt, s') /\
    cells (mem s') = ∅.
Proof.
  apply (atexit_frees_conf _ (Some (Some (b:"http://new.example/linux-x86_64/")))).
  apply (wp_load_config build0 env0 eq_refl [b:"agent"; b:"-c"; b:"/c"] None start0);
    [done|split; [done|apply owns_empty]].
Defined.
