(* ===== verification/Lua.v ===== *)
(** * The Lua stack seen through the C API

    The agent's C functions talk to the bundled Lua 5.1 only through the calls of
    its C API.  This file gives the calls they use, on plain values and tables
    without metatables: a stack per call, tables shared by reference, a table of
    globals.  What Lua code does when it is compiled or called is a parameter of
    the components that do so. *)

From S2P Require Import Prelude CString.
Open Scope Z_scope.

Inductive lfn : Type :=
| CFun (name : string)                  (** a registered C function *)
| Chunk (code chunkname : bytes)        (** what [luaL_loadbuffer] makes of a buffer *)
| LuaFun (id : positive).               (** a function Lua code has made *)

Inductive lval : Type :=
| LNil
| LBool (b : bool)
| LNumber (z : Z)
| LString (s : bytes)
| LTable (t : positive)
| LFunction (f : lfn)
| LUserdata (p : positive)
| LLightUserdata (p : positive)
| LThread (p : positive).

#[global] Instance lfn_eq_dec : EqDecision lfn.
Proof. solve_decision. Defined.
#[global] Instance lval_eq_dec : EqDecision lval.
Proof. solve_decision. Defined.

(** Table keys the agent uses: numbers, strings and objects. *)
Inductive lkey : Type := KNum (z : Z) | KStr (s : string) | KUser (p : positive).
#[global] Instance lkey_eq_dec : EqDecision lkey.
Proof. solve_decision. Defined.
#[global] Instance lkey_countable : Countable lkey.
Proof.
  apply (inj_countable' (fun k => match k with KNum z => inl z | KStr s => inr (inl s) | KUser p => inr (inr p) end)
    (fun k => match k with inl z => KNum z | inr (inl s) => KStr s | inr (inr p) => KUser p end)).
  by intros [].
Defined.

(** Type tags. *)
Definition LUA_TNIL : Z := 0.
Definition LUA_TBOOLEAN : Z := 1.
Definition LUA_TLIGHTUSERDATA : Z := 2.
Definition LUA_TNUMBER : Z := 3.
Definition LUA_TSTRING : Z := 4.
Definition LUA_TTABLE : Z := 5.
Definition LUA_TFUNCTION : Z := 6.
Definition LUA_TUSERDATA : Z := 7.
Definition LUA_TTHREAD : Z := 8.

Definition type_of (v : lval) : Z :=
  match v with
  | LNil => LUA_TNIL
  | LBool _ => LUA_TBOOLEAN
  | LNumber _ => LUA_TNUMBER
  | LString _ => LUA_TSTRING
  | LTable _ => LUA_TTABLE
  | LFunction _ => LUA_TFUNCTION
  | LUserdata _ => LUA_TUSERDATA
  | LLightUserdata _ => LUA_TLIGHTUSERDATA
  | LThread _ => LUA_TTHREAD
  end.

(** The stack has its top first; [globals] is the table of globals. *)
Record lua : Type := Lua {
  stack : list lval;
  tables : gmap positive (gmap lkey lval);
  globals : positive
}.

Definition with_stack (st : list lval) (l : lua) : lua := Lua st (tables l) (globals l).

(** Where an index points, counted from the top: indices count from the bottom
    when positive, from the top when negative. *)
Definition position (st : list lval) (i : Z) : option nat :=
  if decide (0 < i <= Z.of_nat (length st)) then Some (length st - Z.to_nat i)%nat
  else if decide (- Z.of_nat (length st) <= i < 0) then Some (Z.to_nat (- i) - 1)%nat
  else None.

(** A positive index above the top is acceptable and holds no value, which the
    calls below treat as [nil]; any other index outside the stack is an error of
    the caller. *)
Definition at_index {A} (i : Z) (k : lval -> C lua A) : C lua A :=
  let! st := gets stack in
  match position st i with
  | Some n => k (default LNil (st !! n))
  | None => if decide (0 < i) then k LNil else stop (Undefined "invalid stack index")
  end.

Definition lua_gettop : C lua Z := gets (fun l => Z.of_nat (length (stack l))).

Definition push (v : lval) : C lua unit := modify (fun l => with_stack (v :: stack l) l).
Definition lua_pushnil : C lua unit := push LNil.
Definition lua_pushnumber (z : Z) : C lua unit := push (LNumber z).
Definition lua_pushinteger (z : Z) : C lua unit := push (LNumber z).
Definition lua_pushlstring (s : bytes) : C lua unit := push (LString s).
Definition lua_pushliteral (s : string) : C lua unit := push (LString (of_string s)).
Definition lua_pushcfunction (f : string) : C lua unit := push (LFunction (CFun f)).
Definition lua_pushvalue (i : Z) : C lua unit := at_index i push.

(** [lua_settop]: drop from the top, or pad with [nil]. *)
Definition lua_settop (n : Z) : C lua unit :=
  let! st := gets stack in
  let len := length st in
  if decide (0 <= n) then
    modify (with_stack (if decide (Z.to_nat n <= len)%nat
                        then drop (len - Z.to_nat n) st
                        else replicate (Z.to_nat n - len) LNil ++ st))
  else if decide (- n - 1 <= Z.of_nat len) then
    modify (with_stack (drop (Z.to_nat (- n - 1)) st))
  else stop (Undefined "invalid stack index").

Definition lua_pop (n : Z) : C lua unit := lua_settop (- n - 1).

(** [lua_insert(L, -2)]: the top goes below the value under it. *)
Definition lua_insert_2 : C lua unit :=
  let! st := gets stack in
  match st with
  | a :: b :: st' => modify (with_stack (b :: a :: st'))
  | _ => stop (Undefined "invalid stack index")
  end.

Definition lua_type (i : Z) : C lua Z := at_index i (fun v => ret (type_of v)).

Definition pop1 : C lua lval :=
  let! st := gets stack in
  match st with
  | v :: st' => modify (with_stack st') ;;; ret v
  | [] => stop (Undefined "stack underflow")
  end.

Definition key_of (v : lval) : option lkey :=
  match v with
  | LNumber z => Some (KNum z)
  | LString s => Some (KStr (to_string s))
  | LUserdata p => Some (KUser p)
  | _ => None
  end.

Definition table_at (i : Z) : C lua positive :=
  at_index i (fun v => match v with
    | LTable t => ret t
    | _ => stop (LuaError "attempt to index a non-table value")
    end).

Definition get_field (t : positive) (k : lkey) : C lua lval :=
  let! ts := gets tables in
  ret (default LNil (ts !! t ≫= fun tb => tb !! k)).

Definition set_field (t : positive) (k : lkey) (v : lval) : C lua unit :=
  modify (fun l =>
    let tb := default ∅ (tables l !! t) in
    let tb' := match v with LNil => delete k tb | _ => <[k := v]> tb end in
    Lua (stack l) (<[t := tb']> (tables l)) (globals l)).

(** [t[k]] with the key on the top, which the value replaces. *)
Definition lua_gettable (i : Z) : C lua unit :=
  let! t := table_at i in
  let! k := pop1 in
  match key_of k with
  | Some k => let! v := get_field t k in push v
  | None => push LNil
  end.

(** [t[k] = v] with the value on the top and the key below it. *)
Definition lua_settable (i : Z) : C lua unit :=
  let! t := table_at i in
  let! v := pop1 in
  let! k := pop1 in
  match key_of k with
  | Some k => set_field t k v
  | None => stop (LuaError "invalid table key")
  end.

Definition lua_setfield (i : Z) (k : string) : C lua unit :=
  let! t := table_at i in
  let! v := pop1 in
  set_field t (KStr k) v.

Definition lua_getglobal (k : string) : C lua unit :=
  let! g := gets globals in
  let! v := get_field g (KStr k) in
  push v.

Definition lua_register (k : string) (f : string) : C lua unit :=
  let! g := gets globals in
  set_field g (KStr k) (LFunction (CFun f)).

(** The length of a sequence: how many of the keys 1, 2, 3, ... are present. *)
Fixpoint border (fuel : nat) (n : Z) (tb : gmap lkey lval) : Z :=
  match fuel with
  | O => n
  | S f => match tb !! KNum (n + 1) with
           | Some _ => border f (n + 1) tb
           | None => n
           end
  end.

Definition lua_objlen (i : Z) : C lua Z :=
  at_index i (fun v => match v with
    | LString s => ret (Z.of_nat (length s))
    | LNumber z => ret (Z.of_nat (length (dec z)))
    | LTable t => gets (fun l => let tb := default ∅ (tables l !! t) in border (size tb) 0 tb)
    | _ => ret 0
    end).

(** The text a value converts to, for [lua_tolstring] and [luaL_checkstring]:
    strings are themselves, numbers are printed. *)
Definition to_text (v : lval) : option bytes :=
  match v with
  | LString s => Some s
  | LNumber z => Some (dec z)
  | _ => None
  end.

(** [lua_tolstring]: a number on the stack becomes a string, in place; [None] is
    the null pointer. *)
Definition lua_tolstring (i : Z) : C lua (option bytes) :=
  at_index i (fun v => match v with
    | LString s => ret (Some s)
    | LNumber z =>
        let! st := gets stack in
        match position st i with
        | Some n => modify (with_stack (<[n := LString (dec z)]> st)) ;;; ret (Some (dec z))
        | None => ret None
        end
    | _ => ret None
    end).

Definition luaL_checkstring (i : Z) : C lua bytes :=
  let! s := lua_tolstring i in
  match s with
  | Some s => ret s
  | None => stop (LuaError "bad argument: string expected")
  end.

(** [lua_concat(L, 2)] of strings. *)
Definition lua_concat2 : C lua unit :=
  let! b := pop1 in
  let! a := pop1 in
  match to_text a, to_text b with
  | Some x, Some y => push (LString (x ++ y))
  | _, _ => stop (LuaError "attempt to concatenate")
  end.

(** ** Compiling and dumping Lua code

    What the interpreter makes of a buffer is left open: its verdict on the text
    (0, or an error code), the message when it refuses, and the pieces of
    bytecode [lua_dump] writes for the function it made. *)
Class Compiler := {
  load_status : bytes -> bytes -> Z;
  load_message : bytes -> bytes -> bytes;
  dump_pieces : bytes -> bytes -> list bytes
}.

Section Compiler.
Context `{Compiler}.

(** [luaL_loadbuffer(L, code, size, chunkname)]. *)
Definition luaL_loadbuffer (code chunkname : bytes) : C lua Z :=
  if decide (load_status code chunkname = 0) then
    push (LFunction (Chunk code chunkname)) ;;; ret 0
  else
    push (LString (load_message code chunkname)) ;;;
    ret (load_status code chunkname).

(** [lua_dump] hands the pieces to the writer until it answers non-zero; 1 when
    the value on the top is not a Lua function. *)
Fixpoint write_pieces {B} (writer : bytes -> B -> B * Z) (ps : list bytes) (b : B) : B * Z :=
  match ps with
  | [] => (b, 0)
  | p :: ps' =>
      let '(b', st) := writer p b in
      if decide (st = 0) then write_pieces writer ps' b' else (b', st)
  end.

Definition lua_dump {B} (writer : bytes -> B -> B * Z) (b : B) : C lua (B * Z) :=
  at_index (-1) (fun v => match v with
    | LFunction (Chunk code chunkname) => ret (write_pieces writer (dump_pieces code chunkname) b)
    | _ => ret (b, 1)
    end).
End Compiler.

(** [luaL_error]: the message is formatted and control goes to the enclosing
    [lua_pcall]. *)
Definition luaL_error {W A} (msg : bytes) : C W A := stop (LuaError (to_string msg)).

(** [lua_pcall] as seen from outside: an error is caught. *)
Definition protect {W A} (m : C W A) : C W (A + string) :=
  fun w => match m w with
           | (Ok a, w') => (Ok (inl a), w')
           | (Stop (LuaError e), w') => (Ok (inr e), w')
           | (Stop f, w') => (Stop f, w')
           end.

Definition new_state : lua := Lua [] {[ 1%positive := ∅ ]} 1%positive.

Lemma wp_protect {W A} (m : C W A) (Q : outcome (A + string) -> W -> Prop) w :
  wp (protect m) Q w =
  wp m (fun o w' => Q (match o with
                       | Ok a => Ok (inl a)
                       | Stop (LuaError e) => Ok (inr e)
                       | Stop f => Stop f
                       end) w') w.
Proof. unfold wp, protect. by destruct (m w) as [[a|[]] w']. Qed.
#[global] Hint Rewrite @wp_protect : wp.
#[global] Arguments protect : simpl never.

(** ** Rules for values that are strings already *)

Definition holds (l : lua) (i : Z) (v : lval) : Prop :=
  exists n, position (stack l) i = Some n /\ stack l !! n = Some v.

Lemma wp_at_index {A} i v (k : lval -> C lua A) Q l :
  holds l i v -> wp (at_index i k) Q l = wp (k v) Q l.
Proof. intros (n & Hp & Hn). unfold at_index. wp_simpl. by rewrite Hp, Hn. Qed.

Lemma wp_tolstring i s Q l :
  holds l i (LString s) -> wp (lua_tolstring i) Q l = Q (Ok (Some s)) l.
Proof. intros H. unfold lua_tolstring. by rewrite (wp_at_index _ _ _ _ _ H). Qed.

Lemma wp_checkstring i s Q l :
  holds l i (LString s) -> wp (luaL_checkstring i) Q l = Q (Ok s) l.
Proof. intros H. unfold luaL_checkstring. wp_simpl. by rewrite (wp_tolstring _ _ _ _ H). Qed.

Lemma wp_objlen_string i s Q l :
  holds l i (LString s) -> wp (lua_objlen i) Q l = Q (Ok (Z.of_nat (length s))) l.
Proof. intros H. unfold lua_objlen. by rewrite (wp_at_index _ _ _ _ _ H). Qed.

#[global] Arguments luaL_checkstring : simpl never.
#[global] Arguments lua_tolstring : simpl never.
#[global] Arguments lua_objlen : simpl never.

Lemma holds_top l n v i :
  stack l !! n = Some v -> i = - Z.of_nat (S n) -> holds l i v.
Proof.
  intros Hn ->. exists n. split; [|done]. apply lookup_lt_Some in Hn. unfold position.
  rewrite decide_False by lia. rewrite decide_True by lia. f_equal. lia.
Qed.

Lemma wp_lua_type i v Q l : holds l i v -> wp (lua_type i) Q l = Q (Ok (type_of v)) l.
Proof. intros H. unfold lua_type. by rewrite (wp_at_index _ _ _ _ _ H). Qed.

Lemma wp_pushvalue i v Q l :
  holds l i v -> wp (lua_pushvalue i) Q l = Q (Ok tt) (with_stack (v :: stack l) l).
Proof. intros H. unfold lua_pushvalue. by rewrite (wp_at_index _ _ _ _ _ H). Qed.

Lemma wp_table_at i t Q l : holds l i (LTable t) -> wp (table_at i) Q l = Q (Ok t) l.
Proof. intros H. unfold table_at. by rewrite (wp_at_index _ _ _ _ _ H). Qed.

(** A field of a table of the state, [nil] when absent. *)
Definition field (l : lua) (t : positive) (k : lkey) : lval :=
  default LNil (tables l !! t ≫= fun tb => tb !! k).

Lemma field_with_stack st l t k : field (with_stack st l) t k = field l t k.
Proof. done. Qed.

(** The state with one more field. *)
Definition add_field (t : positive) (k : lkey) (v : lval) (l : lua) : lua :=
  Lua (stack l) (<[t := <[k := v]> (default ∅ (tables l !! t))]> (tables l)) (globals l).

Lemma wp_gettable i t k v st Q l :
  stack l = v :: st -> holds l i (LTable t) -> key_of v = Some k ->
  wp (lua_gettable i) Q l = Q (Ok tt) (with_stack (field l t k :: st) l).
Proof.
  intros Hs Ht Hk. unfold lua_gettable. wp_simpl. rewrite (wp_table_at _ _ _ _ Ht). cbn.
  unfold pop1, get_field, push. wp_simpl. rewrite Hs. wp_simpl. rewrite Hk. by wp_simpl.
Qed.

Lemma wp_setfield i t k v st Q l :
  stack l = v :: st -> v <> LNil -> holds l i (LTable t) ->
  wp (lua_setfield i k) Q l = Q (Ok tt) (with_stack st (add_field t (KStr k) v l)).
Proof.
  intros Hs Hv Ht. unfold lua_setfield. wp_simpl. rewrite (wp_table_at _ _ _ _ Ht). cbn.
  unfold pop1, set_field, add_field. wp_simpl. rewrite Hs. wp_simpl. by destruct v.
Qed.

Lemma wp_settable i t k kv v st Q l :
  stack l = v :: kv :: st -> v <> LNil -> key_of kv = Some k -> holds l i (LTable t) ->
  wp (lua_settable i) Q l = Q (Ok tt) (with_stack st (add_field t k v l)).
Proof.
  intros Hs Hv Hk Ht. unfold lua_settable. wp_simpl. rewrite (wp_table_at _ _ _ _ Ht). cbn.
  unfold pop1, set_field, add_field. wp_simpl. rewrite Hs. wp_simpl. rewrite Hk. wp_simpl. by destruct v.
Qed.

Lemma wp_getglobal k Q l :
  wp (lua_getglobal k) Q l = Q (Ok tt) (with_stack (field l (globals l) (KStr k) :: stack l) l).
Proof. unfold lua_getglobal, get_field, push. by wp_simpl. Qed.

Lemma wp_register k f Q l :
  wp (lua_register k f) Q l = Q (Ok tt) (add_field (globals l) (KStr k) (LFunction (CFun f)) l).
Proof. unfold lua_register, set_field. by wp_simpl. Qed.

Lemma wp_settop_drop st st' Q l :
  stack l = st ++ st' -> wp (lua_settop (Z.of_nat (length st'))) Q l = Q (Ok tt) (with_stack st' l).
Proof.
  intros Hs. unfold lua_settop. wp_simpl. rewrite decide_True by lia. wp_simpl.
  rewrite Hs, length_app, Nat2Z.id. destruct (decide _) as [_|Hn]; [|lia].
  f_equal. f_equal. replace (length st + length st' - length st')%nat with (length st) by lia.
  by rewrite drop_app_length.
Qed.

Lemma wp_pop_one v st Q l :
  stack l = v :: st -> wp (lua_pop 1) Q l = Q (Ok tt) (with_stack st l).
Proof.
  intros Hs. unfold lua_pop, lua_settop. wp_simpl. rewrite Hs.
  rewrite decide_False by lia. rewrite decide_True by (cbn; lia). by wp_simpl.
Qed.

Lemma wp_gettop Q l : wp lua_gettop Q l = Q (Ok (Z.of_nat (length (stack l)))) l.
Proof. done. Qed.
#[global] Hint Rewrite wp_getglobal wp_register wp_gettop : wp.
#[global] Arguments lua_settop : simpl never.
#[global] Arguments lua_pop : simpl never.
#[global] Arguments lua_getglobal : simpl never.
#[global] Arguments lua_register : simpl never.
#[global] Arguments lua_gettable : simpl never.
#[global] Arguments lua_settable : simpl never.
#[global] Arguments lua_setfield : simpl never.
#[global] Arguments lua_pushvalue : simpl never.
#[global] Arguments lua_type : simpl never.
#[global] Arguments lua_gettop : simpl never.

(** The border of a table whose keys 1 to [n] are present and [n + 1] is not. *)
Lemma border_sequence n tb :
  0 <= n -> (forall i, 1 <= i <= n -> is_Some (tb !! KNum i)) -> tb !! KNum (n + 1) = None ->
  border (size tb) 0 tb = n.
Proof.
  intros Hn Hall Hnone.
  assert (Z.to_nat n <= size tb)%nat as Hsz.
  { assert (size (list_to_set (KNum <$> seqZ 1 n) : gset lkey) <= size (dom tb))%nat as Hs.
    { apply subseteq_size. intros k Hk. apply elem_of_list_to_set, list_elem_of_fmap in Hk as (i & -> & Hi).
      apply elem_of_seqZ in Hi. apply elem_of_dom, Hall. lia. }
    rewrite size_dom in Hs. rewrite size_list_to_set, length_fmap, length_seqZ in Hs; [done|].
    apply NoDup_fmap_2; [by intros ?? [=]|]. apply NoDup_seqZ. }
  assert (forall fuel i, 0 <= i <= n -> (Z.to_nat (n - i) <= fuel)%nat -> border fuel i tb = n) as Hb.
  { induction fuel as [|fuel IH]; intros i Hi Hf; cbn; [lia|].
    destruct (decide (i = n)) as [->|Hne]; [by rewrite Hnone|].
    destruct (Hall (i + 1)) as [v ->]; [lia|]. apply IH; lia. }
  apply Hb; lia.
Qed.

(** What running a function does: its status, the value or error message it
    leaves, and the tables as it leaves them. *)
Class Interpreter := {
  run_function : lval -> list lval -> lua -> Z * lval * gmap positive (gmap lkey lval)
}.

(** [lua_pcall(L, nargs, 1, 0)]: one result, or one error message. *)
Definition lua_pcall_1 `{Interpreter} (nargs : nat) : C lua Z :=
  let! l := get in
  match drop nargs (stack l) with
  | f :: st =>
      let '(rv, v, ts) := run_function f (rev (take nargs (stack l))) l in
      put (Lua (v :: st) ts (globals l)) ;;; ret rv
  | [] => stop (Undefined "lua_pcall without a function")
  end.

(** [lua_pcall(L, nargs, 0, 0)]: no result, or one error message. *)
Definition lua_pcall_0 `{Interpreter} (nargs : nat) : C lua Z :=
  let! rv := lua_pcall_1 nargs in
  (if decide (rv = 0) then pop1 ;;; ret tt else ret tt) ;;;
  ret rv.

(** A new table. *)
Definition lua_newtable : C lua unit :=
  let! ts := gets tables in
  let t := fresh (dom ts) in
  modify (fun l => Lua (LTable t :: stack l) (<[t := ∅]> (tables l)) (globals l)).

Lemma wp_newtable Q l :
  (forall t, tables l !! t = None ->
     Q (Ok tt) (Lua (LTable t :: stack l) (<[t := ∅]> (tables l)) (globals l))) ->
  wp lua_newtable Q l.
Proof.
  intros HQ. unfold lua_newtable. rewrite wp_bind, wp_gets. cbn [then_post]. rewrite wp_modify.
  apply HQ. apply not_elem_of_dom, is_fresh.
Qed.
#[global] Arguments lua_newtable : simpl never.

(** ** Tables used as arrays *)

Lemma field_add_field t k v L t' k' :
  field (add_field t k v L) t' k' = if decide (t' = t /\ k' = k) then v else field L t' k'.
Proof.
  unfold field, add_field. cbn. destruct (decide (t' = t)) as [->|Ht].
  - rewrite lookup_insert_eq. cbn. destruct (decide (k' = k)) as [->|Hk].
    + by rewrite decide_True, lookup_insert_eq.
    + rewrite decide_False, lookup_insert_ne by naive_solver. by destruct (tables L !! t).
  - by rewrite decide_False, lookup_insert_ne by naive_solver.
Qed.

(** A positive index counts from the bottom of the stack. *)
Lemma holds_above pre v st L i :
  stack L = pre ++ v :: st -> i = Z.of_nat (S (length st)) -> holds L i v.
Proof.
  intros Hs ->. exists (length pre). split.
  - unfold position. rewrite Hs, length_app. cbn [length]. rewrite decide_True by lia. f_equal. lia.
  - by rewrite Hs, list_lookup_middle.
Qed.

Lemma holds_stack l l' i v : stack l' = stack l -> holds l i v -> holds l' i v.
Proof. unfold holds. by intros ->. Qed.

(** It points at the same value however many are pushed. *)
Lemma holds_push l i v st' : 0 < i -> holds l i v -> holds (with_stack (st' ++ stack l) l) i v.
Proof.
  intros Hi (n & Hp & Hn). exists (length st' + n)%nat. cbn [stack with_stack]. revert Hp. unfold position.
  rewrite length_app. pose proof (lookup_lt_Some _ _ _ Hn) as Hlt.
  repeat case_decide; try lia; intros [= <-]; (split; [f_equal; lia|]);
    rewrite lookup_app_r by lia; by rewrite Nat.add_comm, Nat.add_sub.
Qed.

(** The state with the values of a list at the keys from [i] of a table. *)
Fixpoint add_values (t : positive) (i : Z) (l : list lval) (L : lua) : lua :=
  match l with
  | [] => L
  | x :: l' => add_values t (i + 1) l' (add_field t (KNum i) x L)
  end.

Lemma stack_add_values t i l L : stack (add_values t i l L) = stack L.
Proof. revert i L. induction l as [|x l IH]; intros i L; [done|]. cbn. by rewrite IH. Qed.

Lemma globals_add_values t i l L : globals (add_values t i l L) = globals L.
Proof. revert i L. induction l as [|x l IH]; intros i L; [done|]. cbn. by rewrite IH. Qed.

Lemma is_table_add_field t k v L t' : is_Some (tables L !! t') -> is_Some (tables (add_field t k v L) !! t').
Proof.
  intros Ht. cbn. destruct (decide (t' = t)) as [->|]; [by rewrite lookup_insert_eq|by rewrite lookup_insert_ne].
Qed.

Lemma is_table_add_values t i l L t' : is_Some (tables L !! t') -> is_Some (tables (add_values t i l L) !! t').
Proof. revert i L. induction l as [|x l IH]; intros i L Ht; [done|]. cbn. by apply IH, is_table_add_field. Qed.

Lemma add_values_app t i l l' L :
  add_values t i (l ++ l') L = add_values t (i + Z.of_nat (length l)) l' (add_values t i l L).
Proof.
  revert i L. induction l as [|x l IH]; intros i L; cbn [add_values app length]; [by rewrite Z.add_0_r|].
  rewrite IH. f_equal. lia.
Qed.

Lemma field_add_values t i l L t' k :
  field (add_values t i l L) t' k =
    match k with
    | KNum j => if decide (t' = t /\ i <= j < i + Z.of_nat (length l)) then default LNil (l !! Z.to_nat (j - i))
                else field L t' k
    | _ => field L t' k
    end.
Proof.
  revert i L. induction l as [|x l IH]; intros i L; cbn [add_values length].
  { destruct k; [|done..]. by rewrite decide_False by lia. }
  rewrite IH. destruct k as [j| |]; [|by rewrite field_add_field, decide_False by naive_solver..].
  destruct (decide (t' = t)) as [->|]; [|by rewrite field_add_field, !decide_False by naive_solver].
  destruct (decide (j = i)) as [->|Hj].
  - rewrite (decide_False (P := _ /\ i + 1 <= i < _)) by lia. rewrite field_add_field, !decide_True by (lia || done).
    by rewrite Z.sub_diag.
  - destruct (decide (i <= j < i + Z.of_nat (S (length l)))) as [Hin|Hout].
    + rewrite !decide_True by (split; [done|lia]). replace (Z.to_nat (j - i)) with (S (Z.to_nat (j - (i + 1)))) by lia. done.
    + rewrite field_add_field, !decide_False by naive_solver lia. done.
Qed.

(** The values of a table from key 1 on. *)
Definition array (L : lua) (t : positive) (l : list lval) : Prop :=
  forall i, 1 <= i -> field L t (KNum i) = default LNil (l !! Z.to_nat (i - 1)).

Lemma array_add_values t l L : (forall k, field L t k = LNil) -> array (add_values t 1 l L) t l.
Proof.
  intros Hnew i Hi. rewrite field_add_values. case_decide as Hin; [done|]. rewrite Hnew.
  by rewrite lookup_ge_None_2 by lia.
Qed.

(** The tables of [L] that [L'] has as they were. *)
Definition keeps_tables (L L' : lua) : Prop :=
  forall t, is_Some (tables L !! t) -> is_Some (tables L' !! t) /\ forall k, field L' t k = field L t k.

Lemma keeps_tables_trans L1 L2 L3 : keeps_tables L1 L2 -> keeps_tables L2 L3 -> keeps_tables L1 L3.
Proof.
  intros H12 H23 t Ht. destruct (H12 t Ht) as [Ht2 H2]. destruct (H23 t Ht2) as [Ht3 H3]. split; [done|].
  intros k. by rewrite H3.
Qed.
