(* ===== verification/World.v ===== *)
(** * The operating system as a ledger and a history

    Components that talk to the operating system (sockets, file descriptors,
    service handles, OpenSSL objects) keep a ledger of the objects they hold, so
    that leaking one or releasing one twice shows, and a history of the calls
    made so far.  What a call answers is a function of that history, so a theorem
    about any such function covers every behaviour of the system. *)

From S2P Require Import Prelude Heap.
Open Scope Z_scope.

Record world (K Ev : Type) : Type := World {
  objs : heap K;               (** objects held, by handle *)
  history : list Ev            (** last event first *)
}.
Arguments World {K Ev} objs history.
Arguments objs {K Ev} w.
Arguments history {K Ev} w.

Section World.
Context {K Ev : Type}.
Abbreviation W := (world K Ev).

Definition fresh_world : W := World empty_heap [].

Definition with_objs (o : heap K) (w : W) : W := World o (history w).
Definition on_objs {A} (m : C (heap K) A) : C W A := zoom objs with_objs m.

Definition emit (e : Ev) : C W unit := modify (fun w => World (objs w) (e :: history w)).

(** What the system answers at this point of the history. *)
Definition ask {A} (f : list Ev -> A) : C W A := gets (fun w => f (history w)).

Definition acquire (k : K) : C W ptr := on_objs (malloc k).
Definition inspect (p : ptr) : C W K := on_objs (load p).
Definition release (p : ptr) : C W unit := on_objs (load p) ;;; on_objs (free p).

(** The objects held are exactly those of [L]. *)
Definition holding (w : W) (L : list (positive * K)) : Prop := owns (objs w) L.

#[global] Instance holding_proper w : Proper ((≡ₚ) ==> iff) (holding w).
Proof. unfold holding. intros L1 L2 HP. by rewrite HP. Qed.

Lemma wp_acquire k (Q : outcome ptr -> W -> Prop) w L :
  holding w L ->
  (forall l w', holding w' ((l, k) :: L) -> history w' = history w -> Q (Ok (Some l)) w') ->
  wp (acquire k) Q w.
Proof.
  intros Ho HQ. unfold acquire, on_objs. wp_simpl. eapply wp_malloc; [exact Ho|].
  intros l h' H'. by apply HQ.
Qed.

Lemma wp_inspect l k (Q : outcome K -> W -> Prop) w L :
  holding w L -> (l, k) ∈ L -> Q (Ok k) w -> wp (inspect (Some l)) Q w.
Proof.
  intros Ho Hin HQ. unfold inspect, on_objs. wp_simpl. eapply wp_load; [exact Ho|exact Hin|].
  by destruct w.
Qed.

Lemma wp_release l k (Q : outcome unit -> W -> Prop) w L :
  holding w ((l, k) :: L) ->
  (forall w', holding w' L -> history w' = history w -> Q (Ok tt) w') ->
  wp (release (Some l)) Q w.
Proof.
  intros Ho HQ. unfold release, on_objs. wp_simpl.
  eapply wp_load; [exact Ho|in_blocks|]. cbn. wp_simpl.
  eapply wp_free; [exact Ho|]. intros h' H'. by apply HQ.
Qed.

Lemma wp_emit e (Q : outcome unit -> W -> Prop) w L :
  holding w L ->
  (forall w', holding w' L -> history w' = e :: history w -> Q (Ok tt) w') -> wp (emit e) Q w.
Proof. intros Ho HQ. unfold emit. wp_simpl. by apply HQ. Qed.

Lemma wp_ask {A} (f : list Ev -> A) (Q : outcome A -> W -> Prop) w :
  wp (ask f) Q w = Q (Ok (f (history w))) w.
Proof. reflexivity. Qed.
End World.

#[global] Arguments acquire : simpl never.
#[global] Arguments inspect : simpl never.
#[global] Arguments release : simpl never.
#[global] Arguments emit : simpl never.
#[global] Arguments ask : simpl never.
#[global] Arguments fresh_world : simpl never.
#[global] Hint Rewrite @wp_ask : wp.

Lemma holding_fresh {K Ev} : holding (@fresh_world K Ev) [].
Proof. apply owns_empty. Qed.
