(* ===== verification/Verify.v ===== *)
(** * Checking the signature of a module

    [equus_util.c], lines 154-194.  OpenSSL is outside the repository: what it
    makes of a key in PEM form and what [EVP_VerifyFinal] answers are parameters;
    the objects it hands out are accounted for. *)

From S2P Require Import Prelude CString Heap World.
Open Scope Z_scope.

Section Verify.
Variable Key : Type.
(** [PEM_read_bio_PUBKEY] on the contents of a BIO. *)
Variable PEM_read_bio_PUBKEY : bytes -> option Key.
(** [EVP_VerifyFinal]: the digested data, the signature, the key. *)
Variable EVP_VerifyFinal : bytes -> bytes -> Key -> Z.
(** [equus_pubkey_get]: the key generated into the binary. *)
Variable equus_pubkey_get : bytes.

Inductive obj : Type :=
| OBio (text : bytes)
| OKey (k : Key)
| OCtx (data : bytes).             (** an [EVP_MD_CTX] and what it was fed *)

Abbreviation state := (world obj unit).

(** The memory a pointer reaches, read up to a length. *)
Definition read (m : bytes) (n : Z) : C state bytes :=
  if decide (0 <= n <= Z.of_nat (length m)) then ret (take (Z.to_nat n) m)
  else stop (Undefined "read outside a buffer").

(** A negative length means that the text ends at its NUL. *)
Definition BIO_new_mem_buf (m : bytes) (len : Z) : C state ptr :=
  let! t := if decide (len < 0) then ret (cstr m) else read m len in
  acquire (OBio t).

(** The key the caller gave, unless it is missing or empty. *)
Definition choose_key (keybuf : option bytes) (keylen : Z) : bytes * Z :=
  match keybuf with
  | Some k => if decide (keylen = 0) then (equus_pubkey_get, i32 (Z.of_nat (length equus_pubkey_get)))
              else (k, keylen)
  | None => (equus_pubkey_get, i32 (Z.of_nat (length equus_pubkey_get)))
  end.

(** The [int] length becomes a [size_t] for [EVP_VerifyUpdate], and the signature
    length an [unsigned int]. *)
Definition equus_verify (input : bytes) (len : Z) (sigbuf : bytes) (siglen : Z)
    (keybuf : option bytes) (keylen : Z) : C state Z :=
  let '(keybuf, keylen) := choose_key keybuf keylen in
  let! mem := BIO_new_mem_buf keybuf keylen in
  let! o := inspect mem in
  match o with
  | OBio text =>
      match PEM_read_bio_PUBKEY text with
      | None => stop Aborted
      | Some k =>
          let! pubkey := acquire (OKey k) in
          let! mdctx := acquire (OCtx []) in
          let! data := read input (u64 len) in
          let! sig := read sigbuf (u32 siglen) in
          let rv := EVP_VerifyFinal data sig k in
          release mdctx ;;;
          release pubkey ;;;
          release mem ;;;
          if decide (rv = 1) then ret 0 else ret (-1)
      end
  | _ => stop (Undefined "BIO expected")
  end.

(** The text of the key that is used. *)
Definition key_text (keybuf : option bytes) (keylen : Z) : bytes :=
  let '(k, n) := choose_key keybuf keylen in
  if decide (n < 0) then cstr k else take (Z.to_nat n) k.

(** Each length describes the memory it comes with. *)
Definition sized (input : bytes) (len : Z) (sigbuf : bytes) (siglen : Z)
    (keybuf : option bytes) (keylen : Z) : Prop :=
  0 <= len <= Z.of_nat (length input) /\ len < 2 ^ 31 /\
  0 <= siglen <= Z.of_nat (length sigbuf) /\ siglen < 2 ^ 31 /\
  match keybuf with Some k => keylen <= Z.of_nat (length k) | None => True end /\
  Z.of_nat (length equus_pubkey_get) < 2 ^ 31.

Lemma wp_read m n (Q : outcome bytes -> state -> Prop) w :
  0 <= n <= Z.of_nat (length m) -> Q (Ok (take (Z.to_nat n) m)) w -> wp (read m n) Q w.
Proof. intros. unfold read. by rewrite decide_True. Qed.

Lemma choose_key_sized input len sigbuf siglen keybuf keylen :
  sized input len sigbuf siglen keybuf keylen ->
  (choose_key keybuf keylen).2 <= Z.of_nat (length (choose_key keybuf keylen).1).
Proof.
  intros (_ & _ & _ & _ & Hk & Hp). unfold choose_key.
  assert (i32 (Z.of_nat (length equus_pubkey_get)) <= Z.of_nat (length equus_pubkey_get))
    by (rewrite i32_small; lia).
  destruct keybuf as [k|]; [case_decide|]; done.
Qed.

Lemma wp_bio m len (Q : outcome ptr -> state -> Prop) w L :
  holding w L -> len <= Z.of_nat (length m) ->
  (forall l w', holding w' ((l, OBio (if decide (len < 0) then cstr m else take (Z.to_nat len) m)) :: L) ->
     Q (Ok (Some l)) w') ->
  wp (BIO_new_mem_buf m len) Q w.
Proof.
  intros Ho Hl HQ. unfold BIO_new_mem_buf. wp_simpl.
  destruct (decide (len < 0)); [wp_simpl|apply wp_read; [lia|cbn]];
    (eapply wp_acquire; [exact Ho|]; intros; by apply HQ).
Qed.

Lemma wp_verify input len sigbuf siglen keybuf keylen k w L :
  sized input len sigbuf siglen keybuf keylen ->
  PEM_read_bio_PUBKEY (key_text keybuf keylen) = Some k -> holding w L ->
  wp (equus_verify input len sigbuf siglen keybuf keylen)
     (fun o w' => o = Ok (if decide (EVP_VerifyFinal (take (Z.to_nat len) input)
                                (take (Z.to_nat siglen) sigbuf) k = 1) then 0 else -1) /\
        holding w' L) w.
Proof.
  intros Hs Hk Ho. pose proof (choose_key_sized _ _ _ _ _ _ Hs) as Hc.
  destruct Hs as (H1 & H2 & H3 & H4 & _). unfold equus_verify, key_text in *.
  destruct (choose_key keybuf keylen) as [kb kl]; cbn in Hc. wp_simpl.
  eapply wp_bio; [exact Ho|done|]. intros l1 w1 Ho1. cbn. wp_simpl.
  eapply wp_inspect; [exact Ho1|in_blocks|]. cbn. rewrite Hk. wp_simpl.
  eapply wp_acquire; [exact Ho1|]. intros l2 w2 Ho2 _. cbn. wp_simpl.
  eapply wp_acquire; [exact Ho2|]. intros l3 w3 Ho3 _. cbn. wp_simpl.
  unfold u64, u32. rewrite !Z.mod_small by lia.
  apply wp_read; [lia|]. cbn. wp_simpl. apply wp_read; [lia|]. cbn. wp_simpl.
  eapply wp_release; [exact Ho3|]. intros w4 Ho4 _. cbn. wp_simpl.
  eapply wp_release; [exact Ho4|]. intros w5 Ho5 _. cbn. wp_simpl.
  eapply wp_release; [exact Ho5|]. intros w6 Ho6 _. cbn.
  destruct (decide (EVP_VerifyFinal _ _ k = 1)); by wp_simpl.
Qed.

(** ** Property *)

(** C3: signature checking. With a key that can be read, the call returns, and
    it returns 0 exactly when [EVP_VerifyFinal] answers 1 for the given data and
    signature under that key (the key built into the agent when the caller gives
    none or an empty one); its other answers, 0 and negative ones, give -1.
    Every OpenSSL object made on the way is released exactly once. *)
Theorem equus_verify_spec (input : bytes) (len : Z) (sigbuf : bytes) (siglen : Z)
    (keybuf : option bytes) (keylen : Z) (k : Key) (w : state) (L : list (positive * obj)) :
  sized input len sigbuf siglen keybuf keylen ->
  PEM_read_bio_PUBKEY (key_text keybuf keylen) = Some k -> holding w L ->
  exists r w', equus_verify input len sigbuf siglen keybuf keylen w = (Ok r, w') /\
    holding w' L /\ (r = 0 \/ r = -1) /\
    (r = 0 <-> EVP_VerifyFinal (take (Z.to_nat len) input) (take (Z.to_nat siglen) sigbuf) k = 1).
Proof.
  intros Hs Hk Ho. pose proof (wp_verify _ _ _ _ _ _ k w L Hs Hk Ho) as H. unfold wp in H.
  destruct (equus_verify _ _ _ _ _ _ w) as [o w']; cbn in H. destruct H as [-> H].
  do 2 eexists. split; [done|]. split; [done|]. case_decide; split; [by left|done|by right|done].
Qed.
End Verify.
Arguments OBio {Key}.
Arguments OKey {Key}.
Arguments OCtx {Key}.

(** A toy scheme: the key is its text, a signature is the data followed by the key. *)
Definition toy_final (data sig key : bytes) : Z :=
  if decide (sig = data ++ key) then 1 else if decide (sig = []) then -1 else 0.

Lemma equus_verify_spec_witness :
  exists r w', equus_verify bytes Some toy_final (b:"K") (b:"module") 6 (b:"moduleK") 7 None 0
      (World empty_heap []) = (Ok r, w') /\
    holding w' [] /\ (r = 0 \/ r = -1) /\ (r = 0 <-> toy_final (b:"module") (b:"moduleK") (b:"K") = 1).
Proof.
  apply (equus_verify_spec bytes Some toy_final (b:"K") (b:"module") 6 (b:"moduleK") 7 None 0 (b:"K")
    (World empty_heap []) []).
  - unfold sized. split_and!; by_decide.
  - reflexivity.
  - apply owns_empty.
Defined.
