(* ===== verification/Cache.v ===== *)
(** * The module cache

    [equus_loader.c], lines 66-219: a linked list of compiled modules shared by
    all the Lua states of the process, under one mutex, and the two C functions
    Lua code calls to fill it and to load from it. *)

From S2P Require Import Prelude CString Heap Lua.
Open Scope Z_scope.

Inductive block : Type :=
| BStr (s : bytes)                                  (** a string or a buffer *)
| BEntry (len : Z) (name data next : ptr).          (** [eql_cache_t] *)

Record state : Type := State {
  mem : heap block;
  cache_head : ptr;
  cachemtx : bool;                                  (** held or not *)
  vms : heap lua;                                   (** Lua states made to compile *)
  main_L : lua                                      (** the calling Lua state *)
}.

Definition init : state := State empty_heap None false empty_heap new_state.

Definition with_mem (m : heap block) (s : state) : state :=
  State m (cache_head s) (cachemtx s) (vms s) (main_L s).
Definition with_head (p : ptr) (s : state) : state :=
  State (mem s) p (cachemtx s) (vms s) (main_L s).
Definition with_mtx (b : bool) (s : state) : state :=
  State (mem s) (cache_head s) b (vms s) (main_L s).
Definition with_vms (v : heap lua) (s : state) : state :=
  State (mem s) (cache_head s) (cachemtx s) v (main_L s).
Definition with_L (l : lua) (s : state) : state :=
  State (mem s) (cache_head s) (cachemtx s) (vms s) l.

Definition on_mem {A} (m : C (heap block) A) : C state A := zoom mem with_mem m.
Definition on_L {A} (m : C lua A) : C state A := zoom main_L with_L m.
Definition on_vms {A} (m : C (heap lua) A) : C state A := zoom vms with_vms m.

(** A call on the Lua state [lvm]. *)
Definition on_lvm {A} (lvm : ptr) (m : C lua A) : C state A :=
  let! l := on_vms (load lvm) in
  match m l with
  | (Ok a, l') => on_vms (store lvm l') ;;; ret a
  | (Stop f, l') => on_vms (store lvm l') ;;; stop f
  end.

Definition MTX_LOCK : C state unit :=
  fun s => if cachemtx s then (Stop Deadlock, s) else (Ok tt, with_mtx true s).
Definition MTX_UNLOCK : C state unit := modify (with_mtx false).

Definition load_entry (p : ptr) : C state (Z * ptr * ptr * ptr) :=
  let! b := on_mem (load p) in
  match b with
  | BEntry len nm d nx => ret (len, nm, d, nx)
  | BStr _ => stop (Undefined "eql_cache_t expected")
  end.

Definition load_str (p : ptr) : C state bytes :=
  let! b := on_mem (load p) in
  match b with
  | BStr t => ret t
  | BEntry _ _ _ _ => stop (Undefined "string expected")
  end.

(** The nodes of a list that does not loop are blocks of the heap. *)
Definition list_fuel : C state nat := gets (fun s => S (size (cells (mem s)))).

(** ** The list *)

Definition equus_local_cache_find_nolock (name : bytes) : C state ptr :=
  let! h := gets cache_head in
  let! fuel := list_fuel in
  loop fuel (fun e =>
    match e with
    | None => ret (inr None)
    | Some _ =>
        let! '(_, nm, _, next) := load_entry e in
        let! t := load_str nm in
        if str_eq t name then ret (inr e) else ret (inl next)
    end) h.

Definition equus_local_cache_find (name : bytes) : C state ptr :=
  MTX_LOCK ;;;
  let! e := equus_local_cache_find_nolock name in
  MTX_UNLOCK ;;;
  ret e.

Definition equus_local_cache_free (x : ptr) : C state unit :=
  let! fuel := list_fuel in
  loop fuel (fun e =>
    match e with
    | None => ret (inr tt)
    | Some _ =>
        let! '(len, nm, d, next) := load_entry e in
        on_mem (free nm) ;;;
        on_mem (free d) ;;;
        let tmp := next in
        on_mem (store e (BEntry len nm d None)) ;;;
        on_mem (free e) ;;;
        ret (inl tmp)
    end) x.

Definition equus_local_cache_clear : C state unit :=
  MTX_LOCK ;;;
  let! h := gets cache_head in
  equus_local_cache_free h ;;;
  modify (with_head None) ;;;
  MTX_UNLOCK.

Definition equus_local_cache_push (x : ptr) : C state ptr :=
  MTX_LOCK ;;;
  let! '(_, nm, _, _) := load_entry x in
  let! name := load_str nm in
  let! e := equus_local_cache_find_nolock name in
  match e with
  | Some _ =>
      MTX_UNLOCK ;;;
      equus_local_cache_free x ;;;
      ret e
  | None =>
      let! h := gets cache_head in
      let! '(len, nm, d, _) := load_entry x in
      on_mem (store x (BEntry len nm d h)) ;;;
      modify (with_head x) ;;;
      MTX_UNLOCK ;;;
      ret x
  end.

(** ** The functions Lua code calls *)

Definition load_aux (status : Z) : C state Z :=
  if decide (status = 0) then ret 1
  else
    on_L lua_pushnil ;;;
    on_L lua_insert_2 ;;;
    ret 2.

Definition ldump_writer (b : bytes) (B : bytes) : bytes * Z := (B ++ b, 0).

Section Compile.
Context `{Compiler}.

(** [equus_local_cache_get] once the entry is found. *)
Definition load_found (e : ptr) : C state Z :=
  let! '(len, nm, d, _) := load_entry e in
  let! code := load_str d in
  let! name := load_str nm in
  if decide (0 <= len <= Z.of_nat (length code)) then
    let! status := on_L (luaL_loadbuffer (take (Z.to_nat len) code) (cstr name)) in
    load_aux status
  else stop (Undefined "read outside the module").

Definition equus_local_cache_get : C state Z :=
  let! name := on_L (luaL_checkstring 1) in
  let! e := equus_local_cache_find name in
  match e with
  | None => luaL_error (b:"cache miss for '" ++ cstr name ++ b:"'")
  | Some _ => load_found e
  end.

(** A module on the calling state's stack is stored with its length as an [int];
    the byte after it stays as [malloc] left it. *)
Definition new_entry (name : bytes) : C state ptr :=
  let! c := on_mem (malloc (BEntry 0 None None None)) in
  let! d := on_L (lua_tolstring (-1)) in
  let len := i32 (Z.of_nat (length (default [] d))) in
  let! nm := on_mem (malloc (BStr (cstr name ++ [NUL]))) in
  if decide (0 <= len < 2 ^ 31 - 1) then
    let! data := on_mem (malloc (BStr (replicate (Z.to_nat len + 1) NUL))) in
    on_mem (store data (BStr (take (Z.to_nat len) (default [] d) ++ [NUL]))) ;;;
    on_mem (store c (BEntry len nm data None)) ;;;
    ret c
  else stop (Undefined "malloc and memcpy of a negative size").

Definition equus_local_cache_add : C state Z :=
  let! name := on_L (luaL_checkstring 1) in
  let! module := on_L (luaL_checkstring 2) in
  let! mlen := on_L (lua_objlen 2) in
  let! lvm := on_vms (malloc new_state) in
  on_lvm lvm (lua_settop 0) ;;;
  let! rv := on_lvm lvm (luaL_loadbuffer (take (Z.to_nat mlen) module) (cstr name)) in
  if decide (rv <> 0) then ret rv
  else
    let! '(b, _) := on_lvm lvm (lua_dump ldump_writer []) in
    on_lvm lvm (lua_pushlstring b) ;;;
    let! c := new_entry name in
    let! c := equus_local_cache_push c in
    on_vms (free lvm) ;;;
    ret 0.
End Compile.

#[global] Arguments equus_local_cache_find_nolock : simpl never.
#[global] Arguments equus_local_cache_free : simpl never.
#[global] Arguments load_found : simpl never.
#[global] Arguments on_lvm : simpl never.

(** ** What the list represents *)

Record entry : Type := Entry {
  eloc : positive; nloc : positive; dloc : positive; ename : bytes; edata : bytes }.

Definition head_of (es : list entry) : ptr := e ← list.head es; Some (eloc e).

Definition entry_blocks (e : entry) (next : ptr) : list (positive * block) :=
  [(eloc e, BEntry (Z.of_nat (length (edata e))) (Some (nloc e)) (Some (dloc e)) next);
   (nloc e, BStr (ename e ++ [NUL]));
   (dloc e, BStr (edata e ++ [NUL]))].

Fixpoint blocks (es : list entry) : list (positive * block) :=
  match es with
  | [] => []
  | e :: es' => entry_blocks e (head_of es') ++ blocks es'
  end.

Definition entry_ok (e : entry) : Prop :=
  no_nul (ename e) /\ Z.of_nat (length (edata e)) < 2 ^ 31 - 1.

Fixpoint find_in (name : bytes) (es : list entry) : option entry :=
  match es with
  | [] => None
  | e :: es' => if decide (ename e = cstr name) then Some e else find_in name es'
  end.

(** [s] holds the entries [es], last added first, and besides them exactly [X]. *)
Definition rep (s : state) (es : list entry) (X : list (positive * block)) : Prop :=
  cache_head s = head_of es /\ cachemtx s = false /\ owns (mem s) (blocks es ++ X) /\
  Forall entry_ok es.

(** ** Rules of the primitives *)

Lemma wp_lock (Q : outcome unit -> state -> Prop) s :
  cachemtx s = false -> wp MTX_LOCK Q s = Q (Ok tt) (with_mtx true s).
Proof. intros H. unfold wp, MTX_LOCK. by rewrite H. Qed.

Ltac mem_step := unfold on_mem, on_L, on_vms, MTX_UNLOCK; wp_simpl.

Lemma wp_load_entry l len nm d nx (Q : outcome (Z * ptr * ptr * ptr) -> state -> Prop) s L :
  owns (mem s) L -> (l, BEntry len nm d nx) ∈ L -> Q (Ok (len, nm, d, nx)) s ->
  wp (load_entry (Some l)) Q s.
Proof.
  intros Ho Hin HQ. unfold load_entry. mem_step. eapply wp_load; [done..|]. cbn. by destruct s.
Qed.

Lemma wp_load_str l t (Q : outcome bytes -> state -> Prop) s L :
  owns (mem s) L -> (l, BStr t) ∈ L -> Q (Ok t) s -> wp (load_str (Some l)) Q s.
Proof.
  intros Ho Hin HQ. unfold load_str. mem_step. eapply wp_load; [done..|]. cbn. by destruct s.
Qed.

Lemma wp_on_lvm {A} (m : C lua A) l st (Q : outcome A -> state -> Prop) s L :
  owns (vms s) ((l, st) :: L) ->
  wp m (fun o st' => forall v, owns v ((l, st') :: L) -> Q o (with_vms v s)) st ->
  wp (on_lvm (Some l) m) Q s.
Proof.
  intros Ho HQ. unfold on_lvm. mem_step. eapply wp_load; [exact Ho|in_blocks|]. cbn.
  unfold wp at 1 in HQ. destruct (m st) as [o st']. cbn in HQ. destruct o as [a|f]; mem_step;
    (eapply wp_store; [exact Ho|]; intros v Hv; cbn; mem_step; by apply HQ).
Qed.

Lemma length_cache_blocks es : length (blocks es) = (3 * length es)%nat.
Proof. induction es as [|e es IH]; cbn in *; lia. Qed.

Lemma cache_fuel h es X : owns h (blocks es ++ X) -> (length es < S (size (cells h)))%nat.
Proof. intros Ho. rewrite (owns_size _ _ Ho), length_app, length_cache_blocks. lia. Qed.

(** ** The list operations *)

Lemma find_loop es : forall fuel name s X,
  owns (mem s) (blocks es ++ X) -> Forall entry_ok es -> (length es < fuel)%nat ->
  wp (loop fuel (fun e =>
    match e with
    | None => ret (inr None)
    | Some _ =>
        let! '(_, nm, _, next) := load_entry e in
        let! t := load_str nm in
        if str_eq t name then ret (inr e) else ret (inl next)
    end) (head_of es)) (fun o s' => o = Ok (eloc <$> find_in name es) /\ s' = s) s.
Proof.
  induction es as [|e es IH]; intros [|fuel] name s X Ho Hok Hf; try (cbn in Hf; lia);
    rewrite loop_S; [by wp_simpl|].
  apply Forall_cons in Hok as [[Hn _] Hok]. cbn in Ho. cbn [head_of list.head mbind option_bind].
  wp_simpl. eapply wp_load_entry; [exact Ho|in_blocks|]. cbn. wp_simpl.
  eapply wp_load_str; [exact Ho|in_blocks|]. cbn.
  assert (str_eq (ename e ++ [NUL]) name = bool_decide (ename e = cstr name)) as ->
    by (unfold str_eq; by rewrite cstr_app_nul).
  destruct (decide (ename e = cstr name)) as [E|E].
  - rewrite bool_decide_true by done. by wp_simpl.
  - rewrite bool_decide_false by done. wp_simpl.
    eapply (IH _ _ _ (entry_blocks e (head_of es) ++ X)); [|done|cbn in Hf; lia].
    reorder Ho.
Qed.

Lemma wp_find_nolock name s es X :
  cache_head s = head_of es -> owns (mem s) (blocks es ++ X) -> Forall entry_ok es ->
  wp (equus_local_cache_find_nolock name)
     (fun o s' => o = Ok (eloc <$> find_in name es) /\ s' = s) s.
Proof.
  intros Hh Ho Hok. unfold equus_local_cache_find_nolock, list_fuel. wp_simpl. rewrite Hh.
  eapply find_loop; [done..|]. by eapply cache_fuel.
Qed.

Lemma wp_find name s es X :
  rep s es X ->
  wp (equus_local_cache_find name) (fun o s' => o = Ok (eloc <$> find_in name es) /\ s' = s) s.
Proof.
  intros (Hh & Hm & Ho & Hok). unfold equus_local_cache_find. wp_simpl. rewrite wp_lock by done.
  cbn. wp_simpl. eapply wp_mono; [by eapply (wp_find_nolock name (with_mtx true s))|].
  intros o s' (-> & ->). cbn. mem_step. split; [done|].
  destruct s; cbn in *; by subst.
Qed.

Lemma free_loop es : forall fuel s X,
  owns (mem s) (blocks es ++ X) -> (length es < fuel)%nat ->
  wp (loop fuel (fun e =>
    match e with
    | None => ret (inr tt)
    | Some _ =>
        let! '(len, nm, d, next) := load_entry e in
        on_mem (free nm) ;;;
        on_mem (free d) ;;;
        let tmp := next in
        on_mem (store e (BEntry len nm d None)) ;;;
        on_mem (free e) ;;;
        ret (inl tmp)
    end) (head_of es)) (fun o s' => o = Ok tt /\ exists h, owns h X /\ s' = with_mem h s) s.
Proof.
  induction es as [|e es IH]; intros [|fuel] s X Ho Hf; try (cbn in Hf; lia);
    rewrite loop_S; [wp_simpl; split; [done|]; exists (mem s); split; [done|by destruct s]|].
  cbn in Ho. cbn [head_of list.head mbind option_bind].
  wp_simpl. eapply wp_load_entry; [exact Ho|in_blocks|]. cbn. mem_step.
  rewrite Permutation_swap in Ho. eapply wp_free; [exact Ho|]. intros h1 H1. cbn. mem_step.
  rewrite Permutation_swap in H1. eapply wp_free; [exact H1|]. intros h2 H2. cbn. mem_step.
  eapply wp_store; [exact H2|]. intros h3 H3. cbn. mem_step.
  eapply wp_free; [exact H3|]. intros h4 H4. cbn. mem_step.
  eapply wp_mono; [eapply (IH _ (with_mem h4 s)); [exact H4|cbn in Hf; lia]|].
  intros o s' (-> & h & Hh & ->). split; [done|]. by exists h.
Qed.

Lemma wp_free_list s es X :
  owns (mem s) (blocks es ++ X) ->
  wp (equus_local_cache_free (head_of es))
     (fun o s' => o = Ok tt /\ exists h, owns h X /\ s' = with_mem h s) s.
Proof.
  intros Ho. unfold equus_local_cache_free, list_fuel. wp_simpl.
  eapply free_loop; [done|]. by eapply cache_fuel.
Qed.

Lemma wp_clear s es X :
  rep s es X ->
  wp equus_local_cache_clear
     (fun o s' => o = Ok tt /\ rep s' [] X /\ vms s' = vms s /\ main_L s' = main_L s) s.
Proof.
  intros (Hh & Hm & Ho & Hok). unfold equus_local_cache_clear. wp_simpl. rewrite wp_lock by done.
  cbn. wp_simpl. rewrite Hh. eapply wp_mono; [by apply (wp_free_list (with_mtx true s) es X)|].
  intros o s' (-> & h & Hh' & ->). cbn. mem_step. split; [done|]. split; [|done].
  split_and!; [done|done|exact Hh'|constructor].
Qed.

(** A new entry, not in the list yet. *)
Lemma wp_push s es e X :
  rep s es (entry_blocks e None ++ X) -> entry_ok e ->
  wp (equus_local_cache_push (Some (eloc e)))
     (fun o s' => o = Ok (Some (eloc (default e (find_in (ename e) es)))) /\
        rep s' (match find_in (ename e) es with Some _ => es | None => e :: es end) X /\
        vms s' = vms s /\ main_L s' = main_L s) s.
Proof.
  intros (Hh & Hm & Ho & Hok) He. pose proof He as [Hn _].
  unfold equus_local_cache_push. wp_simpl. rewrite wp_lock by done.
  cbn. wp_simpl. eapply wp_load_entry; [exact Ho|in_blocks|]. cbn. wp_simpl.
  eapply wp_load_str; [exact Ho|in_blocks|]. cbn. wp_simpl.
  eapply wp_mono; [eapply (wp_find_nolock _ (with_mtx true s)); [exact Hh|exact Ho|done]|].
  intros o s' (-> & ->). cbn.
  assert (find_in (ename e ++ [NUL]) es = find_in (ename e) es) as ->.
  { clear -Hn. induction es as [|e' es IH]; [done|]. cbn. rewrite IH.
    by rewrite cstr_app_nul, cstr_id. }
  destruct (find_in (ename e) es) as [e'|]; cbn; mem_step.
  - eapply wp_mono; [apply (wp_free_list _ [e] (blocks es ++ X)); cbn; reorder Ho|].
    intros o s' (-> & h & Hh' & ->). cbn. wp_simpl. split; [done|]. split; [|done].
    by split_and!.
  - eapply wp_load_entry; [exact Ho|in_blocks|]. cbn. mem_step.
    eapply (wp_store (eloc e)).
    { assert (owns (mem s) (entry_blocks e None ++ blocks es ++ X)) as H1 by reorder Ho. exact H1. }
    intros h3 H3. cbn. mem_step. split; [done|]. split; [|done].
    split_and!; [done|done| |by constructor]. cbn. by rewrite <- Hh.
Qed.

(** ** The functions Lua code calls, on a call's arguments *)

Lemma find_in_split name es e :
  find_in name es = Some e ->
  ename e = cstr name /\ e ∈ es /\ exists nx R, blocks es ≡ₚ entry_blocks e nx ++ R.
Proof.
  induction es as [|e' es IH]; [done|]. cbn [find_in]. case_decide as E.
  - intros [= ->]. split; [done|]. split; [apply list_elem_of_here|]. by exists (head_of es), (blocks es).
  - intros H. destruct (IH H) as (H1 & H2 & nx & R & H3). split; [done|]. split; [by apply list_elem_of_further|].
    exists nx, (entry_blocks e' (head_of es) ++ R). cbn [blocks]. rewrite H3. solve_Permutation.
Qed.

(** The results of a call, first result first. *)
Definition call (args : list lval) (f : C state Z) : C state (list lval + string) :=
  on_L (modify (with_stack (rev args))) ;;;
  protect (
    let! n := f in
    let! st := on_L (gets stack) in
    if decide (0 <= n <= Z.of_nat (length st)) then ret (rev (take (Z.to_nat n) st))
    else stop (Undefined "more results than values on the stack")).

Section Spec.
Context `{Compiler}.

Definition miss (name : bytes) : string := to_string (b:"cache miss for '" ++ cstr name ++ b:"'").

(** What loading this text gives Lua code. *)
Definition loaded (code name : bytes) : list lval :=
  if decide (load_status code (cstr name) = 0) then [LFunction (Chunk code (cstr name))]
  else [LNil; LString (load_message code (cstr name))].

Lemma wp_load_found s es X e name :
  rep s es X -> find_in name es = Some e -> stack (main_L s) = [LString name] ->
  wp (let! n := load_found (Some (eloc e)) in
      let! st := on_L (gets stack) in
      if decide (0 <= n <= Z.of_nat (length st)) then ret (rev (take (Z.to_nat n) st))
      else stop (Undefined "more results than values on the stack"))
     (fun o s' => o = Ok (loaded (edata e) name) /\ rep s' es X /\ vms s' = vms s) s.
Proof.
  intros (Hh & Hm & Ho & Hok) Hf Hst.
  destruct (find_in_split _ _ _ Hf) as (En & Hin & nx & R & HP).
  pose proof (proj1 (Forall_forall _ _) Hok e Hin) as [Hn Hlen].
  assert (owns (mem s) (entry_blocks e nx ++ R ++ X)) as H1 by (rewrite app_assoc, <- HP; exact Ho).
  unfold load_found. wp_simpl. eapply wp_load_entry; [exact H1|in_blocks|]. cbn. wp_simpl.
  eapply wp_load_str; [exact H1|in_blocks|]. cbn. wp_simpl.
  eapply wp_load_str; [exact H1|in_blocks|]. cbn. wp_simpl.
  rewrite decide_True by (rewrite length_app; lia).
  rewrite Nat2Z.id, take_app_length, cstr_app_nul, En by done.
  unfold luaL_loadbuffer, loaded, load_aux, push, lua_pushnil, lua_insert_2, push. mem_step.
  destruct (decide (load_status (edata e) (cstr name) = 0)) as [E|E]; mem_step.
  - rewrite Hst. cbn. wp_simpl. split; [done|]. split; [|done]. by split_and!.
  - rewrite decide_False by done. mem_step. rewrite Hst. cbn. mem_step.
    split; [done|]. split; [|done]. by split_and!.
Qed.

Lemma wp_call_get s es X name :
  rep s es X ->
  wp (call [LString name] equus_local_cache_get)
     (fun o s' => o = Ok (match find_in name es with
                          | Some e => inl (loaded (edata e) name)
                          | None => inr (miss name)
                          end) /\ rep s' es X /\ vms s' = vms s) s.
Proof.
  intros Hr. unfold call, equus_local_cache_get. mem_step.
  assert (rep (with_L (with_stack [LString name] (main_L s)) s) es X) as Hr1 by done.
  rewrite (wp_checkstring 1 name) by (by exists 0%nat). cbn. wp_simpl.
  eapply wp_mono; [exact (wp_find name _ es X Hr1)|].
  intros o s' (-> & ->). cbn. destruct (find_in name es) as [e|] eqn:Hf; cbn.
  - pose proof (wp_load_found _ es X e name Hr1 Hf eq_refl) as H1. rewrite wp_bind in H1.
    eapply wp_mono; [exact H1|]. intros o s1 H2.
    destruct o as [n|f]; cbn in *; [|by destruct H2].
    eapply wp_mono; [exact H2|]. intros o s2 (-> & H3 & H4). done.
  - unfold luaL_error. wp_simpl. done.
Qed.

Lemma find_in_cstr name es : find_in (cstr name) es = find_in name es.
Proof.
  induction es as [|e es IH]; [done|]. cbn. rewrite IH.
  by rewrite (cstr_id (cstr name)) by apply cstr_no_nul.
Qed.

(** The arguments [name] and [module] on the calling state's stack. *)
Definition add_args (s : state) (name module : bytes) : Prop :=
  stack (main_L s) = [LString module; LString name].

(** What the list is after a module is added: the first text added under a name
    stays. *)
Definition added (name module : bytes) (es es' : list entry) : Prop :=
  match find_in name es with
  | Some _ => es' = es
  | None => exists e, ename e = cstr name /\ edata e = module /\ es' = e :: es
  end.

Lemma wp_new_entry s es X name module :
  rep s es X -> add_args s name module -> Z.of_nat (length module) < 2 ^ 31 - 1 ->
  wp (new_entry name)
     (fun o s' => exists e, o = Ok (Some (eloc e)) /\ ename e = cstr name /\ edata e = module /\
        rep s' es (entry_blocks e None ++ X) /\ vms s' = vms s /\ main_L s' = main_L s) s.
Proof.
  intros (Hh & Hm & Ho & Hok) Hst Hlen. unfold new_entry. mem_step.
  eapply wp_malloc; [exact Ho|]. intros c h1 H1. cbn. mem_step.
  rewrite (wp_tolstring (-1) module) by (exists 0%nat; by rewrite Hst). cbn. mem_step.
  rewrite i32_small by lia.
  eapply wp_malloc; [exact H1|]. intros n h2 H2. cbn. mem_step.
  rewrite decide_True by lia. mem_step. rewrite Nat2Z.id.
  eapply wp_malloc; [exact H2|]. intros d h3 H3. cbn. mem_step.
  eapply wp_store; [exact H3|]. intros h4 H4. cbn. mem_step.
  rewrite take_ge in H4 by lia.
  eapply (wp_store c).
  { match type of H4 with owns _ (?A :: ?B :: ?D :: ?L) =>
      assert (owns h4 (D :: B :: A :: L)) as H5 by (reorder H4); exact H5 end. }
  intros h5 H5. cbn. mem_step. exists (Entry c n d (cstr name) module).
  split; [done|split; [done|split; [done|]]]. split; [|by destruct s].
  split; [done|split; [done|split; [|done]]]. cbn. reorder H5.
Qed.

Lemma wp_cache_add s es X V name module :
  rep s es X -> owns (vms s) V -> add_args s name module ->
  Z.of_nat (length module) < 2 ^ 31 - 1 ->
  wp equus_local_cache_add
     (fun o s' => main_L s' = main_L s /\
        if decide (load_status module (cstr name) = 0) then
          o = Ok 0 /\ owns (vms s') V /\ exists es', added name module es es' /\ rep s' es' X
        else
          o = Ok (load_status module (cstr name)) /\ rep s' es X /\
          exists vm st, owns (vms s') ((vm, st) :: V)) s.
Proof.
  intros Hr HV Hst Hlen. unfold equus_local_cache_add, add_args in *. mem_step.
  rewrite (wp_checkstring 1 name) by (exists 1%nat; by rewrite Hst). cbn. mem_step.
  rewrite (wp_checkstring 2 module) by (exists 0%nat; by rewrite Hst). cbn. mem_step.
  rewrite (wp_objlen_string 2 module) by (exists 0%nat; by rewrite Hst). cbn. mem_step.
  rewrite Nat2Z.id, firstn_all.
  eapply wp_malloc; [exact HV|]. intros vm v1 H1. cbn. mem_step.
  eapply wp_on_lvm; [exact H1|]. unfold lua_settop. wp_simpl.
  rewrite decide_True by done. wp_simpl. intros v2 H2. mem_step.
  eapply wp_on_lvm; [exact H2|]. unfold luaL_loadbuffer, push.
  destruct (decide (load_status module (cstr name) = 0)) as [E|E].
  - wp_simpl. intros v3 H3. cbn. rewrite decide_False by (intros Hn; by apply Hn). mem_step.
    eapply wp_on_lvm; [exact H3|]. unfold lua_dump. rewrite (wp_at_index (-1) (LFunction (Chunk module (cstr name))))
      by (by exists 0%nat). wp_simpl. intros v4 H4.
    destruct (write_pieces _ _ _) as [b' st']. cbn. mem_step.
    eapply wp_on_lvm; [exact H4|]. unfold lua_pushlstring, push. wp_simpl. intros v5 H5. mem_step.
    eapply wp_mono; [eapply (wp_new_entry _ es X name module); [|exact Hst|done]|].
    { destruct s; exact Hr. }
    intros o s6 (e & -> & En & Ed & Hr6 & Hv6 & HL6). cbn. mem_step.
    eapply wp_mono; [apply (wp_push _ _ _ _ Hr6)|].
    { split; [rewrite En; apply cstr_no_nul|by rewrite Ed]. }
    intros o s7 (-> & Hr7 & Hv7 & HL7). cbn. mem_step.
    eapply wp_free; [rewrite Hv7, Hv6; exact H5|]. intros v8 H8. cbn. mem_step.
    rewrite HL7, HL6. split; [by destruct s|]. split; [done|]. split; [done|].
    unfold added. rewrite En, find_in_cstr in Hr7.
    destruct (find_in name es); eexists; (split; [by eauto|exact Hr7]).
  - wp_simpl. intros v3 H3. cbn. rewrite decide_True by done. mem_step.
    split; [by destruct s|]. split; [done|]. split; [done|]. eauto.
Qed.
End Spec.

(** ** The promise: a finite map where the first insertion wins *)

Inductive op : Type :=
| OAdd (name module : bytes)     (** [equus_local_cache_add(name, module)] *)
| OGet (name : bytes)            (** [equus_local_cache_get(name)] *)
| OClear.                        (** [equus_local_cache_clear()], between two runs *)

Section Refinement.
Context `{Compiler}.

Definition exec_op (o : op) : C state (list lval + string) :=
  match o with
  | OAdd name module => call [LString name; LString module] equus_local_cache_add
  | OGet name => call [LString name] equus_local_cache_get
  | OClear => equus_local_cache_clear ;;; ret (inl [])
  end.

Fixpoint exec_ops (os : list op) : C state (list (list lval + string)) :=
  match os with
  | [] => ret []
  | o :: os' => let! r := exec_op o in let! rs := exec_ops os' in ret (r :: rs)
  end.

(** A module the compiler accepts and whose length fits an [int]. *)
Definition valid_op (o : op) : Prop :=
  match o with
  | OAdd name module =>
      load_status module (cstr name) = 0 /\ Z.of_nat (length module) < 2 ^ 31 - 1
  | _ => True
  end.

(** Names are C strings; texts are kept whole. *)
Definition map_op (m : gmap bytes bytes) (o : op) : gmap bytes bytes * (list lval + string) :=
  match o with
  | OAdd name module =>
      (match m !! cstr name with Some _ => m | None => <[cstr name := module]> m end, inl [])
  | OGet name =>
      (m, match m !! cstr name with
          | Some code => inl (loaded code name)
          | None => inr (miss name)
          end)
  | OClear => (∅, inl [])
  end.

Fixpoint map_ops (m : gmap bytes bytes) (os : list op)
    : gmap bytes bytes * list (list lval + string) :=
  match os with
  | [] => (m, [])
  | o :: os' =>
      let '(m1, r) := map_op m o in
      let '(m2, rs) := map_ops m1 os' in (m2, r :: rs)
  end.

Definition to_map (es : list entry) : gmap bytes bytes :=
  list_to_map ((fun e => (ename e, edata e)) <$> es).

(** The list stands for the map [m]; nothing else is allocated and no compiling
    state is open. *)
Definition models (s : state) (m : gmap bytes bytes) : Prop :=
  exists es, rep s es [] /\ owns (vms s) [] /\ NoDup (ename <$> es) /\ m = to_map es.

Lemma to_map_lookup es name : to_map es !! cstr name = edata <$> find_in name es.
Proof.
  unfold to_map. induction es as [|e es IH]; [apply lookup_empty|]. cbn [find_in]. rewrite fmap_cons.
  cbn [list_to_map foldr]. case_decide as E.
  - rewrite E. by rewrite lookup_insert_eq.
  - rewrite lookup_insert_ne by exact E. exact IH.
Qed.

Lemma models_init : models init ∅.
Proof.
  exists []. split; [|split; [apply owns_empty|split; [constructor|done]]].
  split; [done|split; [done|split; [apply owns_empty|constructor]]].
Qed.

Lemma models_size s m : models s m -> size (cells (mem s)) = (3 * size m)%nat /\ cells (vms s) = ∅.
Proof.
  intros (es & (_ & _ & Ho & _) & HV & Hnd & ->). split.
  - rewrite (owns_size _ _ Ho), length_app, length_cache_blocks. cbn. unfold to_map.
    rewrite map_size_list_to_map.
    + rewrite length_fmap. lia.
    + by rewrite <- list_fmap_compose.
  - by destruct HV as (_ & -> & _).
Qed.

Lemma wp_call_add s es V name module :
  rep s es [] -> owns (vms s) V -> valid_op (OAdd name module) ->
  wp (call [LString name; LString module] equus_local_cache_add)
     (fun o s' => o = Ok (inl []) /\ owns (vms s') V /\
        exists es', added name module es es' /\ rep s' es' []) s.
Proof.
  intros Hr HV [Hst Hlen]. unfold call. mem_step.
  eapply wp_mono; [eapply (wp_cache_add _ es [] V name module); [|exact HV|reflexivity|done]|].
  { destruct s; exact Hr. }
  intros o s' (HL & Hc). rewrite decide_True in Hc by done. destruct Hc as (-> & HV' & es' & Ha & Hr').
  cbn. mem_step. rewrite HL. cbn. wp_simpl. split; [done|]. split; [by destruct s'|].
  exists es'. split; [done|]. by destruct s'.
Qed.

Lemma exec_op_models s m o :
  models s m -> valid_op o ->
  wp (exec_op o) (fun r s' => r = Ok (map_op m o).2 /\ models s' (map_op m o).1) s.
Proof.
  intros (es & Hr & HV & Hnd & ->) Hv. destruct o as [name module|name|]; cbn [exec_op map_op].
  - eapply wp_mono; [by eapply wp_call_add|]. intros r s' (-> & HV' & es' & Ha & Hr').
    split; [done|]. exists es'. split; [done|]. split; [done|]. cbn [fst]. rewrite to_map_lookup.
    unfold added in Ha. destruct (find_in name es) as [e|] eqn:Hf; cbn.
    + by subst es'.
    + destruct Ha as (e & En & <- & ->). split; [|by rewrite <- En].
      rewrite fmap_cons, En. apply NoDup_cons. split; [|done]. intros Hin.
      pose proof (to_map_lookup es name) as Hl. rewrite Hf in Hl. cbn in Hl.
      apply not_elem_of_list_to_map in Hl. apply Hl. by rewrite <- list_fmap_compose.
  - eapply wp_mono; [by eapply wp_call_get|]. intros r s' (-> & Hr' & HV').
    cbn [fst snd]. rewrite to_map_lookup. split; [by destruct (find_in name es)|].
    exists es. by rewrite HV'.
  - wp_simpl. eapply wp_mono; [by eapply wp_clear|]. intros r s' (-> & Hr' & HV' & _). cbn. wp_simpl.
    split; [done|]. exists []. rewrite HV'. split_and!; [apply Hr'..|done|constructor|done].
Qed.

Lemma exec_ops_models os : forall s m,
  models s m -> Forall valid_op os ->
  wp (exec_ops os) (fun r s' => r = Ok (map_ops m os).2 /\ models s' (map_ops m os).1) s.
Proof.
  induction os as [|o os IH]; intros s m Hs Hv; cbn [exec_ops map_ops].
  - by wp_simpl.
  - apply Forall_cons in Hv as [Ho Hv]. wp_simpl.
    eapply wp_mono; [by apply exec_op_models|]. intros r s' (-> & Hs'). cbn. wp_simpl.
    eapply wp_mono; [by apply IH|]. intros r s2 (-> & Hs2). cbn. wp_simpl.
    destruct (map_op m o) as [m1 r1]; cbn in *. by destruct (map_ops m1 os) as [m2 rs].
Qed.
End Refinement.

(** A concrete compiler for the witnesses: it refuses what starts with ['?']. *)
Definition compiler0 : Compiler :=
  {| load_status code _ := if decide (list.head code = Some "?"%char) then 3 else 0;
     load_message _ _ := b:"unexpected symbol";
     dump_pieces code _ := [b:"LuaQ"; rev code] |}.

(** ** Properties *)

(** C2: refinement. Any sequence of additions of modules the compiler accepts,
    loads and clears behaves as a finite map from names to texts in which the
    first text added under a name stays until the cache is cleared; a load of a
    missing name is an error that leaves the mutex free.  Afterwards the heap
    holds three blocks per cached name and every compiling state is closed. *)
Theorem cache_refines_map `{Compiler} (os : list op) :
  Forall valid_op os ->
  exists s', exec_ops os init = (Ok (map_ops ∅ os).2, s') /\ models s' (map_ops ∅ os).1 /\
    size (cells (mem s')) = (3 * size (map_ops ∅ os).1)%nat /\ cells (vms s') = ∅.
Proof.
  intros Hv. pose proof (exec_ops_models os _ _ models_init Hv) as H1. unfold wp in H1.
  destruct (exec_ops os init) as [o s']; cbn in H1. destruct H1 as [-> H1].
  exists s'. split; [done|]. split; [done|]. by apply models_size.
Qed.

Definition ops0 : list op :=
  [OAdd (b:"m") (b:"return 1"); OAdd (b:"m") (b:"return 2"); OGet (b:"m"); OGet (b:"x"); OClear;
   OGet (b:"m")].

Lemma cache_refines_map_witness :
  exists s', exec_ops (H := compiler0) ops0 init =
    (Ok [inl []; inl []; inl [LFunction (Chunk (b:"return 1") (b:"m"))];
         inr "cache miss for 'x'"%string; inl []; inr "cache miss for 'm'"%string], s') /\
    models s' ∅ /\ size (cells (mem s')) = 0%nat /\ cells (vms s') = ∅.
Proof.
  apply (cache_refines_map (H := compiler0) ops0). repeat constructor; by_decide.
Defined.

(** Round trip. After a new module is added under a name, loading the name
    gives a function made from the module's own text: whatever bytecode
    [lua_dump] wrote, the text on the caller's stack is what is kept, and it is
    compiled again by every load. *)
Theorem cached_module_is_the_source `{Compiler} (s : state) (m : gmap bytes bytes)
    (name module : bytes) :
  models s m -> m !! cstr name = None -> valid_op (OAdd name module) ->
  exists s', exec_ops [OAdd name module; OGet name] s =
    (Ok [inl []; inl [LFunction (Chunk module (cstr name))]], s') /\
    models s' (<[cstr name := module]> m).
Proof.
  intros Hs Hm Hv. assert (Forall valid_op [OAdd name module; OGet name]) as Hos by (do 2 (constructor; [done|]); constructor).
  pose proof (exec_ops_models _ s m Hs Hos) as H1. unfold wp in H1.
  destruct (exec_ops _ s) as [o s']; cbn in H1. rewrite Hm, lookup_insert_eq in H1. cbn in H1.
  unfold loaded in H1. rewrite decide_True in H1 by apply Hv. destruct H1 as [-> H1]. eauto.
Qed.

Lemma cached_module_is_the_source_witness :
  exists s', exec_ops (H := compiler0) [OAdd (b:"m") (b:"return 1"); OGet (b:"m")] init =
    (Ok [inl []; inl [LFunction (Chunk (b:"return 1") (b:"m"))]], s') /\
    models s' (<[b:"m" := b:"return 1"]> ∅).
Proof.
  apply (cached_module_is_the_source (H := compiler0) init ∅ (b:"m") (b:"return 1"));
    [apply models_init|done|]. split; by_decide.
Defined.

(** When the compiler refuses a module the cache is unchanged, but the error
    code is returned as the number of results, with two values on the stack, and
    the compiling state is never closed. *)
Theorem refused_module_leaks_state `{Compiler} (s : state) (m : gmap bytes bytes)
    (name module : bytes) :
  models s m -> stack (main_L s) = [LString module; LString name] ->
  load_status module (cstr name) <> 0 -> Z.of_nat (length module) < 2 ^ 31 - 1 ->
  exists s', equus_local_cache_add s = (Ok (load_status module (cstr name)), s') /\
    main_L s' = main_L s /\ size (cells (vms s')) = 1%nat /\
    exists es, rep s' es [] /\ m = to_map es.
Proof.
  intros (es & Hr & HV & Hnd & ->) Hst Hl Hlen.
  pose proof (wp_cache_add s es [] [] name module Hr HV Hst Hlen) as H1.
  unfold wp in H1. destruct (equus_local_cache_add s) as [o s']; cbn in H1.
  rewrite decide_False in H1 by done. destruct H1 as (HL & -> & Hr' & vm & st & HV'). exists s'. split; [done|]. split; [done|].
  split; [by rewrite (owns_size _ _ HV')|]. by exists es.
Qed.

Lemma refused_module_leaks_state_witness :
  let s := with_L (with_stack [LString (b:"?"); LString (b:"m")] new_state) init in
  exists s', equus_local_cache_add (H := compiler0) s = (Ok 3, s') /\
    main_L s' = main_L s /\ size (cells (vms s')) = 1%nat /\
    exists es, rep s' es [] /\ ∅ = to_map es.
Proof.
  intros s. apply (refused_module_leaks_state (H := compiler0) s ∅ (b:"m") (b:"?")).
  - apply models_init.
  - done.
  - done.
  - by_decide.
Defined.

(** [equus_local_cache_get] uses the entry it found after releasing the
    mutex. If the cache is cleared in between, by the main loop restarting while
    a check's thread still runs, the load reads freed memory. *)
Theorem found_entry_dangles_after_clear `{Compiler} (s : state) (es : list entry)
    (name : bytes) (e : entry) :
  rep s es [] -> find_in name es = Some e ->
  exists s', equus_local_cache_find name s = (Ok (Some (eloc e)), s) /\
    equus_local_cache_clear s = (Ok tt, s') /\
    (load_found (Some (eloc e)) s').1 = Stop (Undefined "read of a dead block").
Proof.
  intros Hr Hf. pose proof (wp_find name s es [] Hr) as H1. pose proof (wp_clear s es [] Hr) as H2.
  unfold wp in H1, H2. destruct (equus_local_cache_find name s) as [o1 s1].
  destruct (equus_local_cache_clear s) as [o2 s2]. cbn in H1, H2. rewrite Hf in H1.
  destruct H1 as [-> ->]. destruct H2 as (-> & (_ & _ & Ho & _) & _). exists s2.
  split; [done|]. split; [done|].
  enough (wp (load_found (Some (eloc e))) (fun o _ => o = Stop (Undefined "read of a dead block")) s2)
    as H3 by exact H3.
  unfold load_found, load_entry. mem_step. eapply wp_load_dead; [exact Ho|by apply not_elem_of_nil|done].
Qed.

Lemma found_entry_dangles_after_clear_witness :
  let s := (exec_ops (H := compiler0) [OAdd (b:"m") (b:"return 1")] init).2 in
  exists s', equus_local_cache_find (b:"m") s = (Ok (Some 1%positive), s) /\
    equus_local_cache_clear s = (Ok tt, s') /\
    (load_found (H := compiler0) (Some 1%positive) s').1 = Stop (Undefined "read of a dead block").
Proof.
  intros s. apply (found_entry_dangles_after_clear (H := compiler0) s
    [Entry 1 2 3 (b:"m") (b:"return 1")] (b:"m") (Entry 1 2 3 (b:"m") (b:"return 1")));
    [|by vm_compute].
  split; [by vm_compute|]. split; [by vm_compute|]. split.
  - split; [by_decide|]. split; [by vm_compute|]. by_decide.
  - repeat constructor; by_decide.
Defined.
