(* ===== verification/Loader.v ===== *)
(** * Module loaders and the preload table

    [equus_loader.c]: the loader of the modules built into the binary (39-58),
    the loader of a developer's modules, which checks a signature (221-271), the
    stack dump (275-331), the table of preloaded C modules (348-402) and the
    function that installs all of it in a new Lua state (404-477). *)

From S2P Require Import Prelude CString Heap World Verify Lua.
Open Scope Z_scope.

(** The code the build generates from a set of Lua files: two look-ups that
    return 0 when they find the name. *)
Record blob : Type := Blob {
  has_module : bytes -> Z;
  get_module : bytes -> Z * bytes
}.

Record localdev : Type := Localdev {
  dev_blob : blob;
  get_signature : bytes -> Z * bytes;
  get_pubkey : bytes -> Z * option bytes
}.

(** [_WIN32], [LOCAL_DEV]. *)
Record build : Type := Build { win32 : bool; LOCAL_DEV : bool }.

#[local] Set Default Proof Using "Type".

Section Loader.
Context `{Compiler}.
Context `{Interpreter}.
Variable Key : Type.
Variable PEM_read_bio_PUBKEY : bytes -> option Key.
Variable EVP_VerifyFinal : bytes -> bytes -> Key -> Z.
Variable equus_pubkey_get : bytes.
Variable B : build.
Variable builtin : blob.
Variable dev : localdev.
(** How [%p] and [%g] print. *)
Variable topointer : lval -> bytes.
Variable fmt_g : Z -> bytes.

Record state : Type := State {
  L : lua;
  logged : list bytes;                 (** lines handed to [logErr], last first *)
  ssl : world (obj Key) unit
}.

Definition with_L (l : lua) (s : state) : state := State l (logged s) (ssl s).
Definition with_ssl (w : world (obj Key) unit) (s : state) : state := State (L s) (logged s) w.
Definition on_L {A} (m : C lua A) : C state A := zoom L with_L m.
Definition on_ssl {A} (m : C (world (obj Key) unit) A) : C state A := zoom ssl with_ssl m.
Definition logErr (line : bytes) : C state unit :=
  modify (fun s => State (L s) (line :: logged s) (ssl s)).

Definition quote (s : bytes) : bytes := b:"'" ++ s ++ b:"'".

(** ** The two loaders *)

Definition equus_loader_load : C state Z :=
  let! name := on_L (luaL_checkstring 1) in
  let name := cstr name in
  if decide (has_module builtin name <> 0) then on_L lua_pushnil ;;; ret 1
  else
    let '(rv, p) := get_module builtin name in
    if decide (rv <> 0) then on_L lua_pushnil ;;; ret 1
    else
      let! rv := on_L (luaL_loadbuffer p name) in
      if decide (rv <> 0) then luaL_error (b:"error loading equus module " ++ quote name)
      else ret 1.

Definition size_of (m : bytes) : Z := i32 (Z.of_nat (length m)).

Definition equus_local_load : C state Z :=
  let! name := on_L (luaL_checkstring 1) in
  let name := cstr name in
  if decide (has_module (dev_blob dev) name <> 0) then on_L lua_pushnil ;;; ret 1
  else
    let '(rv, p) := get_module (dev_blob dev) name in
    if decide (rv <> 0) then on_L lua_pushnil ;;; ret 1
    else
      let '(rv, sigp) := get_signature dev name in
      if decide (rv <> 0) then on_L lua_pushnil ;;; ret 1
      else
        let '(rv, keyp) := get_pubkey dev name in
        if decide (rv <> 0) then on_L lua_pushnil ;;; ret 1
        else
          let! rv := on_ssl (equus_verify Key PEM_read_bio_PUBKEY EVP_VerifyFinal equus_pubkey_get
                               p (size_of p) sigp (size_of sigp) keyp (size_of (default [] keyp))) in
          if decide (rv <> 0) then
            luaL_error (b:"error loading (local) equus module: Signature Validation Failed: " ++ quote name)
          else
            let! rv := on_L (luaL_loadbuffer p name) in
            if decide (rv <> 0) then luaL_error (b:"error loading (local) equus module " ++ quote name)
            else ret 1.

(** ** The stack dump *)

Definition describe (v : lval) : bytes :=
  match v with
  | LString s => b:"'" ++ cstr s ++ b:"'"
  | LUserdata _ => b:"<userdata " ++ topointer v ++ b:">"
  | LLightUserdata _ => b:"<lightuserdata " ++ topointer v ++ b:">"
  | LNil => b:"NIL"
  | LBool b => if b then b:"true" else b:"false"
  | LNumber z => fmt_g z
  | LTable _ => b:"<table " ++ topointer v ++ b:">"
  | LThread _ => b:"<thread " ++ topointer v ++ b:">"
  | LFunction _ => b:"<function " ++ topointer v ++ b:">"
  end.

Definition lua_stack_dump (msg : bytes) : C state unit :=
  let! top := on_L lua_gettop in
  logErr (b:"Lua Stack Dump: " ++ cstr msg ++ b:" starting at " ++ dec top) ;;;
  loop (S (Z.to_nat top)) (fun i =>
    if decide (i <= top) then
      let! v := on_L (at_index i ret) in
      logErr (dec i ++ b:":  " ++ describe v) ;;;
      ret (inl (i + 1))
    else ret (inr tt)) 1.

Definition equus_lua_stack_dump : C state Z :=
  let! name := on_L (luaL_checkstring 1) in
  lua_stack_dump name ;;;
  ret 0.

(** ** Preloaded modules *)

Definition abort_unless (b : bool) : C state unit := if b then ret tt else stop Aborted.

(** [lua_pushcfunction(L, f); lua_setfield(L, -2, name)]. *)
Definition preload (name f : string) : C state unit :=
  on_L (lua_pushcfunction f) ;;;
  on_L (lua_setfield (-2) name).

Definition is_type (i tag : Z) : C state bool :=
  let! t := on_L (lua_type i) in
  ret (bool_decide (t = tag)).

Definition equus_loader_preload : C state Z :=
  let! top := on_L lua_gettop in
  on_L (lua_getglobal "package") ;;;
  let! t := is_type (-1) LUA_TTABLE in
  abort_unless t ;;;
  on_L (lua_pushliteral "preload") ;;;
  on_L (lua_gettable (-2)) ;;;
  let! t := is_type (-1) LUA_TTABLE in
  abort_unless t ;;;
  preload "socket.core" "luaopen_socket_core" ;;;
  (if win32 B then ret tt else preload "socket.unix" "luaopen_socket_unix") ;;;
  preload "mime.core" "luaopen_mime_core" ;;;
  preload "ssl.context" "luaopen_ssl_context" ;;;
  preload "ssl.core" "luaopen_ssl_core" ;;;
  preload "alien.core" "luaopen_alien_core" ;;;
  preload "alien.struct" "luaopen_alien_struct" ;;;
  preload "pack" "luaopen_pack" ;;;
  preload "lua51-lanes" "luaopen_lanes" ;;;
  on_L (lua_settop top) ;;;
  ret 0.

(** ** Installation in a new state *)

(** [mojosetup_luadebugger.c]. *)
Definition luaopen_equus_debugger : C state Z :=
  on_L (lua_register "equus_debugger" "luahook_debugger") ;;;
  on_L (lua_register "equus_stackwalk" "luahook_stackwalk") ;;;
  ret 0.

Definition register_functions : C state unit :=
  on_L (lua_register "equus_local_cache_add" "equus_local_cache_add") ;;;
  on_L (lua_register "equus_local_cache_get" "equus_local_cache_get") ;;;
  on_L (lua_register "equus_lua_stack_dump" "equus_lua_stack_dump") ;;;
  luaopen_equus_debugger ;;;
  on_L (lua_register "equus_popen_capture" "equus_popen_capture") ;;;
  (if win32 B then on_L (lua_register "equus_exec_call_win32_core" "equus_exec_call_win32_core")
   else on_L (lua_register "equus_exec_call_unix_core" "equus_exec_call_unix_core")).

(** [lua_pushnumber(L, lua_objlen(L, -1) + 1)]. *)
Definition push_next_index : C state unit :=
  let! n := on_L (lua_objlen (-1)) in
  on_L (lua_pushnumber (n + 1)).

(** The release branch: [require "http_loader"] gives one more loader. *)
Definition install_http_loader : C state unit :=
  on_L (lua_getglobal "require") ;;;
  let! t := is_type (-1) LUA_TFUNCTION in
  (if t : bool then ret tt
   else
     let! n := on_L (lua_type (-1)) in
     logErr (b:"-1 is " ++ dec n) ;;;
     stop Aborted) ;;;
  on_L (lua_pushliteral "http_loader") ;;;
  let! rv := on_L (lua_pcall_1 1) in
  (if decide (rv <> 0) then
     logErr (b:"lua_pcall is " ++ dec rv) ;;;
     let! e := on_L (lua_tolstring (-1)) in
     logErr (b:"lua error=" ++ cstr (default (b:"(null)") e)) ;;;
     stop Aborted
   else ret tt) ;;;
  on_L (lua_getglobal "package") ;;;
  on_L (lua_pushliteral "loaders") ;;;
  on_L (lua_gettable (-2)) ;;;
  push_next_index ;;;
  on_L (lua_pushvalue (-4)) ;;;
  on_L (lua_settable (-3)).

Definition luaopen_equus_loader : C state Z :=
  register_functions ;;;
  equus_loader_preload ;;;
  let! top := on_L lua_gettop in
  on_L (lua_getglobal "package") ;;;
  let! t := is_type (-1) LUA_TTABLE in
  abort_unless t ;;;
  on_L (lua_pushliteral "loaders") ;;;
  on_L (lua_gettable (-2)) ;;;
  let! t := is_type (-1) LUA_TTABLE in
  abort_unless t ;;;
  push_next_index ;;;
  on_L (lua_pushcfunction "equus_loader_load") ;;;
  on_L (lua_settable (-3)) ;;;
  (if LOCAL_DEV B then
     push_next_index ;;;
     on_L (lua_pushcfunction "equus_local_load") ;;;
     on_L (lua_settable (-3))
   else install_http_loader) ;;;
  on_L (lua_settop top) ;;;
  ret 0.

(** ** Facts *)

#[local] Arguments preload : simpl never.
#[local] Arguments push_next_index : simpl never.
#[local] Arguments lua_pcall_1 : simpl never.

Ltac L_step := unfold on_L, on_ssl, lua_pushliteral, lua_pushcfunction, lua_pushnumber, push; wp_simpl.

(** A chain of fields read from a state: [t[k1]] is the table [t2]. *)
Definition has_table (l : lua) (t : positive) (k : string) (t' : positive) : Prop :=
  field l t (KStr k) = LTable t'.

Lemma with_stack_twice st1 st2 l : with_stack st1 (with_stack st2 l) = with_stack st1 l.
Proof. done. Qed.

Lemma with_L_id s : with_L (L s) s = s.
Proof. by destruct s. Qed.

Lemma wp_is_type i v tag (Q : outcome bool -> state -> Prop) s :
  holds (L s) i v -> wp (is_type i tag) Q s = Q (Ok (bool_decide (type_of v = tag))) s.
Proof. intros Hv. unfold is_type. L_step. rewrite (wp_lua_type _ _ _ _ Hv). cbn. wp_simpl. by rewrite with_L_id. Qed.

Lemma wp_abort_unless b (Q : outcome unit -> state -> Prop) s :
  b = true -> wp (abort_unless b) Q s = Q (Ok tt) s.
Proof. by intros ->. Qed.
#[local] Arguments abort_unless : simpl never.
#[local] Arguments is_type : simpl never.

Lemma wp_preload name f q st (Q : outcome unit -> state -> Prop) s :
  stack (L s) = LTable q :: st ->
  wp (preload name f) Q s = Q (Ok tt) (with_L (add_field q (KStr name) (LFunction (CFun f)) (L s)) s).
Proof.
  intros Hs. unfold preload. L_step.
  erewrite wp_setfield; [|reflexivity|done|eapply (holds_top _ 1); [cbn; by rewrite Hs|done]].
  by destruct s as [[]].
Qed.

Definition preloaded : list (string * string) :=
  [("socket.core", "luaopen_socket_core")]%string ++
  (if win32 B then [] else [("socket.unix", "luaopen_socket_unix")]%string) ++
  [("mime.core", "luaopen_mime_core"); ("ssl.context", "luaopen_ssl_context");
   ("ssl.core", "luaopen_ssl_core"); ("alien.core", "luaopen_alien_core");
   ("alien.struct", "luaopen_alien_struct"); ("pack", "luaopen_pack");
   ("lua51-lanes", "luaopen_lanes")]%string.

Definition add_functions (t : positive) (fs : list (string * string)) (l : lua) : lua :=
  foldl (fun l f => add_field t (KStr f.1) (LFunction (CFun f.2)) l) l fs.

Lemma add_functions_stack t fs l : stack (add_functions t fs l) = stack l.
Proof. unfold add_functions. revert l; induction fs as [|f fs IH]; intros l; cbn; [done|]. by rewrite IH. Qed.

Lemma add_functions_globals t fs l : globals (add_functions t fs l) = globals l.
Proof. unfold add_functions. revert l; induction fs as [|f fs IH]; intros l; cbn; [done|]. by rewrite IH. Qed.

Lemma add_functions_other t t' fs l : t <> t' -> tables (add_functions t fs l) !! t' = tables l !! t'.
Proof.
  intros Ht. unfold add_functions. revert l; induction fs as [|f fs IH]; intros l; cbn; [done|].
  rewrite IH. cbn. by rewrite lookup_insert_ne.
Qed.

Lemma add_functions_field t fs l k :
  k ∉ (KStr <$> fs.*1) -> field (add_functions t fs l) t k = field l t k.
Proof.
  unfold add_functions. revert l; induction fs as [|f fs IH]; intros l Hk; cbn; [done|].
  cbn in Hk. apply not_elem_of_cons in Hk as [Hf Hk]. rewrite IH by done.
  unfold field, add_field. cbn. rewrite lookup_insert_eq. cbn. rewrite lookup_insert_ne by done.
  by destruct (tables l !! t); cbn; rewrite ?lookup_empty.
Qed.

Lemma add_functions_with_stack t fs st l :
  with_stack st (add_functions t fs l) = add_functions t fs (with_stack st l).
Proof. unfold add_functions. revert l; induction fs as [|f fs IH]; intros l; cbn; [done|]. by rewrite IH. Qed.

(** [field] does not look at the stack. *)
Lemma wp_loader_preload p q (Q : outcome Z -> state -> Prop) s :
  has_table (L s) (globals (L s)) "package" p -> has_table (L s) p "preload" q ->
  Q (Ok 0) (with_L (add_functions q preloaded (L s)) s) ->
  wp equus_loader_preload Q s.
Proof.
  intros Hp Hq HQ. unfold equus_loader_preload. L_step.
  rewrite Hp. erewrite wp_is_type by (by eapply (holds_top _ 0)). cbn. L_step.
  rewrite wp_abort_unless by reflexivity. cbn. L_step.
  erewrite wp_gettable; [|reflexivity|by eapply (holds_top _ 1)|reflexivity].
  cbn. L_step. rewrite field_with_stack.
  replace (field _ p _) with (LTable q) by (symmetry; exact Hq).
  erewrite wp_is_type by (by eapply (holds_top _ 0)). cbn. L_step.
  rewrite wp_abort_unless by reflexivity. cbn. L_step.
  erewrite wp_preload by reflexivity. cbn. L_step.
  assert (forall s1, stack (L s1) = LTable q :: LTable p :: stack (L s) ->
    Q (Ok 0) (with_L (with_stack (stack (L s)) (add_functions q (drop (if win32 B then 1 else 2) preloaded) (L s1))) s1) ->
    wp (preload "mime.core" "luaopen_mime_core" ;;;
        preload "ssl.context" "luaopen_ssl_context" ;;;
        preload "ssl.core" "luaopen_ssl_core" ;;;
        preload "alien.core" "luaopen_alien_core" ;;;
        preload "alien.struct" "luaopen_alien_struct" ;;;
        preload "pack" "luaopen_pack" ;;;
        preload "lua51-lanes" "luaopen_lanes" ;;;
        on_L (lua_settop (Z.of_nat (length (stack (L s))))) ;;;
        ret 0) Q s1) as Hrest.
  { intros s1 Hs1 HQ1. wp_simpl.
    do 7 (erewrite wp_preload by exact Hs1; cbn; wp_simpl). L_step.
    erewrite (wp_settop_drop [LTable q; LTable p]) by exact Hs1. cbn. L_step.
    unfold preloaded in HQ1. destruct (win32 B); exact HQ1. }
  unfold preloaded in HQ. destruct (win32 B) eqn:Hw; L_step.
  - rewrite <- wp_bind. apply Hrest; [done|]. cbn. rewrite Hw. by destruct s as [[]].
  - erewrite wp_preload by reflexivity. cbn. apply Hrest; [done|].
    cbn. rewrite Hw. by destruct s as [[]].
Qed.

Definition registered : list (string * string) :=
  [("equus_local_cache_add", "equus_local_cache_add");
   ("equus_local_cache_get", "equus_local_cache_get");
   ("equus_lua_stack_dump", "equus_lua_stack_dump");
   ("equus_debugger", "luahook_debugger");
   ("equus_stackwalk", "luahook_stackwalk");
   ("equus_popen_capture", "equus_popen_capture")]%string ++
  (if win32 B then [("equus_exec_call_win32_core", "equus_exec_call_win32_core")]%string
   else [("equus_exec_call_unix_core", "equus_exec_call_unix_core")]%string).

Lemma wp_register_functions (Q : outcome unit -> state -> Prop) s :
  Q (Ok tt) (with_L (add_functions (globals (L s)) registered (L s)) s) ->
  wp register_functions Q s.
Proof.
  intros HQ. unfold register_functions, luaopen_equus_debugger, registered in *. L_step.
  destruct (win32 B); L_step; destruct s as [[]]; exact HQ.
Qed.

Lemma add_functions_in t fs l k f :
  NoDup fs.*1 -> (k, f) ∈ fs -> field (add_functions t fs l) t (KStr k) = LFunction (CFun f).
Proof.
  revert l; induction fs as [|[k' f'] fs IH]; intros l Hnd Hin; [by apply not_elem_of_nil in Hin|].
  cbn in Hnd. apply NoDup_cons in Hnd as [Hk Hnd].
  apply elem_of_cons in Hin as [[= -> ->]|Hin].
  - change (field (add_functions t fs (add_field t (KStr k') (LFunction (CFun f')) l)) t (KStr k') = LFunction (CFun f')).
    rewrite add_functions_field.
    + unfold field, add_field. cbn. rewrite lookup_insert_eq. cbn. by rewrite lookup_insert_eq.
    + intros (k & [= ->] & Hk')%list_elem_of_fmap. done.
  - by apply IH.
Qed.

(** The keys 1 to [n] are present and no later number is. *)
Definition is_sequence (n : Z) (tb : gmap lkey lval) : Prop :=
  0 <= n /\ (forall i, 1 <= i <= n -> is_Some (tb !! KNum i)) /\
  (forall i, n < i -> tb !! KNum i = None).

Lemma is_sequence_border n tb : is_sequence n tb -> border (size tb) 0 tb = n.
Proof. intros (Hn & Hall & Hnone). apply border_sequence; [done..|]. apply Hnone; lia. Qed.

Lemma is_sequence_append n tb v : is_sequence n tb -> is_sequence (n + 1) (<[KNum (n + 1) := v]> tb).
Proof.
  intros (Hn & Hall & Hnone). split; [lia|]. split; intros i Hi.
  - destruct (decide (i = n + 1)) as [->|Hne]; [rewrite lookup_insert_eq; eauto|].
    rewrite lookup_insert_ne by congruence. apply Hall; lia.
  - rewrite lookup_insert_ne by (intros [=]; lia). apply Hnone; lia.
Qed.

Definition table (l : lua) (t : positive) : gmap lkey lval := default ∅ (tables l !! t).

Lemma wp_objlen_table i t Q l :
  holds l i (LTable t) ->
  wp (lua_objlen i) Q l = Q (Ok (border (size (table l t)) 0 (table l t))) l.
Proof. intros Ht. unfold lua_objlen. by rewrite (wp_at_index _ _ _ _ _ Ht). Qed.

Lemma wp_push_next_index n r st (Q : outcome unit -> state -> Prop) s :
  stack (L s) = LTable r :: st -> is_sequence n (table (L s) r) ->
  wp push_next_index Q s =
  Q (Ok tt) (with_L (with_stack (LNumber (n + 1) :: LTable r :: st) (L s)) s).
Proof.
  intros Hs Hn. unfold push_next_index. L_step.
  erewrite wp_objlen_table by (eapply (holds_top _ 0); [by rewrite Hs|done]).
  rewrite (is_sequence_border n) by done. cbn. L_step. rewrite Hs. by destruct s.
Qed.

(** [lua_settable(L, -3)] of an index and a value over the table of loaders. *)
Lemma wp_append r n v st (Q : outcome unit -> lua -> Prop) l :
  stack l = v :: LNumber (n + 1) :: LTable r :: st -> v <> LNil ->
  wp (lua_settable (-3)) Q l =
  Q (Ok tt) (with_stack (LTable r :: st) (add_field r (KNum (n + 1)) v l)).
Proof.
  intros Hs Hv.
  by erewrite wp_settable; [|exact Hs|done|reflexivity|eapply (holds_top _ 2); [by rewrite Hs|done]].
Qed.

Lemma has_table_add t t' k v l tb k' :
  t <> t' -> has_table l t' k' tb -> has_table (add_field t k v l) t' k' tb.
Proof. intros Hne. unfold has_table, field, add_field. cbn. by rewrite lookup_insert_ne. Qed.

Lemma table_add t k v l : table (add_field t k v l) t = <[k := v]> (table l t).
Proof. unfold table, add_field. cbn. by rewrite lookup_insert_eq. Qed.

(** What [require "http_loader"] is relied on for when it is called in state [l]:
    it succeeds with a loader; it may add fields to the tables [ts], as [module]
    adds a global for each module it makes, but what they hold stays; and the
    table of loaders is as it was. *)
Definition require_gives (f : lfn) (v : lval) (ts : list positive) (r : positive) (l : lua) : Prop :=
  v <> LNil /\
  forall st, exists tabs,
    run_function (LFunction f) [LString (b:"http_loader")] (with_stack st l) = (0, v, tabs) /\
    (forall t, t ∈ ts -> table l t ⊆ default ∅ (tabs !! t)) /\
    default ∅ (tabs !! r) = table l r.

(** What a table holds stays when fields are added. *)
Lemma field_kept l l' t k v :
  table l t ⊆ table l' t -> field l t k = v -> v <> LNil -> field l' t k = v.
Proof.
  intros Hsub Hf Hv. unfold field, table in *. destruct (tables l !! t) as [tb|]; cbn in *; [|done].
  destruct (tb !! k) as [x|] eqn:Hx; cbn in Hf; [|done]. subst x.
  apply (lookup_weaken _ _ _ _ Hx) in Hsub. destruct (tables l' !! t); cbn in *; [by rewrite Hsub|].
  by rewrite lookup_empty in Hsub.
Qed.

Lemma wp_install_http_loader g p r n f v st (ts : list positive) (Q : outcome unit -> state -> Prop) s :
  globals (L s) = g -> has_table (L s) g "package" p -> has_table (L s) p "loaders" r ->
  field (L s) g (KStr "require") = LFunction f -> require_gives f v ts r (L s) ->
  g ∈ ts -> p ∈ ts -> is_sequence n (table (L s) r) ->
  stack (L s) = st ->
  (forall l', globals l' = g -> (exists st', stack l' = st' ++ st) ->
     (forall t, t ∈ ts -> t <> r -> table (L s) t ⊆ table l' t) ->
     table l' r = <[KNum (n + 1) := v]> (table (L s) r) -> Q (Ok tt) (with_L l' s)) ->
  wp install_http_loader Q s.
Proof.
  intros Hg Hp Hr Hf [Hv Hrun] Hgt Hpt Hn Hst HQ. unfold install_http_loader. L_step.
  rewrite Hg, Hf. erewrite wp_is_type by (by eapply (holds_top _ 0)).
  rewrite bool_decide_true by done. cbn. L_step.
  unfold lua_pcall_1. L_step.
  destruct (Hrun (LString (b:"http_loader") :: LFunction f :: stack (L s))) as (tabs & Hcall & Hsame & Hloaders).
  rewrite with_stack_twice, Hcall. L_step.
  assert (field (Lua [] tabs (globals (L s))) g (KStr "package") = LTable p) as Hp'
    by (by apply (field_kept (L s)); [apply Hsame|exact Hp|]).
  assert (field (Lua [] tabs (globals (L s))) p (KStr "loaders") = LTable r) as Hr'
    by (by apply (field_kept (L s)); [apply Hsame|exact Hr|]).
  rewrite decide_False by (intros Hn0; by apply Hn0). L_step.
  unfold field in Hp', Hr' |- *. cbn in *. rewrite Hg, Hp'.
  erewrite wp_gettable; [|reflexivity|by eapply (holds_top _ 1)|reflexivity].
  replace (field _ p _) with (LTable r) by (symmetry; exact Hr'). cbn. L_step.
  assert (table (Lua [] tabs g) r = table (L s) r) as Ht by exact Hloaders.
  erewrite (wp_push_next_index n) by (reflexivity || (cbn; by rewrite <- Ht in Hn)). cbn. L_step.
  erewrite wp_pushvalue by (eapply (holds_top _ 3); [reflexivity|done]). cbn. L_step.
  erewrite (wp_append r n) by done. cbn.
  apply HQ; [done| | |].
  - exists [LTable r; LTable p; v]. cbn. by rewrite Hst.
  - intros t Hts Hne. unfold table at 2. cbn. rewrite lookup_insert_ne by done. by apply Hsame.
  - unfold table. cbn. rewrite lookup_insert_eq. cbn. by rewrite Hloaders.
Qed.

#[local] Arguments add_functions : simpl never.
#[local] Arguments registered : simpl never.
#[local] Arguments preloaded : simpl never.

(** The state once the functions are registered and the modules preloaded. *)
Definition prepared (g q : positive) (l : lua) : lua :=
  add_functions q preloaded (add_functions g registered l).

Lemma prepared_field g q l t k :
  t <> q -> k ∉ (KStr <$> registered.*1) -> field (prepared g q l) t k = field l t k.
Proof.
  intros Hq Hk. unfold prepared. unfold field at 1. rewrite add_functions_other by done.
  destruct (decide (t = g)) as [->|Hg]; [by apply add_functions_field|].
  unfold field. by rewrite add_functions_other.
Qed.

Lemma prepared_table g q l r : r <> g -> r <> q -> table (prepared g q l) r = table l r.
Proof. intros. unfold prepared, table. by rewrite !add_functions_other. Qed.

Lemma prepared_registered g q l name fn :
  g <> q -> (name, fn) ∈ registered -> field (prepared g q l) g (KStr name) = LFunction (CFun fn).
Proof.
  intros Hq Hin. unfold prepared. unfold field. rewrite add_functions_other by done.
  apply add_functions_in; [|done]. unfold registered. destruct (win32 B); by_decide.
Qed.

Lemma prepared_preloaded g q l name fn :
  (name, fn) ∈ preloaded -> field (prepared g q l) q (KStr name) = LFunction (CFun fn).
Proof. intros Hin. apply add_functions_in; [|done]. unfold preloaded. destruct (win32 B); by_decide. Qed.

Lemma not_registered k : k = "package"%string \/ k = "require"%string ->
  KStr k ∉ (KStr <$> registered.*1).
Proof. unfold registered. intros [->| ->]; destruct (win32 B); by_decide. Qed.

(** The state in which [http_loader] is required: the functions are registered,
    the modules preloaded and the loader of built-in modules is the last one. *)
Definition requiring (g q r : positive) (n : Z) (l : lua) : lua :=
  add_field r (KNum (n + 1)) (LFunction (CFun "equus_loader_load")) (prepared g q l).

(** The second loader appended: the developer's, or what [http_loader] gave. *)
Definition second_loader (v : lval) : lval :=
  if LOCAL_DEV B then LFunction (CFun "equus_local_load") else v.

Lemma field_of_table l1 l2 t k : tables l1 !! t = tables l2 !! t -> field l1 t k = field l2 t k.
Proof. unfold field. by intros ->. Qed.

Lemma wp_luaopen g p q r n f v (Q : outcome Z -> state -> Prop) s :
  globals (L s) = g -> NoDup [g; p; q; r] ->
  has_table (L s) g "package" p -> has_table (L s) p "preload" q -> has_table (L s) p "loaders" r ->
  field (L s) g (KStr "require") = LFunction f -> is_sequence n (table (L s) r) ->
  (LOCAL_DEV B = false -> require_gives f v [g; p; q] r (requiring g q r n (L s))) ->
  (forall l', stack l' = stack (L s) ->
     table l' r = <[KNum (n + 1 + 1) := second_loader v]>
                    (<[KNum (n + 1) := LFunction (CFun "equus_loader_load")]> (table (L s) r)) ->
     (forall t, t ∈ [g; p; q] -> table (prepared g q (L s)) t ⊆ table l' t) ->
     Q (Ok 0) (with_L l' s)) ->
  wp luaopen_equus_loader Q s.
Proof.
  clear PEM_read_bio_PUBKEY EVP_VerifyFinal topointer fmt_g.
  intros Hg Hnd Hp Hq Hr Hf Hn Hrun HQ. unfold luaopen_equus_loader. wp_simpl.
  apply NoDup_cons in Hnd as [Hg1 Hnd]. apply NoDup_cons in Hnd as [Hp1 Hnd].
  apply NoDup_cons in Hnd as [Hq1 _]. rewrite !not_elem_of_cons in *.
  destruct Hg1 as (Hgp & Hgq & Hgr & _), Hp1 as (Hpq & Hpr & _), Hq1 as (Hqr & _).
  apply wp_register_functions. cbn. wp_simpl. rewrite Hg.
  assert (forall k t, k = "package"%string \/ k = "require"%string ->
    field (add_functions g registered (L s)) t (KStr k) = field (L s) t (KStr k)) as Hreg.
  { intros k t Hk. destruct (decide (t = g)) as [->|Ht];
      [by apply add_functions_field, not_registered|]. unfold field. by rewrite add_functions_other. }
  assert (forall k, field (add_functions g registered (L s)) p k = field (L s) p k) as Hregp.
  { intros k. unfold field. by rewrite add_functions_other. }
  apply (wp_loader_preload p q).
  { unfold has_table. cbn. rewrite add_functions_globals, Hg, Hreg by (by left). exact Hp. }
  { unfold has_table. cbn. rewrite Hregp. exact Hq. }
  cbn. fold (prepared g q (L s)). set (l2 := prepared g q (L s)).
  assert (globals l2 = g) as Hg2 by (unfold l2, prepared; by rewrite !add_functions_globals).
  assert (stack l2 = stack (L s)) as Hs2 by (unfold l2, prepared; by rewrite !add_functions_stack).
  assert (field l2 g (KStr "package") = LTable p) as Hp2
    by (unfold l2; rewrite prepared_field by (done || by apply not_registered; left); exact Hp).
  assert (field l2 g (KStr "require") = LFunction f) as Hf2
    by (unfold l2; rewrite prepared_field by (done || by apply not_registered; right); exact Hf).
  assert (field l2 p (KStr "loaders") = LTable r) as Hr2.
  { unfold l2, field, prepared. rewrite !add_functions_other by done. exact Hr. }
  assert (table l2 r = table (L s) r) as Ht2 by (unfold l2; by apply prepared_table).
  L_step. rewrite Hg2, Hp2. erewrite wp_is_type by (by eapply (holds_top _ 0)).
  rewrite bool_decide_true by done. cbn. L_step.
  rewrite wp_abort_unless by done. cbn. L_step.
  erewrite wp_gettable; [|reflexivity|by eapply (holds_top _ 1)|reflexivity]. cbn. L_step.
  replace (field _ p _) with (LTable r) by (symmetry; exact Hr2).
  erewrite wp_is_type by (by eapply (holds_top _ 0)).
  rewrite bool_decide_true by done. cbn. L_step.
  rewrite wp_abort_unless by done. cbn. L_step.
  erewrite (wp_push_next_index n) by (reflexivity || (cbn; unfold table; cbn; fold (table l2 r); by rewrite Ht2)).
  cbn. L_step. erewrite (wp_append r n) by done. cbn.
  set (l3 := with_stack (LTable r :: LTable p :: stack l2)
    (add_field r (KNum (n + 1)) (LFunction (CFun "equus_loader_load")) l2)).
  match goal with |- wp ?m _ _ => change (wp m Q (with_L l3 s)) end.
  assert (is_sequence (n + 1) (table l3 r)) as Hn3.
  { change (is_sequence (n + 1) (table (add_field r (KNum (n + 1)) (LFunction (CFun "equus_loader_load")) l2) r)).
    rewrite table_add, Ht2. by apply is_sequence_append. }
  assert (forall t, t <> r -> tables l3 !! t = tables l2 !! t) as Hother
    by (intros t Ht; cbn; by rewrite lookup_insert_ne).
  assert (forall t, t <> r -> table l3 t = table l2 t) as Hother3 by (intros t Ht; unfold table; by rewrite Hother).
  assert (forall l', (exists st, stack l' = st ++ LTable r :: LTable p :: stack l2) ->
    table l' r = <[KNum (n + 1 + 1) := second_loader v]> (table l3 r) ->
    (forall t, t ∈ [g; p; q] -> table l3 t ⊆ table l' t) ->
    then_post (fun _ => zoom L with_L (lua_settop (Z.of_nat (length (stack l2)))) ;;; ret 0)
      Q (Ok tt) (with_L l' s)) as Hend.
  { intros l' [st Hst] Hr' Ht'. cbn. wp_simpl.
    erewrite (wp_settop_drop (st ++ [LTable r; LTable p])) by (cbn; by rewrite <- app_assoc).
    cbn. wp_simpl. apply (HQ (with_stack (stack l2) l')); [done| |].
    - change (table l' r = <[KNum (n + 1 + 1) := second_loader v]>
        (<[KNum (n + 1) := LFunction (CFun "equus_loader_load")]> (table (L s) r))).
      rewrite Hr'. f_equal.
      change (table (add_field r (KNum (n + 1)) (LFunction (CFun "equus_loader_load")) l2) r =
        <[KNum (n + 1) := LFunction (CFun "equus_loader_load")]> (table (L s) r)).
      by rewrite table_add, Ht2.
    - intros t Ht. change (table l2 t ⊆ table l' t). rewrite <- Hother3 by set_solver. by apply Ht'. }
  unfold second_loader in Hend. destruct (LOCAL_DEV B); L_step.
  - erewrite (wp_push_next_index (n + 1)) by done. cbn. L_step.
    erewrite (wp_append r (n + 1)) by done.
    refine (Hend (with_stack (LTable r :: LTable p :: stack l2) (add_field r (KNum (n + 1 + 1))
      (LFunction (CFun "equus_local_load")) l3)) _ _ _).
    + by exists [].
    + apply table_add.
    + intros t Ht. unfold table at 2. cbn. rewrite lookup_insert_ne by set_solver. done.
  - apply (wp_install_http_loader g p r (n + 1) f v (stack l3) [g; p; q]).
    + exact Hg2.
    + unfold has_table. rewrite (field_of_table _ l2); [done|]. apply Hother. congruence.
    + unfold has_table. rewrite (field_of_table _ l2); [done|]. by apply Hother.
    + rewrite (field_of_table _ l2); [done|]. apply Hother. congruence.
    + by apply Hrun.
    + set_solver.
    + set_solver.
    + done.
    + done.
    + intros l' _ Hst Ht Hr'. apply Hend; [done|done|]. intros t Hin. apply Ht; set_solver.
Qed.

(** ** Properties *)

(** C25: a new Lua state. When [package], its [preload] and its [loaders] are
    distinct tables, the loaders a sequence of length [n], and, in a release build,
    [require "http_loader"] called at the end gives a loader [v], keeps what those
    tables hold (it may add fields: [module] makes globals) and leaves the loaders
    alone, then [luaopen_equus_loader] returns
    with the Lua stack as it found it; the binary's own loader is loader [n + 1]
    and the developer's or the HTTP one loader [n + 2], every C function is a
    global, and every bundled module is preloaded. *)
Theorem loaders_installed (s : state) (g p q r : positive) (n : Z) (f : lfn) (v : lval) :
  globals (L s) = g -> NoDup [g; p; q; r] ->
  has_table (L s) g "package" p -> has_table (L s) p "preload" q -> has_table (L s) p "loaders" r ->
  field (L s) g (KStr "require") = LFunction f -> is_sequence n (table (L s) r) ->
  (LOCAL_DEV B = false -> require_gives f v [g; p; q] r (requiring g q r n (L s))) ->
  exists s', luaopen_equus_loader s = (Ok 0, s') /\ stack (L s') = stack (L s) /\
    table (L s') r = <[KNum (n + 1 + 1) := second_loader v]>
      (<[KNum (n + 1) := LFunction (CFun "equus_loader_load")]> (table (L s) r)) /\
    (forall name fn, (name, fn) ∈ registered -> field (L s') g (KStr name) = LFunction (CFun fn)) /\
    (forall name fn, (name, fn) ∈ preloaded -> field (L s') q (KStr name) = LFunction (CFun fn)).
Proof.
  clear PEM_read_bio_PUBKEY EVP_VerifyFinal topointer fmt_g.
  intros Hg Hnd Hp Hq Hr Hf Hn Hrun.
  enough (wp luaopen_equus_loader (fun o s' => o = Ok 0 /\ stack (L s') = stack (L s) /\
    table (L s') r = <[KNum (n + 1 + 1) := second_loader v]>
      (<[KNum (n + 1) := LFunction (CFun "equus_loader_load")]> (table (L s) r)) /\
    forall t, t ∈ [g; p; q] -> table (prepared g q (L s)) t ⊆ table (L s') t) s) as H1.
  { unfold wp in H1. destruct (luaopen_equus_loader s) as [o s']; cbn in H1.
    destruct H1 as (-> & Hst & Hl & Ht). exists s'. split_and!; [done..| |]; intros name fn Hin.
    - apply (field_kept (prepared g q (L s))); [apply Ht; set_solver| |done].
      apply prepared_registered; [|done]. apply NoDup_cons in Hnd as [Hg1 _]. set_solver.
    - apply (field_kept (prepared g q (L s))); [apply Ht; set_solver| |done].
      by apply prepared_preloaded. }
  eapply wp_luaopen; [done..|]. intros l' H1 H2 H3. done.
Qed.

Lemma wp_loadbuffer_pushes code name (Q : outcome Z -> lua -> Prop) l :
  Q (Ok (load_status code name))
    (with_stack ((if decide (load_status code name = 0) then LFunction (Chunk code name)
                  else LString (load_message code name)) :: stack l) l) ->
  wp (luaL_loadbuffer code name) Q l.
Proof.
  unfold luaL_loadbuffer, push. destruct (decide _) as [E|E]; intros HQ; wp_simpl; [|done].
  by rewrite E in HQ.
Qed.

(** C24: a developer's module is loaded only if its signature checks. With the
    module, its signature and a readable key at hand, the call pushes the module's
    function and returns 1 exactly when [EVP_VerifyFinal] answers 1 and the text
    compiles; otherwise it raises a Lua error, before the text is compiled when
    the signature is wrong.  OpenSSL objects are all released either way. *)
Theorem local_load_only_verified (s : state) (name p sigp : bytes) (keyp : option bytes) (k : Key)
    (X : list (positive * obj Key)) :
  stack (L s) = [LString name] ->
  has_module (dev_blob dev) (cstr name) = 0 -> get_module (dev_blob dev) (cstr name) = (0, p) ->
  get_signature dev (cstr name) = (0, sigp) -> get_pubkey dev (cstr name) = (0, keyp) ->
  Z.of_nat (length p) < 2 ^ 31 -> Z.of_nat (length sigp) < 2 ^ 31 ->
  Z.of_nat (length (default [] keyp)) < 2 ^ 31 -> Z.of_nat (length equus_pubkey_get) < 2 ^ 31 ->
  PEM_read_bio_PUBKEY (key_text equus_pubkey_get keyp (size_of (default [] keyp))) = Some k ->
  holding (ssl s) X ->
  exists o s', equus_local_load s = (o, s') /\ holding (ssl s') X /\
    if decide (EVP_VerifyFinal p sigp k = 1) then
      if decide (load_status p (cstr name) = 0) then
        o = Ok 1 /\ stack (L s') = LFunction (Chunk p (cstr name)) :: stack (L s)
      else o = Stop (LuaError (to_string (b:"error loading (local) equus module " ++ quote (cstr name))))
    else L s' = L s /\ o = Stop (LuaError (to_string
      (b:"error loading (local) equus module: Signature Validation Failed: " ++ quote (cstr name)))).
Proof.
  intros Hst H1 H2 H3 H4 Lp Ls Lk Lb Hk HX. apply wp_run. unfold equus_local_load. L_step.
  rewrite (wp_checkstring 1 name) by (exists 0%nat; by rewrite Hst). cbn. L_step.
  rewrite H1. rewrite decide_False by (intros Hn; by apply Hn). rewrite H2.
  rewrite decide_False by (intros Hn; by apply Hn). rewrite H3.
  rewrite decide_False by (intros Hn; by apply Hn). rewrite H4.
  rewrite decide_False by (intros Hn; by apply Hn). L_step.
  assert (forall m, Z.of_nat (length m) < 2 ^ 31 -> size_of m = Z.of_nat (length m)) as Hsz
    by (intros; unfold size_of; apply i32_small; lia).
  eapply wp_mono; [eapply wp_verify; [|exact Hk|exact HX]|].
  { unfold sized. rewrite !Hsz by done. split_and!; try lia. destruct keyp; cbn; lia. }
  intros o w (-> & Hw). cbn. L_step. rewrite !Hsz, !Nat2Z.id, !firstn_all by done.
  destruct (decide (EVP_VerifyFinal p sigp k = 1)).
  - rewrite decide_False by (intros Hn; by apply Hn). L_step. apply wp_loadbuffer_pushes. cbn. L_step.
    destruct (decide (load_status p (cstr name) = 0)) as [E|E].
    + rewrite E. rewrite decide_False by (intros Hn; by apply Hn). L_step. done.
    + rewrite decide_True by done. unfold luaL_error. L_step. done.
  - rewrite decide_True by done. unfold luaL_error. L_step. by destruct s.
Qed.

(** The loader of built-in modules answers [nil] for a name it does not
    know, the module's function when the text compiles, and a Lua error when it
    does not. *)
Theorem loader_load_spec (s : state) (name : bytes) :
  stack (L s) = [LString name] ->
  exists o s', equus_loader_load s = (o, s') /\
    if decide (has_module builtin (cstr name) = 0 /\ (get_module builtin (cstr name)).1 = 0) then
      let p := (get_module builtin (cstr name)).2 in
      if decide (load_status p (cstr name) = 0) then
        o = Ok 1 /\ stack (L s') = LFunction (Chunk p (cstr name)) :: stack (L s)
      else o = Stop (LuaError (to_string (b:"error loading equus module " ++ quote (cstr name))))
    else o = Ok 1 /\ stack (L s') = LNil :: stack (L s).
Proof.
  intros Hst. apply wp_run. unfold equus_loader_load, lua_pushnil. L_step.
  rewrite (wp_checkstring 1 name) by (exists 0%nat; by rewrite Hst). cbn. L_step.
  destruct (get_module builtin (cstr name)) as [rv p]. cbn [fst snd].
  destruct (decide (has_module builtin (cstr name) = 0 /\ rv = 0)) as [[E1 ->]|E1].
  - do 2 (rewrite decide_False by (intros Hn; by apply Hn)).
    L_step. apply wp_loadbuffer_pushes. cbn. L_step.
    destruct (decide (load_status p (cstr name) = 0)) as [E|E].
    + rewrite E. rewrite decide_False by (intros Hn; by apply Hn). L_step. done.
    + rewrite decide_True by done. unfold luaL_error. L_step. done.
  - destruct (decide (has_module builtin (cstr name) = 0)) as [E2|E2].
    + rewrite decide_False by (intros Hn; by apply Hn).
      rewrite decide_True by (intros ->; by apply E1). L_step. done.
    + rewrite decide_True by done. L_step. done.
Qed.

(** The lines of a dump: a header, then one per value from the bottom up. *)
Definition dump_lines (msg : bytes) (st : list lval) : list bytes :=
  (b:"Lua Stack Dump: " ++ cstr msg ++ b:" starting at " ++ dec (Z.of_nat (length st))) ::
  imap (fun i v => dec (Z.of_nat i + 1) ++ b:":  " ++ describe v) (rev st).

(** A stack dump logs a header and one line for each value on the stack,
    bottom first, and changes nothing on the stack; it returns no result. *)
Theorem stack_dump_spec (s : state) (msg : bytes) :
  lua_stack_dump msg s =
  (Ok tt, State (L s) (rev (dump_lines msg (stack (L s))) ++ logged s) (ssl s)).
Proof.
  enough (wp (lua_stack_dump msg) (fun o s' => (o, s') =
    (Ok tt, State (L s) (rev (dump_lines msg (stack (L s))) ++ logged s) (ssl s))) s) as H1.
  { unfold wp in H1. by destruct (lua_stack_dump msg s). }
  unfold lua_stack_dump, logErr. L_step. set (st := stack (L s)). set (vs := rev st).
  assert (length vs = length st) as Hlen by (unfold vs; by rewrite length_rev).
  set (line := fun i v => dec (Z.of_nat i + 1) ++ b:":  " ++ describe v).
  apply (wp_loop_measure _ (fun i s1 => 1 <= i <= Z.of_nat (length st) + 1 /\
    s1 = State (L s) (rev (imap line (take (Z.to_nat (i - 1)) vs)) ++
      (b:"Lua Stack Dump: " ++ cstr msg ++ b:" starting at " ++ dec (Z.of_nat (length st))) :: logged s) (ssl s))
    (fun i _ => Z.to_nat (Z.of_nat (length st) + 1 - i))).
  - intros i s1 (Hi & ->). destruct (decide (i <= Z.of_nat (length st))) as [Hle|Hgt].
    + destruct (lookup_lt_is_Some_2 vs (Z.to_nat (i - 1))) as [v Hv]; [lia|].
      L_step. rewrite (wp_at_index i v).
      2: { exists (length st - Z.to_nat i)%nat. cbn. fold st. split.
           - unfold position. by rewrite decide_True by lia.
           - rewrite <- Hv. unfold vs. rewrite lookup_rev by lia. f_equal. lia. }
      L_step. split; [|lia]. split; [lia|]. f_equal.
      replace (Z.to_nat (i + 1 - 1)) with (S (Z.to_nat (i - 1))) by lia.
      rewrite (take_S_r _ _ v) by done. rewrite imap_app, rev_app_distr. cbn.
      rewrite length_take. f_equal. unfold line. f_equal. f_equal. lia.
    + wp_simpl. f_equal. f_equal. unfold dump_lines. cbn. fold st vs line.
      rewrite <- app_assoc. cbn. rewrite take_ge by lia. done.
  - split; [lia|]. by destruct s.
  - lia.
Qed.
End Loader.

Arguments State {Key} L logged ssl.
Arguments L {Key} s.
Arguments logged {Key} s.
Arguments ssl {Key} s.

(** ** Concrete instances for the witnesses *)

Definition compiler1 : Compiler :=
  {| load_status code _ := if decide (code = b:"bad") then 3 else 0;
     load_message _ _ := b:"syntax error";
     dump_pieces code _ := [code] |}.

(** [require] of anything gives function 7 and makes the global [http_loader]. *)
Definition interpreter1 : Interpreter :=
  {| run_function _ _ l :=
       (0, LFunction (LuaFun 7), tables (add_field (globals l) (KStr "http_loader") (LTable 9) l)) |}.

Definition require1 : lfn := CFun "require".

(** A fresh state after [luaL_openlibs]: [package] is table 2, its [preload] 3,
    its [loaders] 4 with two loaders. *)
Definition lua1 : lua :=
  Lua [] {[ 1%positive := {[ KStr "package" := LTable 2; KStr "require" := LFunction require1 ]};
            2%positive := {[ KStr "preload" := LTable 3; KStr "loaders" := LTable 4 ]};
            3%positive := ∅;
            4%positive := {[ KNum 1 := LFunction (CFun "preload_loader");
                             KNum 2 := LFunction (CFun "path_loader") ]} ]} 1.

Definition state1 : state bytes := State lua1 [] (World empty_heap []).

Lemma sequence1 : is_sequence 2 (table lua1 4).
Proof.
  split; [lia|]. split; intros i Hi.
  - assert (i = 1 \/ i = 2) as [->| ->] by lia; vm_compute; eauto.
  - change (table lua1 4) with ({[ KNum 1 := LFunction (CFun "preload_loader");
      KNum 2 := LFunction (CFun "path_loader") ]} : gmap lkey lval).
    rewrite lookup_insert_ne by (intros [=]; lia). apply lookup_singleton_ne. intros [=]; lia.
Qed.

(** The module is new: its global does not overwrite one. *)
Lemma require1_gives l ts r :
  globals l <> r -> tables l !! globals l ≫= (.!! KStr "http_loader") = None ->
  @require_gives interpreter1 require1 (LFunction (LuaFun 7)) ts r l.
Proof.
  intros Hr Hnew. split; [discriminate|]. intros st. eexists. split; [reflexivity|]. cbn. split.
  - intros t _. unfold table. destruct (decide (globals l = t)) as [<-|Ht]; [|by rewrite lookup_insert_ne].
    rewrite lookup_insert_eq. cbn. apply insert_subseteq. by destruct (tables l !! globals l).
  - unfold table. by rewrite lookup_insert_ne.
Qed.

Lemma loaders_installed_witness :
  exists s', luaopen_equus_loader (H0 := interpreter1) bytes (Build false false) state1 = (Ok 0, s') /\
    stack (L s') = [] /\
    table (L s') 4 = <[KNum 4 := LFunction (LuaFun 7)]>
      (<[KNum 3 := LFunction (CFun "equus_loader_load")]> (table lua1 4)) /\
    (forall name fn, (name, fn) ∈ registered (Build false false) ->
       field (L s') 1 (KStr name) = LFunction (CFun fn)) /\
    (forall name fn, (name, fn) ∈ preloaded (Build false false) ->
       field (L s') 3 (KStr name) = LFunction (CFun fn)).
Proof.
  apply (loaders_installed (H0 := interpreter1) bytes (Build false false) state1
    1 2 3 4 2 require1 (LFunction (LuaFun 7))); try reflexivity.
  - by_decide.
  - apply sequence1.
  - intros _. apply require1_gives; [discriminate|reflexivity].
Defined.

Definition dev1 : localdev :=
  Localdev (Blob (fun n => if decide (n = b:"mod") then 0 else 1) (fun _ => (0, b:"return 1")))
    (fun _ => (0, b:"return 1K")) (fun _ => (0, Some (b:"K"))).

Lemma local_load_only_verified_witness :
  let s := State (with_stack [LString (b:"mod")] lua1) [] (World empty_heap []) in
  exists o s', equus_local_load (H := compiler1) bytes Some toy_final (b:"built in") dev1 s = (o, s') /\
    holding (ssl s') [] /\ o = Ok 1 /\
    stack (L s') = [LFunction (Chunk (b:"return 1") (b:"mod")); LString (b:"mod")].
Proof.
  intros s. apply (local_load_only_verified (H := compiler1) bytes Some toy_final (b:"built in") dev1 s
    (b:"mod") (b:"return 1") (b:"return 1K") (Some (b:"K")) (b:"K") []); try reflexivity.
  apply owns_empty.
Defined.

Lemma loader_load_spec_witness :
  let s := State (with_stack [LString (b:"mod")] lua1) [] (World empty_heap []) in
  exists o s', equus_loader_load (H := compiler1) bytes (dev_blob dev1) s = (o, s') /\
    o = Ok 1 /\ stack (L s') = [LFunction (Chunk (b:"return 1") (b:"mod")); LString (b:"mod")].
Proof.
  intros s. apply (loader_load_spec (H := compiler1) bytes (dev_blob dev1) s (b:"mod")). reflexivity.
Defined.
