(* ===== verification/ExecUnix.v ===== *)
(** * Running a command on POSIX systems

    [equus_portable.c], lines 269-463: [equus_exec_call_unix_core] forks, runs a
    command given as a Lua table, collects what it writes on its two output
    streams and returns it with the exit status.  The kernel's answers are given
    in advance as lists, one per kind of system call; a call with no answer left
    never returns. *)

From S2P Require Import Prelude CString Heap Lua.
Open Scope Z_scope.

(** What a file descriptor refers to. *)
Inductive file : Type :=
| OutR | OutW            (** the pipe for the child's standard output *)
| ErrR | ErrW            (** the pipe for its standard error *)
| Other (n : nat).

Inductive readres : Type :=
| Data (d : bytes)       (** end of file when empty *)
| ReadErr (e : Z).

(** One [select]: an error, or which of the two pipes are readable and what the
    [read] that follows answers. *)
Inductive round : Type :=
| SelErr (e : Z)
| Ready (out err : option readres).

Record kernel : Type := Kernel {
  pipe_answers : list (Z * Z + Z);         (** descriptors, or an [errno] *)
  fork_answer : Z + Z;                     (** a process identifier, or an [errno] *)
  exec_error : option Z;                   (** [None]: [execvp] succeeds *)
  rounds : list round;
  waits : list (Z * Z + Z)                 (** process and status, or an [errno] *)
}.

Record state : Type := State {
  L : lua;
  mem : heap bytes;                        (** the strings of [argv] *)
  fds : gmap Z file;
  opts : gmap Z Z;                         (** the status flags of the descriptors *)
  errno : Z;
  kern : kernel;
  logged : list bytes;                     (** lines handed to [logCrit], last first *)
  printed : list bytes                     (** written on the child's [stderr] *)
}.

Definition EAGAIN : Z := 11.
Definition EINTR : Z := 4.
Definition EBADF : Z := 9.
Definition O_NONBLOCK : Z := 2048.
Definition FD_SETSIZE : Z := 1024.
Definition EQUUS_MAX_ARGC : nat := 64%nat.

Definition with_L (l : lua) (s : state) : state :=
  State l (mem s) (fds s) (opts s) (errno s) (kern s) (logged s) (printed s).
Definition with_mem (m : heap bytes) (s : state) : state :=
  State (L s) m (fds s) (opts s) (errno s) (kern s) (logged s) (printed s).
Definition with_fds (f : gmap Z file) (s : state) : state :=
  State (L s) (mem s) f (opts s) (errno s) (kern s) (logged s) (printed s).
Definition with_opts (f : gmap Z Z) (s : state) : state :=
  State (L s) (mem s) (fds s) f (errno s) (kern s) (logged s) (printed s).
Definition with_errno (e : Z) (s : state) : state :=
  State (L s) (mem s) (fds s) (opts s) e (kern s) (logged s) (printed s).
Definition with_kern (k : kernel) (s : state) : state :=
  State (L s) (mem s) (fds s) (opts s) (errno s) k (logged s) (printed s).

Definition on_L {A} (m : C lua A) : C state A := zoom L with_L m.
Definition on_mem {A} (m : C (heap bytes) A) : C state A := zoom mem with_mem m.
Definition logCrit (line : bytes) : C state unit :=
  modify (fun s => State (L s) (mem s) (fds s) (opts s) (errno s) (kern s) (line :: logged s) (printed s)).
Definition print_stderr (t : bytes) : C state unit :=
  modify (fun s => State (L s) (mem s) (fds s) (opts s) (errno s) (kern s) (logged s) (t :: printed s)).
Definition set_errno (e : Z) : C state unit := modify (with_errno e).

Definition with_pipes (l : list (Z * Z + Z)) (k : kernel) : kernel :=
  Kernel l (fork_answer k) (exec_error k) (rounds k) (waits k).
Definition with_rounds (l : list round) (k : kernel) : kernel :=
  Kernel (pipe_answers k) (fork_answer k) (exec_error k) l (waits k).
Definition with_waits (l : list (Z * Z + Z)) (k : kernel) : kernel :=
  Kernel (pipe_answers k) (fork_answer k) (exec_error k) (rounds k) l.

Section Exec.
(** The order in which [lua_next] visits a table, and the text of an [errno]. *)
Variable traverse : gmap lkey lval -> list (lkey * lval).
Variable strerror : Z -> bytes.

(** ** System calls *)

(** [pipe]: the two ends become descriptors; [None] stands for -1. *)
Definition pipe (r w : file) : C state (option (Z * Z)) :=
  let! k := gets kern in
  match pipe_answers k with
  | [] => stop Blocked
  | inl (a, b) :: l =>
      modify (with_kern (with_pipes l k)) ;;;
      modify (fun s => with_fds (<[a := r]> (<[b := w]> (fds s))) s) ;;;
      modify (fun s => with_opts (<[a := 0]> (<[b := 0]> (opts s))) s) ;;;
      ret (Some (a, b))
  | inr e :: l =>
      modify (with_kern (with_pipes l k)) ;;;
      set_errno e ;;;
      ret None
  end.

Definition close (fd : Z) : C state unit :=
  let! f := gets fds in
  match f !! fd with
  | Some _ => modify (with_fds (delete fd f))
  | None => set_errno EBADF
  end.

Definition dup2 (a b : Z) : C state unit :=
  let! f := gets fds in
  match f !! a with
  | Some x => modify (with_fds (<[b := x]> f))
  | None => set_errno EBADF
  end.

(** [fcntl] with [F_GETFL] and [F_SETFL]; -1 on a descriptor that is not open. *)
Definition getfl (fd : Z) : C state Z :=
  let! s := get in
  match fds s !! fd with
  | Some _ => ret (default 0 (opts s !! fd))
  | None => set_errno EBADF ;;; ret (-1)
  end.

Definition setfl (fd flags : Z) : C state unit :=
  let! s := get in
  match fds s !! fd with
  | Some _ => modify (with_opts (<[fd := flags]> (opts s)))
  | None => set_errno EBADF
  end.

Definition select : C state round :=
  let! k := gets kern in
  match rounds k with
  | [] => stop Blocked
  | r :: l =>
      modify (with_kern (with_rounds l k)) ;;;
      match r with SelErr e => set_errno e ;;; ret r | Ready _ _ => ret r end
  end.

Definition waitpid : C state (option (Z * Z)) :=
  let! k := gets kern in
  match waits k with
  | [] => stop Blocked
  | inl a :: l => modify (with_kern (with_waits l k)) ;;; ret (Some a)
  | inr e :: l => modify (with_kern (with_waits l k)) ;;; set_errno e ;;; ret None
  end.

(** ** Operations *)

(** The strings of [argv] are freed, the failure is logged and raised. *)
Definition pluaerror {A} (function : bytes) (err : Z) (argv : list ptr) : C state A :=
  let! n := loop (S (length argv)) (fun x =>
    match argv !! x with
    | Some p => on_mem (free p) ;;; ret (inl (S x))
    | None => ret (inr x)
    end) 0%nat in
  let msg := b:"Failed to call " ++ function ++ b:": (" ++ dec err ++ b:") " ++
             take 255 (strerror err) ++ b:")" in
  logCrit msg ;;;
  luaL_error msg.

(** The values of the table at index 1, at most 63 of them, copied. *)
Definition val_of_key (k : lkey) : lval :=
  match k with KNum z => LNumber z | KStr s => LString (of_string s) | KUser p => LUserdata p end.

Definition collect_argv (t : positive) : C state (list ptr) :=
  let! tb := on_L (gets (fun l => default ∅ (tables l !! t))) in
  on_L lua_pushnil ;;;
  loop (S (length (traverse tb))) (fun c =>
    let '(rest, argv) := c in
    on_L pop1 ;;;
    match rest with
    | [] => ret (inr argv)
    | (k, v) :: rest' =>
        on_L (push (val_of_key k)) ;;;
        on_L (push v) ;;;
        if decide (length argv < EQUUS_MAX_ARGC - 1)%nat then
          let! arg := on_L (luaL_checkstring (-1)) in
          on_L pop1 ;;;
          let! p := on_mem (malloc (cstr arg ++ [NUL])) in
          ret (inl (rest', argv ++ [p]))
        else ret (inr argv)
    end) (traverse tb, []).

Fixpoint load_args (argv : list ptr) : C state (list bytes) :=
  match argv with
  | [] => ret []
  | p :: argv' =>
      let! t := on_mem (load p) in
      let! r := load_args argv' in
      ret (cstr t :: r)
  end.

Definition setnonblocking (fd : Z) : C state unit :=
  let! opts := getfl fd in
  let opts := Z.lor opts O_NONBLOCK in
  setfl fd opts.

(** A [read] with nothing to deliver answers [EAGAIN] where the descriptor does
    not block, and never returns where it does. *)
Definition blocks_on (fd : Z) (e : Z) : C state bool :=
  gets (fun s => bool_decide (e = EAGAIN) && negb (Z.testbit (default 0 (opts s !! fd)) 11)).

(** The child's side of the fork. *)
Definition child (argv : list ptr) (out err : Z * Z) : C state Z :=
  close 0 ;;;
  close out.1 ;;;
  dup2 out.2 1 ;;;
  close out.2 ;;;
  close err.1 ;;;
  dup2 err.2 2 ;;;
  close err.2 ;;;
  let! args := load_args argv in
  let! k := gets kern in
  match exec_error k with
  | None => stop (Execed args)
  | Some e =>
      print_stderr (strerror e) ;;;
      stop (Exited 1)
  end.

Definition check_fd (fd : Z) : C state unit :=
  if decide (fd = -1 \/ 0 <= fd < FD_SETSIZE) then ret tt
  else stop (Undefined "FD_SET outside the set").

(** One of the two symmetric blocks of the loop: [fd] is the local variable. *)
Definition drain_pipe (name : bytes) (argv : list ptr) (fd : Z) (ready : option readres) : C state Z :=
  match ready with
  | Some a =>
      if decide (fd <> -1) then
        match a with
        | Data d =>
            let d := take 1023 d in
            if decide (d = []) then close fd ;;; ret (-1)
            else
              on_L (lua_pushlstring d) ;;;
              on_L lua_concat2 ;;;
              ret fd
        | ReadErr e =>
            let! forever := blocks_on fd e in
            if forever : bool then stop Blocked
            else
            set_errno e ;;;
            if decide (e <> EAGAIN) then
              close fd ;;;
              pluaerror name e argv
            else ret fd
        end
      else ret fd
  | None => ret fd
  end.

Definition pump_round (argv : list ptr) (p : Z * Z) : C state (Z * Z + unit) :=
  let '(out, err) := p in
  if decide (out = -1 /\ err = -1) then ret (inr tt)
  else
    check_fd out ;;;
    check_fd err ;;;
    let! r := select in
    match r with
    | SelErr _ =>
        let! e := gets errno in
        if decide (e <> EINTR) then
          close err ;;;
          close out ;;;
          let! e := gets errno in
          pluaerror (b:"select") e argv
        else ret (inl (out, err))
    | Ready a b =>
        let! out := drain_pipe (b:"child read stdout") argv out a in
        let! err := drain_pipe (b:"child read stderr") argv err b in
        ret (inl (out, err))
    end.

Definition WIFEXITED (st : Z) : bool := bool_decide (Z.land st 127 = 0).
Definition WEXITSTATUS (st : Z) : Z := Z.land (Z.shiftr st 8) 255.

Definition wait_round (argv : list ptr) (pid : Z) (u : unit) : C state (unit + unit) :=
  let! w := waitpid in
  match w with
  | None => let! e := gets errno in pluaerror (b:"waitpid") e argv
  | Some (p, st) =>
      if decide (p <> pid) then ret (inl tt)
      else
        let exit_code := if WIFEXITED st then WEXITSTATUS st else 255 in
        on_L (lua_pushinteger exit_code) ;;;
        ret (inr tt)
  end.

(** The parent's side. *)
Definition parent (argv : list ptr) (out err : Z * Z) (pid : Z) : C state Z :=
  close out.2 ;;;
  close err.2 ;;;
  setnonblocking out.1 ;;;
  setnonblocking err.1 ;;;
  on_L (lua_pushlstring []) ;;;
  let! k := gets kern in
  loop (S (length (rounds k))) (pump_round argv) (out.1, err.1) ;;;
  let! k := gets kern in
  loop (S (length (waits k))) (wait_round argv pid) tt ;;;
  ret 2.

Definition equus_exec_call_unix_core : C state Z :=
  let! t := on_L (at_index 1 (fun v => match v with
    | LTable t => ret t
    | _ => luaL_error (b:"table expected")
    end)) in
  let! argv := collect_argv t in
  let! out := pipe OutR OutW in
  match out with
  | None => let! e := gets errno in pluaerror (b:"pipe::stdout") e argv
  | Some out =>
      let! err := pipe ErrR ErrW in
      match err with
      | None => let! e := gets errno in pluaerror (b:"pipe::stderr") e argv
      | Some err =>
          let! k := gets kern in
          match fork_answer k with
          | inr e => set_errno e ;;; pluaerror (b:"fork") e argv
          | inl pid => if decide (pid = 0) then child argv out err else parent argv out err pid
          end
      end
  end.

#[local] Arguments pluaerror : simpl never.
#[local] Arguments drain_pipe : simpl never.
#[local] Arguments close : simpl never.
#[local] Arguments EQUUS_MAX_ARGC : simpl never.
#[local] Arguments take : simpl never.

(** ** What the command's output is *)

(** One pipe in one round: whether it is still open and what was read; [None]
    when the read fails for good. *)
Definition read_spec (o : bool) (ready : option readres) : option (bool * bytes) :=
  if o then
    match ready with
    | None => Some (true, [])
    | Some (Data d) => Some (bool_decide (take 1023 d <> []), take 1023 d)
    | Some (ReadErr e) => if decide (e = EAGAIN) then Some (true, []) else None
    end
  else Some (false, []).

(** Everything read until both pipes are at end of file. *)
Fixpoint drive (o e : bool) (rs : list round) : option bytes :=
  if o || e then
    match rs with
    | [] => None
    | SelErr er :: rs' => if decide (er = EINTR) then drive o e rs' else None
    | Ready a b :: rs' =>
        match read_spec o a, read_spec e b with
        | Some (o', d1), Some (e', d2) =>
            match drive o' e' rs' with Some d => Some (d1 ++ d2 ++ d) | None => None end
        | _, _ => None
        end
    end
  else Some [].

(** The exit code of [pid] among the answers of [waitpid]. *)
Fixpoint wait_spec (pid : Z) (ws : list (Z * Z + Z)) : option Z :=
  match ws with
  | inl (p, st) :: ws' =>
      if decide (p = pid) then Some (if WIFEXITED st then WEXITSTATUS st else 255)
      else wait_spec pid ws'
  | _ => None
  end.

(** ** Rules *)

(** Nothing but the Lua state, the descriptors, [errno] and the kernel moved. *)
Definition frame (s s' : state) : Prop :=
  mem s' = mem s /\ logged s' = logged s /\ printed s' = printed s.

Lemma frame_refl s : frame s s. Proof. done. Qed.
Lemma frame_trans s1 s2 s3 : frame s1 s2 -> frame s2 s3 -> frame s1 s3.
Proof. intros (? & ? & ?) (? & ? & ?). unfold frame. split_and!; congruence. Qed.

Ltac sys_step := unfold on_L, on_mem, set_errno, lua_pushlstring, lua_pushinteger, push; wp_simpl.

Lemma wp_close_open fd x (Q : outcome unit -> state -> Prop) s :
  fds s !! fd = Some x -> Q (Ok tt) (with_fds (delete fd (fds s)) s) -> wp (close fd) Q s.
Proof. intros Hf HQ. unfold close. sys_step. rewrite Hf. by sys_step. Qed.

Definition opened (o : bool) (a : Z) (x : file) (F : gmap Z file) : gmap Z file :=
  if o then <[a := x]> F else F.
Definition var (o : bool) (a : Z) : Z := if o then a else -1.

Lemma wp_concat_push d acc st (Q : outcome unit -> lua -> Prop) l :
  stack l = LString acc :: st ->
  Q (Ok tt) (with_stack (LString (acc ++ d) :: st) l) ->
  wp (lua_pushlstring d) (then_post (fun _ => lua_concat2) Q) l.
Proof.
  intros Hs HQ. unfold lua_pushlstring, lua_concat2, pop1, push. wp_simpl. rewrite Hs. by wp_simpl.
Qed.

(** The descriptor is set not to block. *)
Definition nonblocking (fd : Z) (s : state) : Prop := Z.testbit (default 0 (opts s !! fd)) 11 = true.

Lemma wp_setnonblocking fd x (Q : outcome unit -> state -> Prop) s :
  fds s !! fd = Some x ->
  (forall f, Z.testbit f 11 = true -> Q (Ok tt) (with_opts (<[fd := f]> (opts s)) s)) -> wp (setnonblocking fd) Q s.
Proof.
  intros Hf HQ. unfold setnonblocking, getfl, setfl. sys_step. rewrite Hf. sys_step. rewrite Hf. sys_step.
  apply HQ. by rewrite Z.lor_spec, orb_true_r.
Qed.

Lemma wp_drain nm argv o a x ready o' d F acc st (Q : outcome Z -> state -> Prop) s :
  read_spec o ready = Some (o', d) -> F !! a = None -> a <> -1 ->
  fds s = opened o a x F -> nonblocking a s -> stack (L s) = LString acc :: st ->
  (forall s', fds s' = opened o' a x F -> stack (L s') = LString (acc ++ d) :: st ->
     kern s' = kern s -> opts s' = opts s -> frame s s' -> Q (Ok (var o' a)) s') ->
  wp (drain_pipe nm argv (var o a) ready) Q s.
Proof.
  intros Hr HF Ha Hfds Hnb Hst HQ. unfold drain_pipe.
  destruct o; cbn [var read_spec opened] in *.
  2: { injection Hr as <- <-. destruct ready; rewrite ?decide_False by (intros Hn; by apply Hn);
       wp_simpl; (apply HQ; [done| |done..]); by rewrite app_nil_r. }
  destruct ready as [[r|er]|].
  - injection Hr as <- <-. rewrite decide_True by done. destruct (decide (take 1023 r = [])) as [E|E].
    + rewrite E in *. wp_simpl. eapply wp_close_open; [rewrite Hfds; apply lookup_insert_eq|].
      cbn. wp_simpl. rewrite bool_decide_false in HQ by (intros Hn; by apply Hn). apply HQ; [|by rewrite app_nil_r|done..].
      cbn. rewrite Hfds. by rewrite delete_insert_id.
    + rewrite bool_decide_true in HQ by done. unfold on_L. wp_simpl. unfold lua_concat2, pop1, push, lua_pushlstring, push.
      wp_simpl. rewrite Hst. wp_simpl. by apply HQ.
  - rewrite decide_True by done. destruct (decide (er = EAGAIN)) as [->|E]; [|done].
    injection Hr as <- <-. unfold blocks_on. sys_step. rewrite Hnb. cbn. sys_step.
    rewrite decide_False by (intros Hn; by apply Hn). sys_step.
    apply HQ; [done|by rewrite app_nil_r|done..].
  - injection Hr as <- <-. wp_simpl. apply HQ; [done|by rewrite app_nil_r|done..].
Qed.

Lemma wp_check_fd o a (Q : outcome unit -> state -> Prop) s :
  0 <= a < FD_SETSIZE -> Q (Ok tt) s -> wp (check_fd (var o a)) Q s.
Proof.
  intros Ha HQ. unfold check_fd. rewrite decide_True; [done|]. destruct o; cbn; lia.
Qed.

Lemma pump_spec argv a b F st rs : forall o e fuel acc d s,
  drive o e rs = Some d -> rounds (kern s) = rs ->
  stack (L s) = LString acc :: st ->
  0 <= a < FD_SETSIZE -> 0 <= b < FD_SETSIZE -> a <> b -> F !! a = None -> F !! b = None ->
  fds s = opened o a OutR (opened e b ErrR F) -> nonblocking a s -> nonblocking b s -> (length rs < fuel)%nat ->
  wp (loop fuel (pump_round argv) (var o a, var e b))
     (fun r s' => r = Ok tt /\ fds s' = F /\ stack (L s') = LString (acc ++ d) :: st /\
        waits (kern s') = waits (kern s) /\ frame s s') s.
Proof.
  intros o e fuel. revert o e fuel.
  induction rs as [|r rs IH]; intros o e [|fuel] acc d s Hd Hk Hst Ha Hb Hab HFa HFb Hfds Hna Hnb Hf;
    try (cbn in Hf; lia); rewrite loop_S; wp_simpl; unfold pump_round.
  - destruct o, e; try done. cbn in Hd. injection Hd as <-. cbn in *. wp_simpl.
    split_and!; [done|done|by rewrite app_nil_r|done..].
  - destruct (o || e) eqn:Hoe; cbn [drive] in Hd; rewrite Hoe in Hd.
    2: { destruct o, e; try done. injection Hd as <-. cbn in *. wp_simpl.
         split_and!; [done|done|by rewrite app_nil_r|done..]. }
    rewrite decide_False by (unfold FD_SETSIZE in *; destruct o, e; cbn in *; (lia || done)).
    wp_simpl. apply wp_check_fd; [done|]. cbn. wp_simpl. apply wp_check_fd; [done|]. cbn. wp_simpl.
    unfold select. wp_simpl. rewrite Hk. destruct r as [er|ra rb]; sys_step.
    + destruct (decide (er = EINTR)) as [->|]; [|done].
      rewrite decide_False by (intros Hn; by apply Hn). sys_step.
      eapply wp_mono; [eapply (IH o e); try done; cbn in Hf |- *; lia|]. intros r' s' (-> & H1 & H2 & H3 & H4).
      done.
    + destruct (read_spec o ra) as [[o' d1]|] eqn:E1; [|done].
      destruct (read_spec e rb) as [[e' d2]|] eqn:E2; [|done].
      destruct (drive o' e' rs) as [d3|] eqn:E3; [|done]. injection Hd as <-.
      eapply (wp_drain _ _ o a OutR); [exact E1| | |exact Hfds|exact Hna|exact Hst|].
      { destruct e; cbn; [by rewrite lookup_insert_ne|done]. }
      { lia. }
      intros s1 Hfds1 Hst1 Hk1 Hop1 Hfr1. cbn. wp_simpl.
      eapply (wp_drain _ _ e b ErrR rb e' d2 (opened o' a OutR F)); [exact E2| | | |by unfold nonblocking; rewrite Hop1|exact Hst1|].
      { destruct o'; cbn; [by rewrite lookup_insert_ne|done]. }
      { lia. }
      { rewrite Hfds1. destruct o', e; cbn; (done || by rewrite insert_insert_ne). }
      intros s2 Hfds2 Hst2 Hk2 Hop2 Hfr2. cbn. wp_simpl.
      eapply wp_mono; [eapply (IH o' e'); try done|].
      * rewrite Hk2, Hk1. done.
      * rewrite Hfds2. destruct o', e'; cbn; (done || by rewrite insert_insert_ne).
      * unfold nonblocking. by rewrite Hop2, Hop1.
      * unfold nonblocking. by rewrite Hop2, Hop1.
      * cbn in Hf. lia.
      * intros r' s' (-> & H1 & H2 & H3 & H4). split; [done|]. split; [done|].
        split; [by rewrite H2, <- !app_assoc|]. rewrite Hk2, Hk1 in H3. split; [done|].
        eapply frame_trans; [|exact H4]. eapply frame_trans; [|exact Hfr2]. exact Hfr1.
Qed.

Lemma wait_loop argv pid st ws : forall fuel c s,
  wait_spec pid ws = Some c -> waits (kern s) = ws -> stack (L s) = st -> (length ws < fuel)%nat ->
  wp (loop fuel (wait_round argv pid) tt)
     (fun r s' => r = Ok tt /\ stack (L s') = LNumber c :: st /\ fds s' = fds s /\ frame s s') s.
Proof.
  induction ws as [|w ws IH]; intros [|fuel] c s Hw Hk Hst Hf; try (cbn in Hf; lia); [done|].
  rewrite loop_S. wp_simpl. unfold wait_round, waitpid. wp_simpl. rewrite Hk.
  destruct w as [[p x]|er]; [|done]. cbn [wait_spec] in Hw. sys_step.
  destruct (decide (p = pid)) as [->|Hp].
  - injection Hw as <-. rewrite decide_False by (intros Hn; by apply Hn).
    unfold lua_pushinteger. sys_step. rewrite Hst. done.
  - rewrite decide_True by done. wp_simpl.
    eapply wp_mono; [eapply (IH _ c); [done|done|done|cbn in Hf; lia]|]. done.
Qed.

(** The blocks of [argv]: one C string each. *)
Definition strings (locs : list positive) (args : list bytes) : list (positive * bytes) :=
  zip locs ((fun a => cstr a ++ [NUL]) <$> args).

Lemma strings_snoc locs args l a :
  length locs = length args ->
  strings (locs ++ [l]) (args ++ [a]) = strings locs args ++ [(l, cstr a ++ [NUL])].
Proof.
  intros Hlen. unfold strings. rewrite fmap_app. cbn. rewrite zip_with_app; [done|].
  by rewrite length_fmap.
Qed.

Lemma strings_cons l locs a args : strings (l :: locs) (a :: args) = (l, cstr a ++ [NUL]) :: strings locs args.
Proof. done. Qed.

(** What a table's values are as text, in the order of the traversal. *)
Definition texts (tb : gmap lkey lval) (args : list bytes) : Prop :=
  Forall2 (fun kv a => to_text kv.2 = Some a) (traverse tb) args.

Definition with_stack_L (st : list lval) (s : state) : state := with_L (with_stack st (L s)) s.

Lemma wp_checkstring_top v a st (Q : outcome bytes -> lua -> Prop) l :
  stack l = v :: st -> to_text v = Some a ->
  (forall v', Q (Ok a) (with_stack (v' :: st) l)) -> wp (luaL_checkstring (-1)) Q l.
Proof.
  intros Hs Ht HQ. unfold luaL_checkstring, lua_tolstring. wp_simpl.
  rewrite (wp_at_index _ v) by (eapply (holds_top _ 0); [by rewrite Hs|done]).
  destruct v; try done; cbn in Ht; injection Ht as <-; wp_simpl.
  - rewrite Hs. replace (position (LNumber z :: st) (-1)) with (Some 0%nat).
    + wp_simpl. apply HQ.
    + unfold position. rewrite decide_False by (cbn; lia). rewrite decide_True by (cbn; lia). done.
  - specialize (HQ (LString s)). destruct l; cbn in *. by subst.
Qed.

Lemma collect_loop X st rest : forall fuel ts locs args k0 s,
  Forall2 (fun kv a => to_text kv.2 = Some a) rest ts ->
  stack (L s) = k0 :: st -> length locs = length args -> (length locs <= 63)%nat ->
  owns (mem s) (strings locs args ++ X) -> (length rest < fuel)%nat ->
  wp (loop fuel (fun c : list (lkey * lval) * list ptr =>
    let '(rest, argv) := c in
    on_L pop1 ;;;
    match rest with
    | [] => ret (inr argv)
    | (k, v) :: rest' =>
        on_L (push (val_of_key k)) ;;;
        on_L (push v) ;;;
        if decide (length argv < EQUUS_MAX_ARGC - 1)%nat then
          let! arg := on_L (luaL_checkstring (-1)) in
          on_L pop1 ;;;
          let! p := on_mem (malloc (cstr arg ++ [NUL])) in
          ret (inl (rest', argv ++ [p]))
        else ret (inr argv)
    end) (rest, Some <$> locs))
    (fun o s' => exists locs' extra h, o = Ok (Some <$> locs') /\
       length locs' = length (take 63 (args ++ ts)) /\
       owns h (strings locs' (take 63 (args ++ ts)) ++ X) /\
       s' = with_mem h (with_stack_L (extra ++ st) s)) s.
Proof.
  induction rest as [|[k v] rest IH]; intros [|fuel] ts locs args k0 s Hts Hst Hlen H63 Ho Hf;
    try (cbn in Hf; lia); rewrite loop_S; unfold on_L, pop1; wp_simpl; rewrite Hst; wp_simpl.
  - apply Forall2_nil_inv_l in Hts as ->. exists locs, [], (mem s).
    rewrite app_nil_r, take_ge by lia. split_and!; [done|done|done|by destruct s].
  - apply Forall2_cons_inv_l in Hts as (a & ts' & Hv & Hts & ->). cbn in Hv.
    unfold push. wp_simpl. rewrite length_fmap.
    destruct (decide (length locs < EQUUS_MAX_ARGC - 1)%nat) as [Hlt|Hge].
    + change (EQUUS_MAX_ARGC - 1)%nat with 63%nat in Hlt. wp_simpl.
      eapply wp_checkstring_top; [reflexivity|exact Hv|]. intros v'. cbn. wp_simpl.
      unfold on_mem. wp_simpl. eapply wp_malloc; [exact Ho|]. intros l h Hh. cbn. wp_simpl.
      replace ((Some <$> locs) ++ [Some l]) with (Some <$> (locs ++ [l])) by by rewrite fmap_app.
      eapply wp_mono; [eapply (IH fuel ts' (locs ++ [l]) (args ++ [a]) (val_of_key k)); try done|].
      * rewrite !length_app. cbn. lia.
      * rewrite length_app. cbn. lia.
      * rewrite strings_snoc by done. cbn. reorder Hh.
      * cbn in Hf. lia.
      * intros o s' (locs' & extra & h' & -> & H1 & H2 & ->). rewrite <- app_assoc in H1, H2. cbn in H1, H2.
        exists locs', extra, h'. split_and!; [done|done|done|by destruct s].
    + change (EQUUS_MAX_ARGC - 1)%nat with 63%nat in Hge. wp_simpl.
      exists locs, [v; val_of_key k], (mem s).
      replace (take 63 (args ++ a :: ts')) with args.
      * split_and!; [done|done|done|by destruct s].
      * rewrite take_app_le by lia. by rewrite take_ge by lia.
Qed.

Lemma wp_collect X t args st s :
  texts (default ∅ (tables (L s) !! t)) args -> stack (L s) = st -> owns (mem s) X ->
  wp (collect_argv t)
    (fun o s' => exists locs extra h, o = Ok (Some <$> locs) /\
       length locs = length (take 63 args) /\
       owns h (strings locs (take 63 args) ++ X) /\
       s' = with_mem h (with_stack_L (extra ++ st) s)) s.
Proof.
  intros Ht Hst Ho. unfold collect_argv, lua_pushnil. sys_step.
  eapply wp_mono; [eapply (collect_loop X st _ _ args [] [] LNil); try done; cbn; try lia|].
  - by rewrite Hst.
  - intros o s' (locs & extra & h & -> & H1 & H2 & ->). exists locs, extra, h.
    split_and!; [done|done|done|by destruct s].
Qed.

(** Every error path frees [argv] and raises an error. *)
Lemma free_argv_loop X : forall args locs pre fuel s,
  length locs = length args -> owns (mem s) (strings locs args ++ X) -> (length locs < fuel)%nat ->
  wp (loop fuel (fun x : nat =>
    match (Some <$> (pre ++ locs)) !! x with
    | Some p => on_mem (free p) ;;; ret (inl (S x))
    | None => ret (inr x)
    end) (length pre)) (fun o s' => o = Ok (length (pre ++ locs)) /\ exists h, owns h X /\ s' = with_mem h s) s.
Proof.
  induction args as [|a args IH]; intros [|l locs] pre [|fuel] s Hlen Ho Hf; try (cbn in Hlen, Hf; lia);
    rewrite loop_S; wp_simpl.
  - rewrite list_lookup_fmap, app_nil_r. rewrite lookup_ge_None_2 by lia. cbn. wp_simpl.
    split; [done|]. exists (mem s). split; [done|by destruct s].
  - rewrite list_lookup_fmap, list_lookup_middle by done. cbn. unfold on_mem. wp_simpl.
    eapply wp_free; [exact Ho|]. intros h Hh. cbn. wp_simpl.
    pose proof (IH locs (pre ++ [l]) fuel (with_mem h s)) as IH1.
    rewrite <- (app_assoc pre [l] locs), length_app in IH1. cbn in IH1.
    rewrite Nat.add_1_r in IH1. eapply wp_mono; [apply IH1|]; [cbn in Hlen; lia|done|cbn in Hf; lia|].
    intros o s' (-> & h' & Hh' & ->). split; [done|]. by exists h'.
Qed.

Definition error_text (function : bytes) (err : Z) : bytes :=
  b:"Failed to call " ++ function ++ b:": (" ++ dec err ++ b:") " ++ take 255 (strerror err) ++ b:")".

Lemma wp_pluaerror {A} fn e locs args X (Q : outcome A -> state -> Prop) s :
  length locs = length args -> owns (mem s) (strings locs args ++ X) ->
  (forall h, owns h X ->
     Q (Stop (LuaError (to_string (error_text fn e))))
       (State (L s) h (fds s) (opts s) (errno s) (kern s) (error_text fn e :: logged s) (printed s))) ->
  wp (pluaerror fn e (Some <$> locs)) Q s.
Proof.
  intros Hlen Ho HQ. unfold pluaerror. wp_simpl.
  eapply wp_mono; [apply (free_argv_loop X args locs [] _ s); [done|exact Ho|]|].
  { rewrite length_fmap. lia. }
  intros o s' (-> & h & Hh & ->). cbn. unfold logCrit, luaL_error. wp_simpl. by apply HQ.
Qed.

(** ** The two sides of the fork *)

(** Four descriptors the kernel hands out, unused before and small enough for an
    [fd_set]. *)
Definition fresh_fds (s : state) (l : list Z) : Prop :=
  NoDup l /\ forall fd, fd ∈ l -> fds s !! fd = None /\ 0 <= fd < FD_SETSIZE.

Definition piped (a a' b b' : Z) (F : gmap Z file) : gmap Z file :=
  <[b := ErrR]> (<[b' := ErrW]> (<[a := OutR]> (<[a' := OutW]> F))).

Ltac map_cases := apply map_eq; intros ?i; rewrite ?lookup_insert, ?lookup_delete;
  repeat (case_decide; rewrite ?lookup_insert, ?lookup_delete); first [congruence | lia].

Lemma wp_parent argv a a' b b' pid out code s0 s :
  fresh_fds s0 [a; a'; b; b'] -> fds s = piped a a' b b' (fds s0) ->
  drive true true (rounds (kern s)) = Some out -> wait_spec pid (waits (kern s)) = Some code ->
  wp (parent argv (a, a') (b, b') pid)
     (fun o s' => o = Ok 2 /\ stack (L s') = LNumber code :: LString out :: stack (L s) /\
        fds s' = fds s0 /\ frame s s') s.
Proof.
  intros [Hnd Hf] Hfds Hd Hw. unfold parent.
  assert (forall x y, x ∈ [a; a'; b; b'] -> fds s0 !! x = Some y -> False) as Hno
    by (intros x y Hx Hy; destruct (Hf x Hx); congruence).
  rewrite !NoDup_cons, !not_elem_of_cons in Hnd.
  destruct Hnd as ((Haa & Hab & Hab' & _) & (Ha'b & Ha'b' & _) & (Hbb & _) & _).
  wp_simpl. eapply (wp_close_open a' OutW).
  { rewrite Hfds. unfold piped. rewrite !lookup_insert_ne by done. apply lookup_insert_eq. }
  cbn. wp_simpl. eapply (wp_close_open b' ErrW).
  { cbn. rewrite Hfds. unfold piped. rewrite lookup_delete_ne by done.
    rewrite lookup_insert_ne by done. apply lookup_insert_eq. }
  cbn. wp_simpl. eapply (wp_setnonblocking a OutR).
  { cbn. rewrite Hfds. unfold piped. rewrite !lookup_delete_ne by congruence.
    rewrite !lookup_insert_ne by congruence. apply lookup_insert_eq. }
  intros f1 Hf1. cbn. wp_simpl. eapply (wp_setnonblocking b ErrR).
  { cbn. rewrite Hfds. unfold piped. rewrite !lookup_delete_ne by congruence. apply lookup_insert_eq. }
  intros f2 Hf2. cbn. sys_step. eapply wp_mono.
  { apply (pump_spec argv a b (fds s0) (stack (L s)) (rounds (kern s)) true true _ [] out);
      [exact Hd|done|done|by apply (Hf a); set_solver|by apply (Hf b); set_solver|congruence| | | | | |].
    - by apply (Hf a); set_solver.
    - by apply (Hf b); set_solver.
    - cbn. rewrite Hfds. unfold piped.
      assert (fds s0 !! a' = None) by (apply Hf; set_solver).
      assert (fds s0 !! b' = None) by (apply Hf; set_solver). map_cases.
    - unfold nonblocking. cbn. by rewrite lookup_insert_ne, lookup_insert_eq by congruence.
    - unfold nonblocking. cbn. by rewrite lookup_insert_eq.
    - lia. }
  intros r s1 (-> & H1 & H2 & H3 & H4). cbn. wp_simpl.
  eapply wp_mono; [apply (wait_loop argv pid (LString out :: stack (L s)) (waits (kern s)) _ code);
    [done|done|exact H2|rewrite H3; cbn; lia]|].
  intros r s2 (-> & H5 & H6 & H7). cbn. wp_simpl.
  split; [done|]. split; [exact H5|]. split; [congruence|].
  eapply frame_trans; [|exact H7]. exact H4.
Qed.

Lemma wp_load_args X locs args (Q : outcome (list bytes) -> state -> Prop) s :
  length locs = length args -> owns (mem s) (strings locs args ++ X) ->
  Q (Ok (cstr <$> args)) s -> wp (load_args (Some <$> locs)) Q s.
Proof.
  revert args X Q. induction locs as [|l locs IH]; intros [|a args] X Q Hlen Ho HQ; try done.
  cbn. unfold on_mem. wp_simpl. eapply wp_load; [exact Ho|in_blocks|]. cbn. wp_simpl.
  replace (with_mem (mem s) s) with s by by destruct s.
  eapply (IH args ((l, cstr a ++ [NUL]) :: X)); [cbn in Hlen; lia| |].
  - cbn. unfold strings in Ho |- *. cbn in Ho. reorder Ho.
  - cbn. wp_simpl. by rewrite cstr_app_nul by apply cstr_no_nul.
Qed.

(** The child's descriptors when the command starts. *)
Lemma wp_child locs args X a a' b b' s0 s :
  length locs = length args -> owns (mem s) (strings locs args ++ X) ->
  fresh_fds s0 [a; a'; b; b'] -> (forall fd, fd ∈ [a; a'; b; b'] -> 2 < fd) ->
  fds s = piped a a' b b' (fds s0) ->
  wp (child (Some <$> locs) (a, a') (b, b'))
     (fun o s' => o = match exec_error (kern s) with
                      | None => Stop (Execed (cstr <$> args))
                      | Some _ => Stop (Exited 1)
                      end /\
        fds s' = <[2 := ErrW]> (<[1 := OutW]> (delete 0 (fds s0)))) s.
Proof.
  intros Hlen Ho [Hnd Hf] Hbig Hfds. unfold child.
  assert (2 < a) by (apply Hbig; set_solver). assert (2 < a') by (apply Hbig; set_solver).
  assert (2 < b) by (apply Hbig; set_solver). assert (2 < b') by (apply Hbig; set_solver).
  assert (fds s0 !! a = None) by (apply Hf; set_solver).
  assert (fds s0 !! a' = None) by (apply Hf; set_solver).
  assert (fds s0 !! b = None) by (apply Hf; set_solver).
  assert (fds s0 !! b' = None) by (apply Hf; set_solver).
  rewrite !NoDup_cons, !not_elem_of_cons in Hnd.
  destruct Hnd as ((Haa & Hab & Hab' & _) & (Ha'b & Ha'b' & _) & (Hbb & _) & _).
  assert (forall s1, frame s s1 -> kern s1 = kern s -> fds s1 = delete 0 (fds s) ->
    wp (close a ;;; dup2 a' 1 ;;; close a' ;;; close b ;;; dup2 b' 2 ;;; close b' ;;;
        let! args := load_args (Some <$> locs) in
        let! k := gets kern in
        match exec_error k with
        | None => stop (A := Z) (Execed args)
        | Some e => print_stderr (strerror e) ;;; stop (Exited 1)
        end)
     (fun o s' => o = match exec_error (kern s) with
                      | None => Stop (Execed (cstr <$> args))
                      | Some _ => Stop (Exited 1)
                      end /\
        fds s' = <[2 := ErrW]> (<[1 := OutW]> (delete 0 (fds s0)))) s1) as Hgo.
  { intros s1 Hfr Hk Hfds1. unfold piped in Hfds. wp_simpl.
    eapply (wp_close_open a OutR).
    { rewrite Hfds1, Hfds, lookup_delete_ne by lia. rewrite !lookup_insert_ne by done. apply lookup_insert_eq. }
    cbn. unfold dup2. sys_step. rewrite Hfds1, Hfds.
    rewrite (lookup_delete_ne _ a a'), (lookup_delete_ne _ 0 a') by (done || lia).
    rewrite !(lookup_insert_ne _ _ a') by done. rewrite lookup_insert_eq. sys_step.
    eapply (wp_close_open a' OutW).
    { cbn. rewrite lookup_insert_ne, !lookup_delete_ne, !lookup_insert_ne by (done || lia). apply lookup_insert_eq. }
    cbn. sys_step. eapply (wp_close_open b ErrR).
    { cbn. rewrite lookup_delete_ne, lookup_insert_ne, !lookup_delete_ne by (done || lia). apply lookup_insert_eq. }
    cbn. sys_step.
    assert (forall (M : gmap Z file), M !! b' = Some ErrW -> True) by done.
    rewrite (lookup_delete_ne _ b b') by done. rewrite (lookup_delete_ne _ a' b') by done.
    rewrite (lookup_insert_ne _ 1 b') by lia. rewrite (lookup_delete_ne _ a b') by done.
    rewrite (lookup_delete_ne _ 0 b') by lia. rewrite (lookup_insert_ne _ b b') by done.
    rewrite lookup_insert_eq. sys_step.
    eapply (wp_close_open b' ErrW).
    { cbn. rewrite lookup_insert_ne, !lookup_delete_ne, lookup_insert_ne, !lookup_delete_ne, lookup_insert_ne
        by (done || lia). apply lookup_insert_eq. }
    cbn. sys_step. destruct Hfr as (Hm & _).
    eapply wp_load_args; [exact Hlen|cbn; rewrite Hm; exact Ho|]. cbn. sys_step. rewrite Hk.
    assert (delete b' (<[2 := ErrW]> (delete b (delete a' (<[1 := OutW]> (delete a (delete 0
      (<[b := ErrR]> (<[b' := ErrW]> (<[a := OutR]> (<[a' := OutW]> (fds s0)))))))))))
      = <[2 := ErrW]> (<[1 := OutW]> (delete 0 (fds s0)))) as E by map_cases.
    unfold print_stderr. destruct (exec_error (kern s)); sys_step; by rewrite E. }
  wp_simpl. unfold close at 1. wp_simpl.
  destruct (fds s !! 0) as [x|] eqn:E0; unfold set_errno; rewrite wp_modify; cbn.
  - by apply Hgo.
  - apply Hgo; [done..|]. cbn. symmetry. by apply delete_id.
Qed.

#[local] Arguments parent : simpl never.
#[local] Arguments child : simpl never.
#[local] Arguments collect_argv : simpl never.

(** The call's table argument: its values are the texts [args]. *)
Definition call_args (s : state) (t : positive) (args : list bytes) : Prop :=
  stack (L s) = [LTable t] /\ texts (default ∅ (tables (L s) !! t)) args.

Lemma wp_prefix s t args X a a' b b' rest (Q : outcome Z -> state -> Prop) :
  call_args s t args -> owns (mem s) X ->
  pipe_answers (kern s) = inl (a, a') :: inl (b, b') :: rest ->
  (forall locs h st s1, length locs = length (take 63 args) ->
     owns h (strings locs (take 63 args) ++ X) -> mem s1 = h ->
     fds s1 = piped a a' b b' (fds s) -> stack (L s1) = st ->
     rounds (kern s1) = rounds (kern s) -> waits (kern s1) = waits (kern s) ->
     exec_error (kern s1) = exec_error (kern s) ->
     wp (match fork_answer (kern s) with
         | inr e => set_errno e ;;; pluaerror (b:"fork") e (Some <$> locs)
         | inl pid => if decide (pid = 0) then child (Some <$> locs) (a, a') (b, b')
                      else parent (Some <$> locs) (a, a') (b, b') pid
         end) Q s1) ->
  wp equus_exec_call_unix_core Q s.
Proof.
  intros [Hst Ht] Ho Hp HQ. unfold equus_exec_call_unix_core, on_L. wp_simpl.
  rewrite (wp_at_index 1 (LTable t)) by (exists 0%nat; by rewrite Hst). wp_simpl.
  replace (with_L (L s) s) with s by by destruct s.
  eapply wp_mono; [by eapply wp_collect|].
  intros o s1 (locs & extra & h & -> & H1 & H2 & ->). cbn. unfold pipe. wp_simpl. rewrite Hp. wp_simpl.
  eapply HQ; [exact H1|exact H2|done..].
Qed.

Lemma wp_exec s t args X a a' b b' rest pid out code :
  call_args s t args -> owns (mem s) X ->
  pipe_answers (kern s) = inl (a, a') :: inl (b, b') :: rest -> fresh_fds s [a; a'; b; b'] ->
  fork_answer (kern s) = inl pid -> pid <> 0 ->
  drive true true (rounds (kern s)) = Some out -> wait_spec pid (waits (kern s)) = Some code ->
  wp equus_exec_call_unix_core
     (fun o s' => o = Ok 2 /\ take 2 (stack (L s')) = [LNumber code; LString out] /\ fds s' = fds s /\
        exists locs, length locs = length (take 63 args) /\
          owns (mem s') (strings locs (take 63 args) ++ X)) s.
Proof.
  intros Hc Ho Hp Hf Hfork Hpid Hd Hw. eapply wp_prefix; [done..|].
  intros locs h st s1 H1 H2 H3 H4 H5 H6 H7 _. rewrite Hfork, decide_False by done.
  eapply wp_mono; [eapply (wp_parent _ a a' b b' pid out code s s1); [done|done|by rewrite H6|by rewrite H7]|].
  intros o s' (-> & Hst & Hfds & Hm & _). split; [done|]. rewrite Hst.
  split; [done|]. split; [done|]. exists locs. split; [done|]. by rewrite Hm, H3.
Qed.

(** ** Properties *)

(** C6: a run of a command. When both pipes can be made, of descriptors that were
    free and are below FD_SETSIZE (1024), and the kernel's answers bring both to end of file with no error other than [EINTR] and [EAGAIN], and
    [waitpid] reports the child, the call ends and returns two values: everything
    read from the two pipes, in the order it was read, and the exit code (255 when
    the child did not exit by itself).  Every descriptor it opened is closed.  The
    copies of the (at most 63) arguments stay allocated: nothing frees [argv] on
    this path. *)
Theorem exec_collects_output (s : state) (t : positive) (args : list bytes)
    (X : list (positive * bytes)) (a a' b b' : Z) (rest : list (Z * Z + Z)) (pid : Z)
    (out : bytes) (code : Z) :
  call_args s t args -> owns (mem s) X ->
  pipe_answers (kern s) = inl (a, a') :: inl (b, b') :: rest -> fresh_fds s [a; a'; b; b'] ->
  fork_answer (kern s) = inl pid -> pid <> 0 ->
  drive true true (rounds (kern s)) = Some out -> wait_spec pid (waits (kern s)) = Some code ->
  exists s', equus_exec_call_unix_core s = (Ok 2, s') /\
    take 2 (stack (L s')) = [LNumber code; LString out] /\ fds s' = fds s /\
    size (cells (mem s')) = (length X + Nat.min 63 (length args))%nat.
Proof.
  intros Hc Ho Hp Hf Hfork Hpid Hd Hw.
  pose proof (wp_exec s t args X a a' b b' rest pid out code Hc Ho Hp Hf Hfork Hpid Hd Hw) as H.
  unfold wp in H. destruct (equus_exec_call_unix_core s) as [o s']; cbn in H.
  destruct H as (-> & H1 & H2 & locs & H3 & H4). exists s'. split_and!; [done..|].
  rewrite (owns_size _ _ H4), length_app. unfold strings.
  rewrite length_zip_with, length_fmap, H3, !length_take. lia.
Qed.

(** C33: the child runs the command with its standard output and standard error on
    the two pipes, its standard input closed, and none of the pipes' own
    descriptors left open; its argument vector is the table's first 63 texts, cut
    at their first NUL.  When the command cannot be run the child exits with 1.
    That is for an agent whose own three standard streams are open, so that the
    pipes get other descriptors: [child_loses_output] is about one whose are not. *)
Theorem child_runs_command (s : state) (t : positive) (args : list bytes)
    (X : list (positive * bytes)) (a a' b b' : Z) (rest : list (Z * Z + Z)) :
  call_args s t args -> owns (mem s) X ->
  pipe_answers (kern s) = inl (a, a') :: inl (b, b') :: rest -> fresh_fds s [a; a'; b; b'] ->
  (forall fd, 0 <= fd <= 2 -> is_Some (fds s !! fd)) -> fork_answer (kern s) = inl 0 ->
  exists s', equus_exec_call_unix_core s =
    (match exec_error (kern s) with
     | None => Stop (Execed (cstr <$> take 63 args))
     | Some _ => Stop (Exited 1)
     end, s') /\ fds s' = <[2 := ErrW]> (<[1 := OutW]> (delete 0 (fds s))).
Proof.
  intros Hc Ho Hp Hf Hopen Hfork.
  assert (forall fd, fd ∈ [a; a'; b; b'] -> 2 < fd) as Hbig.
  { intros fd Hfd. destruct Hf as [_ Hf]. destruct (Hf fd Hfd) as [Hnone Hr].
    destruct (decide (2 < fd)) as [|Hsmall]; [done|]. destruct (Hopen fd ltac:(lia)) as [x Hx]. congruence. }
  enough (wp equus_exec_call_unix_core (fun o s' => o = match exec_error (kern s) with
     | None => Stop (Execed (cstr <$> take 63 args))
     | Some _ => Stop (Exited 1)
     end /\ fds s' = <[2 := ErrW]> (<[1 := OutW]> (delete 0 (fds s)))) s) as H.
  { unfold wp in H. destruct (equus_exec_call_unix_core s) as [o s']; cbn in H.
    destruct H as [-> H]. by exists s'. }
  eapply wp_prefix; [done..|]. intros locs h st s1 H1 H2 H3 H4 H5 H6 H7 H8.
  rewrite Hfork, decide_True by done. rewrite <- H8. eapply wp_child; [exact H1|by rewrite H3|done..].
Qed.

(** When the process cannot be forked, a Lua error is raised with [argv] freed
    but all four descriptors of the two pipes left open. *)
Theorem fork_failure_leaks_pipes (s : state) (t : positive) (args : list bytes)
    (X : list (positive * bytes)) (a a' b b' : Z) (rest : list (Z * Z + Z)) (e : Z) :
  call_args s t args -> owns (mem s) X ->
  pipe_answers (kern s) = inl (a, a') :: inl (b, b') :: rest -> fresh_fds s [a; a'; b; b'] ->
  fork_answer (kern s) = inr e ->
  exists s', equus_exec_call_unix_core s = (Stop (LuaError (to_string (error_text (b:"fork") e))), s') /\
    owns (mem s') X /\ fds s' = piped a a' b b' (fds s) /\
    size (fds s') = (4 + size (fds s))%nat.
Proof.
  intros Hc Ho Hp [Hnd Hf] Hfork.
  enough (wp equus_exec_call_unix_core (fun o s' =>
    o = Stop (LuaError (to_string (error_text (b:"fork") e))) /\
    owns (mem s') X /\ fds s' = piped a a' b b' (fds s)) s) as H.
  { unfold wp in H. destruct (equus_exec_call_unix_core s) as [o s']; cbn in H.
    destruct H as (-> & H1 & H2). exists s'. split_and!; [done..|]. rewrite H2. unfold piped.
    assert (forall x, x ∈ [a; a'; b; b'] -> fds s !! x = None) as Hno by (intros x Hx; by apply Hf).
    rewrite !NoDup_cons, !not_elem_of_cons in Hnd.
    destruct Hnd as ((Haa & Hab & Hab' & _) & (Ha'b & Ha'b' & _) & (Hbb & _) & _).
    rewrite !map_size_insert_None; [done|..]; rewrite ?lookup_insert_ne by done; apply Hno; set_solver. }
  eapply wp_prefix; [done..|]. intros locs h st s1 H1 H2 H3 H4 H5 H6 H7 H8. rewrite Hfork. sys_step.
  eapply wp_pluaerror; [exact H1|cbn; rewrite H3; exact H2|]. intros h' Hh'. cbn. done.
Qed.
End Exec.

(** ** A concrete run for the witnesses *)

(** [lua_next] in the order of the map. *)
Definition traverse0 (tb : gmap lkey lval) : list (lkey * lval) := map_to_list tb.

Definition kernel0 (fork : Z + Z) : kernel :=
  Kernel [inl (3, 4); inl (5, 6)] fork None
    [Ready (Some (Data (b:"out"))) None; SelErr EINTR; Ready (Some (ReadErr EAGAIN)) (Some (Data (b:"err")));
     Ready (Some (Data [])) None; Ready None (Some (Data []))]
    [inl (99, 0); inl (7, 256 * 3)].

Definition state0 (fork : Z + Z) : state :=
  State (Lua [LTable 1] {[ 1%positive := {[ KNum 1 := LString (b:"uptime") ]} ]} 1)
    empty_heap {[ 0 := Other 0; 1 := Other 1; 2 := Other 2 ]} ∅ 0 (kernel0 fork) [] [].

Lemma fresh0 fork : fresh_fds (state0 fork) [3; 4; 5; 6].
Proof.
  split; [by_decide|]. intros fd Hin. unfold FD_SETSIZE.
  repeat (apply elem_of_cons in Hin as [->|Hin]; [split; [reflexivity|lia]|]).
  by apply not_elem_of_nil in Hin.
Qed.

Lemma call_args0 fork : call_args traverse0 (state0 fork) 1 [b:"uptime"].
Proof. split; [reflexivity|]. repeat constructor. Qed.

Lemma exec_collects_output_witness :
  exists s', equus_exec_call_unix_core traverse0 (fun _ => []) (state0 (inl 7)) = (Ok 2, s') /\
    take 2 (stack (L s')) = [LNumber 3; LString (b:"outerr")] /\
    fds s' = {[ 0 := Other 0; 1 := Other 1; 2 := Other 2 ]} /\ size (cells (mem s')) = 1%nat.
Proof.
  apply (exec_collects_output traverse0 (fun _ => []) (state0 (inl 7)) 1 [b:"uptime"] [] 3 4 5 6 [] 7
    (b:"outerr") 3 (call_args0 _) owns_empty eq_refl (fresh0 _) eq_refl); [lia|by vm_compute|by vm_compute].
Defined.

Lemma child_runs_command_witness :
  exists s', equus_exec_call_unix_core traverse0 (fun _ => []) (state0 (inl 0)) =
    (Stop (Execed [b:"uptime"]), s') /\ fds s' = <[2 := ErrW]> (<[1 := OutW]> (delete 0 (fds (state0 (inl 0))))).
Proof.
  apply (child_runs_command traverse0 (fun _ => []) (state0 (inl 0)) 1 [b:"uptime"] [] 3 4 5 6 []
    (call_args0 _) owns_empty eq_refl (fresh0 _)); [|reflexivity].
  intros fd Hfd. assert (fd = 0 \/ fd = 1 \/ fd = 2) as [-> | [-> | ->] ] by lia; by_decide.
Defined.

(** An agent that was started with its standard streams closed gets them back as
    the ends of the pipes, and the child closes its own output: the command runs
    without a standard output. *)
Lemma child_loses_output :
  let s := with_fds ∅ (with_kern (with_pipes [inl (0, 1); inl (2, 3)] (kernel0 (inl 0))) (state0 (inl 0))) in
  let '(o, s') := equus_exec_call_unix_core traverse0 (fun _ => []) s in
  o = Stop (Execed [b:"uptime"]) /\ fds s' = {[ 2 := ErrW ]}.
Proof. vm_compute. split; reflexivity. Qed.

Lemma fork_failure_leaks_pipes_witness :
  exists s', equus_exec_call_unix_core traverse0 (fun _ => b:"no memory") (state0 (inr 12)) =
    (Stop (LuaError (to_string (error_text (fun _ => b:"no memory") (b:"fork") 12))), s') /\
    owns (mem s') [] /\ fds s' = piped 3 4 5 6 (fds (state0 (inr 12))) /\ size (fds s') = 7%nat.
Proof.
  apply (fork_failure_leaks_pipes traverse0 (fun _ => b:"no memory") (state0 (inr 12)) 1 [b:"uptime"] []
    3 4 5 6 [] 12 (call_args0 _) owns_empty eq_refl (fresh0 _) eq_refl).
Defined.
