(* ===== verification/Popen.v ===== *)
(** * Capturing a command's output, and formatted allocation

    [equus_portable.c], lines 21-50 and 63-90: the replacement for [asprintf] on
    Windows, and [equus_popen_capture], which reads a command's output through
    [popen] and [fgets].  The command and [vsnprintf] are parameters. *)

From S2P Require Import Prelude CString Heap Lua.
Open Scope Z_scope.

(** ** [equus_vasprintf] *)

(** [text] is what the format gives, [None] when [vsnprintf] fails.  The first
    call's result is kept in a [size_t], so the test for an error never holds. *)
Definition equus_vasprintf (malloc_fails : bool) (text : option bytes) : C (heap bytes) (Z * ptr) :=
  let rv := match text with Some t => Z.of_nat (length t) | None => -1 end in
  let sz := u32 rv in
  if decide (sz < 0) then ret (i32 sz, None)
  else if malloc_fails then ret (-1, None)
  else
    let n := u32 (sz + 1) in
    let! p := malloc (replicate (Z.to_nat n) NUL) in
    match text with
    | Some t =>
        (if decide (0 < n) then store p (take (Z.to_nat n - 1) t ++ [NUL]) else ret tt) ;;;
        ret (i32 rv, p)
    | None => ret (-1, p)
    end.

Definition equus_asprintf (malloc_fails : bool) (text : option bytes) : C (heap bytes) (Z * ptr) :=
  let! rv := equus_vasprintf malloc_fails text in ret rv.

(** ** [equus_popen_capture] *)

Record state : Type := State {
  L : lua;
  pipes : heap (bytes * Z)       (** output still to be read, status of the command *)
}.

Definition with_L (l : lua) (s : state) : state := State l (pipes s).
Definition with_pipes (p : heap (bytes * Z)) (s : state) : state := State (L s) p.
Definition on_L {A} (m : C lua A) : C state A := zoom L with_L m.
Definition on_pipes {A} (m : C (heap (bytes * Z)) A) : C state A := zoom pipes with_pipes m.

(** [sizeof(psBuffer)]. *)
Definition psBuffer : nat := Eval vm_compute in Z.to_nat 4096.

Section Popen.
(** What running a command with a mode gives, if it can be run: its output and
    what [pclose] returns. *)
Variable run_command : bytes -> bytes -> option (bytes * Z).

Definition popen (cmd mode : bytes) : C state ptr :=
  match run_command cmd mode with
  | None => ret None
  | Some r => on_pipes (malloc r)
  end.

Definition pipe_fgets (p : ptr) : C state (option bytes) :=
  let! '(out, st) := on_pipes (load p) in
  match fgets psBuffer out with
  | None => ret None
  | Some (l, r) => on_pipes (store p (r, st)) ;;; ret (Some l)
  end.

Definition pclose (p : ptr) : C state Z :=
  let! '(_, st) := on_pipes (load p) in
  on_pipes (free p) ;;;
  ret st.

Definition equus_popen_capture : C state Z :=
  let! cmd := on_L (luaL_checkstring 1) in
  let! pPipe := popen (cstr cmd) (b:"rt") in
  match pPipe with
  | None => luaL_error (b:"error calling popen")
  | Some _ =>
      on_L (lua_pushlstring []) ;;;
      let! '(out, _) := on_pipes (load pPipe) in
      loop (S (length out)) (fun _ : unit =>
        let! l := pipe_fgets pPipe in
        match l with
        | Some buf =>
            on_L (lua_pushlstring (cstr buf)) ;;;
            on_L lua_concat2 ;;;
            ret (inl tt)
        | None => ret (inr tt)
        end) tt ;;;
      let! st := pclose pPipe in
      if decide (st = -1) then luaL_error (b:"error closing pipe")
      else
        on_L (lua_pushinteger st) ;;;
        ret 2
  end.

#[local] Arguments fgets : simpl never.
#[local] Arguments psBuffer : simpl never.
#[local] Arguments fgets_all : simpl never.

Ltac pipe_step := unfold on_L, on_pipes, lua_pushlstring, lua_pushinteger, push; wp_simpl.

(** Lines are taken whole up to 4095 characters; what follows a NUL in one is lost. *)
Definition captured (out : bytes) : bytes :=
  concat (cstr <$> fgets_all (S (length out)) psBuffer out).

Lemma psBuffer_large : (1 < psBuffer)%nat.
Proof. unfold psBuffer. lia. Qed.

Lemma capture_loop p st0 st H out : forall fuel acc s,
  owns (pipes s) ((p, (out, st0)) :: H) -> stack (L s) = LString acc :: st -> (length out < fuel)%nat ->
  wp (loop fuel (fun _ : unit =>
        let! l := pipe_fgets (Some p) in
        match l with
        | Some buf =>
            on_L (lua_pushlstring (cstr buf)) ;;;
            on_L lua_concat2 ;;;
            ret (inl tt)
        | None => ret (inr tt)
        end) tt)
     (fun o s' => o = Ok tt /\ stack (L s') = LString (acc ++ captured out) :: st /\
        exists r, owns (pipes s') ((p, (r, st0)) :: H)) s.
Proof.
  intros fuel. revert out. induction fuel as [|fuel IH]; intros out acc s Ho Hst Hf; [lia|].
  rewrite loop_S. wp_simpl. unfold pipe_fgets. pipe_step.
  eapply wp_load; [exact Ho|in_blocks|]. cbn. wp_simpl.
  destruct (fgets psBuffer out) as [[l r]|] eqn:E.
  - destruct (fgets_progress _ _ _ _ psBuffer_large E) as (Hout & Hr & _). pipe_step.
    eapply wp_store; [exact Ho|]. intros h Hh. cbn. pipe_step.
    unfold lua_concat2, pop1, push. wp_simpl. rewrite Hst. wp_simpl.
    eapply wp_mono; [eapply (IH r (acc ++ cstr l)); [exact Hh|done|lia]|].
    intros o s' (-> & Hs' & Hp). split; [done|]. split; [|done]. rewrite Hs'. f_equal. f_equal.
    unfold captured. rewrite <- app_assoc. f_equal. change (fgets_all (S (length out)) psBuffer out)
      with (match fgets psBuffer out with
            | Some (l, r) => l :: fgets_all (length out) psBuffer r | None => [] end).
    rewrite E. cbn. f_equal. f_equal. f_equal. apply fgets_all_fuel; [apply psBuffer_large|lia|lia].
  - wp_simpl. split; [done|]. split; [|by exists out]. destruct out; [|done].
    change (captured []) with (@nil ascii). by rewrite app_nil_r.
Qed.

Lemma captured_no_nul out : no_nul out -> captured out = out.
Proof.
  intros Hn. unfold captured.
  assert (concat (fgets_all (S (length out)) psBuffer out) = out) as E
    by (apply fgets_all_concat; [apply psBuffer_large|lia]).
  rewrite concat_cstr by by rewrite E. exact E.
Qed.

Lemma wp_popen_capture cmd out st H s :
  stack (L s) = [LString cmd] -> owns (pipes s) H ->
  run_command (cstr cmd) (b:"rt") = Some (out, st) ->
  wp equus_popen_capture (fun o s' => owns (pipes s') H /\
    if decide (st = -1) then o = Stop (LuaError "error closing pipe")
    else o = Ok 2 /\ stack (L s') = [LNumber st; LString (captured out); LString cmd]) s.
Proof.
  intros Hst Ho Hr. unfold equus_popen_capture, popen. pipe_step.
  rewrite (wp_checkstring 1 cmd) by (exists 0%nat; by rewrite Hst). cbn. wp_simpl. rewrite Hr.
  pipe_step. eapply wp_malloc; [exact Ho|]. intros p h Hh. cbn. pipe_step.
  eapply wp_load; [exact Hh|in_blocks|]. cbn. wp_simpl.
  eapply wp_mono; [eapply (capture_loop p st (stack (L s)) H out); [exact Hh|done|lia]|].
  intros o s' (-> & Hs' & r & Hp). cbn. unfold pclose. pipe_step.
  eapply wp_load; [exact Hp|in_blocks|]. cbn. pipe_step.
  eapply wp_free; [exact Hp|]. intros h2 Hh2. cbn. pipe_step.
  case_decide; [unfold luaL_error; by wp_simpl|]. pipe_step. split; [done|].
  split; [done|]. by rewrite Hs', Hst.
Qed.

(** ** Properties *)

(** C32: capturing a command's output. When the command runs, the pipe is closed on
    every path; the results are everything the command wrote and its status when
    what it wrote has no NUL, and a Lua error is raised when closing fails. (In
    general, what follows a NUL inside one line is lost.) *)
Theorem popen_capture_spec (s : state) (H : list (positive * (bytes * Z))) (cmd out : bytes) (st : Z) :
  stack (L s) = [LString cmd] -> owns (pipes s) H ->
  run_command (cstr cmd) (b:"rt") = Some (out, st) -> no_nul out ->
  exists o s', equus_popen_capture s = (o, s') /\ owns (pipes s') H /\
    if decide (st = -1) then o = Stop (LuaError "error closing pipe")
    else o = Ok 2 /\ stack (L s') = [LNumber st; LString out; LString cmd].
Proof.
  intros Hst Ho Hr Hn. apply wp_run. eapply wp_mono; [by eapply wp_popen_capture|].
  intros o s' H1. rewrite captured_no_nul in H1 by done. exact H1.
Qed.
End Popen.

Definition run0 (cmd mode : bytes) : option (bytes * Z) :=
  Some (b:"a" ++ [LF] ++ b:"bc", 256).

Lemma popen_capture_spec_witness :
  exists o s', equus_popen_capture run0 (State (with_stack [LString (b:"ls")] new_state) empty_heap) = (o, s') /\
    owns (pipes s') [] /\ o = Ok 2 /\
    stack (L s') = [LNumber 256; LString (b:"a" ++ [LF] ++ b:"bc"); LString (b:"ls")].
Proof.
  apply (popen_capture_spec run0 (State (with_stack [LString (b:"ls")] new_state) empty_heap) []
    (b:"ls") (b:"a" ++ [LF] ++ b:"bc") 256); [done|apply owns_empty|done|by_decide].
Defined.

(** [equus_asprintf] stores exactly the formatted text and its NUL in a block of
    its own and returns its length; when formatting fails it returns -1 with an
    empty block allocated and handed to the caller, the early return being dead. *)
Theorem asprintf_spec (h : heap bytes) (X : list (positive * bytes)) (text : option bytes) :
  owns h X -> (forall t, text = Some t -> Z.of_nat (length t) < 2 ^ 31 - 1) ->
  exists l h', equus_asprintf false text h =
    (Ok (match text with Some t => Z.of_nat (length t) | None => -1 end, Some l), h') /\
    owns h' ((l, match text with Some t => t ++ [NUL] | None => [] end) :: X).
Proof.
  intros Ho Ht. enough (wp (equus_asprintf false text) (fun o h' => exists l,
    o = Ok (match text with Some t => Z.of_nat (length t) | None => -1 end, Some l) /\
    owns h' ((l, match text with Some t => t ++ [NUL] | None => [] end) :: X)) h) as H.
  { unfold wp in H. destruct (equus_asprintf false text h) as [o h']; cbn in H.
    destruct H as (l & -> & H). by exists l, h'. }
  unfold equus_asprintf, equus_vasprintf. wp_simpl.
  rewrite decide_False by (pose proof (u32_range (match text with Some t => Z.of_nat (length t) | None => -1 end)); lia).
  destruct text as [t|].
  - specialize (Ht t eq_refl). rewrite (u32_small (Z.of_nat (length t))) by lia.
    rewrite (u32_small (Z.of_nat (length t) + 1)) by lia. wp_simpl.
    eapply wp_malloc; [exact Ho|]. intros l h1 H1. cbn. rewrite decide_True by lia. wp_simpl.
    eapply wp_store; [exact H1|]. intros h2 H2. cbn. wp_simpl. exists l.
    rewrite i32_small by lia. split; [done|].
    replace (Z.to_nat (Z.of_nat (length t) + 1) - 1)%nat with (length t) in H2 by lia.
    by rewrite firstn_all in H2.
  - wp_simpl. eapply wp_malloc; [exact Ho|]. intros l h1 H1. cbn. wp_simpl. by exists l.
Qed.

Lemma asprintf_spec_witness :
  exists l h', equus_asprintf false (Some (b:"http://h/")) empty_heap = (Ok (9, Some l), h') /\
    owns h' [(l, b:"http://h/" ++ [NUL])].
Proof.
  apply (asprintf_spec empty_heap [] (Some (b:"http://h/")) owns_empty).
  intros t Ht. apply (inj Some) in Ht. subst t. by_decide.
Defined.
