(* ===== verification/ExecWin.v ===== *)
(** * Running a command on Windows

    [equus_portable.c], lines 97-253: the text of a system error, and
    [equus_exec_call_win32_core], which runs a command line with its output on a
    pipe.  Handles and the copy of the command line are ledgers; what the Windows
    calls answer is a record, and [ReadFile]'s answers a list. *)

From S2P Require Import Prelude CString Heap Lua.
Open Scope Z_scope.

(** ** Error messages *)

Definition is_ascii (c : ascii) : bool := (nat_of_ascii c <? 128)%nat.
Definition to_ascii (c : ascii) : ascii := if is_ascii c then c else "?"%char.

(** [msg] is what [FormatMessage] wrote in a buffer of [blen] characters; [None]
    when it failed, which leaves the buffer unset.  The loop goes through the
    NUL. *)
Definition format_err (msg : option bytes) (blen : nat) : option bytes :=
  match msg with
  | Some m => if decide (length m + 1 <= blen)%nat
              then Some (to_ascii <$> take (length m + 1) (m ++ [NUL]))
              else None
  | None => None
  end.

(** [luaL_error(L, fmt)] with no argument: [%s], [%d], [%f], [%c] and [%p] would
    read an argument that is not there, and so would a [%] at the end; other
    characters after [%] are copied, [%%] is one [%]. *)
Fixpoint expand (fmt : bytes) : option bytes :=
  match fmt with
  | [] => Some []
  | c :: fmt' =>
      if decide (c = "%"%char) then
        match fmt' with
        | [] => None
        | d :: fmt'' =>
            if decide (d ∈ ["s"; "d"; "f"; "c"; "p"]%char) then None
            else r ← expand fmt''; Some (if decide (d = "%"%char) then "%"%char :: r else "%"%char :: d :: r)
        end
      else r ← expand fmt'; Some (c :: r)
  end.

Definition raise {W A} (fmt : bytes) : C W A :=
  match expand fmt with
  | Some t => stop (LuaError (to_string t))
  | None => stop (Undefined "missing argument of a format")
  end.

(** ** State *)

Inductive handle : Type := ReadPipe | WritePipe | WritePipeErr | Process | Thread.

(** What the calls answer. *)
Record env : Type := Env {
  strdup_fails : bool;
  CreatePipe : bool;
  SetHandleInformation : bool;
  DuplicateHandle : bool;
  CreateProcessA : bool;
  GetLastError : Z;
  FormatMessage : Z -> option bytes;
  outlives_pipe : bool;        (** the process still runs when its pipe has broken *)
  exit_status : option Z       (** of the process created; [None] if it never ends *)
}.

Record state : Type := State {
  L : lua;
  handles : heap handle;
  strings : heap bytes;
  reads : list (bool * bytes);         (** answers of [ReadFile] still to come *)
  running : bool                       (** the process, as seen once its pipe has broken *)
}.

Definition with_L (l : lua) (s : state) : state := State l (handles s) (strings s) (reads s) (running s).
Definition with_handles (h : heap handle) (s : state) : state := State (L s) h (strings s) (reads s) (running s).
Definition with_strings (h : heap bytes) (s : state) : state := State (L s) (handles s) h (reads s) (running s).
Definition with_reads (r : list (bool * bytes)) (s : state) : state :=
  State (L s) (handles s) (strings s) r (running s).
Definition with_running (b : bool) (s : state) : state := State (L s) (handles s) (strings s) (reads s) b.
Definition on_L {A} (m : C lua A) : C state A := zoom L with_L m.
Definition on_handles {A} (m : C (heap handle) A) : C state A := zoom handles with_handles m.
Definition on_strings {A} (m : C (heap bytes) A) : C state A := zoom strings with_strings m.

(** Closing a null handle only fails. *)
Definition CloseHandle (h : ptr) : C state unit :=
  match h with
  | None => ret tt
  | Some _ => on_handles (load h) ;;; on_handles (free h)
  end.

(** The resources the cleanup releases. *)
Record locals : Type := Locals {
  hReadPipe : ptr; hWritePipe : ptr; hWritePipeErr : ptr;
  hProcess : ptr; hThread : ptr; cmd : ptr
}.

Definition cleanup (v : locals) (err : option bytes) : C state Z :=
  CloseHandle (hProcess v) ;;;
  CloseHandle (hThread v) ;;;
  CloseHandle (hWritePipe v) ;;;
  CloseHandle (hWritePipeErr v) ;;;
  CloseHandle (hReadPipe v) ;;;
  on_strings (free (cmd v)) ;;;
  match err with
  | Some e => raise e
  | None => ret 2
  end.

Section Exec.
Variable E : env.

(** [sprintf_s] into 128 characters: text that does not fit ends the process. *)
Definition create_process_error : C state bytes :=
  let nErr := GetLastError E in
  match format_err (FormatMessage E nErr) 128 with
  | None => stop (Undefined "message buffer never set")
  | Some m =>
      let t := b:"CreateProcess: (" ++ dec (i32 nErr) ++ b:") " ++ cstr m in
      if decide (length t < 128)%nat then ret t else stop Aborted
  end.

Definition read_round (u : unit) : C state (unit + unit) :=
  let! r := gets reads in
  match r with
  | [] => stop Blocked
  | (b, d) :: r' =>
      modify (with_reads r') ;;;
      let buffer := take 1023 d in
      if negb b then ret (inr tt)
      else if decide (buffer = []) then ret (inr tt)
      else
        on_L (lua_pushlstring (cstr buffer)) ;;;
        on_L lua_concat2 ;;;
        ret (inl tt)
  end.

(** [WaitForSingleObject(h, INFINITE)] returns when the process has ended. *)
Definition WaitForSingleObject (h : ptr) : C state unit :=
  on_handles (load h) ;;;
  let! r := gets running in
  if r : bool then
    match exit_status E with
    | Some _ => modify (with_running false)
    | None => stop Blocked
    end
  else ret tt.

(** The code of a process that has ended. *)
Definition STILL_ACTIVE : Z := 259.
Definition GetExitCodeProcess (h : ptr) : C state Z :=
  on_handles (load h) ;;;
  let! r := gets running in
  ret (if r : bool then STILL_ACTIVE else default STILL_ACTIVE (exit_status E)).

(** From the pipes on. *)
Definition run_process (hr hw he c : ptr) : C state Z :=
  if CreateProcessA E then
    modify (with_running (outlives_pipe E)) ;;;
    let! hp := on_handles (malloc Process) in
    let! ht := on_handles (malloc Thread) in
    CloseHandle hw ;;;
    CloseHandle he ;;;
    on_L (lua_pushlstring []) ;;;
    let! r := gets reads in
    loop (S (length r)) read_round tt ;;;
    WaitForSingleObject hp ;;;
    let! dwExitCode := GetExitCodeProcess hp in
    on_L (lua_pushinteger dwExitCode) ;;;
    cleanup (Locals hr None None hp ht c) None
  else
    let! e := create_process_error in
    cleanup (Locals hr hw he None None c) (Some e).

Definition equus_exec_call_win32_core : C state Z :=
  let! cmd_arg := on_L (luaL_checkstring 1) in
  if strdup_fails E then cleanup (Locals None None None None None None) (Some (b:"out of memory"))
  else
    let! c := on_strings (malloc (cstr cmd_arg ++ [NUL])) in
    if CreatePipe E then
      let! hr := on_handles (malloc ReadPipe) in
      let! hw := on_handles (malloc WritePipe) in
      if SetHandleInformation E then
        if DuplicateHandle E then
          let! he := on_handles (malloc WritePipeErr) in
          run_process hr hw he c
        else cleanup (Locals hr hw None None None c) (Some (b:"DuplicateHandle"))
      else cleanup (Locals hr hw None None None c) (Some (b:"SetHandleInformation"))
    else cleanup (Locals None None None None None c) (Some (b:"CreatePipe")).

(** ** Specification *)

(** What is read until the pipe breaks or gives nothing. *)
Fixpoint read_spec (r : list (bool * bytes)) : option bytes :=
  match r with
  | [] => None
  | (b, d) :: r' =>
      if negb b then Some []
      else if decide (take 1023 d = []) then Some []
      else match read_spec r' with Some t => Some (cstr (take 1023 d) ++ t) | None => None end
  end.

Definition process_error : bytes :=
  b:"CreateProcess: (" ++ dec (i32 (GetLastError E)) ++ b:") " ++
  cstr (default [] (format_err (FormatMessage E (GetLastError E)) 128)).

(** The message of the first call that fails. *)
Definition failed : option bytes :=
  if strdup_fails E then Some (b:"out of memory")
  else if negb (CreatePipe E) then Some (b:"CreatePipe")
  else if negb (SetHandleInformation E) then Some (b:"SetHandleInformation")
  else if negb (DuplicateHandle E) then Some (b:"DuplicateHandle")
  else if negb (CreateProcessA E) then Some process_error
  else None.

(** The system has a text for the error, and it fits the 128 character buffer. *)
Definition message_fits : Prop :=
  is_Some (format_err (FormatMessage E (GetLastError E)) 128) /\ (length process_error < 128)%nat.

#[local] Arguments take : simpl never.
#[local] Arguments cleanup : simpl never.
#[local] Arguments CloseHandle : simpl never.
#[local] Arguments process_error : simpl never.
#[local] Arguments format_err : simpl never.

Ltac win_step := unfold on_L, on_handles, on_strings, lua_pushlstring, lua_pushinteger, push; wp_simpl.

(** The handles and the string the locals stand for. *)
Definition opt_block {V} (p : ptr) (v : V) : list (positive * V) :=
  match p with Some l => [(l, v)] | None => [] end.

Definition local_handles (v : locals) : list (positive * handle) :=
  opt_block (hProcess v) Process ++ opt_block (hThread v) Thread ++
  opt_block (hWritePipe v) WritePipe ++ opt_block (hWritePipeErr v) WritePipeErr ++
  opt_block (hReadPipe v) ReadPipe.

Lemma wp_CloseHandle p k H (Q : outcome unit -> state -> Prop) s :
  owns (handles s) (opt_block p k ++ H) ->
  (forall h, owns h H -> Q (Ok tt) (with_handles h s)) -> wp (CloseHandle p) Q s.
Proof.
  intros Ho HQ. unfold CloseHandle. destruct p as [l|]; cbn in Ho.
  - win_step. eapply wp_load; [exact Ho|in_blocks|]. cbn. win_step.
    eapply wp_free; [exact Ho|]. intros h Hh. cbn. apply HQ. exact Hh.
  - wp_simpl. replace s with (with_handles (handles s) s) by by destruct s. by apply HQ.
Qed.

Lemma wp_free_opt p t X (Q : outcome unit -> heap bytes -> Prop) h :
  owns h (opt_block p t ++ X) -> (forall h', owns h' X -> Q (Ok tt) h') -> wp (free p) Q h.
Proof.
  intros Ho HQ. destruct p as [l|]; cbn in Ho; [eapply wp_free; [exact Ho|done]|].
  change (free None : C (heap bytes) unit) with (ret tt : C (heap bytes) unit). wp_simpl. by apply HQ.
Qed.

(** The cleanup releases exactly what the locals hold. *)
Lemma wp_cleanup v t H X err (Q : outcome Z -> state -> Prop) s :
  owns (handles s) (local_handles v ++ H) -> owns (strings s) (opt_block (cmd v) t ++ X) ->
  (forall hs st, owns hs H -> owns st X ->
     wp (match err with Some e => raise e | None => ret 2 end) Q (State (L s) hs st (reads s) (running s))) ->
  wp (cleanup v err) Q s.
Proof.
  intros Ho Hs HQ. unfold cleanup, local_handles in *. rewrite <- !app_assoc in Ho. wp_simpl.
  eapply wp_CloseHandle; [exact Ho|]. intros h1 H1. cbn. wp_simpl.
  eapply wp_CloseHandle; [exact H1|]. intros h2 H2. cbn. wp_simpl.
  eapply wp_CloseHandle; [exact H2|]. intros h3 H3. cbn. wp_simpl.
  eapply wp_CloseHandle; [exact H3|]. intros h4 H4. cbn. wp_simpl.
  eapply wp_CloseHandle; [exact H4|]. intros h5 H5. cbn. win_step.
  eapply wp_free_opt; [exact Hs|]. intros st Hst. cbn. by apply HQ.
Qed.

Lemma read_loop r : forall fuel acc out st s,
  read_spec r = Some out -> reads s = r -> stack (L s) = LString acc :: st -> (length r < fuel)%nat ->
  wp (loop fuel read_round tt)
     (fun o s' => o = Ok tt /\ stack (L s') = LString (acc ++ out) :: st /\
        handles s' = handles s /\ strings s' = strings s /\ running s' = running s) s.
Proof.
  induction r as [|[b d] r IH]; intros [|fuel] acc out st s Hr Hk Hst Hf; try (cbn in Hf; lia); [done|].
  rewrite loop_S. wp_simpl. unfold read_round. wp_simpl. rewrite Hk. wp_simpl. cbn [read_spec] in Hr.
  destruct b; cbn [negb] in *.
  - destruct (decide (take 1023 d = [])) as [E0|E0]; wp_simpl.
    + injection Hr as <-. by rewrite app_nil_r.
    + destruct (read_spec r) as [t|] eqn:Et; [|done]. injection Hr as <-.
      unfold lua_concat2, pop1. win_step. rewrite Hst. win_step.
      eapply wp_mono; [eapply (IH _ (acc ++ cstr (take 1023 d)) t st); [done|done|done|cbn in Hf; lia]|].
      intros o s' (-> & H1 & H2 & H3 & H4). split; [done|]. split; [by rewrite H1, <- app_assoc|done].
  - wp_simpl. injection Hr as <-. by rewrite app_nil_r.
Qed.

(** How a call ends: two results, or the error of the failing call. *)
Definition ends (o : outcome Z) : Prop :=
  match failed with
  | None => o = Ok 2
  | Some e => o = match expand e with
                  | Some t => Stop (LuaError (to_string t))
                  | None => Stop (Undefined "missing argument of a format")
                  end
  end.

Lemma wp_raise {A} e (Q : outcome A -> state -> Prop) s :
  Q (match expand e with
     | Some t => Stop (LuaError (to_string t))
     | None => Stop (Undefined "missing argument of a format")
     end) s -> wp (raise e) Q s.
Proof. unfold raise. by destruct (expand e). Qed.

Lemma wp_wait h code H (Q : outcome unit -> state -> Prop) s :
  owns (handles s) H -> (h, Process) ∈ H -> exit_status E = Some code ->
  Q (Ok tt) (with_running false s) -> wp (WaitForSingleObject (Some h)) Q s.
Proof.
  intros Ho Hin Hcode HQ. unfold WaitForSingleObject. win_step. eapply wp_load; [exact Ho|exact Hin|]. cbn. wp_simpl.
  destruct (running s) eqn:Er; [rewrite Hcode; wp_simpl; exact HQ|]. wp_simpl.
  replace (with_handles _ s) with (with_running false s); [done|]. destruct s. cbn in *. by subst.
Qed.

Lemma wp_exit_code h code H (Q : outcome Z -> state -> Prop) s :
  owns (handles s) H -> (h, Process) ∈ H -> exit_status E = Some code -> running s = false ->
  Q (Ok code) s -> wp (GetExitCodeProcess (Some h)) Q s.
Proof.
  intros Ho Hin Hcode Hr HQ. unfold GetExitCodeProcess. win_step. eapply wp_load; [exact Ho|exact Hin|]. cbn. wp_simpl.
  rewrite Hr, Hcode. cbn. by destruct s.
Qed.

(** From the pipes on, for a process that closes its pipe and ends. *)
Lemma wp_run_process hr hw he c t H X out code st s :
  strdup_fails E = false -> CreatePipe E = true -> SetHandleInformation E = true ->
  DuplicateHandle E = true -> (CreateProcessA E = false -> message_fits) ->
  exit_status E = Some code -> read_spec (reads s) = Some out -> stack (L s) = st ->
  owns (handles s) (local_handles (Locals (Some hr) (Some hw) (Some he) None None (Some c)) ++ H) ->
  owns (strings s) ((c, t) :: X) ->
  wp (run_process (Some hr) (Some hw) (Some he) (Some c))
     (fun o s' => ends o /\ owns (handles s') H /\ owns (strings s') X /\
        (o = Ok 2 -> running s' = false /\ stack (L s') = LNumber code :: LString out :: st)) s.
Proof.
  intros E1 E2 E3 E4 Hfit Hcode Hr Hst Ho Hs. unfold run_process, ends, failed. rewrite E1, E2, E3, E4. cbn [negb].
  destruct (CreateProcessA E); cbn [negb].
  - win_step. eapply wp_malloc; [exact Ho|]. intros hp h1 H1. cbn. win_step.
    eapply wp_malloc; [exact H1|]. intros ht h2 H2. cbn. win_step. cbn in H2.
    eapply (wp_CloseHandle (Some hw) WritePipe
      (local_handles (Locals (Some hr) None (Some he) (Some hp) (Some ht) (Some c)) ++ H)); [cbn; reorder H2|].
    intros h3 H3. cbn. win_step.
    eapply (wp_CloseHandle (Some he) WritePipeErr
      (local_handles (Locals (Some hr) None None (Some hp) (Some ht) (Some c)) ++ H)); [cbn in *; reorder H3|].
    intros h4 H4. cbn. win_step.
    eapply wp_mono; [eapply (read_loop _ _ [] out st); [exact Hr|done|by rewrite <- Hst|lia]|].
    intros o s' (-> & Hs' & Hh' & Hst' & _). cbn [then_post]. win_step.
    assert (owns (handles s') (local_handles (Locals (Some hr) None None (Some hp) (Some ht) (Some c)) ++ H)) as H5
      by (rewrite Hh'; exact H4).
    eapply (wp_wait hp code); [exact H5|in_blocks|done|]. cbn [then_post]. win_step.
    eapply (wp_exit_code hp code); [exact H5|in_blocks|done|done|]. cbn [then_post]. win_step.
    eapply wp_cleanup; [exact H5|cbn; rewrite Hst'; exact Hs|].
    intros hs ss Hhs Hss. wp_simpl. split; [done|]. split; [done|]. split; [done|]. intros _. cbn. by rewrite Hs'.
  - destruct Hfit as [[m Hm] Hlen]; [done|]. unfold create_process_error.
    unfold process_error in Hlen |- *. rewrite Hm in Hlen |- *. cbn [default] in Hlen |- *.
    rewrite decide_True by exact Hlen. wp_simpl.
    eapply wp_cleanup; [exact Ho|exact Hs|]. intros hs ss Hhs Hss. apply wp_raise.
    split; [done|]. split; [done|]. split; [done|]. by destruct (expand _).
Qed.

(** ** Properties *)

(** C28: running a command on Windows. Whichever of the calls fails, every handle
    the function obtained is closed exactly once, its copy of the command line is
    freed, and the call raises the message of the call that failed (expanded as a
    format, which it is used as; with a directive that reads an argument that is
    undefined).  When none fails, the call waits for the process to end and returns
    the text read from the pipe until it broke and the process's exit code, with
    everything released as well.  That is for a process that ends and whose pipe
    breaks and, when it cannot be created, for a system message that exists and fits
    the 128 characters of its buffer: [long_message_ends_agent] is about one that does not fit. *)
Theorem win32_exec_releases (s : state) (H : list (positive * handle)) (X : list (positive * bytes))
    (arg out : bytes) (code : Z) :
  stack (L s) = [LString arg] -> owns (handles s) H -> owns (strings s) X ->
  read_spec (reads s) = Some out -> exit_status E = Some code -> (CreateProcessA E = false -> message_fits) ->
  exists o s', equus_exec_call_win32_core s = (o, s') /\ ends o /\
    owns (handles s') H /\ owns (strings s') X /\
    (o = Ok 2 -> running s' = false /\ stack (L s') = [LNumber code; LString out; LString arg]).
Proof.
  intros Hst Ho Hs Hr Hcode Hfit. apply wp_run. unfold equus_exec_call_win32_core. win_step.
  rewrite (wp_checkstring 1 arg) by (exists 0%nat; by rewrite Hst). cbn. win_step.
  destruct (strdup_fails E) eqn:E1.
  { apply (wp_cleanup _ [] H X); [exact Ho|exact Hs|]. intros hs ss Hhs Hss. apply wp_raise.
    unfold ends, failed. rewrite E1. done. }
  win_step. eapply wp_malloc; [exact Hs|]. intros c h1 H1. cbn. win_step.
  destruct (CreatePipe E) eqn:E2.
  2: { eapply (wp_cleanup _ _ H X); [exact Ho|exact H1|]. intros hs ss Hhs Hss. apply wp_raise.
       unfold ends, failed. rewrite E1, E2. done. }
  win_step. eapply wp_malloc; [exact Ho|]. intros hr h2 H2. cbn. win_step.
  eapply wp_malloc; [exact H2|]. intros hw h3 H3. cbn. win_step.
  destruct (SetHandleInformation E) eqn:E3.
  2: { eapply (wp_cleanup _ _ H X); [exact H3|exact H1|]. intros hs ss Hhs Hss. apply wp_raise.
       unfold ends, failed. rewrite E1, E2, E3. done. }
  destruct (DuplicateHandle E) eqn:E4.
  2: { eapply (wp_cleanup _ _ H X); [exact H3|exact H1|]. intros hs ss Hhs Hss. apply wp_raise.
       unfold ends, failed. rewrite E1, E2, E3, E4. done. }
  win_step. eapply wp_malloc; [exact H3|]. intros he h4 H4. cbn. win_step.
  eapply wp_run_process; [done..|exact Hcode|cbn; exact Hr|done|cbn; reorder H4|exact H1].
Qed.

(** When the process cannot be created and the system's message leaves no room
    in the 128 character buffer, the whole agent is ended by [sprintf_s], instead
    of an error being raised. *)
Theorem long_message_ends_agent (s : state) (H : list (positive * handle))
    (X : list (positive * bytes)) (arg : bytes) :
  stack (L s) = [LString arg] -> owns (handles s) H -> owns (strings s) X ->
  strdup_fails E = false -> CreatePipe E = true -> SetHandleInformation E = true ->
  DuplicateHandle E = true -> CreateProcessA E = false ->
  is_Some (format_err (FormatMessage E (GetLastError E)) 128) -> (128 <= length process_error)%nat ->
  (equus_exec_call_win32_core s).1 = Stop Aborted.
Proof.
  intros Hst Ho Hs E1 E2 E3 E4 E5 [m Hm] Hlen.
  enough (wp equus_exec_call_win32_core (fun o _ => o = Stop Aborted) s) as H1 by exact H1.
  unfold equus_exec_call_win32_core. win_step.
  rewrite (wp_checkstring 1 arg) by (exists 0%nat; by rewrite Hst). cbn. win_step. rewrite E1.
  win_step. eapply wp_malloc; [exact Hs|]. intros c h1 H1. cbn. win_step. rewrite E2.
  win_step. eapply wp_malloc; [exact Ho|]. intros hr h2 H2. cbn. win_step.
  eapply wp_malloc; [exact H2|]. intros hw h3 H3. cbn. win_step. rewrite E3, E4.
  win_step. eapply wp_malloc; [exact H3|]. intros he h4 H4. cbn. win_step.
  unfold run_process, create_process_error. rewrite E5, Hm. unfold process_error in Hlen. rewrite Hm in Hlen.
  cbn [default] in Hlen. rewrite decide_False; [done|]. apply Nat.le_ngt, Hlen.
Qed.
End Exec.

(** Every character of an error text is ASCII, and the text keeps its length. *)
Lemma format_err_ascii m blen t :
  format_err (Some m) blen = Some t ->
  length t = S (length m) /\ Forall (fun c => is_ascii c = true) t.
Proof.
  unfold format_err. case_decide as Hb; [|done]. intros [= <-]. split.
  - rewrite length_fmap, length_take, length_app. cbn. lia.
  - apply Forall_fmap, Forall_true. intros c. cbn. unfold to_ascii.
    by destruct (is_ascii c) eqn:E.
Qed.

(** ** Concrete environments for the witnesses *)

Definition env_ok : env := Env false true true true true 0 (fun _ => None) true (Some 5).
Definition env_long : env :=
  Env false true true true false 193 (fun _ => Some (replicate 120 "x"%char)) false None.
Definition state0 (r : list (bool * bytes)) : state :=
  State (with_stack [LString (b:"cmd")] new_state) empty_heap empty_heap r false.

Lemma win32_exec_releases_witness :
  exists o s', equus_exec_call_win32_core env_ok (state0 [(true, b:"ab"); (true, b:"c"); (false, [])]) = (o, s') /\
    o = Ok 2 /\ owns (handles s') [] /\ owns (strings s') [] /\
    (o = Ok 2 -> running s' = false /\ stack (L s') = [LNumber 5; LString (b:"abc"); LString (b:"cmd")]).
Proof.
  apply (win32_exec_releases env_ok (state0 [(true, b:"ab"); (true, b:"c"); (false, [])]) [] []
    (b:"cmd") (b:"abc") 5 eq_refl owns_empty owns_empty); [by vm_compute|done|done].
Defined.

Lemma long_message_ends_agent_witness :
  (equus_exec_call_win32_core env_long (state0 [])).1 = Stop Aborted.
Proof.
  apply (long_message_ends_agent env_long (state0 []) [] [] (b:"cmd") eq_refl owns_empty owns_empty);
    [done|done|done|done|done|by vm_compute; eauto|by_decide].
Defined.
