(* ===== verification/Platform.v ===== *)
(** * Small platform services

    [equus_util.c]: which platform the agent was built for (585-656), the run
    count and the restart flag (659-674), closing the standard streams (501-514),
    a pair of connected sockets on Windows (718-797), the handle of the Sigar
    library (801-821) and the Windows memory probes (833-918). *)

From S2P Require Import Prelude CString Heap.
Open Scope Z_scope.

(** ** The platform *)

Module Build.
(** The macros the compiler may define. *)
Record macros : Type := Macros {
  EQUUS_PLATFORM : bytes;
  WIN32 : bool; APPLE : bool; FreeBSD : bool; OpenBSD : bool; NetBSD : bool; sun : bool; linux : bool
}.

Definition flag (b : bool) : Z := if b then 1 else 0.
Definition p_platform (m : macros) : bytes := EQUUS_PLATFORM m.
Definition p_is_windows (m : macros) : Z := flag (WIN32 m).
Definition p_is_unix (m : macros) : Z := if decide (p_is_windows m = 0) then 1 else 0.
Definition p_is_darwin (m : macros) : Z := flag (APPLE m).
Definition p_is_freebsd (m : macros) : Z := flag (FreeBSD m).
Definition p_is_openbsd (m : macros) : Z := flag (OpenBSD m).
Definition p_is_netbsd (m : macros) : Z := flag (NetBSD m).
Definition p_is_solaris (m : macros) : Z := flag (sun m).
Definition p_is_linux (m : macros) : Z := flag (linux m).
End Build.

(** ** Standard streams *)

Module Stdio.
Inductive stream : Type := Stdin | Stdout | Stderr.
#[global] Instance stream_eq_dec : EqDecision stream.
Proof. solve_decision. Defined.

(** The streams that were sent to [/dev/null], last first. *)
Definition state : Type := list stream.

(** [freopen]'s answer: [None] when it succeeds, else the [errno]. *)
Definition freopen (answer : stream -> option Z) (f : stream) : C state (option Z) :=
  match answer f with
  | None => modify (cons f) ;;; ret None
  | Some e => ret (Some e)
  end.

Definition equus_shutdown_stdio (answer : stream -> option Z) : C state Z :=
  let! r := freopen answer Stdin in
  match r with
  | Some e => ret e
  | None =>
      let! r := freopen answer Stdout in
      match r with
      | Some e => ret e
      | None =>
          let! r := freopen answer Stderr in
          match r with
          | Some e => ret e
          | None => ret 0
          end
      end
  end.
End Stdio.

(** ** A pair of connected sockets *)

Module Pipe.
Inductive sock : Type := Listener | Connector | Accepted.

Record addr : Type := Addr { s_addr : Z; sin_port : Z; addr_size : Z }.
#[global] Instance addr_eq_dec : EqDecision addr.
Proof. solve_decision. Defined.

(** What the calls answer: whether they succeed, and the addresses. *)
Record env : Type := Env {
  socket_ok : bool;
  bind_ok : bool;
  name_ok : bool;
  listen_ok : bool;
  socket2_ok : bool;
  connect_ok : bool;
  accept_ok : bool;
  peer : option addr;          (** [getpeername(sock[0])] *)
  self : option addr           (** [getsockname(sock[1])] *)
}.

Definition state : Type := heap sock.

(** [closesocket] of a socket that is not [INVALID_SOCKET]. *)
Definition closesocket (p : ptr) : C state unit := load p ;;; free p.

Definition fail (listener sock0 sock1 : ptr) : C state (Z * option (ptr * ptr)) :=
  closesocket listener ;;;
  (match sock0 with Some _ => closesocket sock0 | None => ret tt end) ;;;
  (match sock1 with Some _ => closesocket sock1 | None => ret tt end) ;;;
  ret (-1, None).

(** [getsockname] of [INVALID_SOCKET] fails. *)
Definition getsockname (E : env) (p : ptr) : option addr :=
  match p with Some _ => self E | None => None end.

(** The answer and, when it is 0, what [filedes] is set to.  [SOCKET] is unsigned:
    the test of [accept]'s result for a negative value never holds. *)
Definition pipe_win32 (E : env) : C state (Z * option (ptr * ptr)) :=
  if negb (socket_ok E) then ret (-1, None)
  else
    let! listener := malloc Listener in
    if negb (bind_ok E) then fail listener None None
    else if negb (name_ok E) then fail listener None None
    else if negb (listen_ok E) then fail listener None None
    else if negb (socket2_ok E) then fail listener None None
    else
      let! sock0 := malloc Connector in
      if negb (connect_ok E) then fail listener sock0 None
      else
        let! sock1 := if accept_ok E then malloc Accepted else ret None in
        match peer E with
        | None => fail listener sock0 sock1
        | Some a =>
            match getsockname E sock1 with
            | None => fail listener sock0 sock1
            | Some b =>
                if decide (addr_size a <> addr_size b \/ s_addr a <> s_addr b \/ sin_port a <> sin_port b)
                then fail listener sock0 sock1
                else
                  closesocket listener ;;;
                  ret (0, Some (sock0, sock1))
            end
        end.

(** Every call succeeds and the two ends see the same address. *)
Definition connected (E : env) : bool :=
  socket_ok E && bind_ok E && name_ok E && listen_ok E && socket2_ok E && connect_ok E && accept_ok E &&
  match peer E, self E with Some a, Some b => bool_decide (a = b) | _, _ => false end.

Lemma wp_closesocket l k H (Q : outcome unit -> state -> Prop) h :
  owns h ((l, k) :: H) -> (forall h', owns h' H -> Q (Ok tt) h') -> wp (closesocket (Some l)) Q h.
Proof.
  intros Ho HQ. unfold closesocket. wp_simpl. eapply wp_load; [exact Ho|in_blocks|]. cbn.
  eapply wp_free; [exact Ho|]. intros h' Hh. by apply HQ.
Qed.
#[local] Arguments closesocket : simpl never.

Definition sock_block (p : ptr) (k : sock) : list (positive * sock) :=
  match p with Some l => [(l, k)] | None => [] end.

Lemma wp_fail l s0 s1 H (Q : outcome (Z * option (ptr * ptr)) -> state -> Prop) h :
  owns h ((l, Listener) :: sock_block s0 Connector ++ sock_block s1 Accepted ++ H) ->
  (forall h', owns h' H -> Q (Ok (-1, None)) h') -> wp (fail (Some l) s0 s1) Q h.
Proof.
  intros Ho HQ. unfold fail. wp_simpl. eapply wp_closesocket; [exact Ho|]. intros h1 H1. cbn. wp_simpl.
  destruct s0 as [l0|]; cbn in H1; [eapply wp_closesocket; [exact H1|]; clear h1 H1; intros h1 H1; cbn|];
    wp_simpl; (destruct s1 as [l1|]; cbn in H1;
      [eapply wp_closesocket; [exact H1|]; intros h2 H2; cbn; wp_simpl; by apply HQ
      |wp_simpl; by apply HQ]).
Qed.
#[local] Arguments fail : simpl never.

(** A pair of sockets. The call returns 0 exactly when every socket call
    succeeded and both ends report the same address; it then leaves the two
    connected sockets open and nothing else.  Otherwise it returns -1 and every
    socket it opened is closed, each once, also when [accept] fails although that
    failure is not noticed where it happens. *)
Lemma pipe_win32_spec (E : env) (h : heap sock) (H : list (positive * sock)) :
  owns h H ->
  exists h', if connected E then
      exists l0 l1, pipe_win32 E h = (Ok (0, Some (Some l0, Some l1)), h') /\
        owns h' ((l0, Connector) :: (l1, Accepted) :: H)
    else pipe_win32 E h = (Ok (-1, None), h') /\ owns h' H.
Proof.
  intros Ho. enough (wp (pipe_win32 E) (fun o h' => if connected E then
      exists l0 l1, o = Ok (0, Some (Some l0, Some l1)) /\
        owns h' ((l0, Connector) :: (l1, Accepted) :: H)
    else o = Ok (-1, None) /\ owns h' H) h) as Hw.
  { unfold wp in Hw. destruct (pipe_win32 E h) as [o h']; cbn in Hw. exists h'.
    destruct (connected E).
    - destruct Hw as (l0 & l1 & -> & Hw). eauto.
    - by destruct Hw as [-> Hw]. }
  unfold pipe_win32, connected.
  destruct (socket_ok E); cbn [negb andb]; [|by wp_simpl].
  wp_simpl. eapply wp_malloc; [exact Ho|]. intros l h1 H1. cbn. wp_simpl.
  destruct (bind_ok E); cbn [negb andb]; [|by apply (wp_fail l None None H)].
  destruct (name_ok E); cbn [negb andb]; [|by apply (wp_fail l None None H)].
  destruct (listen_ok E); cbn [negb andb]; [|by apply (wp_fail l None None H)].
  destruct (socket2_ok E); cbn [negb andb]; [|by apply (wp_fail l None None H)].
  wp_simpl. eapply wp_malloc; [exact H1|]. intros l0 h2 H2. cbn. wp_simpl.
  destruct (connect_ok E); cbn [negb andb].
  2: { eapply (wp_fail l (Some l0) None H); [cbn; reorder H2|done]. }
  unfold getsockname. wp_simpl. destruct (accept_ok E); wp_simpl.
  - eapply wp_malloc; [exact H2|]. intros l1 h3 H3. cbn.
    assert (owns h3 ((l, Listener) :: (l0, Connector) :: (l1, Accepted) :: H)) as H4 by (reorder H3).
    destruct (peer E) as [a|]; [|by apply (wp_fail l (Some l0) (Some l1) H)].
    destruct (self E) as [b|]; [|by apply (wp_fail l (Some l0) (Some l1) H)].
    destruct (decide _) as [Hne|Heq].
    + rewrite bool_decide_false by (intros ->; naive_solver).
      by apply (wp_fail l (Some l0) (Some l1) H).
    + rewrite bool_decide_true.
      2: { destruct a as [x1 x2 x3], b as [y1 y2 y3]; cbn in Heq.
           f_equal; apply dec_stable; intros Hn; apply Heq; auto. }
      wp_simpl. eapply wp_closesocket; [exact H4|]. intros h5 H5. cbn. wp_simpl. eauto.
  - destruct (peer E) as [a|]; (eapply (wp_fail l (Some l0) None H); [cbn; reorder H2|done]).
Qed.

Definition env_ok : env :=
  Env true true true true true true true (Some (Addr 127 4000 16)) (Some (Addr 127 4000 16)).
Definition env_accept_fails : env :=
  Env true true true true true true false (Some (Addr 127 4000 16)) (Some (Addr 127 4000 16)).

Lemma pipe_win32_spec_witness :
  (exists h' l0 l1, pipe_win32 env_ok empty_heap = (Ok (0, Some (Some l0, Some l1)), h') /\
    owns h' [(l0, Connector); (l1, Accepted)]) /\
  (exists h', pipe_win32 env_accept_fails empty_heap = (Ok (-1, None), h') /\ owns h' []).
Proof.
  split; [apply (pipe_win32_spec env_ok empty_heap [] owns_empty)
         |apply (pipe_win32_spec env_accept_fails empty_heap [] owns_empty)].
Defined.
End Pipe.

(** ** Process-wide flags, Sigar, memory probes *)

Module Process.
Record state : Type := State {
  run_count : Z;                (** [g_equus_run_count] *)
  restart : Z;                  (** [g_equus_restart] *)
  win_service : Z               (** [g_equus_win_service] *)
}.

Definition init : state := State 0 0 0.
Definition equus_restart_get : C state Z := gets restart.
Definition equus_restart_set (i : Z) : C state unit :=
  modify (fun s => State (run_count s) i (win_service s)).
Definition count_run : C state unit :=
  modify (fun s => State (i32 (run_count s + 1)) (restart s) (win_service s)).
Definition set_win_service : C state unit := modify (fun s => State (run_count s) (restart s) 1).

(** [sigar_open]'s answer: its code and the library's handle; [SIGAR_OK] is 0. *)
Definition sigar_create (sigar_open : Z * ptr) : ptr :=
  let '(rv, si) := sigar_open in
  if decide (rv <> 0) then None else si.

Definition sigar_destroy (sigar_close : positive -> Z) (si : ptr) : Z :=
  match si with None => 0 | Some p => sigar_close p end.

(** The counters of [GetProcessMemoryInfo]; [None] when it fails. *)
Definition win32_getprocmemory (pmc : option (Z * Z)) : C state Z :=
  match pmc with
  | None => ret 0
  | Some (WorkingSetSize, PagefileUsage) =>
      if decide (30000000 < WorkingSetSize) then stop (Exited 1)
      else ret (u32 (WorkingSetSize + PagefileUsage))
  end.
End Process.

(** The memory probes of a build without the debug runtime, whose calls are left
    out there: [win32_mem_checkpoint] takes a block to print its address, the
    others do nothing. *)
Module MemProbe.
Record state : Type := State { mem : heap unit; printed : list ptr }.

Definition win32_mem_checkpoint_init : C state unit := ret tt.

Definition win32_mem_checkpoint : C state unit :=
  let! addr := zoom mem (fun m s => State m (printed s)) (malloc tt) in
  modify (fun s => State (mem s) (addr :: printed s)) ;;;
  match addr with
  | Some _ => zoom mem (fun m s => State m (printed s)) (free addr)
  | None => ret tt
  end.

Definition win32_mem_difference : C state unit := ret tt.
Definition win32_dumpmemoryleaks : C state unit := ret tt.
Definition win32_mem_values : C state Z := ret 0.

(** The probe gives back what it took. *)
Lemma checkpoint_restores X s :
  owns (mem s) X -> wp win32_mem_checkpoint (fun o s' => o = Ok tt /\ owns (mem s') X) s.
Proof.
  intros Ho. unfold win32_mem_checkpoint. rewrite wp_bind, wp_zoom. eapply wp_malloc; [exact Ho|].
  intros l h Hh. cbn. wp_simpl. by eapply wp_free.
Qed.
End MemProbe.

(** Closing the standard streams. The result is 0 exactly when all three were
    reopened on [/dev/null]; the first failure stops the work and is returned, and
    the streams before it have been reopened. *)
Theorem shutdown_stdio_spec (answer : Stdio.stream -> option Z) :
  (forall f e, answer f = Some e -> e <> 0) ->
  exists rv s, Stdio.equus_shutdown_stdio answer [] = (Ok rv, s) /\
    (rv = 0 <-> forall f, answer f = None) /\
    (rv = 0 -> s = [Stdio.Stderr; Stdio.Stdout; Stdio.Stdin]) /\
    (rv <> 0 -> exists f, answer f = Some rv /\ f ∉ s /\ forall g, g ∈ s -> answer g = None).
Proof.
  intros Hne. unfold Stdio.equus_shutdown_stdio, Stdio.freopen, bind, modify, ret.
  destruct (answer Stdio.Stdin) as [e|] eqn:E1; cbn.
  { do 2 eexists. split; [done|]. pose proof (Hne _ _ E1). split_and!; [|done|].
    - split; [done|]. intros Hall. by rewrite Hall in E1.
    - intros _. exists Stdio.Stdin. split_and!; [done|set_solver|set_solver]. }
  destruct (answer Stdio.Stdout) as [e|] eqn:E2; cbn.
  { do 2 eexists. split; [done|]. pose proof (Hne _ _ E2). split_and!; [|done|].
    - split; [done|]. intros Hall. by rewrite Hall in E2.
    - intros _. exists Stdio.Stdout. split_and!; [done|set_solver|]. by intros g ->%list_elem_of_singleton. }
  destruct (answer Stdio.Stderr) as [e|] eqn:E3; cbn.
  { do 2 eexists. split; [done|]. pose proof (Hne _ _ E3). split_and!; [|done|].
    - split; [done|]. intros Hall. by rewrite Hall in E3.
    - intros _. exists Stdio.Stderr. split_and!; [done|set_solver|].
      intros g Hg. apply elem_of_cons in Hg as [->|Hg]; [done|]. by apply list_elem_of_singleton in Hg as ->. }
  do 2 eexists. split; [done|]. split_and!; [|done|done]. split; [|done]. by intros _ [].
Qed.

Lemma shutdown_stdio_spec_witness :
  let answer f := match f with Stdio.Stderr => Some 13 | _ => None end in
  exists rv s, Stdio.equus_shutdown_stdio answer [] = (Ok rv, s) /\
    (rv = 0 <-> forall f, answer f = None) /\
    (rv = 0 -> s = [Stdio.Stderr; Stdio.Stdout; Stdio.Stdin]) /\
    (rv <> 0 -> exists f, answer f = Some rv /\ f ∉ s /\ forall g, g ∈ s -> answer g = None).
Proof.
  intros answer. apply (shutdown_stdio_spec answer). intros [] e; [discriminate|discriminate|].
  intros H. apply (inj Some) in H. subst e. lia.
Defined.
