(* ===== verification/Debugger.v ===== *)
(** * The Lua debugger

    [mojosetup_luadebugger.c]: the stack walk (48-141), the list of breakpoints
    (145-197), the two line hooks (199-232) and the command loop (242-353).  The
    Lua call stack, the running of Lua code and the standard input are given from
    outside. *)

From S2P Require Import Prelude CString Heap Lua Log.
Open Scope Z_scope.

(** ** State *)

Inductive block : Type :=
| BStr (s : bytes)
| BBreak (name : ptr) (line : Z) (next : ptr).      (** [breakpoint_t] *)

Inductive hookfn : Type := Hook_breakpoint | Hook_trace.

Record state : Type := State {
  L : lua;
  mem : heap block;
  breakpoint_head : ptr;
  debugger_trace_enabled : Z;
  hook : option hookfn;                (** the line hook of [lua_sethook] *)
  level : Z;                           (** the log level *)
  stdin : bytes;                       (** input still to be read *)
  printed : list bytes;                (** lines on the terminal, last first *)
  logged : list bytes                  (** lines handed to [logDebug], last first *)
}.

Definition with_L (l : lua) (s : state) : state :=
  State l (mem s) (breakpoint_head s) (debugger_trace_enabled s) (hook s) (level s) (stdin s)
        (printed s) (logged s).
Definition with_mem (m : heap block) (s : state) : state :=
  State (L s) m (breakpoint_head s) (debugger_trace_enabled s) (hook s) (level s) (stdin s)
        (printed s) (logged s).
Definition with_head (p : ptr) (s : state) : state :=
  State (L s) (mem s) p (debugger_trace_enabled s) (hook s) (level s) (stdin s)
        (printed s) (logged s).
Definition with_trace (t : Z) (s : state) : state :=
  State (L s) (mem s) (breakpoint_head s) t (hook s) (level s) (stdin s) (printed s) (logged s).
Definition with_hook (h : option hookfn) (s : state) : state :=
  State (L s) (mem s) (breakpoint_head s) (debugger_trace_enabled s) h (level s) (stdin s)
        (printed s) (logged s).
Definition with_level (l : Z) (s : state) : state :=
  State (L s) (mem s) (breakpoint_head s) (debugger_trace_enabled s) (hook s) l (stdin s)
        (printed s) (logged s).
Definition with_stdin (i : bytes) (s : state) : state :=
  State (L s) (mem s) (breakpoint_head s) (debugger_trace_enabled s) (hook s) (level s) i
        (printed s) (logged s).
Definition printf (line : bytes) : C state unit :=
  modify (fun s => State (L s) (mem s) (breakpoint_head s) (debugger_trace_enabled s) (hook s)
    (level s) (stdin s) (line :: printed s) (logged s)).
Definition logDebug (line : bytes) : C state unit :=
  modify (fun s => State (L s) (mem s) (breakpoint_head s) (debugger_trace_enabled s) (hook s)
    (level s) (stdin s) (printed s) (line :: logged s)).
Definition on_L {A} (m : C lua A) : C state A := zoom L with_L m.
Definition on_mem {A} (m : C (heap block) A) : C state A := zoom mem with_mem m.

(** ** The stack walk *)

(** What [lua_getinfo(L, "nSl", ...)] fills in. *)
Record lua_Debug : Type := Debug {
  namewhat : bytes; name : option bytes; what : bytes; source : bytes;
  short_src : bytes; currentline : Z
}.

(** [scratchbuf_128k] and the two locals [snprintfcat] advances. *)
Record scratch : Type := Scratch { buf : bytes; off : nat; len : Z }.
Definition scratch_size : Z := 131072.

(** At most [len - 1] characters and a NUL are written at [ptr]; both locals then
    move by the length of the whole text. *)
Definition snprintfcat (text : bytes) (b : scratch) : C state scratch :=
  let bw := Z.of_nat (length text) in
  if decide (len b = 0) then ret (Scratch (buf b) (off b + length text) (u64 (- bw)))
  else
    match put_at (off b) (take (Z.to_nat (len b - 1)) text ++ [NUL]) (buf b) with
    | Some buf' => ret (Scratch buf' (off b + length text) (u64 (len b - bw)))
    | None => stop (Undefined "write outside the scratch buffer")
    end.

Fixpoint snprintfcats (texts : list bytes) (b : scratch) : C state scratch :=
  match texts with
  | [] => ret b
  | t :: ts => let! b := snprintfcat t b in snprintfcats ts b
  end.

Section Debugger.
(** What [printf] makes of [%s] with a null pointer, if it survives it. *)
Variable null_text : option bytes.
(** [lua_pcall(L, 0, LUA_MULTRET, -2)] of a function that has been taken off the
    stack, with what lies below it, [luahook_stackwalk], as error handler: the
    status and the results (or the error value first).  The code run is whatever
    was typed: it may change any part of the state (it may set the log level or the
    hook, read the input, enter the debugger again), and it need not return. *)
Variable lua_pcall : lval -> C state (Z * list lval).
Context `{Compiler}.

Definition string_arg (s : option bytes) : C state bytes :=
  match s with
  | Some t => ret t
  | None => match null_text with
            | Some t => ret t
            | None => stop (Undefined "null pointer for %s")
            end
  end.

(** The first half of a frame's text: its number and its function. *)
Definition function_texts (ar : lua_Debug) : list bytes :=
  (match namewhat ar with [] => [] | w => [w ++ b:" "] end) ++
  [match name ar with
   | Some (c :: n) => b:"function " ++ (c :: n) ++ b:" ()"
   | _ => if str_eq (what ar) (b:"main") then b:"mainline of chunk"
          else if str_eq (what ar) (b:"tail") then b:"tail call"
          else b:"unidentifiable function"
   end].

Definition spaces (n : nat) : list bytes := replicate n [SP].

Definition rewind (b : scratch) : scratch := Scratch (buf b) 0 scratch_size.

(** The second half: where the frame is. *)
Definition location_text (ar : lua_Debug) : C state (list bytes) :=
  if str_eq (what ar) (b:"C") then ret [b:"in native code"]
  else if str_eq (what ar) (b:"tail") then ret [b:"in Lua code"]
  else if str_eq (source ar) (b:"=?") && bool_decide (currentline ar = 0) then
    ret [b:"in Lua code (debug info stripped)"]
  else
    let! n := string_arg (name ar) in
    ret ([b:"in Lua code at " ++ short_src ar] ++
         (if decide (currentline ar <> -1) then [b:":" ++ dec (currentline ar)] else []) ++
         [b:" " ++ n ++ b:"()"]).

Definition walk_frame (i : nat) (ar : option lua_Debug) (b : scratch) : C state scratch :=
  let b := rewind b in
  let num := b:"#" ++ dec (Z.of_nat i) in
  let! b := snprintfcats (num :: spaces (4 - length num)) b in
  match ar with
  | None =>
      let! b := snprintfcat (b:"???" ++ [LF]) b in
      logDebug (cstr (buf b)) ;;;
      ret b
  | Some ar =>
      let! b := snprintfcats (function_texts ar) b in
      let b := rewind b in
      let! b := snprintfcats (spaces 4) b in
      let! texts := location_text ar in
      let! b := snprintfcats texts b in
      logDebug (cstr (buf b)) ;;;
      ret b
  end.

Fixpoint walk_frames (i : nat) (frames : list (option lua_Debug)) (b : scratch) : C state scratch :=
  match frames with
  | [] => ret b
  | ar :: frames' => let! b := walk_frame i ar b in walk_frames (S i) frames' b
  end.

Definition retvalString (str : option bytes) : C state Z :=
  on_L (match str with Some s => lua_pushlstring (cstr s) | None => lua_pushnil end) ;;;
  ret 1.

(** [frames]: the levels of the Lua call stack from 1 on. *)
Definition luahook_stackwalk (frames : list (option lua_Debug)) (b : scratch) : C state Z :=
  let! errstr := on_L (lua_tolstring 1) in
  (match errstr with Some e => logDebug (cstr e) | None => ret tt end) ;;;
  logDebug (b:"Lua stack backtrace:") ;;;
  walk_frames 0 frames b ;;;
  retvalString (Some (default [] errstr)).

(** ** Breakpoints *)

Definition load_break (p : ptr) : C state (ptr * Z * ptr) :=
  let! b := on_mem (load p) in
  match b with
  | BBreak nm l nx => ret (nm, l, nx)
  | BStr _ => stop (Undefined "breakpoint_t expected")
  end.

Definition load_str (p : ptr) : C state bytes :=
  let! b := on_mem (load p) in
  match b with
  | BStr t => ret t
  | BBreak _ _ _ => stop (Undefined "string expected")
  end.

Definition breakpoint_add (nm : bytes) (line : Z) : C state unit :=
  let! n := on_mem (malloc (BBreak None 0 None)) in
  let! c := on_mem (malloc (BStr (cstr nm ++ [NUL]))) in
  let! h := gets breakpoint_head in
  on_mem (store n (BBreak c line h)) ;;;
  modify (with_head n).

(** The nodes of a list that does not loop are blocks of the heap. *)
Definition list_fuel : C state nat := gets (fun s => S (size (cells (mem s)))).

Definition clear_round (nm : bytes) (line : Z) (v : ptr * ptr) : C state (ptr * ptr + unit) :=
  let '(prev, tmp) := v in
  match tmp with
  | None => ret (inr tt)
  | Some _ =>
      let t := tmp in
      let! '(tn, tl, tnext) := load_break t in
      let! hit := (if decide (tl = line) then
                     let! s := load_str tn in ret (str_eq s nm)
                   else ret false) in
      let! tmp :=
        (if hit : bool then
           (match prev with
            | Some _ =>
                let! '(pn, pl, _) := load_break prev in
                on_mem (store prev (BBreak pn pl tnext))
            | None => modify (with_head None)
            end) ;;;
           on_mem (free tn) ;;;
           on_mem (free t) ;;;
           ret prev
         else ret tmp) in
      let prev := tmp in
      let! '(_, _, next) := load_break tmp in
      ret (inl (prev, next))
  end.

Definition breakpoint_clear (nm : bytes) (line : Z) : C state unit :=
  let! h := gets breakpoint_head in
  let! fuel := list_fuel in
  loop fuel (clear_round nm line) (None, h).

Definition breakpoint_clearall : C state unit :=
  let! h := gets breakpoint_head in
  let! fuel := list_fuel in
  loop fuel (fun tmp : ptr =>
    match tmp with
    | None => ret (inr tt)
    | Some _ =>
        let t := tmp in
        let! '(tn, _, next) := load_break t in
        on_mem (free tn) ;;;
        on_mem (free t) ;;;
        ret (inl next)
    end) h ;;;
  modify (with_head None).

(** ** Hooks *)

Definition LUA_HOOKLINE : Z := 2.

(** [enter] is the debugger's command loop; the answer is whether it was entered. *)
Definition debugger_breakpoint (enter : C state Z) (event : Z) (ar : lua_Debug) : C state bool :=
  if decide (event = LUA_HOOKLINE) then
    if bool_decide (currentline ar <> -1) && str_eq (what ar) (b:"Lua") then
      let! h := gets breakpoint_head in
      let! fuel := list_fuel in
      loop fuel (fun tmp : ptr =>
        match tmp with
        | None => ret (inr false)
        | Some _ =>
            let! '(tn, tl, next) := load_break tmp in
            if decide (tl = currentline ar \/ tl = 0) then
              let! s := load_str tn in
              if negb (str_eq (source ar) s) then
                printf (b:"Breakpoint hit at " ++ cstr s ++ b:":" ++ dec tl) ;;;
                enter ;;;
                ret (inr true)
              else ret (inl next)
            else ret (inl next)
        end) h
    else ret false
  else ret false.

Definition debugger_trace (event : Z) (ar : lua_Debug) : C state unit :=
  if decide (event = LUA_HOOKLINE) then
    if str_eq (what ar) (b:"Lua") then
      printf (b:"L[" ++ source ar ++ b:":" ++ dec (currentline ar) ++ b:"]")
    else ret tt
  else ret tt.

(** A mask of 0 removes the hook, whatever function comes with it. *)
Definition lua_sethook (f : hookfn) (mask : Z) : C state unit :=
  modify (with_hook (if decide (mask = 0) then None else Some f)).
Definition LUA_MASKLINE : Z := 4.

(** ** The command loop *)

(** Trailing newlines and carriage returns become NULs. *)
Fixpoint strip_eol (t : bytes) : bytes :=
  match t with
  | [] => []
  | c :: t' =>
      match strip_eol t' with
      | [] => if decide (c = LF \/ c = CR) then [] else [c]
      | r => c :: r
      end
  end.

(** ["NAME:LINE"]: the line after the last colon of the command, and the text
    after the word cut at that colon. *)
Definition parse_target (cmd : bytes) : bytes * Z :=
  match strrchr ":"%char cmd with
  | Some i => (drop 6 (take i cmd), atoi (drop (S i) cmd))
  | None => (drop 6 cmd, 0)
  end.

(** [luaL_loadstring], [lua_pcall(L, 0, LUA_MULTRET, -2)]: everything the text
    evaluates to is left on the stack; the answer is the status. *)
Definition evaluate (cmd : bytes) : C state Z :=
  let! rv := on_L (luaL_loadbuffer cmd cmd) in
  if decide (rv <> 0) then ret rv
  else
    let! f := on_L pop1 in
    let! '(rv, vs) := lua_pcall f in
    on_L (modify (fun l =>
      with_stack ((if decide (rv = 0) then vs else [default LNil (list.head vs)]) ++ stack l) l)) ;;;
    ret rv.

Fixpoint pop_until (fuel : nat) (origtop : Z) : C lua unit :=
  match fuel with
  | O => stop OutOfFuel
  | S n =>
      let! t := lua_gettop in
      if decide (t <> origtop) then lua_pop 1 ;;; pop_until n origtop else ret tt
  end.

Definition run_command (origtop origlevel : Z) (cmd : bytes) : C state unit :=
  let! rv := evaluate cmd in
  (if decide (rv <> 0) then
     let! e := on_L (lua_tolstring (-1)) in
     let! t := string_arg e in
     printf (cstr t) ;;;
     on_L (lua_pop 1)
   else
     let! top := on_L lua_gettop in
     printf (b:"Returned " ++ dec (top - origtop) ++ b:" values.") ;;;
     on_L (pop_until (S (Z.to_nat (top - origtop))) origtop) ;;;
     printf []) ;;;
  modify (with_level origlevel).

Definition toggle_trace : C state unit :=
  let! t := gets debugger_trace_enabled in
  if decide (t = 0) then
    lua_sethook Hook_trace LUA_MASKLINE ;;;
    modify (with_trace 1) ;;;
    printf (b:"Tracing enabled!")
  else
    lua_sethook Hook_trace 0 ;;;
    modify (with_trace 0) ;;;
    printf (b:"Tracing disabled!").

Definition debugger_round (origtop origlevel : Z) (u : unit) : C state (unit + unit) :=
  printf (b:"> ") ;;;
  let! i := gets stdin in
  match fgets (Z.to_nat scratch_size) i with
  | None =>
      printf (b:"  fgets() on stdin failed: ") ;;; ret (inr tt)
  | Some (line, i') =>
      modify (with_stdin i') ;;;
      let cmd := strip_eol (cstr line) in
      if str_eq cmd (b:"q") then ret (inr tt)
      else if str_eq cmd (b:"quit") then ret (inr tt)
      else if str_eq cmd (b:"exit") then ret (inr tt)
      else if has_prefix (b:"break ") cmd then
        let '(nm, lineno) := parse_target cmd in
        breakpoint_add nm lineno ;;;
        printf (b:"Adding breakpoing to " ++ nm ++ b:" at line " ++ dec lineno) ;;;
        lua_sethook Hook_breakpoint LUA_MASKLINE ;;;
        ret (inl tt)
      else if has_prefix (b:"clear ") cmd then
        let '(nm, lineno) := parse_target cmd in
        breakpoint_clear nm lineno ;;;
        printf (b:"Clearing breakpoing to " ++ nm ++ b:" at line " ++ dec lineno) ;;;
        lua_sethook Hook_breakpoint 0 ;;;
        ret (inl tt)
      else if str_eq cmd (b:"clearall") then
        breakpoint_clearall ;;;
        lua_sethook Hook_breakpoint 0 ;;;
        printf (b:"All breakpoints cleared") ;;;
        ret (inl tt)
      else if str_eq cmd (b:"trace") then
        toggle_trace ;;; ret (inl tt)
      else if str_eq cmd (b:"bt") then
        modify (with_level EQUUS_LOG_EVERYTHING) ;;;
        run_command origtop origlevel (b:"equus_stackwalk()") ;;;
        ret (inl tt)
      else
        run_command origtop origlevel cmd ;;;
        ret (inl tt)
  end.

Definition luahook_debugger : C state Z :=
  let! origloglevel := gets level in
  on_L (lua_pushcfunction "luahook_stackwalk") ;;;
  let! origtop := on_L lua_gettop in
  printf (b:"Quick and dirty Lua debugger. Type 'exit' to quit.") ;;;
  let! i := gets stdin in
  loop (S (length i)) (debugger_round origtop origloglevel) tt ;;;
  on_L (lua_pop 1) ;;;
  printf (b:"exiting debugger...") ;;;
  ret 0.
End Debugger.

#[global] Arguments load_break : simpl never.
#[global] Arguments load_str : simpl never.

(** ** What the list of breakpoints represents *)

Record bp : Type := Bp { bloc : positive; nloc : positive; bname : bytes; bline : Z }.

Definition head_of (es : list bp) : ptr := e ← list.head es; Some (bloc e).

Fixpoint blocks (es : list bp) : list (positive * block) :=
  match es with
  | [] => []
  | e :: es' =>
      (bloc e, BBreak (Some (nloc e)) (bline e) (head_of es')) ::
      (nloc e, BStr (bname e ++ [NUL])) :: blocks es'
  end.

(** [s] holds the breakpoints [es], last added first, and besides them [X]. *)
Definition rep (s : state) (es : list bp) (X : list (positive * block)) : Prop :=
  breakpoint_head s = head_of es /\ owns (mem s) (blocks es ++ X) /\
  Forall (fun e => no_nul (bname e)) es.

(** A breakpoint for this file and line. *)
Definition targets (nm : bytes) (line : Z) (e : bp) : bool :=
  bool_decide (bline e = line) && bool_decide (bname e = cstr nm).

Ltac dbg_step := unfold on_L, on_mem; wp_simpl.

Lemma wp_load_break l nm ln nx (Q : outcome (ptr * Z * ptr) -> state -> Prop) s X :
  owns (mem s) X -> (l, BBreak nm ln nx) ∈ X -> Q (Ok (nm, ln, nx)) s ->
  wp (load_break (Some l)) Q s.
Proof.
  intros Ho Hin HQ. unfold load_break. dbg_step. eapply wp_load; [done..|]. cbn. by destruct s.
Qed.

Lemma wp_load_text l t (Q : outcome bytes -> state -> Prop) s X :
  owns (mem s) X -> (l, BStr t) ∈ X -> Q (Ok t) s -> wp (load_str (Some l)) Q s.
Proof.
  intros Ho Hin HQ. unfold load_str. dbg_step. eapply wp_load; [done..|]. cbn. by destruct s.
Qed.

Lemma length_breakpoint_blocks es : length (blocks es) = (2 * length es)%nat.
Proof. induction es as [|e es IH]; cbn in *; lia. Qed.

Lemma breakpoint_fuel h es X : owns h (blocks es ++ X) -> (length es < S (size (cells h)))%nat.
Proof. intros Ho. rewrite (owns_size _ _ Ho), length_app, length_breakpoint_blocks. lia. Qed.

(** *** Adding *)

Lemma wp_breakpoint_add nm line s es X :
  rep s es X ->
  wp (breakpoint_add nm line)
     (fun o s' => o = Ok tt /\ exists e p h, bname e = cstr nm /\ bline e = line /\
        s' = with_head p (with_mem h s) /\ rep s' (e :: es) X) s.
Proof.
  intros (Hh & Ho & Hn). unfold breakpoint_add. dbg_step.
  eapply wp_malloc; [exact Ho|]. intros l h1 H1. cbn. dbg_step.
  eapply wp_malloc; [exact H1|]. intros c h2 H2. cbn. dbg_step.
  rewrite Permutation_swap in H2. eapply wp_store; [exact H2|]. intros h3 H3. cbn. dbg_step.
  split; [done|]. exists (Bp l c (cstr nm) line), (Some l), h3. split; [done|]. split; [done|].
  split; [by destruct s|]. split; [done|].
  split; [cbn; by rewrite <- Hh|].
  constructor; [apply cstr_no_nul|done].
Qed.

(** *** Clearing one *)

Lemma wp_hit nm line e (Q : outcome bool -> state -> Prop) s X :
  owns (mem s) X -> (nloc e, BStr (bname e ++ [NUL])) ∈ X -> no_nul (bname e) ->
  Q (Ok (targets nm line e)) s ->
  wp (if decide (bline e = line) then
        let! s := load_str (Some (nloc e)) in ret (str_eq s nm)
      else ret false) Q s.
Proof.
  intros Ho Hin Hn HQ. unfold targets in HQ. destruct (decide (bline e = line)) as [E|E].
  - rewrite bool_decide_true in HQ by done. wp_simpl. eapply wp_load_text; [done..|]. cbn. wp_simpl.
    unfold str_eq. by rewrite cstr_app_nul.
  - rewrite bool_decide_false in HQ by done. by wp_simpl.
Qed.

(** The list after a clear that does not hit its first node. *)
Definition cleared (nm : bytes) (line : Z) (es : list bp) : list bp :=
  filter (fun e => targets nm line e = false) es.

Lemma cleared_cons nm line e es :
  cleared nm line (e :: es) = if targets nm line e then cleared nm line es else e :: cleared nm line es.
Proof.
  unfold cleared. rewrite filter_cons. by destruct (targets nm line e).
Qed.
#[local] Arguments cleared : simpl never.

(** Behind a node that stays, the loop removes every breakpoint aimed at. *)
Lemma clear_loop nm line rest : forall fuel p s X,
  owns (mem s) (blocks (p :: rest) ++ X) -> Forall (fun e => no_nul (bname e)) rest ->
  (length rest < fuel)%nat ->
  wp (loop fuel (clear_round nm line) (Some (bloc p), head_of rest))
     (fun o s' => o = Ok tt /\ exists h,
        owns h (blocks (p :: cleared nm line rest) ++ X) /\
        s' = with_mem h s) s.
Proof.
  induction rest as [|r rest IH]; intros [|fuel] p s X Ho Hn Hf; try (cbn in Hf; lia);
    rewrite loop_S; unfold clear_round.
  - wp_simpl. split; [done|]. exists (mem s). split; [done|by destruct s].
  - apply Forall_cons in Hn as [Hr Hn]. cbn [head_of list.head mbind option_bind]. wp_simpl.
    eapply wp_load_break; [exact Ho|in_blocks|]. cbn. wp_simpl.
    eapply wp_hit; [exact Ho|in_blocks|done|]. cbn [then_post]. wp_simpl.
    rewrite cleared_cons. destruct (targets nm line r) eqn:Et.
    + wp_simpl.
      eapply wp_load_break; [exact Ho|in_blocks|]. cbn. dbg_step.
      eapply wp_store; [exact Ho|]. intros h1 H1. cbn. dbg_step.
      eapply (wp_free (nloc r)).
      { cbn in H1. match type of H1 with owns _ (?A :: ?B :: ?D :: ?E :: ?T) =>
          assert (owns h1 (E :: D :: A :: B :: T)) as H2 by (reorder H1); exact H2 end. }
      intros h2 H2. cbn. dbg_step. eapply wp_free; [exact H2|]. intros h3 H3. cbn. dbg_step.
      eapply wp_load_break; [exact H3|in_blocks|]. cbn. wp_simpl.
      eapply wp_mono; [eapply (IH fuel p (with_mem h3 s)); [exact H3|done|cbn in Hf; lia]|].
      intros o s' (-> & h & Hh & ->). split; [done|]. by exists h.
    + wp_simpl.
      eapply wp_load_break; [exact Ho|in_blocks|]. cbn. wp_simpl.
      eapply wp_mono.
      { eapply (IH fuel r s ((bloc p, BBreak (Some (nloc p)) (bline p) (Some (bloc r))) ::
          (nloc p, BStr (bname p ++ [NUL])) :: X)); [|done|cbn in Hf; lia].
        reorder Ho. }
      intros o s' (-> & h & Hh & ->). split; [done|]. exists h. split; [|done]. cbn. reorder Hh.
Qed.

Definition hits_head (nm : bytes) (line : Z) (es : list bp) : bool :=
  match es with e :: _ => targets nm line e | [] => false end.

Lemma wp_breakpoint_clear nm line s es X :
  rep s es X ->
  wp (breakpoint_clear nm line)
     (fun o s' => if hits_head nm line es then o = Stop (Undefined "null pointer dereference")
                  else o = Ok tt /\ exists h, s' = with_mem h s /\ rep s' (cleared nm line es) X) s.
Proof.
  intros (Hh & Ho & Hn). pose proof (breakpoint_fuel _ _ _ Ho) as Hfuel.
  unfold breakpoint_clear, list_fuel. wp_simpl. rewrite Hh.
  destruct es as [|e es]; rewrite loop_S; unfold clear_round at 1.
  - wp_simpl. split; [done|]. exists (mem s). split; [by destruct s|done].
  - apply Forall_cons in Hn as [He Hn]. cbn [head_of list.head mbind option_bind hits_head]. wp_simpl.
    eapply wp_load_break; [exact Ho|in_blocks|]. cbn. wp_simpl.
    eapply wp_hit; [exact Ho|in_blocks|done|]. cbn [then_post]. wp_simpl.
    rewrite cleared_cons. destruct (targets nm line e) eqn:Et.
    + dbg_step. eapply (wp_free (nloc e)); [cbn in Ho; rewrite Permutation_swap in Ho; exact Ho|].
      intros h1 H1. cbn. dbg_step. eapply wp_free; [exact H1|]. intros h2 H2. cbn. dbg_step.
      unfold load_break. dbg_step. done.
    + wp_simpl. eapply wp_load_break; [exact Ho|in_blocks|]. cbn. wp_simpl.
      eapply wp_mono; [eapply (clear_loop nm line es); [exact Ho|done|]|].
      { cbn in Hfuel. lia. }
      intros o s' (-> & h & Hh' & ->). split; [done|]. exists h. split; [done|].
      split; [done|]. split; [done|]. constructor; [done|].
      apply Forall_forall. intros x Hx. apply list_elem_of_filter in Hx as [_ Hx].
      by eapply (proj1 (Forall_forall _ _) Hn).
Qed.

(** *** Clearing all *)

Lemma clearall_loop es : forall fuel s X,
  owns (mem s) (blocks es ++ X) -> (length es < fuel)%nat ->
  wp (loop fuel (fun tmp : ptr =>
    match tmp with
    | None => ret (inr tt)
    | Some _ =>
        let t := tmp in
        let! '(tn, _, next) := load_break t in
        on_mem (free tn) ;;;
        on_mem (free t) ;;;
        ret (inl next)
    end) (head_of es)) (fun o s' => o = Ok tt /\ exists h, owns h X /\ s' = with_mem h s) s.
Proof.
  induction es as [|e es IH]; intros [|fuel] s X Ho Hf; try (cbn in Hf; lia); rewrite loop_S.
  - wp_simpl. split; [done|]. exists (mem s). split; [done|by destruct s].
  - cbn [head_of list.head mbind option_bind]. wp_simpl.
    eapply wp_load_break; [exact Ho|in_blocks|]. cbn. dbg_step.
    cbn in Ho. rewrite Permutation_swap in Ho. eapply wp_free; [exact Ho|]. intros h1 H1. cbn. dbg_step.
    eapply wp_free; [exact H1|]. intros h2 H2. cbn. dbg_step.
    eapply wp_mono; [eapply (IH fuel (with_mem h2 s)); [exact H2|cbn in Hf; lia]|].
    intros o s' (-> & h & Hh & ->). split; [done|]. by exists h.
Qed.

Lemma wp_clearall s es X :
  rep s es X ->
  wp breakpoint_clearall
     (fun o s' => o = Ok tt /\ exists h, s' = with_head None (with_mem h s) /\ rep s' [] X) s.
Proof.
  intros (Hh & Ho & Hn). unfold breakpoint_clearall, list_fuel. wp_simpl. rewrite Hh.
  eapply wp_mono; [eapply (clearall_loop es); [exact Ho|by eapply breakpoint_fuel]|].
  intros o s' (-> & h & Hh' & ->). cbn. wp_simpl. split; [done|]. exists h. split; [done|].
  split; [done|]. by split.
Qed.

#[global] Arguments breakpoint_add : simpl never.
#[global] Arguments breakpoint_clear : simpl never.
#[global] Arguments breakpoint_clearall : simpl never.

(** *** The hook *)

(** The breakpoints that stop the line hook, by the test the code makes. *)
Definition stops (ar : lua_Debug) (e : bp) : bool :=
  bool_decide (bline e = currentline ar \/ bline e = 0) && negb (bool_decide (cstr (source ar) = bname e)).

Lemma hook_loop enter ar es : forall fuel s X,
  owns (mem s) (blocks es ++ X) -> Forall (fun e => no_nul (bname e)) es -> (length es < fuel)%nat ->
  (forall s1, exists s2, enter s1 = (Ok 0, s2)) ->
  wp (loop fuel (fun tmp : ptr =>
        match tmp with
        | None => ret (inr false)
        | Some _ =>
            let! '(tn, tl, next) := load_break tmp in
            if decide (tl = currentline ar \/ tl = 0) then
              let! s := load_str tn in
              if negb (str_eq (source ar) s) then
                printf (b:"Breakpoint hit at " ++ cstr s ++ b:":" ++ dec tl) ;;;
                enter ;;;
                ret (inr true)
              else ret (inl next)
            else ret (inl next)
        end) (head_of es))
     (fun o s' => o = Ok (existsb (stops ar) es)) s.
Proof.
  induction es as [|e es IH]; intros [|fuel] s X Ho Hn Hf Hent; try (cbn in Hf; lia); rewrite loop_S.
  - by wp_simpl.
  - apply Forall_cons in Hn as [He Hn]. cbn [head_of list.head mbind option_bind existsb]. wp_simpl.
    eapply wp_load_break; [exact Ho|in_blocks|]. cbn. wp_simpl.
    assert (owns (mem s) (blocks es ++ (bloc e, BBreak (Some (nloc e)) (bline e) (head_of es)) ::
      (nloc e, BStr (bname e ++ [NUL])) :: X)) as Ho2 by (reorder Ho).
    unfold stops at 1. destruct (decide (bline e = currentline ar \/ bline e = 0)) as [E|E].
    + rewrite bool_decide_true by done. wp_simpl.
      eapply wp_load_text; [exact Ho|in_blocks|]. cbn. unfold str_eq. rewrite cstr_app_nul by done.
      destruct (bool_decide (cstr (source ar) = bname e)); cbn.
      * wp_simpl. eapply IH; [exact Ho2|done|cbn in Hf; lia|done].
      * unfold printf. wp_simpl. match goal with |- wp enter _ ?w => destruct (Hent w) as (s2 & E2) end.
        unfold wp. rewrite E2. done.
    + rewrite bool_decide_false by done. wp_simpl. eapply IH; [exact Ho2|done|cbn in Hf; lia|done].
Qed.

(** *** The command loop *)

#[global] Arguments scratch_size : simpl never.
#[local] Arguments fgets : simpl never.
#[local] Arguments strip_eol : simpl never.
#[local] Arguments parse_target : simpl never.
#[local] Arguments str_eq : simpl never.
#[local] Arguments has_prefix : simpl never.

Lemma scratch_large : (1 < Z.to_nat scratch_size)%nat.
Proof. apply Nat2Z.inj_lt. rewrite Z2Nat.id by (unfold scratch_size; lia). unfold scratch_size. lia. Qed.

(** What a line typed asks for. *)
Inductive command : Type :=
| Leave
| Break (nm : bytes) (line : Z)
| Clear (nm : bytes) (line : Z)
| ClearAll
| Trace
| Code (text : bytes).

Definition command_of (cmd : bytes) : command :=
  if str_eq cmd (b:"q") || str_eq cmd (b:"quit") || str_eq cmd (b:"exit") then Leave
  else if has_prefix (b:"break ") cmd then let '(nm, line) := parse_target cmd in Break nm line
  else if has_prefix (b:"clear ") cmd then let '(nm, line) := parse_target cmd in Clear nm line
  else if str_eq cmd (b:"clearall") then ClearAll
  else if str_eq cmd (b:"trace") then Trace
  else if str_eq cmd (b:"bt") then Code (b:"equus_stackwalk()")
  else Code cmd.

(** The next command of the input and what follows it. *)
Definition read_command (i : bytes) : option (command * bytes) :=
  match fgets (Z.to_nat scratch_size) i with
  | Some (line, i') => Some (command_of (strip_eol (cstr line)), i')
  | None => None
  end.

(** The debugger as its user sees it: the breakpoints by file and line, last
    added first, the hook, whether lines are traced, and the input. *)
Record console : Type := Console {
  c_breaks : list (bytes * Z); c_hook : option hookfn; c_trace : Z; c_input : bytes
}.

Definition view (s : state) (es : list bp) : console :=
  Console ((fun e => (bname e, bline e)) <$> es) (hook s) (debugger_trace_enabled s) (stdin s).

Section Session.
Variable null_text : option bytes.
Variable lua_pcall : lval -> C state (Z * list lval).
Context `{Compiler}.
Variable shown : bytes.
Hypothesis survives : null_text = Some shown.

(** What running a function may do to the debugger. *)
Variable does : lval -> console -> outcome console -> Prop.

Definition obeys (cmd : command) (c : console) (r : outcome console) : Prop :=
  let '(Console bs h t i) := c in
  match cmd with
  | Leave => False
  | Break nm line => r = Ok (Console ((cstr nm, line) :: bs) (Some Hook_breakpoint) t i)
  | Clear nm line =>
      if decide (list.head bs = Some (cstr nm, line)) then r = Stop (Undefined "null pointer dereference")
      else r = Ok (Console (filter (fun b => b <> (cstr nm, line)) bs) None t i)
  | ClearAll => r = Ok (Console [] None t i)
  | Trace =>
      r = Ok (if decide (t = 0) then Console bs (Some Hook_trace) 1 i else Console bs None 0 i)
  | Code text =>
      if decide (load_status text text = 0) then does (LFunction (Chunk text text)) c r else r = Ok c
  end.

(** A session: commands are obeyed one after the other until one says to leave, the
    input ends or obeying one does not. *)
Inductive console_run : console -> outcome console -> Prop :=
| run_ends c : read_command (c_input c) = None -> console_run c (Ok c)
| run_leaves bs h t i i' :
    read_command i = Some (Leave, i') -> console_run (Console bs h t i) (Ok (Console bs h t i'))
| run_stops bs h t i i' cmd f :
    read_command i = Some (cmd, i') -> obeys cmd (Console bs h t i') (Stop f) ->
    console_run (Console bs h t i) (Stop f)
| run_goes_on bs h t i i' cmd c r :
    read_command i = Some (cmd, i') -> obeys cmd (Console bs h t i') (Ok c) ->
    console_run c r -> console_run (Console bs h t i) r.

(** What is asked of the code run: it leaves the stack of its caller, keeps the
    breakpoints a list and takes from the input, and does what [does] says. *)
Definition runs_as : Prop :=
  forall f s es X, rep s es X ->
  wp (lua_pcall f) (fun o s' =>
    match o with
    | Ok _ => stack (L s') = stack (L s) /\ (length (stdin s') <= length (stdin s))%nat /\
        exists es', rep s' es' X /\ does f (view s es) (Ok (view s' es'))
    | Stop e => does f (view s es) (Stop e)
    end) s.

Hypothesis runs : runs_as.

Lemma wp_pop_until vs st l : forall fuel (Q : outcome unit -> lua -> Prop),
  stack l = vs ++ st -> (length vs < fuel)%nat ->
  (forall l', stack l' = st -> Q (Ok tt) l') ->
  wp (pop_until fuel (Z.of_nat (length st))) Q l.
Proof.
  revert l. induction vs as [|v vs IH]; intros l [|fuel] Q Hs Hf HQ; try (cbn in Hf; lia);
    cbn [pop_until]; wp_simpl; rewrite Hs.
  - rewrite decide_False by (intros Hn; by apply Hn). wp_simpl. by apply HQ.
  - rewrite decide_True by (rewrite length_app; cbn; lia). wp_simpl.
    erewrite wp_pop_one by (rewrite Hs; reflexivity). cbn.
    apply IH; [done|cbn in Hf; lia|done].
Qed.

#[local] Arguments pop_until : simpl never.

(** The loop's state between two commands: the console shows [c]. *)
Definition inside (st : list lval) (lv : Z) (X : list (positive * block)) (c : console) (s : state) : Prop :=
  stack (L s) = st /\ level s = lv /\ exists es, rep s es X /\ view s es = c.

(** What [evaluate] leaves on the stack: results, or one error value. *)
Lemma wp_evaluate text st X es s :
  stack (L s) = st -> rep s es X ->
  wp (evaluate lua_pcall text) (fun o s' =>
    match o with
    | Ok rv => exists vs es', stack (L s') = vs ++ st /\ (rv <> 0 -> exists v, vs = [v]) /\
        (length (stdin s') <= length (stdin s))%nat /\ rep s' es' X /\
        obeys (Code text) (view s es) (Ok (view s' es'))
    | Stop e => obeys (Code text) (view s es) (Stop e)
    end) s.
Proof.
  intros Hs Hr. unfold evaluate, luaL_loadbuffer, push, on_L. wp_simpl. cbn [obeys view].
  destruct (decide (load_status text text = 0)) as [E|E]; wp_simpl.
  - rewrite decide_False by (intros Hn; by apply Hn). unfold pop1. wp_simpl. cbn.
    eapply wp_mono; [apply (runs _ _ es X); exact Hr|].
    intros [[rv vs]|e] s'; cbn [then_post]; [|done]. intros (Hst & Hi & es' & Hr' & Hd). cbn in Hst, Hi. wp_simpl.
    exists (if decide (rv = 0) then vs else [default LNil (list.head vs)]), es'.
    split; [cbn; by rewrite Hst, <- Hs|]. split; [intros Hne; rewrite decide_False by done; eauto|].
    split; [done|]. by split.
  - rewrite decide_True by done. wp_simpl. exists [LString (load_message text text)], es. split; [cbn; by rewrite Hs|].
    split; [eauto|]. split; [done|]. by split.
Qed.

Lemma wp_tolstring_top v st (Q : outcome (option bytes) -> lua -> Prop) l :
  stack l = v :: st -> (forall v' r, Q (Ok r) (with_stack (v' :: st) l)) ->
  wp (lua_tolstring (-1)) Q l.
Proof.
  intros Hs HQ. unfold lua_tolstring.
  rewrite (wp_at_index _ v) by (eapply (holds_top _ 0); [by rewrite Hs|done]).
  assert (with_stack (v :: st) l = l) as E by (destruct l; cbn in *; by subst).
  destruct v; try (rewrite wp_ret; rewrite <- E; apply HQ). wp_simpl. rewrite Hs.
  destruct (position _ _) as [n|] eqn:Ep; wp_simpl; [|rewrite <- E; apply HQ].
  assert (n = 0%nat) as ->.
  { unfold position in Ep. rewrite decide_False in Ep by (cbn; lia).
    rewrite decide_True in Ep by (cbn; lia). injection Ep as <-. done. }
  apply HQ.
Qed.

Lemma wp_string_arg r s (Q : outcome bytes -> state -> Prop) :
  (forall t, Q (Ok t) s) -> wp (string_arg null_text r) Q s.
Proof. intros HQ. unfold string_arg. rewrite survives. destruct r; wp_simpl; apply HQ. Qed.

Lemma wp_run_command st lv text X es s :
  stack (L s) = st -> rep s es X ->
  wp (run_command null_text lua_pcall (Z.of_nat (length st)) lv text)
     (fun o s' => match o with
        | Ok _ => exists c, inside st lv X c s' /\ (length (stdin s') <= length (stdin s))%nat /\
            obeys (Code text) (view s es) (Ok c)
        | Stop e => obeys (Code text) (view s es) (Stop e)
        end) s.
Proof.
  intros Hst Hr. unfold run_command, on_L. wp_simpl.
  eapply wp_mono; [by eapply wp_evaluate|]. intros [rv|e] s1; cbn [then_post]; [|done].
  intros (vs & es' & Hs1 & Hrv & Hi & Hr1 & Ho). wp_simpl.
  destruct (decide (rv <> 0)) as [Hne|He].
  - destruct (Hrv Hne) as [v ->]. wp_simpl. eapply wp_tolstring_top; [exact Hs1|]. intros v' r. cbn. wp_simpl.
    apply wp_string_arg. intros t. cbn. unfold printf. wp_simpl.
    erewrite wp_pop_one by reflexivity. cbn. wp_simpl. exists (view s1 es').
    split; [|done]. split; [done|]. split; [done|]. by exists es'.
  - wp_simpl. unfold printf. wp_simpl. rewrite Hs1.
    eapply (wp_pop_until vs); [exact Hs1|rewrite length_app; lia|].
    intros l2 Hl2. cbn. wp_simpl. exists (view s1 es').
    split; [|done]. split; [done|]. split; [done|]. by exists es'.
Qed.
#[local] Arguments run_command : simpl never.

(** The console after a clear. *)
Lemma breaks_cleared nm line es :
  (fun e => (bname e, bline e)) <$> cleared nm line es =
  filter (fun b => b <> (cstr nm, line)) ((fun e => (bname e, bline e)) <$> es).
Proof.
  induction es as [|e es IH]; [done|]. rewrite cleared_cons. cbn [fmap list_fmap]. rewrite filter_cons, <- IH.
  destruct (targets nm line e) eqn:Et; unfold targets in Et.
  - rewrite decide_False; [done|]. rewrite andb_true_iff, !bool_decide_eq_true in Et. destruct Et as [-> ->]. by intros [].
  - rewrite decide_True; [done|]. intros [= Hn Hl]. by rewrite !bool_decide_true in Et.
Qed.

Lemma hits_head_view nm line es :
  hits_head nm line es = true <-> list.head ((fun e => (bname e, bline e)) <$> es) = Some (cstr nm, line).
Proof.
  destruct es as [|e es]; cbn; [done|]. unfold targets. rewrite andb_true_iff, !bool_decide_eq_true.
  split; [by intros [-> ->]|by intros [= -> ->]].
Qed.

(** After one command: done, or another round with less input. *)
Definition round_post (st : list lval) (lv : Z) (X : list (positive * block)) (c : console)
    (o : outcome (unit + unit)) (s' : state) : Prop :=
  match o with
  | Ok (inl _) => exists c', inside st lv X c' s' /\ (length (c_input c') < length (c_input c))%nat /\
      forall r, console_run c' r -> console_run c r
  | Ok (inr _) => exists c', inside st lv X c' s' /\ console_run c (Ok c')
  | Stop f => console_run c (Stop f)
  end.

Lemma round_leaves st lv X s es i' :
  stack (L s) = st -> level s = lv -> rep s es X -> read_command (stdin s) = Some (Leave, i') ->
  round_post st lv X (view s es) (Ok (inr tt)) (with_stdin i' s).
Proof.
  intros Hst Hlv Hr Hread. exists (view (with_stdin i' s) es). split; [by repeat split; try done; exists es|].
  by apply run_leaves.
Qed.

Lemma round_goes_on st lv X s es i' cmd s' es' :
  read_command (stdin s) = Some (cmd, i') -> (length i' < length (stdin s))%nat ->
  stack (L s') = st -> level s' = lv -> rep s' es' X -> (length (stdin s') <= length i')%nat ->
  obeys cmd (view (with_stdin i' s) es) (Ok (view s' es')) ->
  round_post st lv X (view s es) (Ok (inl tt)) s'.
Proof.
  intros Hread Hlt Hst Hlv Hr Hi Ho. exists (view s' es'). split; [by repeat split; try done; exists es'|].
  split; [cbn; lia|]. intros r Hc. by eapply run_goes_on.
Qed.

Lemma wp_debugger_round st lv X c s :
  inside st lv X c s ->
  wp (debugger_round null_text lua_pcall (Z.of_nat (length st)) lv tt) (round_post st lv X c) s.
Proof.
  intros (Hst & Hlv & es & Hr & <-). unfold debugger_round, printf, lua_sethook. wp_simpl.
  destruct (fgets (Z.to_nat scratch_size) (stdin s)) as [[line i']|] eqn:E.
  2: { wp_simpl. exists (view s es). split; [by repeat split; try done; exists es|].
       apply run_ends. unfold read_command. cbn. by rewrite E. }
  destruct (fgets_progress _ _ _ _ scratch_large E) as (_ & Hi & _). wp_simpl.
  set (cmd := strip_eol (cstr line)).
  assert (read_command (stdin s) = Some (command_of cmd, i')) as Hread by (unfold read_command; by rewrite E).
  unfold command_of in Hread.
  destruct (str_eq cmd (b:"q")); [wp_simpl; by apply (round_leaves st lv X s es i')|].
  destruct (str_eq cmd (b:"quit")); [wp_simpl; by apply (round_leaves st lv X s es i')|].
  destruct (str_eq cmd (b:"exit")); [wp_simpl; by apply (round_leaves st lv X s es i')|]. cbn [orb] in Hread.
  destruct (has_prefix (b:"break ") cmd).
  { destruct (parse_target cmd) as [nm ln]. wp_simpl.
    eapply wp_mono; [eapply (wp_breakpoint_add nm ln _ es X); exact Hr|].
    intros o s' (-> & e & p & h & Hn & Hl & -> & Hr'). cbn [then_post]. wp_simpl.
    eapply (round_goes_on _ _ _ _ _ _ _ _ (e :: es)); [exact Hread|done|done|done|exact Hr'|done|].
    unfold view. cbn [fmap list_fmap obeys]. by rewrite Hn, Hl. }
  destruct (has_prefix (b:"clear ") cmd).
  { destruct (parse_target cmd) as [nm ln]. wp_simpl.
    eapply wp_mono; [eapply (wp_breakpoint_clear nm ln _ es X); exact Hr|].
    intros o s' Hc. pose proof (hits_head_view nm ln es) as Hv. destruct (hits_head nm ln es).
    - subst o. cbn. eapply run_stops; [exact Hread|]. cbn. by rewrite decide_True by by apply Hv.
    - destruct Hc as (-> & h & -> & Hr'). cbn [then_post]. wp_simpl.
      eapply (round_goes_on _ _ _ _ _ _ _ _ (cleared nm ln es)); [exact Hread|done|done|done|exact Hr'|done|].
      unfold view. rewrite breaks_cleared. cbn [obeys]. by rewrite decide_False by (intros Hh; by apply Hv in Hh). }
  destruct (str_eq cmd (b:"clearall")).
  { wp_simpl. eapply wp_mono; [eapply (wp_clearall _ es X); exact Hr|].
    intros o s' (-> & h & -> & Hr'). cbn [then_post]. wp_simpl.
    by eapply (round_goes_on _ _ _ _ _ _ _ _ []); [exact Hread|done|done|done|exact Hr'|done|]. }
  destruct (str_eq cmd (b:"trace")).
  { unfold toggle_trace, lua_sethook, printf. wp_simpl.
    destruct (decide (debugger_trace_enabled s = 0)) as [Ht|Ht]; wp_simpl;
      (eapply (round_goes_on _ _ _ _ _ _ _ _ es); [exact Hread|done|done|done|exact Hr|done|]); cbn;
      by destruct (decide (debugger_trace_enabled s = 0)). }
  assert (forall text s1, Some (Code text, i') = read_command (stdin s) ->
    stack (L s1) = st -> rep s1 es X -> view s1 es = view (with_stdin i' s) es ->
    wp (run_command null_text lua_pcall (Z.of_nat (length st)) lv text)
       (then_post (fun _ => ret (inl tt)) (round_post st lv X (view s es))) s1) as Hrun.
  { intros text s1 Hcmd Hst1 Hr1 Hv. eapply wp_mono; [by eapply (wp_run_command st lv text X es)|].
    rewrite Hv. assert (stdin s1 = i') as -> by by injection Hv.
    intros [[]|e] s'; cbn [then_post].
    - intros (c & (Hs' & Hlv' & es' & Hr' & <-) & Hi' & Ho). wp_simpl.
      by eapply (round_goes_on _ _ _ _ _ _ _ _ es'); [exact (eq_sym Hcmd)|done|done|done|exact Hr'|done|].
    - intros Ho. eapply run_stops; [exact (eq_sym Hcmd)|exact Ho]. }
  destruct (str_eq cmd (b:"bt")); wp_simpl; by apply Hrun.
Qed.

#[local] Arguments debugger_round : simpl never.

(** C27: a debugging session. The commands typed are obeyed in order: [break]
    adds a breakpoint in front and sets the line hook; [clear] removes every
    breakpoint for that file and line, keeps the others in order and removes the
    hook; [clearall] removes all; [trace] turns the tracing hook on or off; any
    other text is run as Lua code.  The session ends when a command says so or the
    input does, and leaves the Lua stack and the log level as they were, the
    breakpoints well formed and as the commands (and the code run) left them.  It
    goes wrong in exactly one way of its own: a [clear] that names the breakpoint
    added last is a use of a null pointer.  Code that is run may do anything ([does]
    is what): change the level, read the input, enter the debugger again, or not
    return, and then neither does the session; it is asked that it leaves its
    caller's stack and keeps the breakpoints a list.  [printf] of a null pointer
    prints something, as in glibc. *)
Theorem debugger_session (s : state) (es : list bp) (X : list (positive * block)) :
  rep s es X ->
  exists o s' r, luahook_debugger null_text lua_pcall s = (o, s') /\ console_run (view s es) r /\
    match r with
    | Ok c => o = Ok 0 /\ stack (L s') = stack (L s) /\ level s' = level s /\ exists es', rep s' es' X /\ view s' es' = c
    | Stop e => o = Stop e
    end.
Proof.
  intros Hr.
  enough (wp (luahook_debugger null_text lua_pcall) (fun o s' => exists r, console_run (view s es) r /\
    match r with
    | Ok c => o = Ok 0 /\ stack (L s') = stack (L s) /\ level s' = level s /\ exists es', rep s' es' X /\ view s' es' = c
    | Stop e => o = Stop e
    end) s) as Hwp.
  { apply wp_run in Hwp as (o & s' & Hrun & r & Hc). by exists o, s', r. }
  unfold luahook_debugger, printf, on_L, lua_pushcfunction, push. wp_simpl.
  set (st := LFunction (CFun "luahook_stackwalk") :: stack (L s)).
  change (Z.of_nat (S (length (stack (L s))))) with (Z.of_nat (length st)).
  apply (wp_loop_measure _ (fun _ s1 => exists c, inside st (level s) X c s1 /\
      forall r, console_run c r -> console_run (view s es) r)
    (fun _ s1 => length (stdin s1))).
  - intros [] s1 (c & Hs1 & Hc). eapply wp_mono; [exact (wp_debugger_round st (level s) X c s1 Hs1)|].
    assert (length (c_input c) = length (stdin s1)) as Hlen by (by destruct Hs1 as (_ & _ & es1 & _ & <-)).
    intros [[[]|[]]|f] s2; cbn [round_post].
    + intros (c' & Hs2 & Hlt & Hr2). split; [exists c'; auto|].
      destruct Hs2 as (_ & _ & es2 & _ & <-). cbn in Hlt. lia.
    + intros (c' & (Hs2 & Hlv & es' & Hr' & <-) & Hrun). cbn [then_post]. wp_simpl.
      erewrite wp_pop_one by exact Hs2. cbn. wp_simpl. eexists. split; [by apply Hc|].
      split; [done|]. split; [done|]. split; [done|]. by exists es'.
    + intros Hrun. exists (Stop f). split; [by apply Hc|done].
  - exists (view s es). split; [|done]. split; [done|]. split; [done|]. by exists es.
  - cbn. lia.
Qed.
End Session.

(** *** The stack walk *)

(** The scratch buffer holds [acc] from its start, and the two locals say so. *)
Definition filled (b : scratch) (acc : bytes) : Prop :=
  Z.of_nat (length (buf b)) = scratch_size /\ off b = length acc /\
  len b = scratch_size - Z.of_nat (length acc) /\ take (length acc) (buf b) = acc /\
  (acc <> [] -> exists r, buf b = acc ++ NUL :: r).

#[local] Arguments put_at : simpl never.
#[local] Arguments take : simpl never.

Lemma wp_snprintfcat text b acc (Q : outcome scratch -> state -> Prop) s :
  filled b acc -> Z.of_nat (length (acc ++ text)) < scratch_size ->
  (forall b', filled b' (acc ++ text) -> Q (Ok b') s) ->
  wp (snprintfcat text b) Q s.
Proof.
  intros (Hl & Ho & Hn & Ht & _) Hfit HQ. rewrite length_app in Hfit. unfold snprintfcat.
  rewrite decide_False by lia. rewrite take_ge by lia.
  assert (off b + length (text ++ [NUL]) <= length (buf b))%nat as Hput
    by (rewrite length_app, Ho; cbn; lia).
  pose proof (put_at_fits _ _ _ Hput) as E. rewrite E. wp_simpl.
  pose proof (put_at_length _ _ _ _ E) as E2.
  match type of E with _ = Some ?x => set (buf' := x) in * end.
  assert (buf' = (acc ++ text) ++ NUL :: drop (off b + length (text ++ [NUL])) (buf b)) as Hb.
  { unfold buf'. rewrite Ho, Ht, <- !app_assoc. done. }
  apply HQ. split_and!; cbn.
  - by rewrite E2.
  - by rewrite length_app, Ho.
  - rewrite length_app, Hn. unfold u64. rewrite Z.mod_small; unfold scratch_size in *; lia.
  - rewrite Hb. apply take_app_length.
  - intros _. by eexists.
Qed.

Lemma wp_snprintfcats texts : forall b acc (Q : outcome scratch -> state -> Prop) s,
  filled b acc -> Z.of_nat (length (acc ++ concat texts)) < scratch_size ->
  (forall b', filled b' (acc ++ concat texts) -> Q (Ok b') s) ->
  wp (snprintfcats texts b) Q s.
Proof.
  induction texts as [|t ts IH]; intros b acc Q s Hb Hfit HQ; cbn [snprintfcats concat] in *; wp_simpl.
  - rewrite app_nil_r in HQ. by apply HQ.
  - rewrite app_assoc in Hfit, HQ. eapply wp_snprintfcat; [exact Hb| |].
    { rewrite length_app in Hfit. lia. }
    intros b' Hb'. cbn. by apply (IH b' (acc ++ t)).
Qed.

Lemma filled_cstr b acc : filled b acc -> acc <> [] -> no_nul acc -> cstr (buf b) = acc.
Proof. intros (_ & _ & _ & _ & Hr) Hne Hn. destruct (Hr Hne) as [r ->]. by apply cstr_app_nul. Qed.

Lemma filled_rewind b acc : filled b acc -> filled (rewind b) [].
Proof.
  intros (Hl & _). unfold rewind, filled. cbn. split_and!; [done|done|lia|done|done].
Qed.

Section Walk.
Variable null_text : option bytes.
Variable shown : bytes.
Hypothesis survives : null_text = Some shown.

(** The two halves of a frame's text. *)
Definition numbered (i : nat) : list bytes :=
  let num := b:"#" ++ dec (Z.of_nat i) in num :: spaces (4 - length num).

Definition function_half (i : nat) (ar : option lua_Debug) : bytes :=
  concat (numbered i ++ match ar with None => [b:"???" ++ [LF]] | Some ar => function_texts ar end).

Definition location (ar : lua_Debug) : list bytes :=
  if str_eq (what ar) (b:"C") then [b:"in native code"]
  else if str_eq (what ar) (b:"tail") then [b:"in Lua code"]
  else if str_eq (source ar) (b:"=?") && bool_decide (currentline ar = 0) then
    [b:"in Lua code (debug info stripped)"]
  else [b:"in Lua code at " ++ short_src ar] ++
       (if decide (currentline ar <> -1) then [b:":" ++ dec (currentline ar)] else []) ++
       [b:" " ++ default shown (name ar) ++ b:"()"].

Definition location_half (ar : lua_Debug) : bytes := concat (spaces 4 ++ location ar).

(** The line a frame gives: the second half only. *)
Definition walk_line (i : nat) (ar : option lua_Debug) : bytes :=
  match ar with None => function_half i None | Some ar => location_half ar end.

(** Both halves fit the buffer, and the names have no NUL. *)
Definition fits (i : nat) (ar : option lua_Debug) : Prop :=
  Z.of_nat (length (function_half i ar)) < scratch_size /\
  Z.of_nat (length (walk_line i ar)) < scratch_size /\ no_nul (walk_line i ar).

Fixpoint all_fit (i : nat) (frames : list (option lua_Debug)) : Prop :=
  match frames with [] => True | ar :: frames' => fits i ar /\ all_fit (S i) frames' end.

Fixpoint walk_lines (i : nat) (frames : list (option lua_Debug)) : list bytes :=
  match frames with [] => [] | ar :: frames' => walk_line i ar :: walk_lines (S i) frames' end.

Definition with_logged (ls : list bytes) (s : state) : state :=
  State (L s) (mem s) (breakpoint_head s) (debugger_trace_enabled s) (hook s) (level s) (stdin s)
        (printed s) ls.

Lemma wp_location_text ar (Q : outcome (list bytes) -> state -> Prop) s :
  Q (Ok (location ar)) s -> wp (location_text null_text ar) Q s.
Proof.
  intros HQ. unfold location_text, location, string_arg in *. rewrite survives.
  destruct (str_eq (what ar) (b:"C")); [by wp_simpl|].
  destruct (str_eq (what ar) (b:"tail")); [by wp_simpl|].
  destruct (_ && _); [by wp_simpl|]. by destruct (name ar); wp_simpl.
Qed.

#[local] Arguments snprintfcats : simpl never.
#[local] Arguments snprintfcat : simpl never.
#[local] Arguments dec : simpl never.

Lemma wp_walk_frame i ar b acc (Q : outcome scratch -> state -> Prop) s :
  filled b acc -> fits i ar ->
  (forall b' acc', filled b' acc' -> Q (Ok b') (with_logged (walk_line i ar :: logged s) s)) ->
  wp (walk_frame null_text i ar b) Q s.
Proof.
  intros Hb (Hf1 & Hf2 & Hn) HQ. apply filled_rewind in Hb. unfold walk_frame. wp_simpl.
  unfold function_half in Hf1. rewrite concat_app, length_app in Hf1.
  eapply (wp_snprintfcats (numbered i)); [exact Hb|cbn [app]; lia|].
  intros b1 H1. cbn [app then_post] in *. destruct ar as [ar|].
  - wp_simpl. eapply wp_snprintfcats; [exact H1|rewrite length_app; lia|]. intros b2 H2. cbn [then_post].
    wp_simpl. cbn [walk_line] in *. unfold location_half in *. rewrite concat_app in *.
    eapply (wp_snprintfcats (spaces 4)); [eapply filled_rewind; exact H2|rewrite length_app in Hf2; cbn [app]; lia|].
    intros b3 H3. cbn [then_post]. wp_simpl. apply wp_location_text. cbn [then_post]. wp_simpl.
    eapply wp_snprintfcats; [exact H3|exact Hf2|]. intros b4 H4. cbn [then_post]. unfold logDebug. wp_simpl.
    cbn [app] in H4. erewrite filled_cstr; [|exact H4|done|exact Hn]. eapply HQ. exact H4.
  - wp_simpl. cbn [walk_line concat] in *. rewrite app_nil_r in Hf1.
    eapply wp_snprintfcat; [exact H1|rewrite length_app; lia|]. intros b2 H2. cbn [then_post].
    unfold logDebug. wp_simpl. unfold function_half in *. rewrite concat_app in *. cbn [concat] in *.
    rewrite app_nil_r in *. erewrite filled_cstr; [|exact H2|done|exact Hn]. eapply HQ. exact H2.
Qed.

Lemma wp_walk_frames frames : forall i b acc (Q : outcome scratch -> state -> Prop) s,
  filled b acc -> all_fit i frames ->
  (forall b', Q (Ok b') (with_logged (rev (walk_lines i frames) ++ logged s) s)) ->
  wp (walk_frames null_text i frames b) Q s.
Proof.
  induction frames as [|ar frames IH]; intros i b acc Q s Hb Hf HQ; cbn [walk_frames walk_lines all_fit] in *.
  - wp_simpl. by destruct s.
  - destruct Hf as [Hf1 Hf]. wp_simpl. eapply wp_walk_frame; [exact Hb|exact Hf1|].
    intros b' acc' Hb'. cbn [then_post]. eapply IH; [exact Hb'|exact Hf|]. intros b''.
    cbn in HQ. rewrite <- app_assoc in HQ. apply HQ.
Qed.

(** The backtrace. The walk logs the error text, a header and one line per
    level of the call stack saying where it is, and pushes the error text back.
    The half of each line that names the function and numbers the frame is
    formatted and then overwritten: it is never logged. *)
Theorem stackwalk_lines (s : state) (err : bytes) (frames : list (option lua_Debug)) (b : scratch) :
  stack (L s) = [LString err] -> Z.of_nat (length (buf b)) = scratch_size -> all_fit 0 frames ->
  exists s', luahook_stackwalk null_text frames b s = (Ok 1, s') /\
    logged s' = rev (cstr err :: b:"Lua stack backtrace:" :: walk_lines 0 frames) ++ logged s /\
    stack (L s') = LString (cstr err) :: stack (L s).
Proof.
  intros Hst Hb Hf. enough (wp (luahook_stackwalk null_text frames b) (fun o s' => o = Ok 1 /\
    logged s' = rev (cstr err :: b:"Lua stack backtrace:" :: walk_lines 0 frames) ++ logged s /\
    stack (L s') = LString (cstr err) :: stack (L s)) s) as H1.
  { unfold wp in H1. destruct (luahook_stackwalk null_text frames b s) as [o s']; cbn in H1.
    destruct H1 as [-> H1]. by exists s'. }
  unfold luahook_stackwalk, logDebug, on_L. wp_simpl.
  rewrite (wp_tolstring 1 err) by (exists 0%nat; by rewrite Hst). cbn. wp_simpl.
  assert (filled (rewind b) []) as Hb0 by (unfold filled, rewind; cbn; split_and!; [done|done|lia|done|done]).
  assert (walk_frames null_text 0 frames b = walk_frames null_text 0 frames (rewind b) \/ frames = []) as [E|E].
  { destruct frames; [by right|left]. done. }
  - rewrite E. eapply wp_walk_frames; [exact Hb0|exact Hf|]. intros b'. cbn. unfold retvalString, on_L, lua_pushlstring, push.
    wp_simpl. split; [done|]. split; [|done]. by rewrite <- !app_assoc.
  - subst frames. cbn. wp_simpl. unfold retvalString, on_L, lua_pushlstring, push. wp_simpl. done.
Qed.
End Walk.

(** ** Properties *)

(** Clearing a breakpoint. When the last breakpoint added is not the one aimed
    at, the call removes exactly the breakpoints for that file and line, frees
    them and keeps the others in order.  When it is, the call ends in the use of
    a null pointer: the head is lost before the next node is read. *)
Lemma breakpoint_clear_spec (nm : bytes) (line : Z) (s : state) (es : list bp)
    (X : list (positive * block)) :
  rep s es X ->
  if hits_head nm line es then
    (breakpoint_clear nm line s).1 = Stop (Undefined "null pointer dereference")
  else exists s', breakpoint_clear nm line s = (Ok tt, s') /\ rep s' (cleared nm line es) X.
Proof.
  intros Hr. pose proof (wp_breakpoint_clear nm line s es X Hr) as H1. unfold wp in H1.
  destruct (breakpoint_clear nm line s) as [o s']; cbn in *. destruct (hits_head nm line es); [done|].
  destruct H1 as (-> & h & _ & H1). by exists s'.
Qed.

(** The line hook stops the program at a running line exactly when some
    breakpoint has that line (or line 0) and the name of a *different* file: a
    breakpoint never stops the file it names. *)
Theorem breakpoint_hit_inverted (enter : C state Z) (ar : lua_Debug) (s : state) (es : list bp)
    (X : list (positive * block)) :
  rep s es X -> (forall s1, exists s2, enter s1 = (Ok 0, s2)) ->
  what ar = b:"Lua" -> currentline ar <> -1 ->
  exists stopped s', debugger_breakpoint enter LUA_HOOKLINE ar s = (Ok stopped, s') /\
    (stopped = true <-> exists e, e ∈ es /\ (bline e = currentline ar \/ bline e = 0) /\
                                bname e <> cstr (source ar)).
Proof.
  intros (Hh & Ho & Hn) Hent Hw Hc.
  enough (wp (debugger_breakpoint enter LUA_HOOKLINE ar)
    (fun o s' => o = Ok (existsb (stops ar) es)) s) as H1.
  { unfold wp in H1. destruct (debugger_breakpoint enter LUA_HOOKLINE ar s) as [o s']; cbn in H1.
    subst o. do 2 eexists. split; [done|]. rewrite existsb_exists. split.
    - intros (e & Hin & He). exists e. unfold stops in He.
      apply andb_true_iff in He as [He1 He2]. apply bool_decide_eq_true in He1.
      apply negb_true_iff, bool_decide_eq_false in He2.
      split; [by apply list_elem_of_In|]. split; [done|congruence].
    - intros (e & Hin & He1 & He2). exists e. split; [by apply list_elem_of_In|]. unfold stops.
      rewrite bool_decide_true by done. by rewrite bool_decide_false by congruence. }
  unfold debugger_breakpoint. rewrite decide_True by done.
  rewrite bool_decide_true by done. rewrite Hw. change (str_eq (b:"Lua") (b:"Lua")) with true. cbn [andb].
  unfold list_fuel. wp_simpl. rewrite Hh.
  by eapply hook_loop; [exact Ho|done|eapply breakpoint_fuel|].
Qed.

(** ** Concrete states for the witnesses *)

Definition state0 (input : bytes) : state :=
  State new_state empty_heap None 0 None EQUUS_LOG_INFO input [] [].

(** Two breakpoints: [@b.lua:7] added last, [@a.lua:5] before it. *)
Definition state2 : state := (breakpoint_add (b:"@b.lua") 7 (breakpoint_add (b:"@a.lua") 5 (state0 [])).2).2.
Definition list2 : list bp := [Bp 3 4 (b:"@b.lua") 7; Bp 1 2 (b:"@a.lua") 5].

Lemma rep0 input : rep (state0 input) [] [].
Proof. split; [done|]. split; [apply owns_empty|constructor]. Qed.

Lemma rep2 : rep state2 list2 [].
Proof.
  split; [by vm_compute|]. split; [|repeat constructor; by_decide].
  split; [by_decide|]. split; [by vm_compute|]. repeat constructor.
Qed.

Lemma breakpoint_clear_spec_witness :
  (exists s', breakpoint_clear (b:"@a.lua") 5 state2 = (Ok tt, s') /\ rep s' [Bp 3 4 (b:"@b.lua") 7] []) /\
  (breakpoint_clear (b:"@b.lua") 7 state2).1 = Stop (Undefined "null pointer dereference").
Proof.
  split; [exact (breakpoint_clear_spec (b:"@a.lua") 5 state2 list2 [] rep2)
         |exact (breakpoint_clear_spec (b:"@b.lua") 7 state2 list2 [] rep2)].
Defined.

Definition line_of (src : bytes) (n : Z) : lua_Debug := Debug [] None (b:"Lua") src src n.

Lemma breakpoint_hit_inverted_witness :
  exists stopped s', debugger_breakpoint (ret 0) LUA_HOOKLINE (line_of (b:"@a.lua") 5) state2 = (Ok stopped, s') /\
    (stopped = true <-> exists e, e ∈ list2 /\ (bline e = 5 \/ bline e = 0) /\ bname e <> b:"@a.lua").
Proof.
  apply (breakpoint_hit_inverted (ret 0) (line_of (b:"@a.lua") 5) state2 list2 [] rep2); [|done|done].
  intros s1. by exists s1.
Defined.

Definition compiler0 : Compiler :=
  {| load_status _ _ := 0; load_message _ _ := []; dump_pieces _ _ := [] |}.

(** Code that turns the log off and answers two values. *)
Definition run0 (f : lval) : C state (Z * list lval) := modify (with_level 0) ;;; ret (0, [LNumber 1; LNil]).
Definition does0 (f : lval) (c : console) (r : outcome console) : Prop := r = Ok c.

Lemma run0_does0 : runs_as run0 does0.
Proof.
  intros f s es X Hr. unfold run0. wp_simpl. split; [done|]. split; [done|]. by exists es.
Qed.

Definition lines (ls : list string) : bytes := concat ((fun l => of_string l ++ [LF]) <$> ls).
Definition typed : bytes := lines ["break @a.lua:5"; "break @b.lua:7"; "clear @a.lua:5"; "1,nil"; "bt"; "exit"].

Lemma debugger_session_witness :
  exists o s' r, luahook_debugger (H := compiler0) (Some (b:"(null)")) run0 (state0 typed) = (o, s') /\
    console_run (H := compiler0) does0 (view (state0 typed) []) r /\
    match r with
    | Ok c => o = Ok 0 /\ stack (L s') = [] /\ level s' = EQUUS_LOG_INFO /\ exists es', rep s' es' [] /\ view s' es' = c
    | Stop e => o = Stop e
    end.
Proof.
  apply (debugger_session (H := compiler0) (Some (b:"(null)")) run0 (b:"(null)") eq_refl does0 run0_does0
    (state0 typed) [] []).
  apply rep0.
Defined.

(** That session, and one that clears the breakpoint added last. *)
Example debugged0 :
  let '(o, s') := luahook_debugger (H := compiler0) (Some (b:"(null)")) run0 (state0 typed) in
  o = Ok 0 /\ level s' = EQUUS_LOG_INFO /\ hook s' = None /\
  (load_break (breakpoint_head s') s').1 = Ok (Some 4%positive, 7, None).
Proof. vm_compute. repeat split. Qed.

Example debugged1 :
  (luahook_debugger (H := compiler0) (Some (b:"(null)")) run0 (state0 (lines ["break @a.lua:5"; "clear @a.lua:5"]))).1 =
    Stop (Undefined "null pointer dereference").
Proof. vm_compute. reflexivity. Qed.

Definition frames0 : list (option lua_Debug) :=
  [Some (Debug (b:"global") (Some (b:"f")) (b:"Lua") (b:"@a.lua") (b:"a.lua") 5);
   Some (Debug [] None (b:"main") (b:"@a.lua") (b:"a.lua") 9); None].

Lemma stackwalk_lines_witness :
  let s := State (with_stack [LString (b:"oops")] new_state) empty_heap None 0 None 5 [] [] [] in
  let b := Scratch (replicate (Z.to_nat scratch_size) NUL) 0 scratch_size in
  exists s', luahook_stackwalk (Some (b:"(null)")) frames0 b s = (Ok 1, s') /\
    logged s' = rev [b:"oops"; b:"Lua stack backtrace:"; b:"    in Lua code at a.lua:5 f()";
                     b:"    in Lua code at a.lua:9 (null)()"; b:"#2  ???" ++ [LF]] ++ [] /\
    stack (L s') = [LString (b:"oops"); LString (b:"oops")].
Proof.
  intros s b.
  apply (stackwalk_lines (Some (b:"(null)")) (b:"(null)") eq_refl s (b:"oops") frames0 b).
  - done.
  - cbn. rewrite length_replicate, Z2Nat.id; [done|]. unfold scratch_size. lia.
  - repeat split; try (vm_compute; reflexivity); by_decide.
Defined.
