(* ===== verification/Service.v ===== *)
(** * The Windows service

    [equus_service.c]: installing, deleting, starting, querying and stopping the
    service through the service control manager.  Handles are a ledger; the
    history records every call with its answer, and what the system answers is any
    function of the history.  The clock is one of these functions, in
    microseconds, and [GetTickCount] shows it in 32 bits of milliseconds. *)

From S2P Require Import Prelude CString Heap World.
Open Scope Z_scope.

Inductive obj : Type := Manager | Service.

(** The fields of [SERVICE_STATUS_PROCESS] the code reads. *)
Record status : Type := Status {
  dwCurrentState : Z;
  dwWin32ExitCode : Z;
  dwCheckPoint : Z;
  dwWaitHint : Z
}.

#[global] Instance status_eq_dec : EqDecision status.
Proof. solve_decision. Defined.

Definition SERVICE_STOPPED : Z := 1.
Definition SERVICE_START_PENDING : Z := 2.
Definition SERVICE_STOP_PENDING : Z := 3.
Definition SERVICE_RUNNING : Z := 4.
Definition SERVICE_CONTINUE_PENDING : Z := 5.
Definition SERVICE_PAUSE_PENDING : Z := 6.
Definition SERVICE_PAUSED : Z := 7.

Definition SC_MANAGER_CONNECT : Z := 0x1.
Definition DELETE : Z := 0x10000.
Definition SERVICE_ALL_ACCESS : Z := 0xF01FF.
Definition SERVICE_QUERY_STATUS : Z := 0x4.
Definition SERVICE_ENUMERATE_DEPENDENTS : Z := 0x8.
Definition SERVICE_STOP : Z := 0x20.

(** Results of [win32_service_install] ([equus_util.h]). *)
Definition INSTALL_PREVIOUSLY : Z := 0.
Definition INSTALL_INSTALLED : Z := 1.
Definition INSTALL_FAILURE : Z := 2.

(** Levels of the lines it logs. *)
Inductive level : Type := CRITICAL | ERRORS | INFO.

Inductive setting : Type := DESCRIPTION | FAILURE_ACTIONS.

(** The calls made, with their answers. *)
Inductive event : Type :=
| FileName (path : option bytes)
| OpenManager (ok : bool)
| OpenedService (access : Z) (ok : bool)
| Created (path : bytes) (ok : bool)
| Configured (what : setting) (ok : bool)
| Deleted (ok : bool)
| Started (ok : bool)
| Queried (ok : bool) (st : status)
| Controlled (ok : bool) (st : status)
| Ticked (t : Z)
| Slept (ms : Z)
| Printed (text : bytes)
| Logged (l : level) (text : bytes).

(** What the system answers. [Query] and [Control] also say what the status
    structure holds afterwards, also when they fail. *)
Record env : Type := Env {
  file_name : list event -> option bytes;
  manager_opens : list event -> bool;
  service_opens : Z -> list event -> bool;
  service_created : list event -> bool;
  config_changed : setting -> list event -> bool;
  service_deleted : list event -> bool;
  service_started : list event -> bool;
  status_now : list event -> bool * status;
  stop_sent : list event -> bool * status;
  last_error : list event -> Z;
  clock : list event -> Z
}.

Section Service.
Variable E : env.
Abbreviation W := (world obj event).

(** ** System calls *)

Definition GetModuleFileName : C W (option bytes) :=
  let! r := ask (file_name E) in emit (FileName r) ;;; ret r.
Definition OpenSCManager : C W ptr :=
  let! ok := ask (manager_opens E) in
  emit (OpenManager ok) ;;;
  if (ok : bool) then acquire Manager else ret None.
Definition OpenService (m : ptr) (access : Z) : C W ptr :=
  inspect m ;;;
  let! ok := ask (service_opens E access) in
  emit (OpenedService access ok) ;;;
  if (ok : bool) then acquire Service else ret None.
Definition CreateService (m : ptr) (path : bytes) : C W ptr :=
  inspect m ;;;
  let! ok := ask (service_created E) in
  emit (Created path ok) ;;;
  if (ok : bool) then acquire Service else ret None.
Definition ChangeServiceConfig2 (s : ptr) (what : setting) : C W bool :=
  inspect s ;;; let! ok := ask (config_changed E what) in emit (Configured what ok) ;;; ret ok.
Definition DeleteService (s : ptr) : C W bool :=
  inspect s ;;; let! ok := ask (service_deleted E) in emit (Deleted ok) ;;; ret ok.
Definition StartService (s : ptr) : C W bool :=
  inspect s ;;; let! ok := ask (service_started E) in emit (Started ok) ;;; ret ok.
Definition QueryServiceStatusEx (s : ptr) : C W (bool * status) :=
  inspect s ;;; let! r := ask (status_now E) in emit (Queried r.1 r.2) ;;; ret r.
Definition ControlService (s : ptr) : C W (bool * status) :=
  inspect s ;;; let! r := ask (stop_sent E) in emit (Controlled r.1 r.2) ;;; ret r.
Definition GetTickCount : C W Z :=
  let! us := ask (clock E) in emit (Ticked (u32 (us / 1000))) ;;; ret (u32 (us / 1000)).
Definition Sleep (ms : Z) : C W unit := emit (Slept ms).
Definition GetLastError : C W Z := ask (last_error E).
Definition CloseServiceHandle (h : ptr) : C W unit := release h.
Definition printf (text : bytes) : C W unit := emit (Printed text).
Definition equus_log (l : level) (text : bytes) : C W unit := emit (Logged l text).

(** [text (%d)\n] of [GetLastError()]. *)
Definition with_error (text : bytes) (e : Z) : bytes := text ++ b:" (" ++ dec (i32 e) ++ b:")" ++ [LF].
Definition print_error (text : bytes) : C W unit :=
  let! e := GetLastError in printf (with_error text e).
Definition log_error (text : bytes) : C W unit :=
  let! e := GetLastError in equus_log CRITICAL (with_error text e).

(** The two handles are always closed in this order. *)
Definition leave (m s : ptr) : C W unit := CloseServiceHandle s ;;; CloseServiceHandle m.

(** ** Installing and deleting *)

Definition configure (s : ptr) (what : setting) (done : bytes) : C W unit :=
  let! ok := ChangeServiceConfig2 s what in
  if (ok : bool) then equus_log INFO done
  else
    let! e := GetLastError in
    equus_log ERRORS (b:"ChangeServiceConfig2 error: " ++ dec (i32 e) ++ [LF]).

Definition win32_service_install : C W Z :=
  let! path := GetModuleFileName in
  match path with
  | None => log_error (b:"Cannot get module file name") ;;; ret INSTALL_FAILURE
  | Some szPath =>
      let! m := OpenSCManager in
      match m with
      | None => log_error (b:"OpenSCManager failed") ;;; ret INSTALL_FAILURE
      | Some _ =>
          let! s := OpenService m SC_MANAGER_CONNECT in
          match s with
          | Some _ => leave m s ;;; ret INSTALL_PREVIOUSLY
          | None =>
              let! s := CreateService m szPath in
              match s with
              | None =>
                  CloseServiceHandle m ;;;
                  log_error (b:"CreateService failed") ;;;
                  ret INSTALL_FAILURE
              | Some _ =>
                  equus_log INFO (b:"Service installed successfully" ++ [LF]) ;;;
                  configure s DESCRIPTION (b:"Service description updated successfully." ++ [LF]) ;;;
                  configure s FAILURE_ACTIONS (b:"Service failure actions updated successfully." ++ [LF]) ;;;
                  leave m s ;;;
                  ret INSTALL_INSTALLED
              end
          end
      end
  end.

(** The opening of the four other commands. *)
Definition open_service (access : Z) (k : ptr -> ptr -> C W unit) : C W unit :=
  let! m := OpenSCManager in
  match m with
  | None => print_error (b:"OpenSCManager failed")
  | Some _ =>
      let! s := OpenService m access in
      match s with
      | None => print_error (b:"OpenService failed") ;;; CloseServiceHandle m
      | Some _ => k m s
      end
  end.

Definition win32_service_delete : C W unit :=
  open_service DELETE (fun m s =>
    let! ok := DeleteService s in
    (if (ok : bool) then printf (b:"Service deleted successfully" ++ [LF])
     else print_error (b:"DeleteService failed")) ;;;
    leave m s).

(** ** Querying *)

Definition state_text (st : status) : bytes :=
  let c := dwCurrentState st in
  if decide (c = SERVICE_CONTINUE_PENDING) then b:"Continue Pending"
  else if decide (c = SERVICE_PAUSE_PENDING) then b:"Pause Pending"
  else if decide (c = SERVICE_PAUSED) then b:"Paused"
  else if decide (c = SERVICE_RUNNING) then b:"Running"
  else if decide (c = SERVICE_START_PENDING) then b:"Start Pending"
  else if decide (c = SERVICE_STOP_PENDING) then b:"Stop Pending"
  else if decide (c = SERVICE_STOPPED) then b:"Stopped"
  else dec (i32 c).

(** [  name: value] *)
Definition entry (name value : bytes) : bytes := b:"  " ++ name ++ b:": " ++ value ++ [LF].

Definition print_rest (st : status) : C W unit :=
  printf (entry (b:"Exit Code") (dec (i32 (dwWin32ExitCode st)))) ;;;
  printf (entry (b:"Check Point") (dec (i32 (dwCheckPoint st)))) ;;;
  printf (entry (b:"Wait Hint") (dec (i32 (dwWaitHint st)))).

Definition win32_service_status : C W unit :=
  open_service SERVICE_ALL_ACCESS (fun m s =>
    let! '(ok, st) := QueryServiceStatusEx s in
    if negb ok then
      print_error (b:"QueryServiceStatusEx failed") ;;; leave m s
    else
      printf (entry (b:"Current State") (state_text st)) ;;;
      print_rest st ;;;
      leave m s).

(** ** Starting *)

(** One tenth of the wait hint, kept between one and ten seconds. *)
Definition wait_time (hint : Z) : Z :=
  let dwWaitTime := hint / 10 in
  if decide (dwWaitTime < 1000) then 1000
  else if decide (10000 < dwWaitTime) then 10000
  else dwWaitTime.

(** The locals of the loops: the status, the checkpoint last seen and when. *)
Record waiting : Type := Waiting { ssStatus : status; dwOldCheckPoint : Z; dwStartTickCount : Z }.

(** Go on waiting after a new status: a checkpoint that moved restarts the clock,
    otherwise no more than the wait hint may pass. *)
Definition next_wait (v : waiting) (st : status) : C W (option waiting) :=
  if decide (dwOldCheckPoint v < dwCheckPoint st) then
    let! t := GetTickCount in
    ret (Some (Waiting st (dwCheckPoint st) t))
  else
    let! t := GetTickCount in
    if decide (dwWaitHint st < u32 (t - dwStartTickCount v)) then ret None
    else ret (Some (Waiting st (dwOldCheckPoint v) (dwStartTickCount v))).

(** Waiting for a pending stop; [None] when the function returns from inside. *)
Definition stop_pending_round (m s : ptr) (v : waiting) : C W (waiting + option status) :=
  if decide (dwCurrentState (ssStatus v) = SERVICE_STOP_PENDING) then
    Sleep (wait_time (dwWaitHint (ssStatus v))) ;;;
    let! '(ok, st) := QueryServiceStatusEx s in
    if negb ok then
      print_error (b:"QueryServiceStatusEx failed") ;;; leave m s ;;; ret (inr None)
    else
      let! n := next_wait v st in
      match n with
      | Some v' => ret (inl v')
      | None => printf (b:"Timeout waiting for service to stop" ++ [LF]) ;;; leave m s ;;; ret (inr None)
      end
  else ret (inr (Some (ssStatus v))).

(** Waiting for the start to complete; every exit of the loop goes on with the
    last status. *)
Definition start_pending_round (s : ptr) (v : waiting) : C W (waiting + status) :=
  if decide (dwCurrentState (ssStatus v) = SERVICE_START_PENDING) then
    Sleep (wait_time (dwWaitHint (ssStatus v))) ;;;
    let! '(ok, st) := QueryServiceStatusEx s in
    if negb ok then
      print_error (b:"QueryServiceStatusEx failed") ;;; ret (inr st)
    else
      let! n := next_wait v st in
      match n with
      | Some v' => ret (inl v')
      | None => ret (inr st)
      end
  else ret (inr (ssStatus v)).

Definition start_report (st : status) : C W unit :=
  if decide (dwCurrentState st = SERVICE_RUNNING) then
    printf (b:"Service started successfully." ++ [LF])
  else
    printf (b:"Service not started. " ++ [LF]) ;;;
    printf (entry (b:"Current State") (dec (i32 (dwCurrentState st)))) ;;;
    print_rest st.

(** From [StartService] on. *)
Definition launch (fuel : nat) (m s : ptr) : C W unit :=
  let! started := StartService s in
  if negb started then
    print_error (b:"StartService failed") ;;; leave m s
  else
    printf (b:"Service start pending..." ++ [LF]) ;;;
    let! '(ok, st) := QueryServiceStatusEx s in
    if negb ok then
      print_error (b:"QueryServiceStatusEx failed") ;;; leave m s
    else
      let! t := GetTickCount in
      let! st := loop fuel (start_pending_round s) (Waiting st (dwCheckPoint st) t) in
      start_report st ;;;
      leave m s.

Definition win32_service_start (fuel : nat) : C W unit :=
  open_service SERVICE_ALL_ACCESS (fun m s =>
    let! '(ok, st) := QueryServiceStatusEx s in
    if negb ok then
      print_error (b:"QueryServiceStatusEx failed") ;;; leave m s
    else if decide (dwCurrentState st <> SERVICE_STOPPED /\ dwCurrentState st <> SERVICE_STOP_PENDING) then
      printf (b:"Cannot start the service because it is already running" ++ [LF]) ;;; leave m s
    else
      let! t := GetTickCount in
      let! r := loop fuel (stop_pending_round m s) (Waiting st (dwCheckPoint st) t) in
      match r with
      | None => ret tt
      | Some _ => launch fuel m s
      end).

(** ** Stopping *)

Definition dwTimeout : Z := 30000.

(** Waiting for a pending stop; [false] when the code jumps to [stop_cleanup]. *)
Definition stop_wait_round (s : ptr) (dwStartTime : Z) (ssp : status) : C W (status + bool) :=
  if decide (dwCurrentState ssp = SERVICE_STOP_PENDING) then
    printf (b:"Service stop pending..." ++ [LF]) ;;;
    Sleep (wait_time (dwWaitHint ssp)) ;;;
    let! '(ok, ssp) := QueryServiceStatusEx s in
    if negb ok then
      print_error (b:"QueryServiceStatusEx failed") ;;; ret (inr false)
    else if decide (dwCurrentState ssp = SERVICE_STOPPED) then
      printf (b:"Service stopped successfully." ++ [LF]) ;;; ret (inr false)
    else
      let! t := GetTickCount in
      if decide (dwTimeout < u32 (t - dwStartTime)) then
        printf (b:"Service stop timed out." ++ [LF]) ;;; ret (inr false)
      else ret (inl ssp)
  else ret (inr true).

(** Waiting for the service to stop once asked to. *)
Definition stop_round (s : ptr) (dwStartTime : Z) (ssp : status) : C W (status + bool) :=
  if decide (dwCurrentState ssp <> SERVICE_STOPPED) then
    Sleep (dwWaitHint ssp) ;;;
    let! '(ok, ssp) := QueryServiceStatusEx s in
    if negb ok then
      print_error (b:"QueryServiceStatusEx failed") ;;; ret (inr false)
    else if decide (dwCurrentState ssp = SERVICE_STOPPED) then ret (inr true)
    else
      let! t := GetTickCount in
      if decide (dwTimeout < u32 (t - dwStartTime)) then
        printf (b:"Wait timed out" ++ [LF]) ;;; ret (inr false)
      else ret (inl ssp)
  else ret (inr true).

(** The body before [stop_cleanup]. *)
Definition stop_body (fuel : nat) (s : ptr) (dwStartTime : Z) : C W unit :=
  let! '(ok, ssp) := QueryServiceStatusEx s in
  if negb ok then print_error (b:"QueryServiceStatusEx failed")
  else if decide (dwCurrentState ssp = SERVICE_STOPPED) then
    printf (b:"Service is already stopped." ++ [LF])
  else
    let! go := loop fuel (stop_wait_round s dwStartTime) ssp in
    if negb go then ret tt
    else
      let! '(ok, ssp) := ControlService s in
      if negb ok then print_error (b:"ControlService failed")
      else
        let! stopped := loop fuel (stop_round s dwStartTime) ssp in
        if negb stopped then ret tt
        else printf (b:"Service stopped successfully" ++ [LF]).

Definition win32_service_stop (fuel : nat) : C W unit :=
  let! dwStartTime := GetTickCount in
  open_service (Z.lor SERVICE_STOP (Z.lor SERVICE_QUERY_STATUS SERVICE_ENUMERATE_DEPENDENTS))
    (fun m s => stop_body fuel s dwStartTime ;;; leave m s).

(** ** Rules for the calls *)

#[local] Arguments with_error : simpl never.
#[local] Arguments entry : simpl never.
#[local] Arguments wait_time : simpl never.
#[local] Arguments of_string : simpl never.
#[local] Arguments u32 : simpl never.

(** What was added to the history. *)
Definition since (w w' : W) (l : list event) : Prop := history w' = l ++ history w.

Lemma since_refl w : since w w [].
Proof. done. Qed.

Lemma since_one w w1 w2 l e : since w w1 l -> history w2 = e :: history w1 -> since w w2 (e :: l).
Proof. unfold since. by intros -> ->. Qed.

Lemma since_two w w1 w2 l e e' :
  since w w1 l -> history w2 = e :: e' :: history w1 -> since w w2 (e :: e' :: l).
Proof. unfold since. by intros -> ->. Qed.

Lemma since_same w w1 w2 l : since w w1 l -> history w2 = history w1 -> since w w2 l.
Proof. unfold since. by intros -> ->. Qed.

Lemma since_trans w w1 w2 l l' : since w w1 l -> since w1 w2 l' -> since w w2 (l' ++ l).
Proof. unfold since. intros -> ->. by rewrite app_assoc. Qed.

(** Solve the frame conditions of a call. *)
Ltac svc := wp_simpl; try done.

(** Read the calls made off the equations of the history. *)
Ltac chain :=
  solve [apply since_refl | eassumption
        | eapply since_same; [|eassumption]; chain
        | eapply since_two; [|eassumption]; chain
        | eapply since_one; [|eassumption]; chain].

Section Calls.
Variables (w : W) (L : list (positive * obj)).
Hypothesis Ho : holding w L.

Lemma wp_GetModuleFileName (Q : outcome (option bytes) -> W -> Prop) :
  (forall w' r, holding w' L -> history w' = FileName r :: history w -> Q (Ok r) w') ->
  wp GetModuleFileName Q w.
Proof.
  intros HQ. unfold GetModuleFileName. svc. eapply wp_emit; [exact Ho|]. intros. svc. by apply HQ.
Qed.

Lemma wp_OpenSCManager (Q : outcome ptr -> W -> Prop) :
  (forall w', holding w' L -> history w' = OpenManager false :: history w -> Q (Ok None) w') ->
  (forall w' m, holding w' ((m, Manager) :: L) -> history w' = OpenManager true :: history w ->
     Q (Ok (Some m)) w') ->
  wp OpenSCManager Q w.
Proof.
  intros H0 H1. unfold OpenSCManager. svc. eapply wp_emit; [exact Ho|]. intros w' Hw Hh. svc.
  destruct (manager_opens _ _).
  - eapply wp_acquire; [exact Hw|]. intros l w2 Hw2 Hh2. apply H1; [done|]. by rewrite Hh2.
  - svc. by apply H0.
Qed.

Lemma wp_OpenService m access (Q : outcome ptr -> W -> Prop) :
  (m, Manager) ∈ L ->
  (forall w', holding w' L -> history w' = OpenedService access false :: history w -> Q (Ok None) w') ->
  (forall w' s, holding w' ((s, Service) :: L) -> history w' = OpenedService access true :: history w ->
     Q (Ok (Some s)) w') ->
  wp (OpenService (Some m) access) Q w.
Proof.
  intros Hm H0 H1. unfold OpenService. svc. eapply wp_inspect; [exact Ho|exact Hm|]. svc.
  eapply wp_emit; [exact Ho|]. intros w' Hw Hh. svc. destruct (service_opens _ _ _).
  - eapply wp_acquire; [exact Hw|]. intros l w2 Hw2 Hh2. apply H1; [done|]. by rewrite Hh2.
  - svc. by apply H0.
Qed.

Lemma wp_CreateService m path (Q : outcome ptr -> W -> Prop) :
  (m, Manager) ∈ L ->
  (forall w', holding w' L -> history w' = Created path false :: history w -> Q (Ok None) w') ->
  (forall w' s, holding w' ((s, Service) :: L) -> history w' = Created path true :: history w ->
     Q (Ok (Some s)) w') ->
  wp (CreateService (Some m) path) Q w.
Proof.
  intros Hm H0 H1. unfold CreateService. svc. eapply wp_inspect; [exact Ho|exact Hm|]. svc.
  eapply wp_emit; [exact Ho|]. intros w' Hw Hh. svc. destruct (service_created _ _).
  - eapply wp_acquire; [exact Hw|]. intros l w2 Hw2 Hh2. apply H1; [done|]. by rewrite Hh2.
  - svc. by apply H0.
Qed.

(** A call that only records its answer. *)
Lemma wp_call {A} s (f : list event -> A) (ev : A -> event) (Q : outcome A -> W -> Prop) :
  (s, Service) ∈ L ->
  (forall w', holding w' L -> history w' = ev (f (history w)) :: history w -> Q (Ok (f (history w))) w') ->
  wp (inspect (Some s) ;;; let! r := ask f in emit (ev r) ;;; ret r) Q w.
Proof.
  intros Hs HQ. svc. eapply wp_inspect; [exact Ho|exact Hs|]. svc.
  eapply wp_emit; [exact Ho|]. intros w' Hw Hh. svc. by apply HQ.
Qed.

Lemma wp_printf text (Q : outcome unit -> W -> Prop) :
  (forall w', holding w' L -> history w' = Printed text :: history w -> Q (Ok tt) w') ->
  wp (printf text) Q w.
Proof. intros HQ. by eapply wp_emit. Qed.

Lemma wp_print_error text (Q : outcome unit -> W -> Prop) :
  (forall w' e, holding w' L -> history w' = Printed (with_error text e) :: history w -> Q (Ok tt) w') ->
  wp (print_error text) Q w.
Proof.
  intros HQ. unfold print_error, GetLastError. svc. eapply wp_printf. intros. by eapply HQ.
Qed.

Lemma wp_log_error text (Q : outcome unit -> W -> Prop) :
  (forall w' t, holding w' L -> history w' = Logged CRITICAL t :: history w -> Q (Ok tt) w') ->
  wp (log_error text) Q w.
Proof.
  intros HQ. unfold log_error, GetLastError, equus_log. svc. eapply wp_emit; [exact Ho|].
  intros. by eapply HQ.
Qed.

Lemma wp_GetTickCount (Q : outcome Z -> W -> Prop) :
  (forall w', holding w' L ->
     history w' = Ticked (u32 (clock E (history w) / 1000)) :: history w ->
     Q (Ok (u32 (clock E (history w) / 1000))) w') ->
  wp GetTickCount Q w.
Proof.
  intros HQ. unfold GetTickCount. svc. eapply wp_emit; [exact Ho|]. intros. svc. by apply HQ.
Qed.

Lemma wp_close h k X (Q : outcome unit -> W -> Prop) :
  L ≡ₚ (h, k) :: X ->
  (forall w', holding w' X -> history w' = history w -> Q (Ok tt) w') ->
  wp (CloseServiceHandle (Some h)) Q w.
Proof. intros HP HQ. eapply wp_release; [by rewrite <- HP|exact HQ]. Qed.

Lemma wp_configure s what ready (Q : outcome unit -> W -> Prop) :
  (s, Service) ∈ L ->
  (forall w' l t ok, l <> CRITICAL -> holding w' L ->
     history w' = Logged l t :: Configured what ok :: history w -> Q (Ok tt) w') ->
  wp (configure (Some s) what ready) Q w.
Proof.
  intros Hs HQ. unfold configure, ChangeServiceConfig2, GetLastError, equus_log. rewrite wp_bind.
  apply (wp_call s (config_changed E what) (Configured what)); [exact Hs|]. intros w1 H1 Hh1.
  cbn. destruct (config_changed E what (history w)); svc; (eapply wp_emit; [exact H1|]);
    intros w2 H2 Hh2; (eapply HQ; [|exact H2|by rewrite Hh2, Hh1]); done.
Qed.
End Calls.

Lemma wp_leave w m s L (Q : outcome unit -> W -> Prop) :
  holding w ((s, Service) :: (m, Manager) :: L) ->
  (forall w', holding w' L -> history w' = history w -> Q (Ok tt) w') ->
  wp (leave (Some m) (Some s)) Q w.
Proof.
  intros Ho HQ. unfold leave. svc. eapply wp_close; [exact Ho|done|]. intros w1 H1 Hh1. svc.
  eapply wp_close; [exact H1|done|]. intros w2 H2 Hh2. apply HQ; [done|congruence].
Qed.

#[local] Arguments print_error : simpl never.
#[local] Arguments log_error : simpl never.
#[local] Arguments printf : simpl never.
#[local] Arguments leave : simpl never.
#[local] Arguments configure : simpl never.
#[local] Arguments GetTickCount : simpl never.
#[local] Arguments CloseServiceHandle : simpl never.

(** ** Installing *)

Definition is_created (e : event) : bool := match e with Created _ true => true | _ => false end.
Definition is_present (e : event) : bool := match e with OpenedService _ true => true | _ => false end.
Definition is_critical (e : event) : bool := match e with Logged CRITICAL _ => true | _ => false end.

(** What an installation did, read off the calls it made. *)
Definition install_outcome (l : list event) : Z :=
  if existsb is_created l then INSTALL_INSTALLED
  else if existsb is_present l then INSTALL_PREVIOUSLY
  else INSTALL_FAILURE.

(** What [win32_service_install] guarantees of its result and its calls. *)
Definition installed (rv : Z) (l : list event) : Prop :=
  rv = install_outcome l /\
  (rv = INSTALL_FAILURE <-> existsb is_critical l = true) /\
  Forall (fun e => match e with Created path _ => FileName (Some path) ∈ l | _ => True end) l /\
  (rv = INSTALL_INSTALLED ->
   exists a b, Configured DESCRIPTION a ∈ l /\ Configured FAILURE_ACTIONS b ∈ l).

(** The result and the calls of a path, with what they must satisfy. *)
Ltac finish :=
  do 2 eexists; split; [reflexivity|]; split; [eassumption|]; split; [chain|];
  unfold installed; cbn; repeat split; repeat constructor; try done;
  eauto 8 using list_elem_of_here, list_elem_of_further.

Lemma wp_install w L :
  holding w L ->
  wp win32_service_install (fun o w' => exists rv l, o = Ok rv /\ holding w' L /\ since w w' l /\
    installed rv l) w.
Proof.
  intros Ho. unfold win32_service_install. svc.
  eapply wp_GetModuleFileName; [exact Ho|]. intros w1 [path|] H1 Hh1; svc.
  2: { eapply wp_log_error; [exact H1|]. intros w2 t H2 Hh2. svc. finish. }
  eapply wp_OpenSCManager; [exact H1| |].
  { intros w2 H2 Hh2. svc. eapply wp_log_error; [exact H2|]. intros w3 t H3 Hh3. svc. finish. }
  intros w2 m H2 Hh2. svc. eapply wp_OpenService; [exact H2|in_blocks| |].
  2: { intros w3 s H3 Hh3. svc. eapply wp_leave; [exact H3|]. intros w4 H4 Hh4. svc. finish. }
  intros w3 H3 Hh3. svc. eapply wp_CreateService; [exact H3|in_blocks| |].
  { intros w4 H4 Hh4. svc. eapply wp_close; [exact H4|done|]. intros w5 H5 Hh5. svc.
    eapply wp_log_error; [exact H5|]. intros w6 t H6 Hh6. svc. finish. }
  intros w4 s H4 Hh4. svc. unfold equus_log. eapply wp_emit; [exact H4|]. intros w5 H5 Hh5. svc.
  eapply wp_configure; [exact H5|in_blocks|]. intros w6 l6 t6 a Hl6 H6 Hh6. svc.
  eapply wp_configure; [exact H6|in_blocks|]. intros w7 l7 t7 b Hl7 H7 Hh7. svc.
  eapply wp_leave; [exact H7|]. intros w8 H8 Hh8. svc.
  destruct l6, l7; try done; finish.
Qed.

(** ** Querying and deleting *)

(** The common opening: either a failure is reported and nothing stays open, or the
    continuation runs with the two handles. *)
Lemma wp_open_service access k w L (Q : outcome unit -> W -> Prop) :
  holding w L ->
  (forall w' e l, holding w' L -> since w w' l ->
     l = [Printed (with_error (b:"OpenSCManager failed") e); OpenManager false] \/
     l = [Printed (with_error (b:"OpenService failed") e); OpenedService access false; OpenManager true] ->
     Q (Ok tt) w') ->
  (forall w' m s, holding w' ((s, Service) :: (m, Manager) :: L) ->
     since w w' [OpenedService access true; OpenManager true] -> wp (k (Some m) (Some s)) Q w') ->
  wp (open_service access k) Q w.
Proof.
  intros Ho Hfail Hk. unfold open_service. svc. eapply wp_OpenSCManager; [exact Ho| |].
  { intros w1 H1 Hh1. svc. eapply wp_print_error; [exact H1|]. intros w2 e H2 Hh2.
    eapply (Hfail _ e); [exact H2|chain|by left]. }
  intros w1 m H1 Hh1. svc. eapply wp_OpenService; [exact H1|in_blocks| |].
  { intros w2 H2 Hh2. svc. eapply wp_print_error; [exact H2|]. intros w3 e H3 Hh3. svc.
    eapply wp_close; [exact H3|done|]. intros w4 H4 Hh4. eapply (Hfail _ e); [exact H4|chain|by right]. }
  intros w2 s H2 Hh2. svc. apply Hk; [exact H2|chain].
Qed.

Lemma wp_query s w L (Q : outcome (bool * status) -> W -> Prop) :
  holding w L -> (s, Service) ∈ L ->
  (forall w' r, r = status_now E (history w) -> holding w' L ->
     history w' = Queried r.1 r.2 :: history w -> Q (Ok r) w') ->
  wp (QueryServiceStatusEx (Some s)) Q w.
Proof.
  intros Ho Hs HQ. unfold QueryServiceStatusEx.
  apply (wp_call w L Ho s (status_now E) (fun r => Queried r.1 r.2)); [done|].
  intros w1 H1 Hh1. by apply HQ.
Qed.

Lemma wp_control s w L (Q : outcome (bool * status) -> W -> Prop) :
  holding w L -> (s, Service) ∈ L ->
  (forall w' r, r = stop_sent E (history w) -> holding w' L ->
     history w' = Controlled r.1 r.2 :: history w -> Q (Ok r) w') ->
  wp (ControlService (Some s)) Q w.
Proof.
  intros Ho Hs HQ. unfold ControlService.
  apply (wp_call w L Ho s (stop_sent E) (fun r => Controlled r.1 r.2)); [done|].
  intros w1 H1 Hh1. by apply HQ.
Qed.

(** The lines of the status report. *)
Definition status_lines (st : status) : list bytes :=
  [entry (b:"Current State") (state_text st);
   entry (b:"Exit Code") (dec (i32 (dwWin32ExitCode st)));
   entry (b:"Check Point") (dec (i32 (dwCheckPoint st)));
   entry (b:"Wait Hint") (dec (i32 (dwWaitHint st)))].

(** What was printed, in order. *)
Definition printed (l : list event) : list bytes :=
  rev (omap (fun e => match e with Printed t => Some t | _ => None end) l).

Lemma wp_print_rest st w L (Q : outcome unit -> W -> Prop) :
  holding w L ->
  (forall w', holding w' L ->
     since w w' (rev (Printed <$> tail (status_lines st))) -> Q (Ok tt) w') ->
  wp (print_rest st) Q w.
Proof.
  intros Ho HQ. unfold print_rest. svc.
  eapply wp_printf; [exact Ho|]. intros w1 H1 Hh1. svc.
  eapply wp_printf; [exact H1|]. intros w2 H2 Hh2. svc.
  eapply wp_printf; [exact H2|]. intros w3 H3 Hh3. apply HQ; [done|].
  unfold status_lines. cbn. chain.
Qed.
#[local] Arguments print_rest : simpl never.
#[local] Arguments open_service : simpl never.
#[local] Arguments QueryServiceStatusEx : simpl never.
#[local] Arguments ControlService : simpl never.
#[local] Arguments state_text : simpl never.

Lemma wp_status w L :
  holding w L ->
  wp win32_service_status (fun o w' => exists l, o = Ok tt /\ holding w' L /\ since w w' l /\
    ((exists st, Queried true st ∈ l /\ printed l = status_lines st) \/
     (exists e what, printed l = [with_error what e] /\ forall st, Queried true st ∉ l))) w.
Proof.
  intros Ho. unfold win32_service_status. eapply wp_open_service; [exact Ho| |].
  { intros w1 e l H1 Hs1 Hl. exists l. do 3 (split; [done|]). right. exists e.
    destruct Hl as [->| ->]; (eexists; split; [reflexivity|set_solver]). }
  intros w1 m s H1 Hs1. svc. eapply wp_query; [exact H1|in_blocks|]. intros w2 [[|] st] _ H2 Hh2; svc.
  - eapply wp_printf; [exact H2|]. intros w3 H3 Hh3. svc.
    eapply wp_print_rest; [exact H3|]. intros w4 H4 Hh4. svc.
    eapply wp_leave; [exact H4|]. intros w5 H5 Hh5. eexists. split; [done|]. split; [exact H5|].
    split; [eapply since_same; [|exact Hh5]; eapply since_trans; [|exact Hh4]; chain|].
    left. exists st. split; [|reflexivity]. rewrite !elem_of_app, !elem_of_cons. auto.
  - eapply wp_print_error; [exact H2|]. intros w3 e H3 Hh3. svc.
    eapply wp_leave; [exact H3|]. intros w5 H5 Hh5. eexists. split; [done|]. split; [exact H5|].
    split; [chain|]. right. exists e. eexists. split; [reflexivity|set_solver].
Qed.

Lemma wp_delete w L :
  holding w L ->
  wp win32_service_delete (fun o w' => exists l, o = Ok tt /\ holding w' L /\ since w w' l /\
    (Deleted true ∈ l <-> printed l = [b:"Service deleted successfully" ++ [LF]])) w.
Proof.
  intros Ho. unfold win32_service_delete. eapply wp_open_service; [exact Ho| |].
  { intros w1 e l H1 Hs1 Hl. exists l. do 3 (split; [done|]).
    destruct Hl as [->| ->]; (split; [set_solver|done]). }
  intros w1 m s H1 Hs1. svc. unfold DeleteService. svc. eapply wp_inspect; [exact H1|in_blocks|]. svc.
  eapply wp_emit; [exact H1|]. intros w2 H2 Hh2. svc. destruct (service_deleted _ _).
  - eapply wp_printf; [exact H2|]. intros w3 H3 Hh3. svc. eapply wp_leave; [exact H3|].
    intros w4 H4 Hh4. eexists. split; [done|]. split; [exact H4|]. split; [chain|]. split; [done|set_solver].
  - eapply wp_print_error; [exact H2|]. intros w3 e H3 Hh3. svc. eapply wp_leave; [exact H3|].
    intros w4 H4 Hh4. eexists. split; [done|]. split; [exact H4|]. split; [chain|]. split; [set_solver|done].
Qed.

(** ** Time *)

(** How long a call sleeps, in milliseconds. *)
Definition slept (e : event) : Z := match e with Slept ms => ms | _ => 0 end.

(** What the waiting loops rely on: wait hints of at most [hint] milliseconds, a
    clock that moves with every call, sleeps that last as long as asked, and calls
    that return within [delay] milliseconds. *)
Record timely (hint delay : Z) : Prop := Timely {
  hint_range : 0 <= hint <= 2 ^ 31;
  delay_range : 0 <= delay <= 60000;
  status_hint h : 0 <= dwWaitHint (status_now E h).2 <= hint;
  status_check h : 0 <= dwCheckPoint (status_now E h).2 < 2 ^ 32;
  control_hint h : 0 <= dwWaitHint (stop_sent E h).2 <= hint;
  clock_moves e h : clock E h + 1 <= clock E (e :: h);
  clock_sleeps ms h : clock E h + 1000 * ms <= clock E (Slept ms :: h);
  clock_delay e h : 0 <= slept e -> clock E (e :: h) <= clock E h + 1000 * (slept e + delay)
}.

Lemma wait_time_range hint : 1000 <= wait_time hint <= 10000.
Proof. unfold wait_time. repeat case_decide; lia. Qed.

Lemma u32_add x d : 0 <= d -> u32 x + d < 2 ^ 32 -> u32 (x + d) = u32 x + d.
Proof.
  intros Hd Hlt. unfold u32 in *. rewrite <- Zplus_mod_idemp_l. apply Z.mod_small.
  pose proof (Z.mod_pos_bound x (2 ^ 32) ltac:(lia)). lia.
Qed.

(** Milliseconds of the clock, and those since a tick count. *)
Definition ms (h : list event) : Z := clock E h / 1000.
Definition elapsed (t : Z) (h : list event) : Z := u32 (ms h - t).

Lemma elapsed_later t h h' :
  ms h <= ms h' -> elapsed t h + (ms h' - ms h) < 2 ^ 32 ->
  elapsed t h' = elapsed t h + (ms h' - ms h).
Proof.
  intros Hle Hlt. unfold elapsed in *. rewrite <- u32_add by lia. f_equal. lia.
Qed.

Lemma elapsed_now h : elapsed (u32 (ms h)) h = 0.
Proof. unfold elapsed, u32. by rewrite Zminus_mod_idemp_r, Z.sub_diag. Qed.

Lemma ticks_elapsed t h : u32 (u32 (ms h) - t) = elapsed t h.
Proof. unfold elapsed, u32. by rewrite Zminus_mod_idemp_l. Qed.

Section Timely.
Context {hint delay : Z} (T : timely hint delay).

Lemma ms_step e h : 0 <= slept e -> ms h + slept e <= ms (e :: h) <= ms h + slept e + delay + 1.
Proof.
  intros Hs. pose proof (delay_range _ _ T). pose proof (clock_delay _ _ T e h Hs).
  assert (clock E h + 1000 * slept e <= clock E (e :: h)).
  { pose proof (clock_moves _ _ T e h). destruct e; cbn [slept]; try lia.
    apply (clock_sleeps _ _ T). }
  unfold ms. Z.to_euclidean_division_equations. lia.
Qed.

(** *** Progress of the two loops of [win32_service_start] *)

Definition round_bound : Z := hint + delay + 2.

(** At the head of a loop the hint has not run out yet. *)
Definition in_time (v : waiting) (w : W) : Prop :=
  0 <= dwOldCheckPoint v < 2 ^ 32 /\ elapsed (dwStartTickCount v) (history w) < round_bound.

Definition left (v : waiting) (w : W) : nat :=
  Z.to_nat ((2 ^ 32 - dwOldCheckPoint v) * round_bound +
            (round_bound - elapsed (dwStartTickCount v) (history w))).

Lemma in_time_start st (w w1 : W) :
  0 <= dwCheckPoint st < 2 ^ 32 ->
  history w1 = Ticked (u32 (ms (history w))) :: history w ->
  in_time (Waiting st (dwCheckPoint st) (u32 (ms (history w)))) w1.
Proof.
  intros Hc Hh. split; [done|]. cbn. rewrite Hh.
  pose proof (ms_step (Ticked (u32 (ms (history w)))) (history w) ltac:(done)) as Hm. cbn [slept] in Hm.
  pose proof (hint_range _ _ T). pose proof (delay_range _ _ T).
  rewrite (elapsed_later _ (history w)); rewrite ?elapsed_now; unfold round_bound; lia.
Qed.

Lemma wp_next_wait v t ok st w w0 L (Q : outcome (option waiting) -> W -> Prop) :
  holding w L -> in_time v w0 -> 1000 <= t <= 10000 ->
  status_now E (Slept t :: history w0) = (ok, st) ->
  history w = Queried ok st :: Slept t :: history w0 ->
  (forall w', holding w' L -> (exists x, since w w' [Ticked x]) -> Q (Ok None) w') ->
  (forall w' v', holding w' L -> (exists x, since w w' [Ticked x]) ->
     in_time v' w' -> (left v' w' < left v w0)%nat -> ssStatus v' = st -> Q (Ok (Some v')) w') ->
  wp (next_wait v st) Q w.
Proof.
  intros Ho [Hc He] Ht Hst Hh Hno Hyes.
  assert (0 <= dwCheckPoint st < 2 ^ 32) as Hcp.
  { pose proof (status_check _ _ T (Slept t :: history w0)) as H. by rewrite Hst in H. }
  assert (0 <= dwWaitHint st <= hint) as Hhint.
  { pose proof (status_hint _ _ T (Slept t :: history w0)) as H. by rewrite Hst in H. }
  pose proof (hint_range _ _ T) as Hhr. pose proof (delay_range _ _ T) as Hdr.
  pose proof (ms_step (Slept t) (history w0) ltac:(cbn; lia)) as M1.
  pose proof (ms_step (Queried ok st) (Slept t :: history w0) ltac:(cbn; lia)) as M2.
  rewrite <- Hh in M2. cbn [slept] in M1, M2.
  pose proof (elapsed_later (dwStartTickCount v) (history w0) (history w) ltac:(lia)
    ltac:(unfold round_bound in *; lia)) as El.
  assert (0 <= elapsed (dwStartTickCount v) (history w0)) as Hpos by apply u32_range.
  unfold next_wait. destruct (decide (dwOldCheckPoint v < dwCheckPoint st)) as [Hlt|Hge]; svc.
  - eapply wp_GetTickCount; [exact Ho|]. fold (ms (history w)). intros w1 H1 Hh1. svc.
    assert (in_time (Waiting st (dwCheckPoint st) (u32 (ms (history w)))) w1) as [Hc' He'].
    { by eapply in_time_start. }
    apply Hyes; [done|eexists; by eapply since_one; [apply since_refl|]|done| |done].
    unfold left. cbn in *. assert (0 <= elapsed (u32 (ms (history w))) (history w1)) by apply u32_range.
    unfold round_bound in *. apply Z2Nat.inj_lt; nia.
  - eapply wp_GetTickCount; [exact Ho|]. fold (ms (history w)). intros w1 H1 Hh1. svc.
    rewrite ticks_elapsed. case_decide as Hto; svc.
    { apply Hno; [done|]. eexists. by eapply since_one; [apply since_refl|]. }
    pose proof (ms_step (Ticked (u32 (ms (history w)))) (history w) ltac:(done)) as M3.
    cbn [slept] in M3. rewrite <- Hh1 in M3.
    pose proof (elapsed_later (dwStartTickCount v) (history w) (history w1) ltac:(lia)
      ltac:(unfold round_bound in *; lia)) as El'.
    apply Hyes; [done|eexists; by eapply since_one; [apply since_refl|]| | |done].
    + split; cbn; [done|]. unfold round_bound in *. lia.
    + unfold left. cbn. unfold round_bound in *. apply Z2Nat.inj_lt; nia.
Qed.

(** *** Starting *)

Definition started_text : bytes := b:"Service started successfully." ++ [LF].

(** Calls with nothing to justify: short sleeps, no start, no success reported. *)
Definition quiet (e : event) : Prop :=
  match e with
  | Slept t => 1000 <= t <= 10000
  | Printed t => t <> started_text
  | Started _ => False
  | _ => True
  end.

Definition quietly (w w' : W) : Prop := exists l, since w w' l /\ Forall quiet l.

Lemma quietly_trans w w1 w2 l : quietly w w1 -> since w1 w2 l -> Forall quiet l -> quietly w w2.
Proof.
  intros (l1 & S1 & Q1) S2 Q2. exists (l ++ l1). split; [by eapply since_trans|]. by apply Forall_app.
Qed.

Ltac quiet :=
  repeat (first [apply Forall_nil; exact I | apply Forall_cons; split | apply wait_time_range]);
  try exact I; try discriminate.

Lemma stop_pending_loop m s L w0 fuel v w :
  holding w ((s, Service) :: (m, Manager) :: L) -> in_time v w -> quietly w0 w ->
  (left v w < fuel)%nat ->
  wp (loop fuel (stop_pending_round (Some m) (Some s)) v)
     (fun o w' => exists r, o = Ok r /\ quietly w0 w' /\
        holding w' (match r with None => L | Some _ => (s, Service) :: (m, Manager) :: L end)) w.
Proof.
  intros Ho Hv Hq Hf.
  eapply (wp_loop_measure _ (fun v w => holding w ((s, Service) :: (m, Manager) :: L) /\
    in_time v w /\ quietly w0 w) left); [|done|exact Hf].
  clear - T. intros v w (Ho & Hv & Hq). unfold stop_pending_round.
  case_decide; svc; [|by eexists].
  unfold Sleep. eapply wp_emit; [exact Ho|]. intros w1 H1 Hh1. svc.
  eapply wp_query; [exact H1|in_blocks|]. intros w2 [ok st] Hst H2 Hh2. cbn in Hh2. svc.
  assert (quietly w0 w2) as Hq2.
  { eapply quietly_trans; [exact Hq|chain|quiet]. }
  rewrite Hh1 in Hst, Hh2. destruct ok; svc.
  - eapply wp_next_wait; [exact H2|exact Hv|apply wait_time_range|symmetry; exact Hst|exact Hh2| |].
    + intros w3 H3 [x S3]. svc. eapply wp_printf; [exact H3|]. intros w4 H4 Hh4. svc.
      eapply wp_leave; [exact H4|]. intros w5 H5 Hh5. svc. exists None. split; [done|]. split; [|done].
      eapply quietly_trans; [exact Hq2|chain|quiet].
    + intros w3 v' H3 [x S3] Hv' Hl _. svc. split; [|done]. split; [done|]. split; [done|].
      eapply quietly_trans; [exact Hq2|exact S3|quiet].
  - eapply wp_print_error; [exact H2|]. intros w3 e H3 Hh3. svc.
    eapply wp_leave; [exact H3|]. intros w4 H4 Hh4. svc. exists None. split; [done|]. split; [|done].
    eapply quietly_trans; [exact Hq2|chain|quiet].
Qed.

(** The same, with [st] among the answers. *)
Definition quietly_seen (w w' : W) (st : status) : Prop :=
  exists l ok, since w w' l /\ Forall quiet l /\ Queried ok st ∈ l.

Lemma quietly_seen_trans w w1 w2 st l :
  quietly_seen w w1 st -> since w1 w2 l -> Forall quiet l -> quietly_seen w w2 st.
Proof.
  intros (l1 & ok & S1 & Q1 & Hin) S2 Q2. exists (l ++ l1), ok. split; [by eapply since_trans|].
  split; [by apply Forall_app|]. apply elem_of_app. auto.
Qed.

Lemma quietly_see w w1 w2 ok st l :
  quietly w w1 -> since w1 w2 l -> Forall quiet l -> Queried ok st ∈ l -> quietly_seen w w2 st.
Proof.
  intros (l1 & S1 & Q1) S2 Q2 Hin. exists (l ++ l1), ok. split; [by eapply since_trans|].
  split; [by apply Forall_app|]. apply elem_of_app. auto.
Qed.

Lemma quietly_seen_quietly w w1 st : quietly_seen w w1 st -> quietly w w1.
Proof. intros (l & ok & S1 & Q1 & _). by exists l. Qed.

Lemma start_pending_loop s L w0 fuel v w :
  holding w L -> (s, Service) ∈ L -> in_time v w -> quietly_seen w0 w (ssStatus v) ->
  (left v w < fuel)%nat ->
  wp (loop fuel (start_pending_round (Some s)) v)
     (fun o w' => exists st, o = Ok st /\ quietly_seen w0 w' st /\ holding w' L) w.
Proof.
  intros Ho Hs Hv Hq Hf.
  eapply (wp_loop_measure _ (fun v w => holding w L /\ in_time v w /\ quietly_seen w0 w (ssStatus v)) left);
    [|done|exact Hf].
  clear - T Hs. intros v w (Ho & Hv & Hq). unfold start_pending_round.
  case_decide; svc; [|by eexists].
  unfold Sleep. eapply wp_emit; [exact Ho|]. intros w1 H1 Hh1. svc.
  eapply wp_query; [exact H1|exact Hs|]. intros w2 [ok st] Hst H2 Hh2. cbn in Hh2. svc.
  assert (quietly_seen w0 w2 st) as Hq2.
  { eapply (quietly_see _ w _ ok); [by eapply quietly_seen_quietly|chain|quiet|apply list_elem_of_here]. }
  rewrite Hh1 in Hst, Hh2. destruct ok; svc.
  - eapply wp_next_wait; [exact H2|exact Hv|apply wait_time_range|symmetry; exact Hst|exact Hh2| |].
    + intros w3 H3 [x S3]. svc. exists st. split; [done|]. split; [|done].
      eapply quietly_seen_trans; [exact Hq2|exact S3|quiet].
    + intros w3 v' H3 [x S3] Hv' Hl Hst'. svc. split; [|done]. split; [done|]. split; [done|].
      rewrite Hst'. eapply quietly_seen_trans; [exact Hq2|exact S3|quiet].
  - eapply wp_print_error; [exact H2|]. intros w3 e H3 Hh3. svc. exists st. split; [done|]. split; [|done].
    eapply quietly_seen_trans; [exact Hq2|chain|quiet].
Qed.

(** What the calls of [win32_service_start] satisfy. *)
Definition short_sleeps (l : list event) : Prop :=
  Forall (fun e => match e with Slept t => 1000 <= t <= 10000 | _ => True end) l.
Definition success_seen (l : list event) : Prop :=
  Printed started_text ∈ l ->
  Started true ∈ l /\ exists ok st, Queried ok st ∈ l /\ dwCurrentState st = SERVICE_RUNNING.

Lemma quiet_short l : Forall quiet l -> short_sleeps l.
Proof. intros H. eapply Forall_impl; [exact H|]. by intros []. Qed.

Lemma quiet_not_started l b : Forall quiet l -> Started b ∉ l.
Proof. intros H Hin. rewrite Forall_forall in H. by apply H in Hin. Qed.

Lemma quiet_not_printed l : Forall quiet l -> Printed started_text ∉ l.
Proof. intros H Hin. rewrite Forall_forall in H. by apply H in Hin. Qed.

(** The bound on the rounds of both loops. *)
Definition start_rounds : Z := 2 ^ 32 * round_bound + round_bound.

Lemma left_bound v w : in_time v w -> Z.of_nat (left v w) <= start_rounds.
Proof.
  intros [Hc _]. unfold left, start_rounds.
  assert (0 <= elapsed (dwStartTickCount v) (history w)) by apply u32_range.
  pose proof (hint_range _ _ T). pose proof (delay_range _ _ T). unfold round_bound in *. nia.
Qed.

Lemma wp_start_report st w L (Q : outcome unit -> W -> Prop) :
  holding w L ->
  (forall w' l, holding w' L -> since w w' l -> Forall (fun e => quiet e \/ e = Printed started_text) l ->
     (Printed started_text ∈ l -> dwCurrentState st = SERVICE_RUNNING) -> Q (Ok tt) w') ->
  wp (start_report st) Q w.
Proof.
  intros Ho HQ. unfold start_report. case_decide as Hr; svc.
  - eapply wp_printf; [exact Ho|]. intros w1 H1 Hh1. eapply HQ; [exact H1|chain| |done].
    apply Forall_singleton. auto.
  - eapply wp_printf; [exact Ho|]. intros w1 H1 Hh1. svc.
    eapply wp_printf; [exact H1|]. intros w2 H2 Hh2. svc.
    eapply wp_print_rest; [exact H2|]. intros w3 H3 S3.
    assert (Forall quiet (rev (Printed <$> tail (status_lines st)) ++
      [Printed (entry (b:"Current State") (dec (i32 (dwCurrentState st))));
       Printed (b:"Service not started. " ++ [LF])])) as Hq by quiet.
    eapply HQ; [exact H3|eapply since_trans; [|exact S3]; chain| |].
    + eapply Forall_impl; [exact Hq|auto].
    + intros Hin. by destruct (quiet_not_printed _ Hq).
Qed.
#[local] Arguments start_report : simpl never.

Definition sound_start (w w' : W) : Prop :=
  exists l, since w w' l /\ short_sleeps l /\ success_seen l.

Lemma quiet_sound w w' l : since w w' l -> Forall quiet l -> sound_start w w'.
Proof.
  intros S Hq. exists l. split; [done|]. split; [by apply quiet_short|].
  intros Hin. by destruct (quiet_not_printed _ Hq).
Qed.

Lemma wp_launch fuel m s L w :
  holding w ((s, Service) :: (m, Manager) :: L) -> start_rounds < Z.of_nat fuel ->
  wp (launch fuel (Some m) (Some s)) (fun o w' => o = Ok tt /\ holding w' L /\ sound_start w w') w.
Proof.
  intros Ho Hf. unfold launch, StartService. svc.
  eapply wp_inspect; [exact Ho|in_blocks|]. svc. eapply wp_emit; [exact Ho|]. intros w1 H1 Hh1. svc.
  destruct (service_started _ _); svc.
  2: { eapply wp_print_error; [exact H1|]. intros w2 e H2 Hh2. svc.
       eapply wp_leave; [exact H2|]. intros w3 H3 Hh3. split; [done|]. split; [done|].
       eexists. split; [chain|]. split; [repeat constructor|]. intros Hin.
       repeat (apply elem_of_cons in Hin as [Hin|Hin]; [discriminate Hin|]). by apply not_elem_of_nil in Hin. }
  eapply wp_printf; [exact H1|]. intros w2 H2 Hh2. svc.
  eapply wp_query; [exact H2|in_blocks|]. intros w3 [ok st] Hst H3 Hh3. cbn in Hh3. svc.
  destruct ok; svc.
  2: { eapply wp_print_error; [exact H3|]. intros w4 e H4 Hh4. svc.
       eapply wp_leave; [exact H4|]. intros w5 H5 Hh5. split; [done|]. split; [done|].
       eexists. split; [chain|]. split; [repeat constructor|]. intros Hin.
       repeat (apply elem_of_cons in Hin as [Hin|Hin]; [discriminate Hin|]). by apply not_elem_of_nil in Hin. }
  eapply wp_GetTickCount; [exact H3|]. fold (ms (history w3)). intros w4 H4 Hh4. svc.
  assert (in_time (Waiting st (dwCheckPoint st) (u32 (ms (history w3)))) w4) as Hv.
  { apply in_time_start; [|exact Hh4]. pose proof (status_check _ _ T (history w2)) as H. by rewrite <- Hst in H. }
  eapply wp_mono; [apply (start_pending_loop s ((s, Service) :: (m, Manager) :: L) w2); [exact H4|in_blocks|exact Hv| |]|].
  - exists [Ticked (u32 (ms (history w3))); Queried true st], true.
    split; [chain|]. split; [quiet|]. set_solver.
  - pose proof (left_bound _ _ Hv). lia.
  - intros o w5 (st' & -> & (l5 & ok & S5 & Q5 & Hin5) & H5). svc.
    eapply wp_start_report; [exact H5|]. intros w6 l6 H6 S6 Q6 Hrun. svc.
    eapply wp_leave; [exact H6|]. intros w7 H7 Hh7. split; [done|]. split; [done|].
    exists (l6 ++ l5 ++ [Printed (b:"Service start pending..." ++ [LF]); Started true]).
    split; [eapply since_same; [|exact Hh7]; eapply since_trans; [|exact S6];
            eapply since_trans; [|exact S5]; chain|]. split.
    + apply Forall_app. split; [eapply Forall_impl; [exact Q6|]; intros e [He| ->]; [by destruct e|done]|].
      apply Forall_app. split; [by apply quiet_short|]. repeat constructor.
    + intros Hin. split; [set_solver|]. exists ok, st'. split; [set_solver|]. apply Hrun.
      apply elem_of_app in Hin as [Hin|Hin]; [done|]. apply elem_of_app in Hin as [Hin|Hin].
      { by destruct (quiet_not_printed _ Q5). }
      repeat (apply elem_of_cons in Hin as [Hin|Hin]; [discriminate Hin|]). by apply not_elem_of_nil in Hin.
Qed.
#[local] Arguments launch : simpl never.

(** A start is only tried on a service seen stopped or stopping. *)
Definition start_allowed (l : list event) : Prop :=
  forall b, Started b ∈ l -> exists st, Queried true st ∈ l /\
    (dwCurrentState st = SERVICE_STOPPED \/ dwCurrentState st = SERVICE_STOP_PENDING).

Lemma quiet_start w w' L l :
  holding w' L -> since w w' l -> Forall quiet l ->
  exists l', holding w' L /\ since w w' l' /\ short_sleeps l' /\ success_seen l' /\ start_allowed l'.
Proof.
  intros H S Hq. exists l. split; [done|]. split; [done|]. split; [by apply quiet_short|]. split.
  - intros Hin. by destruct (quiet_not_printed _ Hq).
  - intros b Hin. by destruct (quiet_not_started _ b Hq).
Qed.

Lemma wp_start fuel w L :
  holding w L -> start_rounds < Z.of_nat fuel ->
  wp (win32_service_start fuel) (fun o w' => o = Ok tt /\
    exists l, holding w' L /\ since w w' l /\ short_sleeps l /\ success_seen l /\ start_allowed l) w.
Proof.
  intros Ho Hf. unfold win32_service_start. eapply wp_open_service; [exact Ho| |].
  { intros w1 e l H1 S1 Hl. split; [done|]. eapply quiet_start; [exact H1|exact S1|].
    destruct Hl as [->| ->]; quiet. }
  intros w1 m s H1 S1. svc. eapply wp_query; [exact H1|in_blocks|]. intros w2 [ok st] Hst H2 Hh2.
  cbn in Hh2. svc. destruct ok; svc.
  2: { eapply wp_print_error; [exact H2|]. intros w3 e H3 Hh3. svc.
       eapply wp_leave; [exact H3|]. intros w4 H4 Hh4. split; [done|].
       eapply quiet_start; [exact H4|chain|quiet]. }
  case_decide as Hc; svc.
  { eapply wp_printf; [exact H2|]. intros w3 H3 Hh3. svc.
    eapply wp_leave; [exact H3|]. intros w4 H4 Hh4. split; [done|].
    eapply quiet_start; [exact H4|chain|quiet]. }
  assert (dwCurrentState st = SERVICE_STOPPED \/ dwCurrentState st = SERVICE_STOP_PENDING) as Hcs by lia.
  eapply wp_GetTickCount; [exact H2|]. fold (ms (history w2)). intros w3 H3 Hh3. svc.
  assert (in_time (Waiting st (dwCheckPoint st) (u32 (ms (history w2)))) w3) as Hv.
  { apply in_time_start; [|exact Hh3]. pose proof (status_check _ _ T (history w1)) as H. by rewrite <- Hst in H. }
  eapply wp_mono; [apply (stop_pending_loop m s L w2); [exact H3|exact Hv| |]|].
  - eexists. split; [chain|quiet].
  - pose proof (left_bound _ _ Hv). lia.
  - intros o w4 (r & -> & (l4 & S4 & Q4) & H4). svc. destruct r as [st'|].
    2: { svc. split; [done|]. eapply quiet_start; [exact H4|eapply since_trans; [|exact S4]; chain|].
         apply Forall_app. split; [done|quiet]. }
    eapply wp_mono; [by apply wp_launch|]. intros o w5 (-> & H5 & l5 & S5 & Sh5 & Su5). split; [done|].
    exists (l5 ++ l4 ++ [Queried true st; OpenedService SERVICE_ALL_ACCESS true; OpenManager true]).
    split; [done|]. split; [eapply since_trans; [|exact S5]; eapply since_trans; [|exact S4]; chain|].
    split; [|split].
    + apply Forall_app. split; [done|]. apply Forall_app. split; [by apply quiet_short|repeat constructor].
    + intros Hin. apply elem_of_app in Hin as [Hin|Hin].
      { destruct (Su5 Hin) as (Hs & ok & st2 & Hq & Hr). split; [set_solver|]. exists ok, st2.
        split; [set_solver|done]. }
      apply elem_of_app in Hin as [Hin|Hin]; [by destruct (quiet_not_printed _ Q4)|].
      repeat (apply elem_of_cons in Hin as [Hin|Hin]; [discriminate Hin|]). by apply not_elem_of_nil in Hin.
    + intros b _. exists st. split; [set_solver|done].
Qed.

(** *** Stopping *)

(** The latest moment at which the loops of [win32_service_stop] go round again,
    in milliseconds after its start. *)
Definition stop_limit : Z := dwTimeout + 8 * (delay + 1).

Definition stopped_text (t : bytes) : Prop :=
  t = b:"Service stopped successfully." ++ [LF] \/ t = b:"Service stopped successfully" ++ [LF].

(** Calls that do not report success. *)
Definition unclaimed (e : event) : Prop := match e with Printed t => ~ stopped_text t | _ => True end.

Definition stop_seen (l : list event) (st : status) : Prop :=
  Queried true st ∈ l \/ Controlled true st ∈ l.

(** A success that was reported was seen. *)
Definition stop_sound (l : list event) : Prop :=
  forall t, stopped_text t -> Printed t ∈ l ->
  exists st, stop_seen l st /\ dwCurrentState st = SERVICE_STOPPED.

Lemma unclaimed_sound l : Forall unclaimed l -> stop_sound l.
Proof. intros H t Ht Hin. rewrite Forall_forall in H. by destruct (H _ Hin). Qed.

Definition total_sleep (l : list event) : Z := foldr (fun e z => slept e + z) 0 l.

Lemma ms_since w w' l :
  since w w' l -> Forall (fun e => 0 <= slept e) l ->
  ms (history w) <= ms (history w') <=
    ms (history w) + total_sleep l + Z.of_nat (length l) * (delay + 1).
Proof.
  unfold since. intros ->. induction 1 as [|e l He _ IH]; cbn [app total_sleep foldr length]; [lia|].
  pose proof (ms_step e (l ++ history w) He). fold (total_sleep l). lia.
Qed.

Lemma clock_since w w' l :
  since w w' l -> clock E (history w) + Z.of_nat (length l) <= clock E (history w').
Proof.
  unfold since. intros ->. induction l as [|e l IH]; cbn [app length]; [lia|].
  pose proof (clock_moves _ _ T e (l ++ history w)). lia.
Qed.

Section Stop.
Variable w0 : W.                 (** when the start time was taken *)

Definition within (lim : Z) (w : W) : Prop :=
  ms (history w0) <= ms (history w) <= ms (history w0) + lim.

Definition rounds_left (lim : Z) (w : W) : nat :=
  Z.to_nat (1000 * (ms (history w0) + lim + 1) - clock E (history w)).

Lemma rounds_decrease lim w w' l :
  within lim w -> since w w' l -> l <> [] -> (rounds_left lim w' < rounds_left lim w)%nat.
Proof.
  intros [_ Hw] Hs Hl. pose proof (clock_since _ _ _ Hs). unfold rounds_left, ms in *.
  destruct l; [done|]. cbn [length] in *.
  assert (clock E (history w) < 1000 * (clock E (history w0) / 1000 + lim + 1))
    by (Z.to_euclidean_division_equations; lia).
  lia.
Qed.

Lemma rounds_bound lim w : within lim w -> Z.of_nat (rounds_left lim w) <= 1000 * (lim + 1).
Proof.
  intros [Hw Hl]. unfold rounds_left, ms in *.
  pose proof (Z.mul_div_le (clock E (history w)) 1000 ltac:(lia)). lia.
Qed.

(** The test on the elapsed time, while less than 32 bits of it have passed. *)
Lemma timeout_test lim w : within lim w -> lim < 2 ^ 32 ->
  u32 (u32 (ms (history w)) - u32 (ms (history w0))) = ms (history w) - ms (history w0).
Proof. intros [H1 H2] Hl. apply u32_sub_elapsed. lia. Qed.

Definition unclaimed_from (w w' : W) : Prop := exists l, since w w' l /\ Forall unclaimed l.

Lemma unclaimed_from_trans w w1 w2 l :
  unclaimed_from w w1 -> since w1 w2 l -> Forall unclaimed l -> unclaimed_from w w2.
Proof.
  intros (l1 & S1 & Q1) S2 Q2. exists (l ++ l1). split; [by eapply since_trans|]. by apply Forall_app.
Qed.

Ltac unclaimed :=
  repeat (first [apply Forall_nil; exact I | apply Forall_cons; split]);
  try exact I; try (intros [Hx|Hx]; discriminate Hx).

Ltac timed S := let H := fresh in
  pose proof (ms_since _ _ _ S) as H; cbn [total_sleep foldr slept length] in H;
  specialize (H ltac:(repeat constructor; cbn; lia)).

Lemma within_later lim w w' l :
  within lim w -> since w w' l -> Forall (fun e => 0 <= slept e) l ->
  within (lim + total_sleep l + Z.of_nat (length l) * (delay + 1)) w'.
Proof. intros [H1 H2] S Hl. pose proof (ms_since _ _ _ S Hl). split; lia. Qed.

Lemma stop_sound_app l l' : Forall unclaimed l' -> stop_sound l -> stop_sound (l ++ l').
Proof.
  intros Hu Hs t Ht Hin. apply elem_of_app in Hin as [Hin|Hin].
  - destruct (Hs t Ht Hin) as (st & Hseen & Hst). exists st. split; [|done].
    unfold stop_seen in *. rewrite !elem_of_app. tauto.
  - rewrite Forall_forall in Hu. by destruct (Hu _ Hin).
Qed.

Lemma stop_sound_seen st l : stop_seen l st -> dwCurrentState st = SERVICE_STOPPED -> stop_sound l.
Proof. intros H Hst t _ _. by exists st. Qed.

(** The end of a command that leaves the handles [L]. *)
Definition stop_done (wa w : W) (lim : Z) (L : list (positive * obj)) : Prop :=
  holding w L /\ within lim w /\ exists l, since wa w l /\ stop_sound l.

Lemma stop_done_intro wa w w' lim lim' L l :
  unclaimed_from wa w -> within lim w -> holding w' L -> since w w' l -> stop_sound l ->
  Forall (fun e => 0 <= slept e) l ->
  lim + total_sleep l + Z.of_nat (length l) * (delay + 1) <= lim' -> stop_done wa w' lim' L.
Proof.
  intros (l1 & S1 & Q1) Hw Ho S Hs Hl Hle. split; [done|]. split.
  - destruct (within_later lim w w' l Hw S Hl). split; lia.
  - exists (l ++ l1). split; [by eapply since_trans|]. by apply stop_sound_app.
Qed.

Lemma within_round lim w w' l t :
  within lim w -> since w w' (Ticked t :: l) -> Forall (fun e => 0 <= slept e) l ->
  (forall w1, since w w1 l -> ms (history w1) - ms (history w0) <= dwTimeout) ->
  dwTimeout + delay + 1 <= lim -> within lim w'.
Proof.
  intros Hw S Hl Hto Hlim. unfold since in S. cbn in S.
  specialize (Hto (World (objs w) (l ++ history w)) eq_refl). cbn in Hto.
  destruct Hw as [H1 H2].
  pose proof (ms_since w (World (objs w) (l ++ history w)) l eq_refl Hl) as H3. cbn in H3.
  pose proof (ms_step (Ticked t) (l ++ history w) ltac:(done)) as H4. cbn [slept] in H4.
  unfold within. rewrite S. lia.
Qed.

Lemma stop_wait_loop wa s L lim fuel ssp w :
  (s, Service) ∈ L -> dwTimeout + delay + 1 <= lim -> lim <= 2 ^ 31 ->
  holding w L -> within lim w -> unclaimed_from wa w -> (rounds_left lim w < fuel)%nat ->
  wp (loop fuel (stop_wait_round (Some s) (u32 (ms (history w0)))) ssp)
     (fun o w' => exists go, o = Ok go /\
        (if (go : bool) then holding w' L /\ within lim w' /\ unclaimed_from wa w'
         else stop_done wa w' (lim + 10000 + 6 * (delay + 1)) L)) w.
Proof.
  intros Hs Hl1 Hl2 Ho Hw Hu Hf. pose proof (delay_range _ _ T) as Hd.
  eapply (wp_loop_measure _ (fun _ w => holding w L /\ within lim w /\ unclaimed_from wa w)
    (fun _ => rounds_left lim)); [|done|exact Hf].
  clear - T Hs Hl1 Hl2 Hd. intros ssp w (Ho & Hw & Hu). unfold stop_wait_round.
  case_decide; svc; [|by exists true].
  pose proof (wait_time_range (dwWaitHint ssp)) as Ht.
  eapply wp_printf; [exact Ho|]. intros w1 H1 Hh1. svc. unfold Sleep.
  eapply wp_emit; [exact H1|]. intros w2 H2 Hh2. svc.
  eapply wp_query; [exact H2|exact Hs|]. intros w3 [ok st] Hst H3 Hh3. cbn in Hh3. svc.
  destruct ok; svc.
  2: { eapply wp_print_error; [exact H3|]. intros w4 e H4 Hh4. svc. exists false. split; [done|].
       eapply (stop_done_intro wa w); [exact Hu|exact Hw|exact H4|chain|apply unclaimed_sound; unclaimed
         |repeat constructor; cbn; lia|cbn; lia]. }
  case_decide as Hc; svc.
  { eapply wp_printf; [exact H3|]. intros w4 H4 Hh4. svc. exists false. split; [done|].
    eapply (stop_done_intro wa w); [exact Hu|exact Hw|exact H4|chain| |repeat constructor; cbn; lia|cbn; lia].
    apply (stop_sound_seen st); [by left; set_solver|done]. }
  eapply wp_GetTickCount; [exact H3|]. fold (ms (history w3)). intros w4 H4 Hh4. svc.
  assert (since w w3 [Queried true st; Slept (wait_time (dwWaitHint ssp));
    Printed (b:"Service stop pending..." ++ [LF])]) as S3 by chain.
  pose proof (within_later lim w w3 _ Hw S3 ltac:(repeat constructor; cbn; lia)) as Hw3. cbn in Hw3.
  rewrite (timeout_test _ _ Hw3) by lia. case_decide as Hto; svc.
  - eapply wp_printf; [exact H4|]. intros w5 H5 Hh5. svc. exists false. split; [done|].
    eapply (stop_done_intro wa w); [exact Hu|exact Hw|exact H5|chain|apply unclaimed_sound; unclaimed
      |repeat constructor; cbn; lia|cbn; lia].
  - split; [split; [exact H4|split]|].
    + eapply (within_round lim w w4); [exact Hw|chain|repeat constructor; cbn; lia| |done].
      intros w5 S5. unfold since in *. rewrite S5, <- S3. lia.
    + eapply unclaimed_from_trans; [exact Hu|chain|unclaimed].
    + eapply rounds_decrease; [exact Hw|chain|done].
Qed.

Lemma stop_loop wa s L lim fuel ssp w :
  (s, Service) ∈ L -> dwTimeout + delay + 1 <= lim -> lim + hint <= 2 ^ 31 + 2 ^ 30 ->
  0 <= dwWaitHint ssp <= hint -> (exists l, since wa w l /\ Forall unclaimed l /\ stop_seen l ssp) ->
  holding w L -> within lim w -> (rounds_left lim w < fuel)%nat ->
  wp (loop fuel (stop_round (Some s) (u32 (ms (history w0)))) ssp)
     (fun o w' => exists stopped, o = Ok stopped /\
        (if (stopped : bool) then holding w' L /\ within (lim + hint + 3 * (delay + 1)) w' /\
           exists l st, since wa w' l /\ stop_seen l st /\ dwCurrentState st = SERVICE_STOPPED
         else stop_done wa w' (lim + hint + 5 * (delay + 1)) L)) w.
Proof.
  intros Hs Hl1 Hl2 Hh Hseen Ho Hw Hf. pose proof (delay_range _ _ T) as Hd.
  eapply (wp_loop_measure _ (fun ssp w => holding w L /\ within lim w /\ 0 <= dwWaitHint ssp <= hint /\
      exists l, since wa w l /\ Forall unclaimed l /\ stop_seen l ssp)
    (fun _ => rounds_left lim)); [|done|exact Hf].
  clear - T Hs Hl1 Hl2 Hd. intros ssp w (Ho & Hw & Hh & l0 & S0 & Q0 & Hseen). unfold stop_round.
  case_decide as Hc; svc.
  2: { exists true. split; [done|]. split; [done|]. split; [destruct Hw; split; lia|].
       exists l0, ssp. split; [done|]. split; [done|]. lia. }
  unfold Sleep. eapply wp_emit; [exact Ho|]. intros w2 H2 Hh2. svc.
  eapply wp_query; [exact H2|exact Hs|]. intros w3 [ok st] Hst H3 Hh3. cbn in Hh3. svc.
  pose proof (status_hint _ _ T (history w2)) as Hhs. rewrite <- Hst in Hhs. cbn in Hhs.
  assert (unclaimed_from wa w) as Hu by (by exists l0).
  destruct ok; svc.
  2: { eapply wp_print_error; [exact H3|]. intros w4 e H4 Hh4. svc. exists false. split; [done|].
       eapply (stop_done_intro wa w); [exact Hu|exact Hw|exact H4|chain|apply unclaimed_sound; unclaimed
         |repeat constructor; cbn; lia|cbn; lia]. }
  assert (since w w3 [Queried true st; Slept (dwWaitHint ssp)]) as S3 by chain.
  pose proof (within_later lim w w3 _ Hw S3 ltac:(repeat constructor; cbn; lia)) as Hw3. cbn in Hw3.
  case_decide as Hc2; svc.
  { exists true. split; [done|]. split; [done|]. split; [destruct Hw3; split; lia|].
    eexists _, st. split; [eapply since_trans; [exact S0|exact S3]|]. split; [left; set_solver|done]. }
  eapply wp_GetTickCount; [exact H3|]. fold (ms (history w3)). intros w4 H4 Hh4. svc.
  rewrite (timeout_test _ _ Hw3) by lia. case_decide as Hto; svc.
  - eapply wp_printf; [exact H4|]. intros w5 H5 Hh5. svc. exists false. split; [done|].
    eapply (stop_done_intro wa w); [exact Hu|exact Hw|exact H5|chain|apply unclaimed_sound; unclaimed
      |repeat constructor; cbn; lia|cbn; lia].
  - split; [split; [exact H4|split; [|split; [exact Hhs|]]]|].
    + eapply (within_round lim w w4); [exact Hw|chain|repeat constructor; cbn; lia| |done].
      intros w5 S5. unfold since in *. rewrite S5, <- S3. lia.
    + eexists. split; [eapply since_trans; [exact S0|]; chain|]. split.
      * apply Forall_app. split; [unclaimed|done].
      * left. set_solver.
    + eapply rounds_decrease; [exact Hw|chain|done].
Qed.

(** How long a stop may take, in milliseconds, and the rounds of its loops. *)
Definition stop_span : Z := dwTimeout + 10000 + hint + 16 * (delay + 1).
Definition stop_rounds : Z := 1000 * (dwTimeout + 6 * (delay + 1) + 1).

#[local] Arguments stop_wait_round : simpl never.
#[local] Arguments stop_round : simpl never.

Lemma stop_done_weaken wa w lim lim' L :
  stop_done wa w lim L -> lim <= lim' -> stop_done wa w lim' L.
Proof. intros (H1 & [H2 H3] & H4) Hle. split; [done|]. split; [|done]. split; lia. Qed.

Lemma within_refl : within 0 w0.
Proof. split; lia. Qed.

Lemma wp_stop_body fuel s L w w1 :
  w = w0 -> holding w1 L -> (s, Service) ∈ L ->
  (exists l, since w w1 l /\ length l = 3%nat /\ total_sleep l = 0 /\ Forall (fun e => 0 <= slept e) l /\
     Forall unclaimed l) ->
  stop_rounds < Z.of_nat fuel ->
  wp (stop_body fuel (Some s) (u32 (ms (history w0))))
     (fun o w' => o = Ok tt /\ stop_done w w' stop_span L) w1.
Proof.
  intros -> Ho Hs (l & S & Hlen & Htot & Hnn & Hun) Hf.
  pose proof (hint_range _ _ T) as Hhr. pose proof (delay_range _ _ T) as Hdr.
  pose proof (within_later 0 w0 w1 l within_refl S Hnn) as Hw1. rewrite Htot, Hlen in Hw1.
  assert (unclaimed_from w0 w1) as Hu1 by (by exists l).
  unfold stop_body. svc.
  eapply wp_query; [exact Ho|exact Hs|]. intros w2 [ok st] Hst H2 Hh2. cbn in Hh2. svc.
  destruct ok; svc.
  2: { eapply wp_print_error; [exact H2|]. intros w3 e H3 Hh3. split; [done|].
       eapply (stop_done_intro w0 w1); [exact Hu1|exact Hw1|exact H3|chain|apply unclaimed_sound; unclaimed
         |repeat constructor; cbn; lia|unfold stop_span, dwTimeout; cbn; lia]. }
  case_decide as Hc; svc.
  { eapply wp_printf; [exact H2|]. intros w3 H3 Hh3. split; [done|].
    eapply (stop_done_intro w0 w1); [exact Hu1|exact Hw1|exact H3|chain|apply unclaimed_sound; unclaimed
      |repeat constructor; cbn; lia|unfold stop_span, dwTimeout; cbn; lia]. }
  set (lim := dwTimeout + 5 * (delay + 1)).
  assert (within lim w2) as Hw2.
  { destruct (within_later _ w1 w2 [Queried true st] Hw1 ltac:(chain) ltac:(repeat constructor; cbn; lia)).
    cbn in *. split; unfold lim, dwTimeout; lia. }
  eapply wp_mono; [apply (stop_wait_loop w0 s L lim); [exact Hs|unfold lim; lia|unfold lim, dwTimeout; lia
    |exact H2|exact Hw2|eapply unclaimed_from_trans; [exact Hu1|chain|unclaimed]|]|].
  { pose proof (rounds_bound _ _ Hw2). unfold stop_rounds, lim in *. lia. }
  intros o w3 (go & -> & Hgo). svc. destruct go; svc.
  2: { split; [done|]. eapply stop_done_weaken; [exact Hgo|]. unfold stop_span, lim. lia. }
  destruct Hgo as (H3 & Hw3 & Hu3).
  eapply wp_control; [exact H3|exact Hs|]. intros w4 [ok ssp] Hssp H4 Hh4. cbn in Hh4. svc.
  pose proof (control_hint _ _ T (history w3)) as Hch. rewrite <- Hssp in Hch. cbn in Hch.
  destruct ok; svc.
  2: { eapply wp_print_error; [exact H4|]. intros w5 e H5 Hh5. split; [done|].
       eapply (stop_done_intro w0 w3); [exact Hu3|exact Hw3|exact H5|chain|apply unclaimed_sound; unclaimed
         |repeat constructor; cbn; lia|unfold stop_span, lim, dwTimeout; cbn; lia]. }
  set (lim2 := dwTimeout + 6 * (delay + 1)).
  assert (within lim2 w4) as Hw4.
  { destruct (within_later _ w3 w4 [Controlled true ssp] Hw3 ltac:(chain) ltac:(repeat constructor; cbn; lia)).
    cbn in *. split; unfold lim, lim2, dwTimeout in *; lia. }
  eapply wp_mono; [apply (stop_loop w0 s L lim2); [exact Hs|unfold lim2; lia|unfold lim2, dwTimeout; lia
    |exact Hch| |exact H4|exact Hw4|]|].
  { destruct Hu3 as (l3 & S3 & Q3). exists (Controlled true ssp :: l3).
    split; [eapply since_one; [exact S3|exact Hh4]|]. split; [by constructor|]. right. set_solver. }
  { pose proof (rounds_bound _ _ Hw4). unfold stop_rounds, lim2 in *. lia. }
  intros o w5 (stopped & -> & Hst5). svc. destruct stopped; svc.
  2: { split; [done|]. eapply stop_done_weaken; [exact Hst5|]. unfold stop_span, lim2. lia. }
  destruct Hst5 as (H5 & Hw5 & l5 & st5 & S5 & Hseen & Hstop).
  eapply wp_printf; [exact H5|]. intros w6 H6 Hh6. split; [done|]. split; [done|]. split.
  - destruct (within_later _ w5 w6 [_] Hw5 ltac:(chain) ltac:(repeat constructor; cbn; lia)).
    cbn in *. split; unfold stop_span, lim2 in *; lia.
  - eexists. split; [eapply since_one; [exact S5|exact Hh6]|].
    apply (stop_sound_seen st5); [|done]. unfold stop_seen in *. rewrite !elem_of_cons. tauto.
Qed.
End Stop.
End Timely.
End Service.

(** ** Properties *)

(** C7: stopping the service ends. Whatever the service manager answers, as long as
    its wait hints are bounded and calls return, [win32_service_stop] comes back
    within its thirty second limit, one last sleep and a few calls; the loops need
    at most the stated number of rounds; both handles are closed; and a line that
    says the service stopped is printed only after a status that said so. *)
Theorem service_stop_ends (E : env) (hint delay : Z) (fuel : nat) (w : world obj event)
    (L : list (positive * obj)) :
  timely E hint delay -> holding w L -> @stop_rounds delay < Z.of_nat fuel ->
  exists w' l, win32_service_stop E fuel w = (Ok tt, w') /\ holding w' L /\
    history w' = l ++ history w /\ stop_sound l /\
    ms E (history w') <= ms E (history w) + @stop_span hint delay.
Proof.
  intros T Ho Hf.
  enough (wp (win32_service_stop E fuel) (fun o w' => o = Ok tt /\
    @stop_done E w w w' (@stop_span hint delay) L) w) as (o & w' & -> & -> & H1 & [_ H2] & l & H3 & H4)%wp_run
    by (exists w', l; auto).
  pose proof (hint_range _ _ _ T) as Hhr. pose proof (delay_range _ _ _ T) as Hdr.
  unfold win32_service_stop. wp_simpl. eapply wp_GetTickCount; [exact Ho|]. fold (ms E (history w)).
  intros w1 H1 Hh1. cbn. eapply wp_open_service; [exact H1| |].
  - intros w2 e l H2 S2 Hl. split; [done|].
    eapply (stop_done_intro E T w w w w2 0); [by exists []|by apply within_refl|exact H2
      |eapply since_trans; [eapply since_one; [apply since_refl|exact Hh1]|exact S2]| | |].
    + apply unclaimed_sound. destruct Hl as [->| ->]; repeat constructor; by intros [Hx|Hx]; discriminate Hx.
    + destruct Hl as [->| ->]; repeat constructor; cbn; lia.
    + unfold stop_span, dwTimeout. destruct Hl as [->| ->]; cbn; lia.
  - intros w2 m s H2 S2. wp_simpl. eapply wp_mono.
    + eapply (wp_stop_body E T w fuel s _ w w2); [done|exact H2|in_blocks| |exact Hf].
      eexists. split; [eapply since_trans; [eapply since_one; [apply since_refl|exact Hh1]|exact S2]|].
      repeat constructor; cbn; lia.
    + intros o w3 (-> & H3 & Hw3 & l3 & S3 & Hs3). wp_simpl.
      eapply wp_leave; [exact H3|]. intros w4 H4 Hh4. split; [done|]. split; [exact H4|].
      split; [unfold within in *; by rewrite Hh4|]. exists l3. split; [by eapply since_same|done].
Qed.

(** C8: starting the service ends. Under the same conditions [win32_service_start]
    returns with both handles closed, although its two loops are only limited by
    the progress of the checkpoint; every sleep lasts between one and ten seconds;
    a start is only tried on a service seen stopped or stopping; and success is
    reported only if the start was accepted and the service was seen running. *)
Theorem service_start_ends (E : env) (hint delay : Z) (fuel : nat) (w : world obj event)
    (L : list (positive * obj)) :
  timely E hint delay -> holding w L -> @start_rounds hint delay < Z.of_nat fuel ->
  exists w' l, win32_service_start E fuel w = (Ok tt, w') /\ holding w' L /\
    history w' = l ++ history w /\ short_sleeps l /\ start_allowed l /\ success_seen l.
Proof.
  intros T Ho Hf. destruct (proj1 (wp_run _ _ _) (wp_start E T fuel w L Ho Hf))
    as (o & w' & Hrun & -> & l & H1 & H2 & H3 & H4 & H5). exists w', l. auto 10.
Qed.

(** Installing the service. Whatever the system answers, every handle is closed
    and the result tells what happened: installed exactly when the service was
    created, previously installed exactly when it was only found, failure exactly
    when a critical line was logged.  The path registered is the agent's own, and a
    new service always has its description and its restart policy set. *)
Theorem service_install_spec (E : env) (w : world obj event) (L : list (positive * obj)) :
  holding w L ->
  exists rv w' l, win32_service_install E w = (Ok rv, w') /\ holding w' L /\
    history w' = l ++ history w /\ installed rv l.
Proof.
  intros Ho. destruct (proj1 (wp_run _ _ _) (wp_install E w L Ho))
    as (o & w' & Hrun & rv & l & -> & H1 & H2 & H3). exists rv, w', l. auto.
Qed.

(** Querying and deleting the service. Both commands close their handles on every
    path; the query prints the four lines of a status the manager gave, or one line
    with the error of the call that failed; deletion is reported exactly when the
    manager accepted it. *)
Theorem service_status_delete_spec (E : env) (w : world obj event) (L : list (positive * obj)) :
  holding w L ->
  (exists w' l, win32_service_status E w = (Ok tt, w') /\ holding w' L /\ history w' = l ++ history w /\
    ((exists st, Queried true st ∈ l /\ printed l = status_lines st) \/
     (exists e what, printed l = [with_error what e] /\ forall st, Queried true st ∉ l))) /\
  (exists w' l, win32_service_delete E w = (Ok tt, w') /\ holding w' L /\ history w' = l ++ history w /\
    (Deleted true ∈ l <-> printed l = [b:"Service deleted successfully" ++ [LF]])).
Proof.
  intros Ho. split.
  - destruct (proj1 (wp_run _ _ _) (wp_status E w L Ho)) as (o & w' & Hrun & l & -> & H1 & H2 & H3). eauto 10.
  - destruct (proj1 (wp_run _ _ _) (wp_delete E w L Ho)) as (o & w' & Hrun & l & -> & H1 & H2 & H3). eauto 10.
Qed.

(** ** A system for the witnesses *)

(** A service that starts and stops after some queries, on a machine whose calls
    take a millisecond. *)
Definition some (p : event -> bool) (h : list event) : bool := existsb p h.
Definition toy_status (h : list event) : bool * status :=
  (true,
   if some (fun e => match e with Started true => true | _ => false end) h
   then if some (fun e => match e with Slept _ => true | _ => false end) h
        then Status SERVICE_RUNNING 0 2 0
        else Status SERVICE_START_PENDING 0 1 2000
   else if some (fun e => match e with Controlled _ _ => true | _ => false end) h
   then Status SERVICE_STOPPED 0 0 0
   else if some (fun e => match e with OpenedService a _ => bool_decide (a = 0x2C) | _ => false end) h
   then Status SERVICE_RUNNING 0 0 0
   else Status SERVICE_STOPPED 0 0 0).
Definition toy : env := Env (fun _ => Some (b:"C:\ck.exe")) (fun _ => true)
  (fun a _ => bool_decide (a <> SC_MANAGER_CONNECT)) (fun _ => true)
  (fun _ _ => true) (fun _ => true) (fun _ => true) toy_status
  (fun _ => (true, Status SERVICE_STOP_PENDING 0 0 500)) (fun _ => 0)
  (fun h => 1000 * (foldr (fun e z => Z.max 0 (slept e) + z) 0 h + Z.of_nat (length h))).

Lemma toy_status_range h :
  0 <= dwWaitHint (toy_status h).2 <= 2000 /\ 0 <= dwCheckPoint (toy_status h).2 < 2 ^ 32.
Proof. unfold toy_status. cbn. repeat (case_match; cbn; try lia). Qed.

Lemma toy_timely : timely toy 2000 1.
Proof.
  split; try lia.
  - intros h. apply toy_status_range.
  - intros h. apply toy_status_range.
  - cbn. lia.
  - intros e h. cbn [toy clock foldr length]. lia.
  - intros t h. cbn [toy clock foldr length slept]. lia.
  - intros e h He. cbn [toy clock foldr length]. lia.
Qed.

Definition boot : world obj event := fresh_world.

Lemma toy_rounds z : 0 <= z -> z < Z.of_nat (Z.to_nat (z + 1)).
Proof. lia. Qed.

(** What the toy system sees of the commands. *)
Example toy_start : printed (history (win32_service_start toy 5 boot).2) =
  [b:"Service start pending..." ++ [LF]; b:"Service started successfully." ++ [LF]].
Proof. by vm_compute. Qed.

Example toy_stop : printed (history (win32_service_stop toy 5 boot).2) =
  [b:"Service stopped successfully" ++ [LF]].
Proof. by vm_compute. Qed.

Lemma service_stop_ends_witness : exists fuel w' l,
  win32_service_stop toy fuel boot = (Ok tt, w') /\ holding w' [] /\
  history w' = l ++ history boot /\ stop_sound l /\
  ms toy (history w') <= ms toy (history boot) + @stop_span 2000 1.
Proof.
  exists (Z.to_nat (@stop_rounds 1 + 1)).
  apply (service_stop_ends toy 2000 1 _ boot [] toy_timely holding_fresh).
  by apply toy_rounds.
Defined.

Lemma service_start_ends_witness : exists fuel w' l,
  win32_service_start toy fuel boot = (Ok tt, w') /\ holding w' [] /\
  history w' = l ++ history boot /\ short_sleeps l /\ start_allowed l /\ success_seen l.
Proof.
  exists (Z.to_nat (@start_rounds 2000 1 + 1)).
  apply (service_start_ends toy 2000 1 _ boot [] toy_timely holding_fresh).
  by apply toy_rounds.
Defined.

Lemma service_install_spec_witness : exists rv w' l,
  win32_service_install toy boot = (Ok rv, w') /\ holding w' [] /\
  history w' = l ++ history boot /\ installed rv l.
Proof. apply (service_install_spec toy boot [] holding_fresh). Defined.

Lemma service_status_delete_spec_witness :
  exists w' l, win32_service_delete toy boot = (Ok tt, w') /\ holding w' [] /\
    history w' = l ++ history boot /\
    (Deleted true ∈ l <-> printed l = [b:"Service deleted successfully" ++ [LF]]).
Proof. apply (service_status_delete_spec toy boot [] holding_fresh). Defined.
