(* ===== verification/Main.v ===== *)
(** * The agent's main program

    [equus.c], lines 44-89 and 262-329, with [equus_util_init] and
    [equus_util_atexit] ([equus_util.c], 70-126): start-up, the loop that runs the
    bootstrap script until it no longer asks for a restart, the handlers of SIGHUP
    and SIGUSR1, and the way the process ends.  The components keep the states of
    their own files; the script is a parameter that says which of the agent's
    functions a run calls, which signals arrive meanwhile, and how it ends. *)

From S2P Require Import Prelude CString Heap Lua World Loader Cache Log Conf Platform.
Open Scope Z_scope.

Definition EXIT_SUCCESS : Z := 0.
Definition EXIT_FAILURE : Z := 1.

(** What happens to a signal. *)
Inductive disposition : Type := SIG_DFL | SIG_IGN | Handler.
#[global] Instance disposition_eq_dec : EqDecision disposition.
Proof. solve_decision. Defined.

Inductive signal : Type := SIGHUP | SIGUSR1.

(** What happens while the script runs. *)
Inductive call : Type :=
| RestartSet (i : Z)              (** [equus_restart_set(i)] *)
| LogLine (l : Z) (text : bytes)  (** [equus_log(l, text)] *)
| Cached (o : Cache.op)           (** a function of the module cache *)
| Signal (s : signal).            (** a signal is delivered *)

(** A run of the bootstrap script: what happened, and the message of its error. *)
Record script : Type := Script { calls : list call; error : option bytes }.

(** What was found when a run began. *)
Record run : Type := Run { number : Z; flag : Z; cached : nat }.

Record state : Type := State {
  conf : Conf.state;
  log : Log.state;
  proc : Process.state;
  cache : Cache.state;
  vms : heap lua;                    (** Lua states open *)
  sighup : disposition;
  sigusr1 : disposition;
  runs : list run                    (** last run first *)
}.

Definition with_conf (c : Conf.state) (s : state) : state :=
  State c (log s) (proc s) (cache s) (vms s) (sighup s) (sigusr1 s) (runs s).
Definition with_log (l : Log.state) (s : state) : state :=
  State (conf s) l (proc s) (cache s) (vms s) (sighup s) (sigusr1 s) (runs s).
Definition with_proc (p : Process.state) (s : state) : state :=
  State (conf s) (log s) p (cache s) (vms s) (sighup s) (sigusr1 s) (runs s).
Definition with_cache (c : Cache.state) (s : state) : state :=
  State (conf s) (log s) (proc s) c (vms s) (sighup s) (sigusr1 s) (runs s).
Definition with_vms (v : heap lua) (s : state) : state :=
  State (conf s) (log s) (proc s) (cache s) v (sighup s) (sigusr1 s) (runs s).
Definition with_signal (sg : signal) (d : disposition) (s : state) : state :=
  match sg with
  | SIGHUP => State (conf s) (log s) (proc s) (cache s) (vms s) d (sigusr1 s) (runs s)
  | SIGUSR1 => State (conf s) (log s) (proc s) (cache s) (vms s) (sighup s) d (runs s)
  end.
Definition with_runs (r : list run) (s : state) : state :=
  State (conf s) (log s) (proc s) (cache s) (vms s) (sighup s) (sigusr1 s) r.

Definition on_conf {A} (m : C Conf.state A) : C state A := zoom conf with_conf m.
Definition on_log {A} (m : C Log.state A) : C state A := zoom log with_log m.
Definition on_proc {A} (m : C Process.state A) : C state A := zoom proc with_proc m.
Definition on_cache {A} (m : C Cache.state A) : C state A := zoom cache with_cache m.
Definition on_vms {A} (m : C (heap lua) A) : C state A := zoom vms with_vms m.

(** An operation of the Lua state [L]. *)
Definition on_vm {A} (L : ptr) (m : C lua A) : C state A :=
  let! l := on_vms (load L) in
  match m l with
  | (Ok a, l') => on_vms (store L l') ;;; ret a
  | (Stop f, _) => stop f
  end.

(** What the agent is built from and runs on: the build of the configuration and
    of the loader, the environments, the standard libraries and the SWIG module
    (both outside the sources), the generated bootstrap module, the scripts. *)
Record agent : Type := Agent {
  B : Conf.build;
  LB : Loader.build;
  CE : Conf.env;
  LE : Log.env;
  luaL_openlibs : lua -> lua;
  luaopen_equus : lua -> lua;
  bootstrap_module : option bytes;   (** [None]: [equus_bootstrap_get_module] fails *)
  script_of : Z -> script            (** by the number of the run *)
}.

Section Main.
Context `{Compiler} `{Interpreter}.
Variable A : agent.

(** ** Lua states *)

(** [luaopen_equus_loader] works on the Lua state alone. *)
Definition equus_lua_load_modules (L : ptr) : C state ptr :=
  on_vm L (modify (luaopen_equus A)) ;;;
  on_vm L (fun l =>
    let '(o, s) := luaopen_equus_loader unit (LB A) (Loader.State l [] fresh_world) in
    (o, Loader.L s)) ;;;
  ret L.

Definition equus_lua_vm : C state ptr :=
  let! L := on_vms (malloc new_state) in
  on_vm L (modify (luaL_openlibs A)) ;;;
  equus_lua_load_modules L.

(** ** Signals *)

Definition equus_util_atexit : C state unit := on_conf atexit_free_conf.

Definition exit {X} (code : Z) : C state X := equus_util_atexit ;;; stop (Exited code).

Definition hup_handler : C state unit := on_log (equus_log_rotate (LE A)) ;;; ret tt.

Definition usr1_handler : C state unit :=
  on_log (equus_log_infof (LE A) (Some (b:"Re-reading config file"))) ;;;
  let! rv := on_conf (equus_load_config (B A) (CE A)) in
  (if decide (rv < 0) then
     on_log (equus_log_criticalf (LE A) (Some (b:"Failed loading config file, exiting"))) ;;;
     exit EXIT_FAILURE
   else ret tt) ;;;
  on_proc (Process.equus_restart_set 1).

(** A signal without a handler ends the process, without [atexit]. *)
Definition deliver (sg : signal) : C state unit :=
  let! d := gets (fun s => match sg with SIGHUP => sighup s | SIGUSR1 => sigusr1 s end) in
  match d with
  | SIG_IGN => ret tt
  | SIG_DFL => stop Aborted
  | Handler => match sg with SIGHUP => hup_handler | SIGUSR1 => usr1_handler end
  end.

(** A signal that was ignored stays ignored. *)
Definition install (sg : signal) : C state unit :=
  let! old := gets (fun s => match sg with SIGHUP => sighup s | SIGUSR1 => sigusr1 s end) in
  modify (with_signal sg Handler) ;;;
  (if decide (old = SIG_IGN) then modify (with_signal sg SIG_IGN) else ret tt).

(** ** The main loop *)

Definition equus_util_init : C state Z :=
  let! h := on_conf is_help_switch_present in
  if decide (h = 1) then ret 0 else on_conf (equus_load_config (B A) (CE A)).

Definition exec_call (c : call) : C state unit :=
  match c with
  | RestartSet i => on_proc (Process.equus_restart_set i)
  | LogLine l text => on_log (equus_log (LE A) l text)
  | Cached o => on_cache (Cache.exec_op o) ;;; ret tt
  | Signal sg => deliver sg
  end.

Fixpoint exec_calls (cs : list call) : C state unit :=
  match cs with
  | [] => ret tt
  | c :: cs' => exec_call c ;;; exec_calls cs'
  end.

(** [lua_pcall] of the bootstrap chunk: 0, or an error and its message. *)
Definition run_script (L : ptr) : C state (option bytes) :=
  on_vm L pop1 ;;;
  let! n := on_proc (gets Process.run_count) in
  exec_calls (calls (script_of A n)) ;;;
  ret (error (script_of A n)).

(** The script finds the flag, its number and what the cache holds. *)
Definition note_run : C state unit :=
  modify (fun s => with_runs (Run (Process.run_count (proc s)) (Process.restart (proc s))
                                  (size (cells (Cache.mem (cache s)))) :: runs s) s).

Definition main_round (p : bytes) (u : unit) : C state (unit + Z) :=
  on_proc (Process.equus_restart_set 0) ;;;
  on_proc Process.count_run ;;;
  let! L := equus_lua_vm in
  let! status := on_vm L (luaL_loadbuffer p (b:"bootstrap.lua")) in
  if decide (status <> 0) then
    let! lua_err := on_vm L (lua_tolstring (-1)) in
    on_log (equus_log_criticalf (LE A) (Some (b:"Load Buffer Error: " ++ default (b:"(null)") lua_err ++ [LF; LF]))) ;;;
    ret (inr EXIT_FAILURE)
  else
    note_run ;;;
    let! err := run_script L in
    match err with
    | Some lua_err =>
        on_log (equus_log_criticalf (LE A) (Some (b:"Runtime Error: " ++ cstr lua_err))) ;;;
        ret (inr EXIT_FAILURE)
    | None =>
        on_vms (free L) ;;;
        on_cache equus_local_cache_clear ;;;
        let! again := on_proc Process.equus_restart_get in
        ret (if decide (again = 1) then inl tt else inr 0)
    end.

Definition main_core (fuel : nat) (argc : Z) (argv : option (list bytes)) : C state Z :=
  on_conf (equus_set_argv argc argv) ;;;
  let! rv := equus_util_init in
  if decide (rv < 0) then ret EXIT_FAILURE
  else
    (if win32 (B A) then ret tt else install SIGHUP ;;; install SIGUSR1) ;;;
    match bootstrap_module A with
    | None =>
        on_log (equus_log_criticalf (LE A) (Some (b:"Errorcode: bootstrap broken." ++ [LF]))) ;;;
        ret EXIT_FAILURE
    | Some p => loop fuel (main_round p) tt
    end.

(** The process: [main] on POSIX systems, then [exit] with its result. *)
Definition process (fuel : nat) (argv : list bytes) : C state unit :=
  let! rv := main_core fuel (Z.of_nat (length argv)) (Some argv) in
  exit rv.
End Main.

(** ** Specification *)

(** The state the libraries leave is one [luaopen_equus_loader] can extend. *)
Definition libraries_ok `{Interpreter} (LB : Loader.build) (l : lua) : Prop :=
  exists g p q r n f v, globals l = g /\ stack l = [] /\ NoDup [g; p; q; r] /\
    has_table l g "package" p /\ has_table l p "preload" q /\ has_table l p "loaders" r /\
    field l g (KStr "require") = LFunction f /\ is_sequence n (table l r) /\
    (LOCAL_DEV LB = false -> require_gives f v [g; p; q] r (requiring LB g q r n l)).

(** The restart flag after a call, and after a run. *)
Definition flag_after (d : disposition) (flag : Z) (c : call) : Z :=
  match c with
  | RestartSet i => i
  | Signal SIGUSR1 => if decide (d = Handler) then 1 else flag
  | _ => flag
  end.
Definition flag_of (d : disposition) (cs : list call) : Z := foldl (flag_after d) 0 cs.

Definition call_ok `{Compiler} (c : call) : Prop :=
  match c with Cached o => valid_op o | _ => True end.

#[local] Arguments Cache.exec_op : simpl never.
#[local] Arguments equus_load_config : simpl never.
#[local] Arguments is_help_switch_present : simpl never.
#[local] Arguments equus_log_criticalf : simpl never.
#[local] Arguments equus_log_infof : simpl never.
#[local] Arguments luaopen_equus_loader : simpl never.
#[local] Arguments equus_local_cache_clear : simpl never.
#[local] Arguments i32 : simpl never.
#[local] Arguments conf_is : simpl never.
#[local] Arguments Z.leb : simpl never.

Section Spec.
Context `{Compiler} `{Interpreter}.
Variable A : agent.
Variable a : list bytes.                        (** the command line *)
Hypothesis posix : win32 (B A) = false.
Hypothesis clock_ok : asctime_shape (LE A).
Hypothesis libs_ok : libraries_ok (LB A) (luaopen_equus A (luaL_openlibs A new_state)).

(** Every reading of the configuration file succeeds. *)
Definition config_loads : Prop :=
  forall n path, 0 <= (conf_init_spec (B A) (CE A) n path).1.

(** What holds of the components between two calls. *)
Record ready (s : state) : Prop := {
  ready_args : args (conf s) a;
  ready_conf : exists v, conf_is (conf s) v;
  ready_log : exists p, log_ok (log s) p;
  ready_cache : exists m, models (cache s) m;
  ready_hup : sighup s <> SIG_DFL;
  ready_usr1 : sigusr1 s <> SIG_DFL
}.

(** What a call leaves alone: only the restart flag of the process changes. *)
Definition same_main (s s' : state) (flag : Z) : Prop :=
  proc s' = Process.State (Process.run_count (proc s)) flag (Process.win_service (proc s)) /\
  vms s' = vms s /\ runs s' = runs s /\ sigusr1 s' = sigusr1 s /\ sighup s' = sighup s /\
  Log.level (log s') = Log.level (log s).

Lemma wp_on_log {X} (m : C Log.state X) (Q : outcome X -> Log.state -> Prop) R s :
  Log.keeps_level m -> wp m Q (log s) ->
  (forall o l, Q o l -> Log.level l = Log.level (log s) -> R o (with_log l s)) -> wp (on_log m) R s.
Proof.
  intros Hk Hw HR. unfold on_log. rewrite wp_zoom. unfold wp in *.
  specialize (Hk (log s)). destruct (m (log s)) as [o l]; cbn in *. by apply HR.
Qed.

Lemma ready_with_log s l p : ready s -> log_ok l p -> ready (with_log l s).
Proof. intros []; split; cbn; eauto. Qed.

Lemma ready_with_conf s c v : ready s -> args c a -> conf_is c v -> ready (with_conf c s).
Proof. intros []; split; cbn; eauto. Qed.

Lemma wp_reload s (Q : outcome Z -> state -> Prop) :
  ready s ->
  (forall c rv, rv = (conf_init_spec (B A) (CE A) (Conf.opened (conf s)) (config_path_spec a)).1 ->
     args c a ->
     conf_is c (Some (conf_init_spec (B A) (CE A) (Conf.opened (conf s)) (config_path_spec a)).2) ->
     Q (Ok rv) (with_conf c s)) ->
  wp (on_conf (equus_load_config (B A) (CE A))) Q s.
Proof.
  intros [Ha [v Hv] _ _ _ _] HQ. unfold on_conf. rewrite wp_zoom.
  eapply wp_mono; [by eapply wp_load_config|]. intros o c (H1 & _ & -> & H3). by apply HQ.
Qed.

Lemma wp_atexit s (Q : outcome unit -> state -> Prop) v :
  conf_is (conf s) v ->
  (forall c, owns (Conf.mem c) [] -> Q (Ok tt) (with_conf c s)) -> wp equus_util_atexit Q s.
Proof.
  intros Hv HQ. unfold equus_util_atexit, on_conf, atexit_free_conf. wp_simpl. destruct v as [r|].
  - destruct Hv as (c & Hg & Hc). rewrite Hg.
    eapply wp_mono; [by eapply wp_conf_free|]. intros o s' (-> & h & -> & Hh). by apply HQ.
  - destruct Hv as [Hg Ho]. rewrite Hg. wp_simpl. by apply HQ.
Qed.

Lemma wp_hup_handler s :
  ready s -> wp (hup_handler A) (fun o s' => o = Ok tt /\ ready s' /\
    same_main s s' (Process.restart (proc s))) s.
Proof.
  intros Hr. pose proof Hr as [_ _ [p Hp] _ _ _]. unfold hup_handler. wp_simpl.
  eapply (wp_on_log _ (fun o l => (exists r, o = Ok r) /\ log_ok l p)).
  - apply keeps_rotate.
  - eapply wp_rotate; [done|exact Hp|]. intros r l Hl _. eauto.
  - intros o l [[r ->] Hl] Hlev. cbn. wp_simpl. split; [done|].
    split; [by eapply ready_with_log|]. by destruct s as [? ? [] ? ? ? ? ?].
Qed.

(** A line of the log, whatever the level. *)
Lemma wp_log_line m s (Q : outcome unit -> state -> Prop) :
  ready s -> keeps_level m ->
  (forall p, log_ok (log s) p -> wp m (fun o l => o = Ok tt /\ log_ok l p /\ target l = target (log s) /\
     Log.level l = Log.level (log s)) (log s)) ->
  (forall l p, log_ok l p -> Log.level l = Log.level (log s) -> ready (with_log l s) ->
     Q (Ok tt) (with_log l s)) ->
  wp (on_log m) Q s.
Proof.
  intros Hr Hk Hm HQ. pose proof Hr as [_ _ [p Hp] _ _ _].
  eapply wp_on_log; [exact Hk|by apply Hm|]. intros o l (-> & Hl & _ & Hlev) _.
  eapply HQ; [done|done|]. by eapply ready_with_log.
Qed.

(** A critical line, and what is written of it. *)
Lemma wp_log_critical text s (Q : outcome unit -> state -> Prop) :
  ready s ->
  (forall l, ready (with_log l s) -> Log.level l = Log.level (log s) ->
     (EQUUS_LOG_CRITICAL <= Log.level (log s) -> exists f stamp,
        EWrite f (line stamp EQUUS_LOG_CRITICAL (take 3999 text)) ∈ trace l) ->
     Q (Ok tt) (with_log l s)) ->
  wp (on_log (equus_log_criticalf (LE A) (Some text))) Q s.
Proof.
  intros Hr HQ. pose proof Hr as [_ _ [p Hp] _ _ _].
  eapply (wp_on_log _ (fun o l => o = Ok tt /\ log_ok l p /\
    (EQUUS_LOG_CRITICAL <= Log.level (log s) -> exists f stamp,
        EWrite f (line stamp EQUUS_LOG_CRITICAL (take 3999 text)) ∈ trace l))).
  - apply keeps_fmtv.
  - unfold equus_log_criticalf, equus_log_fmtv, equus_log_level_get. wp_simpl.
    case_decide as Hl; [|by wp_simpl].
    apply log_line; [done|by eapply log_ok_open|]. rewrite decide_False by lia.
    split; [done|]. split; [by apply log_ok_after|]. intros _.
    exists (target (log s)), (asctime (LE A) (trace (log s))). cbn. set_solver.
  - intros o l (-> & Hl & Hline) Hlev. apply HQ; [by eapply ready_with_log|done|done].
Qed.

(** The two ways a reload ends. *)
Definition reload_rv (s : state) : Z :=
  (conf_init_spec (B A) (CE A) (Conf.opened (conf s)) (config_path_spec a)).1.
Definition reload_conf (s : state) : option bytes :=
  (conf_init_spec (B A) (CE A) (Conf.opened (conf s)) (config_path_spec a)).2.

Lemma wp_usr1_handler s :
  ready s ->
  wp (usr1_handler A) (fun o s' =>
    if decide (0 <= reload_rv s) then
      o = Ok tt /\ ready s' /\ same_main s s' 1 /\ conf_is (conf s') (Some (reload_conf s))
    else o = Stop (Exited EXIT_FAILURE) /\ owns (Conf.mem (conf s')) []) s.
Proof.
  intros Hr. unfold usr1_handler. wp_simpl.
  eapply wp_log_line; [exact Hr|apply keeps_fmtv|intros p Hp; by apply wp_fmtv_ok|].
  intros l p Hl Hlev Hr1. cbn. wp_simpl. eapply wp_reload; [exact Hr1|]. cbn.
  intros c rv Hrv Ha Hc. fold (reload_rv s) in Hrv. fold (reload_conf s) in Hc. cbn.
  pose proof (ready_with_conf _ c _ Hr1 Ha Hc) as Hr2. wp_simpl.
  destruct (decide (0 <= reload_rv s)) as [Hok|Hbad].
  - rewrite decide_False by lia. wp_simpl. unfold on_proc, Process.equus_restart_set. wp_simpl.
    split; [done|]. split; [by destruct Hr2|]. split; [|exact Hc]. by split_and!.
  - rewrite decide_True by lia. wp_simpl.
    eapply wp_log_line; [exact Hr2|apply keeps_fmtv|intros p2 Hp2; by apply wp_fmtv_ok|].
    intros l2 p2 Hl2 Hlev2 Hr3. cbn. unfold exit. wp_simpl. eapply wp_atexit; [exact Hc|].
    intros c2 Hc2. cbn. wp_simpl. split; [done|exact Hc2].
Qed.

Lemma wp_exec_call c s :
  config_loads -> ready s -> call_ok c ->
  wp (exec_call A c) (fun o s' => o = Ok tt /\ ready s' /\
    same_main s s' (flag_after (sigusr1 s) (Process.restart (proc s)) c)) s.
Proof.
  intros Hload Hr Hc. destruct c as [i|l text|op|sg]; cbn [exec_call flag_after].
  - unfold on_proc, Process.equus_restart_set. wp_simpl. split; [done|]. split; [by destruct Hr|].
    by split_and!.
  - eapply wp_log_line; [exact Hr|apply keeps_log|intros p Hp; by apply wp_log_ok|].
    intros l2 p Hl Hlev Hr1. split; [done|]. split; [done|]. split_and!; try done. by destruct s as [? ? [] ? ? ? ? ?].
  - pose proof Hr as [_ _ _ [m Hm] _ _]. unfold on_cache. wp_simpl.
    eapply wp_mono; [by eapply exec_op_models|]. intros o c (-> & Hc'). cbn. wp_simpl.
    split; [done|]. split; [destruct Hr; split; cbn; eauto|]. split_and!; try done. by destruct s as [? ? [] ? ? ? ? ?].
  - unfold deliver. wp_simpl. destruct sg.
    + destruct (sighup s) eqn:Hd; [by destruct (ready_hup _ Hr)| |].
      * wp_simpl. split; [done|]. split; [done|]. split_and!; try done. by destruct s as [? ? [] ? ? ? ? ?].
      * by apply wp_hup_handler.
    + destruct (sigusr1 s) eqn:Hd; [by destruct (ready_usr1 _ Hr)| |].
      * wp_simpl. rewrite decide_False by done. split; [done|]. split; [done|]. split_and!; try done.
        by destruct s as [? ? [] ? ? ? ? ?].
      * rewrite decide_True by done. eapply wp_mono; [by apply wp_usr1_handler|]. intros o s' Hs. cbv beta in Hs.
        rewrite decide_True in Hs by apply Hload. by destruct Hs as (-> & Hr' & Hs & _).
Qed.

Lemma same_main_trans s s1 s2 f1 f2 : same_main s s1 f1 -> same_main s1 s2 f2 -> same_main s s2 f2.
Proof.
  intros (P1 & V1 & R1 & U1 & D1 & L1) (P2 & V2 & R2 & U2 & D2 & L2).
  rewrite P1 in P2. cbn in P2. split_and!; congruence.
Qed.

Lemma wp_exec_calls cs s :
  config_loads -> ready s -> Forall call_ok cs ->
  wp (exec_calls A cs) (fun o s' => o = Ok tt /\ ready s' /\
    same_main s s' (foldl (flag_after (sigusr1 s)) (Process.restart (proc s)) cs)) s.
Proof.
  intros Hload. revert s. induction cs as [|c cs IH]; intros s Hr Hcs.
  - cbn. wp_simpl. split; [done|]. split; [done|]. split_and!; try done. by destruct s as [? ? [] ? ? ? ? ?].
  - apply Forall_cons in Hcs as [Hc Hcs]. cbn [exec_calls]. wp_simpl.
    eapply wp_mono; [by apply wp_exec_call|]. intros o s1 (-> & Hr1 & Hs1). cbn.
    eapply wp_mono; [by apply IH|]. intros o s2 (-> & Hr2 & Hs2). split; [done|]. split; [done|].
    destruct Hs1 as (P1 & V1 & R1 & U1 & D1 & L1). rewrite U1, P1 in Hs2. cbn in Hs2.
    by apply (same_main_trans s s1 s2 (flag_after (sigusr1 s) (Process.restart (proc s)) c)).
Qed.

(** *** Creating a Lua state *)

Lemma wp_on_vm {X} (m : C lua X) x l' L l X0 (Q : outcome X -> state -> Prop) s :
  owns (vms s) ((L, l) :: X0) -> m l = (Ok x, l') ->
  (forall h, owns h ((L, l') :: X0) -> Q (Ok x) (with_vms h s)) -> wp (on_vm (Some L) m) Q s.
Proof.
  intros Ho Hm HQ. unfold on_vm, on_vms. wp_simpl. eapply wp_load; [exact Ho|in_blocks|]. cbn.
  rewrite Hm. wp_simpl. eapply wp_store; [exact Ho|]. intros h Hh. cbn. wp_simpl. by apply HQ.
Qed.

Lemma luaopen_runs : exists ls,
  luaopen_equus_loader unit (LB A) (Loader.State (luaopen_equus A (luaL_openlibs A new_state)) [] fresh_world)
    = (Ok 0, ls) /\ stack (Loader.L ls) = [].
Proof.
  destruct libs_ok as (g & p & q & r & n & f & v & Hg & Hst & Hnd & Hp & Hq & Hr & Hf & Hn & Hrun).
  enough (wp (luaopen_equus_loader unit (LB A)) (fun o ls => o = Ok 0 /\ stack (Loader.L ls) = [])
    (Loader.State (luaopen_equus A (luaL_openlibs A new_state)) [] fresh_world)) as
    (o & ls & -> & -> & Hs)%wp_run by eauto.
  eapply (wp_luaopen unit (LB A) g p q r n f v); [done..|]. intros l' H1 _ _. split; [done|].
  cbn in *. by rewrite H1.
Qed.

Lemma wp_lua_vm (Q : outcome ptr -> state -> Prop) s X0 :
  owns (vms s) X0 ->
  (forall L l h, stack l = [] -> owns h ((L, l) :: X0) -> Q (Ok (Some L)) (with_vms h s)) ->
  wp (equus_lua_vm A) Q s.
Proof.
  intros Ho HQ. destruct luaopen_runs as (ls & Hrun & Hst).
  unfold equus_lua_vm, equus_lua_load_modules, on_vms. wp_simpl.
  eapply wp_malloc; [exact Ho|]. intros L h1 H1. cbn. wp_simpl.
  eapply wp_on_vm; [exact H1|reflexivity|]. intros h2 H2. cbn. wp_simpl.
  eapply wp_on_vm; [exact H2|reflexivity|]. intros h3 H3. cbn. wp_simpl.
  eapply wp_on_vm; [exact H3| |]; [by rewrite Hrun|]. intros h4 H4. cbn. wp_simpl.
  by apply (HQ L (Loader.L ls) h4).
Qed.

(** *** One run *)

Variable p : bytes.
Hypothesis compiles : load_status p (b:"bootstrap.lua") = 0.

Definition run_ok (k : Z) : Prop := Forall call_ok (calls (script_of A k)).

(** The head of the main loop after [k] runs: no Lua state is open, the module
    cache is empty. *)
Definition between (k : nat) (s : state) : Prop :=
  ready s /\ owns (vms s) [] /\ models (cache s) ∅ /\ Process.run_count (proc s) = Z.of_nat k /\
  runs s = (fun i => Run (Z.of_nat i) 0 0) <$> rev (seq 1 k).

Lemma wp_main_round k s :
  config_loads -> between k s -> Z.of_nat (S k) < 2 ^ 31 -> run_ok (Z.of_nat (S k)) ->
  wp (main_round A p tt) (fun o s' =>
    sigusr1 s' = sigusr1 s /\ Log.level (log s') = Log.level (log s) /\
    match error (script_of A (Z.of_nat (S k))) with
    | None => between (S k) s' /\
        o = Ok (if decide (flag_of (sigusr1 s) (calls (script_of A (Z.of_nat (S k)))) = 1) then inl tt else inr 0)
    | Some msg => ready s' /\ o = Ok (inr EXIT_FAILURE) /\
        runs s' = (fun i => Run (Z.of_nat i) 0 0) <$> rev (seq 1 (S k)) /\
        (EQUUS_LOG_CRITICAL <= Log.level (log s) -> exists f stamp,
           EWrite f (line stamp EQUUS_LOG_CRITICAL (take 3999 (b:"Runtime Error: " ++ cstr msg))) ∈ trace (log s'))
    end) s.
Proof.
  intros Hload (Hr & Hv & Hm & Hn & Hruns) Hk Hcs. unfold main_round, on_proc, Process.equus_restart_set, Process.count_run.
  wp_simpl. eapply wp_lua_vm; [exact Hv|]. intros L l h Hst Hh. cbn. wp_simpl.
  eapply wp_on_vm; [exact Hh|unfold luaL_loadbuffer; rewrite decide_True by exact compiles; reflexivity|].
  intros h2 H2. cbn. rewrite decide_False by (intros Hx; by apply Hx). unfold note_run. wp_simpl.
  unfold run_script. wp_simpl. eapply wp_on_vm; [exact H2|reflexivity|]. intros h3 H3. cbn.
  unfold on_proc. wp_simpl. rewrite Hn.
  assert (i32 (Z.of_nat k + 1) = Z.of_nat (S k)) as Hi by (rewrite i32_small; lia).
  destruct (models_size _ _ Hm) as [Hsz _]. rewrite map_size_empty in Hsz.
  rewrite Hi, Hsz.
  match goal with |- wp _ _ ?x => set (s3 := x) end.
  assert (ready s3) as Hr3 by by destruct Hr.
  eapply wp_mono; [by apply (wp_exec_calls (calls (script_of A (Z.of_nat (S k)))) s3)|].
  intros o s4 (-> & Hr4 & P4 & V4 & R4 & U4 & D4 & L4). cbn in P4, V4, R4, U4, D4, L4. cbn. wp_simpl.
  assert (runs s4 = (fun i => Run (Z.of_nat i) 0 0) <$> rev (seq 1 (S k))) as Hruns4.
  { rewrite R4, Hruns, seq_S, rev_app_distr. cbn. do 2 f_equal. }
  destruct (error (script_of A (Z.of_nat (S k)))) as [msg|]; wp_simpl.
  - eapply wp_log_critical; [exact Hr4|]. intros l4 Hr5 Hlev5 Hline. cbn. wp_simpl.
    split; [done|]. split; [by rewrite Hlev5|]. split; [done|]. split; [done|]. split; [done|].
    intros Hl. apply Hline. by rewrite L4.
  - unfold on_vms. wp_simpl. rewrite V4. eapply wp_free; [exact H3|]. intros h5 H5. cbn. unfold on_cache. wp_simpl.
    pose proof Hr4 as [_ _ _ [m4 (es & Hrep & HV4 & Hnd4 & Hm4)] _ _].
    eapply wp_mono; [by eapply wp_clear|]. intros o c5 (-> & Hrep5 & Hv5 & _). cbn. wp_simpl.
    unfold Process.equus_restart_get. wp_simpl. rewrite P4. cbn.
    split; [done|]. split; [done|]. split; [|done].
    assert (models c5 ∅) as Hm5.
    { exists []. split; [done|]. rewrite Hv5. split; [done|]. by split; [constructor|]. }
    split; [destruct Hr4; split; cbn; eauto|]. split; [done|]. split; done.
Qed.

(** *** The loop *)

(** Runs [1] to [n] each end well and with a request to restart. *)
Definition restarts (d : disposition) (n : nat) : Prop :=
  forall i, (1 <= i <= n)%nat ->
  error (script_of A (Z.of_nat i)) = None /\ flag_of d (calls (script_of A (Z.of_nat i))) = 1.

Lemma wp_main_loop d n k : forall s fuel (Q : outcome Z -> state -> Prop),
  config_loads -> between k s -> sigusr1 s = d -> (forall i, run_ok i) ->
  Z.of_nat (S (k + n)) < 2 ^ 31 ->
  (forall i, (k < i <= k + n)%nat ->
     error (script_of A (Z.of_nat i)) = None /\ flag_of d (calls (script_of A (Z.of_nat i))) = 1) ->
  (n < fuel)%nat ->
  (forall s' fuel', between (k + n) s' -> sigusr1 s' = d -> Log.level (log s') = Log.level (log s) ->
     (0 < fuel')%nat -> wp (loop fuel' (main_round A p) tt) Q s') ->
  wp (loop fuel (main_round A p) tt) Q s.
Proof.
  revert k. induction n as [|n IH]; intros k s fuel Q Hload Hb Hd Hcs Hlt Hre Hf HQ.
  { rewrite Nat.add_0_r in HQ. by apply HQ. }
  destruct fuel as [|fuel]; [lia|]. rewrite loop_S. wp_simpl.
  eapply wp_mono; [apply (wp_main_round k); [done|done|lia|apply Hcs]|].
  intros o s1 (U1 & L1 & H1). cbv beta in H1.
  destruct (Hre (S k)) as [He Hfl]; [lia|]. rewrite He, Hd, Hfl, decide_True in H1 by done.
  destruct H1 as [Hb1 ->]. cbn.
  eapply (IH (S k)); [done|exact Hb1|congruence|done|lia|intros i Hi; apply Hre; lia|lia|].
  intros s' fuel' Hb' Hd' Hl' Hf'. apply HQ; [by replace (k + S n)%nat with (S k + n)%nat by lia|done|congruence|done].
Qed.

(** *** Start-up *)

(** The agent's memory when the process starts; signals may be ignored already. *)
Definition boot (hup usr1 : disposition) : state :=
  State Conf.init Log.init Process.init Cache.init empty_heap hup usr1 [].

(** What a signal does once the handlers are installed. *)
Definition handled (d : disposition) : disposition := if decide (d = SIG_IGN) then SIG_IGN else Handler.

Lemma wp_install_handler sg s (Q : outcome unit -> state -> Prop) :
  Q (Ok tt) (with_signal sg (handled (match sg with SIGHUP => sighup s | SIGUSR1 => sigusr1 s end)) s) ->
  wp (install sg) Q s.
Proof.
  intros HQ. unfold install, handled in *. wp_simpl.
  destruct sg; cbn in *; case_decide; wp_simpl; exact HQ.
Qed.

Lemma wp_startup hup usr1 fuel (Q : outcome Z -> state -> Prop) :
  config_loads -> bootstrap_module A = Some p ->
  (forall s, between 0 s -> sigusr1 s = handled usr1 -> Log.level (log s) = EQUUS_LOG_EVERYTHING ->
     wp (loop fuel (main_round A p) tt) Q s) ->
  wp (main_core A fuel (Z.of_nat (length a)) (Some a)) Q (boot hup usr1).
Proof.
  intros Hload Hboot HQ. unfold main_core, equus_set_argv, on_conf. wp_simpl.
  unfold equus_util_init, on_conf. wp_simpl.
  set (c0 := Conf.with_argv (Z.of_nat (length a)) (Some a) Conf.init).
  assert (args c0 a) as Ha by done.
  assert (conf_is c0 None) as Hv by (split; [done|apply owns_empty]).
  enough (forall c rv, args c a -> (exists v, conf_is c v) -> 0 <= rv ->
    wp (if decide (rv < 0) then ret EXIT_FAILURE
        else
          (if win32 (B A) then ret tt else install SIGHUP ;;; install SIGUSR1) ;;;
          match bootstrap_module A with
          | None => on_log (equus_log_criticalf (LE A) (Some (b:"Errorcode: bootstrap broken." ++ [LF]))) ;;;
                    ret EXIT_FAILURE
          | Some p => loop fuel (main_round A p) tt
          end) Q (with_conf c (boot hup usr1))) as Hgo.
  { eapply wp_mono; [by apply (wp_is_help a)|]. intros o c (-> & ->). cbn. wp_simpl.
    destruct (decide _) as [Hh|Hh]; wp_simpl.
    - apply (Hgo c0 0); [done|by exists None|done].
    - eapply wp_mono; [by apply (wp_load_config (B A) (CE A) posix a None c0)|].
      intros o c (Ha2 & _ & -> & Hv2). cbn. apply Hgo; [done|by eexists|apply Hload]. }
  clear Ha Hv c0. intros c rv Ha Hv Hrv. rewrite decide_False by lia. wp_simpl.
  rewrite posix. wp_simpl. apply wp_install_handler. cbn. wp_simpl. apply wp_install_handler. cbn. rewrite Hboot.
  apply HQ; [|done|done]. split.
  - split; cbn; [done|done|exists None; apply log_ok_init|exists ∅; apply models_init| |];
      unfold handled; by case_decide.
  - split; [apply owns_empty|]. split; [apply models_init|]. done.
Qed.

Lemma wp_exit {X} code s (Q : outcome X -> state -> Prop) :
  ready s -> (forall c, owns (Conf.mem c) [] -> Q (Stop (Exited code)) (with_conf c s)) -> wp (exit code) Q s.
Proof.
  intros Hr HQ. pose proof (ready_conf _ Hr) as [v Hv]. unfold exit. wp_simpl.
  eapply wp_atexit; [exact Hv|]. intros c Hc. cbn. wp_simpl. by apply HQ.
Qed.
End Spec.

(** ** Properties *)

(** What the theorems about a whole run of the agent assume: a POSIX build, a
    sane clock, libraries that load (in a release build [require "http_loader"]
    gives a loader, keeps what the globals and [package] hold, though it may add
    to them, and leaves the loaders alone), a bootstrap script that compiles, a
    readable configuration file, and runs that call the cache within its limits. *)
Record installation_ok `{Compiler} `{Interpreter} (A : agent) (p : bytes) : Prop := {
  ok_posix : win32 (B A) = false;
  ok_clock : asctime_shape (LE A);
  ok_libs : libraries_ok (LB A) (luaopen_equus A (luaL_openlibs A new_state));
  ok_module : bootstrap_module A = Some p;
  ok_compiles : load_status p (b:"bootstrap.lua") = 0;
  ok_config : config_loads A;
  ok_runs : forall i, run_ok A i
}.

(** C4: the agent's life, of a POSIX build whose libraries load as
    [installation_ok] says, whose bootstrap script compiles and whose
    configuration can be read. The script is run again exactly as long as the
    restart flag is 1 when it ends: if runs 1 to [n] ask for a restart and run [n + 1] does
    not, the process ends with status 0 after run [n + 1].  Every run starts with
    the flag cleared, its own number, and an empty module cache; when the process
    ends no Lua state is open, the cache is empty and the configuration is freed. *)
Theorem agent_restarts_until_told `{Compiler} `{Interpreter} (A : agent) (p : bytes)
    (a : list bytes) (hup usr1 : disposition) (n fuel : nat) :
  installation_ok A p -> restarts A (handled usr1) n ->
  error (script_of A (Z.of_nat (S n))) = None ->
  flag_of (handled usr1) (calls (script_of A (Z.of_nat (S n)))) <> 1 ->
  Z.of_nat (S n) < 2 ^ 31 -> (n < fuel)%nat ->
  exists s', process A fuel a (boot hup usr1) = (Stop (Exited EXIT_SUCCESS), s') /\
    runs s' = (fun i => Run (Z.of_nat i) 0 0) <$> rev (seq 1 (S n)) /\
    owns (vms s') [] /\ models (cache s') ∅ /\ owns (Conf.mem (conf s')) [].
Proof.
  intros [] Hre He Hfl Hlt Hf.
  enough (wp (process A fuel a) (fun o s' => o = Stop (Exited EXIT_SUCCESS) /\
    runs s' = (fun i => Run (Z.of_nat i) 0 0) <$> rev (seq 1 (S n)) /\
    owns (vms s') [] /\ models (cache s') ∅ /\ owns (Conf.mem (conf s')) []) (boot hup usr1))
    as (o & s' & Hrun & -> & Hx)%wp_run by eauto.
  unfold process. wp_simpl. eapply wp_startup; [done..|]. intros s Hb Hd Hl.
  eapply (wp_main_loop A a ok_posix0 ok_clock0 ok_libs0 p ok_compiles0 (handled usr1) n 0);
    [done|exact Hb|done|done|lia|intros i Hi; apply Hre; lia|done|].
  intros s1 fuel1 Hb1 Hd1 Hl1 Hf1. destruct fuel1 as [|fuel1]; [lia|]. rewrite loop_S. wp_simpl.
  eapply wp_mono; [apply (wp_main_round A a ok_posix0 ok_clock0 ok_libs0 p ok_compiles0 n);
    [done|exact Hb1|done|apply ok_runs0]|].
  intros o s2 (U2 & L2 & H2). cbv beta in H2. rewrite He, Hd1, decide_False in H2 by done.
  destruct H2 as [(Hr2 & Hv2 & Hm2 & Hn2 & Hruns2) ->]. cbn. wp_simpl.
  eapply wp_exit; [exact Hr2|]. intros c Hc. cbn. by split_and!.
Qed.

(** C31: a failing script ends the agent, of an installation as in
    [installation_ok]: a POSIX build, libraries that load, a bootstrap script that
    compiles and a configuration that can be read. If run [n + 1] raises an error after [n]
    restarts, the process ends with status 1 after that run, the log holds a
    critical line with the message, and the configuration is freed. *)
Theorem agent_error_exits `{Compiler} `{Interpreter} (A : agent) (p : bytes)
    (a : list bytes) (hup usr1 : disposition) (n fuel : nat) (msg : bytes) :
  installation_ok A p -> restarts A (handled usr1) n ->
  error (script_of A (Z.of_nat (S n))) = Some msg ->
  Z.of_nat (S n) < 2 ^ 31 -> (n < fuel)%nat ->
  exists s' f stamp, process A fuel a (boot hup usr1) = (Stop (Exited EXIT_FAILURE), s') /\
    runs s' = (fun i => Run (Z.of_nat i) 0 0) <$> rev (seq 1 (S n)) /\
    EWrite f (line stamp EQUUS_LOG_CRITICAL (take 3999 (b:"Runtime Error: " ++ cstr msg))) ∈ trace (log s') /\
    owns (Conf.mem (conf s')) [].
Proof.
  intros [] Hre He Hlt Hf.
  enough (wp (process A fuel a) (fun o s' => o = Stop (Exited EXIT_FAILURE) /\
    runs s' = (fun i => Run (Z.of_nat i) 0 0) <$> rev (seq 1 (S n)) /\
    (exists f stamp, EWrite f (line stamp EQUUS_LOG_CRITICAL (take 3999 (b:"Runtime Error: " ++ cstr msg))) ∈ trace (log s')) /\
    owns (Conf.mem (conf s')) []) (boot hup usr1))
    as (o & s' & Hrun & -> & H1 & (f & stamp & H2) & H3)%wp_run by eauto 10.
  unfold process. wp_simpl. eapply wp_startup; [done..|]. intros s Hb Hd Hl.
  eapply (wp_main_loop A a ok_posix0 ok_clock0 ok_libs0 p ok_compiles0 (handled usr1) n 0);
    [done|exact Hb|done|done|lia|intros i Hi; apply Hre; lia|done|].
  intros s1 fuel1 Hb1 Hd1 Hl1 Hf1. destruct fuel1 as [|fuel1]; [lia|]. rewrite loop_S. wp_simpl.
  eapply wp_mono; [apply (wp_main_round A a ok_posix0 ok_clock0 ok_libs0 p ok_compiles0 n);
    [done|exact Hb1|done|apply ok_runs0]|].
  intros o s2 (U2 & L2 & H2). cbv beta in H2. rewrite He in H2.
  destruct H2 as (Hr2 & -> & Hruns2 & Hline). cbn. wp_simpl.
  eapply wp_exit; [exact Hr2|]. intros c Hc. cbn. split; [done|]. split; [done|]. split; [|done].
  apply Hline. rewrite Hl1, Hl. done.
Qed.

(** SIGUSR1 while the agent runs. When the configuration file can be read, the
    new configuration replaces the old one and the restart flag is set; when it
    cannot, the process ends with status 1, and the configuration is freed. *)
Theorem reload_signal_spec (A : agent) (a : list bytes) (s : state) :
  win32 (B A) = false -> asctime_shape (LE A) -> ready a s -> sigusr1 s = Handler ->
  exists s', if decide (0 <= reload_rv A a s) then
      deliver A SIGUSR1 s = (Ok tt, s') /\ Process.restart (proc s') = 1 /\
      conf_is (conf s') (Some (reload_conf A a s)) /\ ready a s'
    else deliver A SIGUSR1 s = (Stop (Exited EXIT_FAILURE), s') /\ owns (Conf.mem (conf s')) [].
Proof.
  intros HB HE Hr Hd. pose proof (wp_usr1_handler A a HB HE s Hr) as Hw. unfold wp in Hw.
  destruct (usr1_handler A s) as [o s'] eqn:Hrun. cbn in Hw. exists s'.
  assert (deliver A SIGUSR1 s = (o, s')) as -> by (unfold deliver, bind, gets; by rewrite Hd, <- Hrun).
  case_decide; [|by destruct Hw as [-> Hw]].
  destruct Hw as (-> & Hr' & (-> & _) & Hc). done.
Qed.

(** Without a configuration the agent does not start. When the file cannot be
    loaded and no help switch is present, the process ends with status 1 and no
    script was run. *)
Theorem agent_needs_config `{Compiler} `{Interpreter} (A : agent) (a : list bytes)
    (hup usr1 : disposition) (fuel : nat) :
  win32 (B A) = false -> help_present a = false ->
  (conf_init_spec (B A) (CE A) 0 (config_path_spec a)).1 < 0 ->
  exists s', process A fuel a (boot hup usr1) = (Stop (Exited EXIT_FAILURE), s') /\
    runs s' = [] /\ owns (Conf.mem (conf s')) [].
Proof.
  intros HB Hh Hrv.
  enough (wp (process A fuel a) (fun o s' => o = Stop (Exited EXIT_FAILURE) /\
    runs s' = [] /\ owns (Conf.mem (conf s')) []) (boot hup usr1))
    as (o & s' & Hrun & -> & Hx)%wp_run by eauto.
  unfold process, main_core, equus_set_argv, equus_util_init, on_conf. wp_simpl.
  set (c0 := Conf.with_argv (Z.of_nat (length a)) (Some a) Conf.init).
  assert (args c0 a) as Ha by done.
  eapply wp_mono; [by apply (wp_is_help a)|]. intros o c (-> & ->). rewrite Hh. cbn.
  rewrite decide_False by done. wp_simpl.
  eapply wp_mono; [apply (wp_load_config (B A) (CE A) HB a None c0 Ha); split; [done|apply owns_empty]|].
  intros o c (Ha2 & _ & -> & Hv2). cbn. change (Conf.opened c0) with 0%nat in *.
  rewrite decide_True by done. wp_simpl. unfold exit. wp_simpl.
  eapply wp_atexit; [exact Hv2|]. intros c3 Hc3. cbn. wp_simpl. done.
Qed.

(** ** A small installation for the witnesses *)

(** Run 1 is told to reload, fills the cache and asks for a restart; run 2 ends. *)
Definition script0 (k : Z) : script :=
  if decide (k = 1) then
    Script [LogLine EQUUS_LOG_INFO (b:"hello"); Cached (OAdd (b:"m") (b:"return 1")); Signal SIGUSR1; Signal SIGHUP] None
  else if decide (k = 2) then Script [] None
  else Script [] (Some (b:"boom")).
Definition agent0 (e : Conf.env) (sc : Z -> script) : agent :=
  Agent (Conf.Build false (b:"linux") (Some (b:"http://x/"))) (Loader.Build false false) e Log.env0
    (fun _ => lua1) (fun l => l) (Some (b:"bootstrap")) sc.
Definition conf_env0 : Conf.env := Conf.Env (fun _ _ => Some []) (fun _ => false) None.
Definition conf_env1 : Conf.env := Conf.Env (fun _ _ => None) (fun _ => false) None.

Lemma libraries0 : @libraries_ok interpreter1 (Loader.Build false false) lua1.
Proof.
  exists 1%positive, 2%positive, 3%positive, 4%positive, 2, require1, (LFunction (LuaFun 7)).
  split; [done|]. split; [done|]. split; [by_decide|]. split; [done|]. split; [done|]. split; [done|].
  split; [reflexivity|]. split; [apply sequence1|]. intros _.
  apply require1_gives; [discriminate|reflexivity].
Qed.

Lemma installation0 sc : (forall i, @run_ok compiler1 (agent0 conf_env0 sc) i) ->
  @installation_ok compiler1 interpreter1 (agent0 conf_env0 sc) (b:"bootstrap").
Proof.
  intros Hsc. split; [done|apply env0_shape|apply libraries0|done|done| |exact Hsc].
  intros n path. vm_compute. discriminate.
Qed.

Lemma script0_ok e i : @run_ok compiler1 (agent0 e script0) i.
Proof.
  unfold run_ok, script0. cbn. repeat case_decide; repeat constructor.
Qed.

Lemma agent_restarts_until_told_witness :
  exists s', @process compiler1 interpreter1 (agent0 conf_env0 script0) 3 [b:"agent"] (boot SIG_DFL SIG_DFL)
      = (Stop (Exited 0), s') /\
    runs s' = [Run 2 0 0; Run 1 0 0] /\
    owns (vms s') [] /\ models (cache s') ∅ /\ owns (Conf.mem (conf s')) [].
Proof.
  apply (agent_restarts_until_told (H := compiler1) (H0 := interpreter1) (agent0 conf_env0 script0) (b:"bootstrap")
    [b:"agent"] SIG_DFL SIG_DFL 1 3).
  - apply installation0, script0_ok.
  - intros i Hi. assert (i = 1%nat) as -> by lia. done.
  - done.
  - by vm_compute.
  - done.
  - lia.
Defined.

Lemma agent_error_exits_witness :
  exists s' f stamp,
    @process compiler1 interpreter1 (agent0 conf_env0 (fun _ => Script [] (Some (b:"boom")))) 3 [b:"agent"]
      (boot SIG_DFL SIG_IGN) = (Stop (Exited 1), s') /\
    runs s' = [Run 1 0 0] /\
    EWrite f (line stamp EQUUS_LOG_CRITICAL (take 3999 (b:"Runtime Error: " ++ cstr (b:"boom")))) ∈ trace (log s') /\
    owns (Conf.mem (conf s')) [].
Proof.
  apply (agent_error_exits (H := compiler1) (H0 := interpreter1) (agent0 conf_env0 (fun _ => Script [] (Some (b:"boom"))))
    (b:"bootstrap") [b:"agent"] SIG_DFL SIG_IGN 0 3 (b:"boom")).
  - apply installation0. intros i. constructor.
  - intros i Hi. lia.
  - done.
  - done.
  - lia.
Defined.

Lemma ready0 : ready [b:"agent"]
  (with_conf (Conf.with_argv 1 (Some [b:"agent"]) Conf.init) (boot Handler Handler)).
Proof.
  split; cbn; [done| | | |done|done].
  - exists None. split; [done|apply owns_empty].
  - exists None. apply log_ok_init.
  - exists ∅. apply models_init.
Qed.

Lemma reload_signal_spec_witness :
  let s := with_conf (Conf.with_argv 1 (Some [b:"agent"]) Conf.init) (boot Handler Handler) in
  (exists s', deliver (agent0 conf_env0 script0) SIGUSR1 s = (Ok tt, s') /\ Process.restart (proc s') = 1 /\
    conf_is (conf s') (Some (Some (b:"http://x/"))) /\ ready [b:"agent"] s') /\
  (exists s', deliver (agent0 conf_env1 script0) SIGUSR1 s = (Stop (Exited 1), s') /\ owns (Conf.mem (conf s')) []).
Proof.
  split.
  - apply (reload_signal_spec (agent0 conf_env0 script0) [b:"agent"] _ eq_refl env0_shape ready0 eq_refl).
  - apply (reload_signal_spec (agent0 conf_env1 script0) [b:"agent"] _ eq_refl env0_shape ready0 eq_refl).
Defined.

Lemma agent_needs_config_witness :
  exists s', @process compiler1 interpreter1 (agent0 conf_env1 script0) 3 [b:"agent"; b:"-c"; b:"x"] (boot SIG_DFL SIG_DFL)
      = (Stop (Exited 1), s') /\ runs s' = [] /\ owns (Conf.mem (conf s')) [].
Proof.
  apply (agent_needs_config (H := compiler1) (H0 := interpreter1) (agent0 conf_env1 script0) [b:"agent"; b:"-c"; b:"x"] SIG_DFL SIG_DFL 3);
    [done|done|by vm_compute].
Defined.
