(* ===== verification/WinMain.v ===== *)
(** * The main program on Windows

    [equus.c], lines 91-259: the command line switches of the executable, the
    configuration file the service creates, and the service itself.  The service
    is a step relation: the thread of [win32_service_main], the control handler,
    which the dispatcher calls in its own thread, and the agent's thread share
    [g_service_status] and the stop event, and take their statements in turns. *)

From S2P Require Import Prelude CString Heap Lua World Loader Cache Log Conf Platform Service Main.
Open Scope Z_scope.

(** ** The service *)

Module Svc.

(** [g_service_status]. *)
Record status : Type := Status {
  dwServiceType : Z;
  dwCurrentState : Z;
  dwControlsAccepted : Z;
  dwWin32ExitCode : Z;
  dwServiceSpecificExitCode : Z
}.

Definition zero : status := Status 0 0 0 0 0.
Definition with_current (x : Z) (s : status) : status :=
  Status (dwServiceType s) x (dwControlsAccepted s) (dwWin32ExitCode s) (dwServiceSpecificExitCode s).
Definition with_type (x : Z) (s : status) : status :=
  Status x (dwCurrentState s) (dwControlsAccepted s) (dwWin32ExitCode s) (dwServiceSpecificExitCode s).
Definition with_controls (x : Z) (s : status) : status :=
  Status (dwServiceType s) (dwCurrentState s) x (dwWin32ExitCode s) (dwServiceSpecificExitCode s).
Definition with_win32 (x : Z) (s : status) : status :=
  Status (dwServiceType s) (dwCurrentState s) (dwControlsAccepted s) x (dwServiceSpecificExitCode s).
Definition with_specific (x : Z) (s : status) : status :=
  Status (dwServiceType s) (dwCurrentState s) (dwControlsAccepted s) (dwWin32ExitCode s) x.

Definition SERVICE_WIN32_OWN_PROCESS : Z := 0x10.
Definition SERVICE_ACCEPT_STOP : Z := 1.
Definition SERVICE_CONTROL_STOP : Z := 1.
Definition ERROR_SERVICE_SPECIFIC_ERROR : Z := 1066.

(** The next statement of [win32_service_main]. *)
Inductive main_pc : Type :=
| Register | SetRunning | SetType | SetAccepted | ReportRunning
| CreateStopEvent | StartThread | Wait | GetExitCode | TestExitCode | SetSpecific
| SetStopped | ReportStopped
| ErrCode | ErrStopped | ErrReport
| Returned.

(** The next statement of [win32_service_handler], called with a control code. *)
Inductive handler_pc : Type :=
| Idle | Test (dwControl : Z) | SetPending | SignalStop | Report.

Inductive thread : Type := NoThread | Running | Ended (code : Z).

Inductive author : Type := ByMain | ByHandler.

Record sys : Type := Sys {
  g_service_status : status;
  g_service_handle : bool;                     (** not null *)
  g_h_service_stop_event : option bool;        (** [None]: null; signalled or not *)
  agent : thread;
  reports : list (author * status);            (** [SetServiceStatus], last first *)
  main : main_pc;
  handler : handler_pc;
  stop_asked : bool                            (** a stop control was handled *)
}.

Definition init : sys := Sys zero false None NoThread [] Register Idle false.

Definition with_status (st : status) (s : sys) : sys :=
  Sys st (g_service_handle s) (g_h_service_stop_event s) (agent s) (reports s) (main s) (handler s) (stop_asked s).
Definition with_handle (s : sys) : sys :=
  Sys (g_service_status s) true (g_h_service_stop_event s) (agent s) (reports s) (main s) (handler s) (stop_asked s).
Definition with_event (e : option bool) (s : sys) : sys :=
  Sys (g_service_status s) (g_service_handle s) e (agent s) (reports s) (main s) (handler s) (stop_asked s).
Definition with_agent (t : thread) (s : sys) : sys :=
  Sys (g_service_status s) (g_service_handle s) (g_h_service_stop_event s) t (reports s) (main s) (handler s) (stop_asked s).
Definition report (w : author) (s : sys) : sys :=
  Sys (g_service_status s) (g_service_handle s) (g_h_service_stop_event s) (agent s)
      ((w, g_service_status s) :: reports s) (main s) (handler s) (stop_asked s).
Definition goto (p : main_pc) (s : sys) : sys :=
  Sys (g_service_status s) (g_service_handle s) (g_h_service_stop_event s) (agent s) (reports s) p (handler s) (stop_asked s).
Definition hgoto (p : handler_pc) (s : sys) : sys :=
  Sys (g_service_status s) (g_service_handle s) (g_h_service_stop_event s) (agent s) (reports s) (main s) p (stop_asked s).
Definition ask_stop (s : sys) : sys :=
  Sys (g_service_status s) (g_service_handle s) (g_h_service_stop_event s) (agent s) (reports s) (main s) (handler s) true.

(** Which of the calls of [win32_service_main] succeed, and [GetLastError]. *)
Record env : Type := Env {
  registers : bool;
  event_created : bool;
  thread_created : bool;
  last_error : Z
}.

Section Steps.
Variable E : env.

Definition change (f : status -> status) (s : sys) : sys := with_status (f (g_service_status s)) s.

(** [WaitForMultipleObjects] reports the thread first when both are signalled. *)
Definition main_step (s : sys) : option sys :=
  match main s with
  | Register => Some (if registers E then goto SetRunning (with_handle s) else goto Returned s)
  | SetRunning => Some (goto SetType (change (with_current SERVICE_RUNNING) s))
  | SetType => Some (goto SetAccepted (change (with_type SERVICE_WIN32_OWN_PROCESS) s))
  | SetAccepted => Some (goto ReportRunning (change (with_controls SERVICE_ACCEPT_STOP) s))
  | ReportRunning => Some (goto CreateStopEvent (report ByMain s))
  | CreateStopEvent =>
      Some (if event_created E then goto StartThread (with_event (Some false) s) else goto ErrCode s)
  | StartThread =>
      Some (if thread_created E then goto Wait (with_agent Running s) else goto ErrCode s)
  | Wait =>
      match agent s, g_h_service_stop_event s with
      | Ended _, _ => Some (goto GetExitCode s)
      | _, Some true => Some (goto TestExitCode s)
      | _, _ => None
      end
  | GetExitCode =>
      match agent s with
      | Ended code => Some (goto TestExitCode (change (with_specific code) s))
      | _ => None
      end
  | TestExitCode =>
      Some (goto (if decide (dwServiceSpecificExitCode (g_service_status s) <> 0) then SetSpecific else SetStopped) s)
  | SetSpecific => Some (goto SetStopped (change (with_win32 ERROR_SERVICE_SPECIFIC_ERROR) s))
  | SetStopped => Some (goto ReportStopped (change (with_current SERVICE_STOPPED) s))
  | ReportStopped => Some (goto Returned (report ByMain s))
  | ErrCode => Some (goto ErrStopped (change (with_win32 (last_error E)) s))
  | ErrStopped => Some (goto ErrReport (change (with_current SERVICE_STOPPED) s))
  | ErrReport => Some (goto Returned (report ByMain s))
  | Returned => None
  end.

(** [SetEvent] of a null handle fails and changes nothing. *)
Definition handler_step (s : sys) : option sys :=
  match handler s with
  | Idle => None
  | Test dwControl => Some (hgoto (if decide (dwControl = SERVICE_CONTROL_STOP) then SetPending else Report) s)
  | SetPending => Some (hgoto SignalStop (ask_stop (change (with_current SERVICE_STOP_PENDING) s)))
  | SignalStop =>
      Some (hgoto Report (with_event (match g_h_service_stop_event s with Some _ => Some true | None => None end) s))
  | Report => Some (hgoto Idle (report ByHandler s))
  end.

(** One statement of one thread, a control sent by the system, or the end of the
    agent's thread. *)
Inductive step (s : sys) : sys -> Prop :=
| step_main s' : main_step s = Some s' -> step s s'
| step_handler s' : handler_step s = Some s' -> step s s'
| step_control c : g_service_handle s = true -> handler s = Idle -> step s (hgoto (Test c) s)
| step_agent code : agent s = Running -> step s (with_agent (Ended code) s).

Definition reachable (s : sys) : Prop := rtc step init s.
End Steps.

(** *** What the service manager is told *)

(** The last status the service's own thread reported. *)
Definition last_main (l : list (author * status)) : option status :=
  head (omap (fun r => match r.1 with ByMain => Some r.2 | ByHandler => None end) l).

Definition own (current win32 specific : Z) : status :=
  Status SERVICE_WIN32_OWN_PROCESS current SERVICE_ACCEPT_STOP win32 specific.

(** The exit code for a thread that ended with [code]. *)
Definition win32_code (code : Z) : Z := if decide (code = 0) then 0 else ERROR_SERVICE_SPECIFIC_ERROR.

Section Invariant.
Variable E : env.

(** The status at each statement, as long as no stop control came. *)
Definition status_ok (s : sys) : Prop :=
  let st := g_service_status s in
  match main s with
  | Register | SetRunning => st = zero
  | SetType => st = Status 0 SERVICE_RUNNING 0 0 0
  | SetAccepted => st = Status SERVICE_WIN32_OWN_PROCESS SERVICE_RUNNING 0 0 0
  | ReportRunning | CreateStopEvent | StartThread | Wait | GetExitCode | ErrCode =>
      st = own SERVICE_RUNNING 0 0
  | TestExitCode => exists code, agent s = Ended code /\ st = own SERVICE_RUNNING 0 code
  | SetSpecific => exists code, agent s = Ended code /\ code <> 0 /\ st = own SERVICE_RUNNING 0 code
  | SetStopped => exists code, agent s = Ended code /\ st = own SERVICE_RUNNING (win32_code code) code
  | ReportStopped => exists code, agent s = Ended code /\ st = own SERVICE_STOPPED (win32_code code) code
  | ErrStopped => st = own SERVICE_RUNNING (last_error E) 0
  | ErrReport => st = own SERVICE_STOPPED (last_error E) 0
  | Returned =>
      registers E = true ->
      if event_created E && thread_created E
      then exists code, agent s = Ended code /\
             last_main (reports s) = Some (own SERVICE_STOPPED (win32_code code) code)
      else last_main (reports s) = Some (own SERVICE_STOPPED (last_error E) 0)
  end.

(** The paths of the two [goto error]. *)
Definition path_ok (s : sys) : Prop :=
  match main s with
  | StartThread => event_created E = true
  | Wait | GetExitCode | TestExitCode | SetSpecific | SetStopped | ReportStopped =>
      event_created E && thread_created E = true
  | ErrCode | ErrStopped | ErrReport => event_created E && thread_created E = false
  | _ => True
  end.

(** The wait was over. *)
Definition waited (s : sys) : Prop :=
  (exists code, agent s = Ended code) \/ stop_asked s = true.

Definition after_wait (s : sys) : Prop :=
  match main s with
  | GetExitCode => exists code, agent s = Ended code
  | TestExitCode | SetSpecific | SetStopped | ReportStopped => waited s
  | Returned => registers E = true -> event_created E && thread_created E = true -> waited s
  | _ => True
  end.

Definition inv (s : sys) : Prop :=
  (g_h_service_stop_event s = Some true -> stop_asked s = true) /\
  (handler s = SignalStop -> stop_asked s = true) /\
  (stop_asked s = false -> status_ok s) /\ path_ok s /\ after_wait s.

Lemma inv_init : inv init.
Proof. done. Qed.

Lemma last_main_handler st l : last_main ((ByHandler, st) :: l) = last_main l.
Proof. done. Qed.

(** Split a step into its cases and discharge those that keep the facts as they are. *)
Ltac by_cases :=
  repeat case_match; simplify_eq;
  cbn [main g_service_status g_h_service_stop_event handler stop_asked agent reports goto hgoto change
       with_status with_event with_agent with_handle report ask_stop];
  split_and!; try done;
  try (match goal with |- _ = false -> _ =>
         let Hsa := fresh "Hsa" in intros Hsa;
         match goal with H : _ = false -> _ |- _ => specialize (H Hsa) end
       end);
  simplify_eq/=; try done;
  try (match goal with H : ?st = _ |- context [?st] => rewrite H; done end);
  try (match goal with H : exists _, _ |- _ => destruct H as (? & -> & ->); eauto; done end);
  try (eauto; done).

Lemma inv_main s s' : inv s -> main_step E s = Some s' -> inv s'.
Proof.
  intros (He & Hh & Hs & Hp & Ha) Hst.
  destruct s as [st h ev ag rs m hd sa]. destruct m; cbn in Hst;
    unfold inv, status_ok, path_ok, after_wait, waited in *; cbn in He, Hh, Hs, Hp, Ha; by_cases.
  - by specialize (He eq_refl).
  - by specialize (He eq_refl).
  - destruct Hs as (code & -> & ->). exists code. split; [done|]. unfold win32_code.
    destruct (decide (code = 0)); [done|]. by destruct n.
  - destruct Hs as (code & -> & Hc & ->). exists code. split; [done|]. unfold win32_code.
    by rewrite decide_False.
Qed.

Lemma inv_handler s s' : inv s -> handler_step s = Some s' -> inv s'.
Proof.
  intros (He & Hh & Hs & Hp & Ha) Hst.
  destruct s as [st h ev ag rs m hd sa]. destruct hd; cbn in Hst; 
    unfold inv, status_ok, path_ok, after_wait, waited in *; cbn in He, Hh, Hs, Hp, Ha; by_cases.
Qed.

Lemma inv_step s s' : inv s -> step E s s' -> inv s'.
Proof.
  intros Hi Hst. destruct Hst as [s' H|s' H|c Hg Hid|code Hr].
  - by eapply inv_main.
  - by eapply inv_handler.
  - destruct Hi as (He & Hh & Hs & Hp & Ha). by split_and!.
  - destruct Hi as (He & Hh & Hs & Hp & Ha).
    destruct s as [st h ev ag rs m hd sa]. unfold inv, status_ok, path_ok, after_wait, waited in *. cbn in *. subst ag.
    split; [done|]. split; [done|]. split; [|split; [done|destruct m; eauto]].
    intros Hsa. specialize (Hs Hsa). destruct m; try done; try (by destruct Hs as (? & [=] & _)).
    intros Hreg. specialize (Hs Hreg). destruct (_ && _); [by destruct Hs as (? & [=] & _)|done].
Qed.

Lemma reachable_inv s : reachable E s -> inv s.
Proof.
  intros Hr. revert s Hr. apply (rtc_ind_r inv); [apply inv_init|].
  intros s s' _ Hst Hi. by eapply inv_step.
Qed.

(** *** Running a given interleaving *)

Inductive label : Type := Main | HandlerStep | Control (c : Z) | AgentEnds (code : Z).

Definition take_step (l : label) (s : sys) : option sys :=
  match l with
  | Main => main_step E s
  | HandlerStep => handler_step s
  | Control c => if decide (g_service_handle s = true) then
                   match handler s with Idle => Some (hgoto (Test c) s) | _ => None end
                 else None
  | AgentEnds code => match agent s with Running => Some (with_agent (Ended code) s) | _ => None end
  end.

Fixpoint take_steps (ls : list label) (s : sys) : option sys :=
  match ls with
  | [] => Some s
  | l :: ls' => s' ← take_step l s; take_steps ls' s'
  end.

Lemma take_step_step l s s' : take_step l s = Some s' -> step E s s'.
Proof.
  destruct l; cbn; intros Hl; repeat case_match; simplify_eq/=;
    [by apply step_main|by apply step_handler|by apply step_control|by apply step_agent].
Qed.

Lemma take_steps_rtc ls : forall s s', take_steps ls s = Some s' -> rtc (step E) s s'.
Proof.
  induction ls as [|l ls IH]; intros s s' Hl; cbn in Hl; [by simplify_eq|].
  destruct (take_step l s) as [s1|] eqn:H1; [|done]. eapply rtc_l; [by eapply take_step_step|by apply IH].
Qed.
End Invariant.

(** C26: what the service manager is told. However the service's thread, the
    control handler and the agent's thread interleave: once [win32_service_main] has
    returned after registering and no stop control was handled, its last report is
    that the service stopped, with the exit code of the agent's thread (the
    service-specific error when it is not 0), or with the error of the call that
    failed. *)
Theorem service_final_report (E : env) (s : sys) :
  reachable E s -> main s = Returned -> registers E = true -> stop_asked s = false ->
  if event_created E && thread_created E
  then exists code, agent s = Ended code /\
         last_main (reports s) = Some (own SERVICE_STOPPED (win32_code code) code)
  else last_main (reports s) = Some (own SERVICE_STOPPED (last_error E) 0).
Proof.
  intros Hr Hm Hreg Hsa. pose proof (reachable_inv E s Hr) as (_ & _ & Hs & _).
  specialize (Hs Hsa). unfold status_ok in Hs. rewrite Hm in Hs. by apply Hs.
Qed.

(** The service ends for a reason. [win32_service_main] leaves its wait only when the
    agent's thread has ended or a stop control was handled. *)
Theorem service_waits (E : env) (s : sys) :
  reachable E s -> main s = Returned -> registers E = true ->
  event_created E && thread_created E = true ->
  (exists code, agent s = Ended code) \/ stop_asked s = true.
Proof.
  intros Hr Hm Hreg Hc. pose proof (reachable_inv E s Hr) as (_ & _ & _ & _ & Ha).
  unfold after_wait in Ha. rewrite Hm in Ha. by apply Ha.
Qed.

Definition env0 : env := Env true true true 0.

(** A stop control that comes early is lost. The service reports that it runs
    before its stop event exists: a stop control handled in between sets no event,
    and the service's thread then waits on, with the agent running and the
    service reported as stopping. *)
Theorem early_stop_is_lost : exists s, reachable env0 s /\
  stop_asked s = true /\ handler s = Idle /\ agent s = Running /\
  main s = Wait /\ main_step env0 s = None /\
  head (reports s) = Some (ByHandler, own SERVICE_STOP_PENDING 0 0).
Proof.
  exists (Sys (own SERVICE_STOP_PENDING 0 0) true (Some false) Running
    [(ByHandler, own SERVICE_STOP_PENDING 0 0); (ByMain, own SERVICE_RUNNING 0 0)] Wait Idle true).
  split; [|done].
  apply (take_steps_rtc env0 ([Main; Main; Main; Main; Main; Control SERVICE_CONTROL_STOP;
    HandlerStep; HandlerStep; HandlerStep; HandlerStep; Main; Main])). by vm_compute.
Qed.

(** A late stop control hides that the service stopped. When the agent ends by itself
    and a stop control is handled between the last two statements, the service's thread
    returns without ever having reported that the service stopped. *)
Theorem late_stop_hides_end : exists s, reachable env0 s /\ main s = Returned /\ handler s = Idle /\
  agent s = Ended 0 /\ Forall (fun r => dwCurrentState r.2 <> SERVICE_STOPPED) (reports s).
Proof.
  exists (Sys (own SERVICE_STOP_PENDING 0 0) true (Some true) (Ended 0)
    [(ByMain, own SERVICE_STOP_PENDING 0 0); (ByHandler, own SERVICE_STOP_PENDING 0 0);
     (ByMain, own SERVICE_RUNNING 0 0)] Returned Idle true).
  split; [|split_and!; try done; repeat constructor; discriminate].
  apply (take_steps_rtc env0 ([Main; Main; Main; Main; Main; Main; Main; AgentEnds 0; Main; Main; Main; Main;
    Control SERVICE_CONTROL_STOP; HandlerStep; HandlerStep; HandlerStep; HandlerStep; Main])). by vm_compute.
Qed.

(** A service whose agent fails by itself. *)
Definition failed_service : sys :=
  Sys (own SERVICE_STOPPED ERROR_SERVICE_SPECIFIC_ERROR 1) true (Some false) (Ended 1)
    [(ByMain, own SERVICE_STOPPED ERROR_SERVICE_SPECIFIC_ERROR 1); (ByMain, own SERVICE_RUNNING 0 0)]
    Returned Idle false.

Lemma failed_service_reachable : reachable env0 failed_service.
Proof.
  apply (take_steps_rtc env0 [Main; Main; Main; Main; Main; Main; Main; AgentEnds 1;
    Main; Main; Main; Main; Main; Main]). by vm_compute.
Qed.

Lemma service_final_report_witness :
  exists code, agent failed_service = Ended code /\
    last_main (reports failed_service) = Some (own SERVICE_STOPPED (win32_code code) code).
Proof. apply (service_final_report env0 _ failed_service_reachable); reflexivity. Defined.

Lemma service_waits_witness :
  (exists code, agent failed_service = Ended code) \/ stop_asked failed_service = true.
Proof. apply (service_waits env0 _ failed_service_reachable); reflexivity. Defined.
End Svc.

(** ** The configuration file the service creates *)

Module ConfigFile.

(** The name between two [%], if there is one. *)
Fixpoint until_percent (s : bytes) : option (bytes * bytes) :=
  match s with
  | [] => None
  | c :: s' => if decide (c = "%"%char) then Some ([], s')
               else '(n, r) ← until_percent s'; Some (c :: n, r)
  end.

(** [ExpandEnvironmentStrings]: each [%name%] of a defined variable is replaced by its
    value; everything else is copied. *)
Fixpoint expand (fuel : nat) (getenv : bytes -> option bytes) (s : bytes) : bytes :=
  match fuel with
  | O => s
  | S fuel =>
      match s with
      | [] => []
      | c :: s' =>
          if decide (c = "%"%char) then
            match until_percent s' with
            | Some (name, rest) =>
                match getenv name with
                | Some v => v ++ expand fuel getenv rest
                | None => c :: expand fuel getenv s'
                end
            | None => c :: expand fuel getenv s'
            end
          else c :: expand fuel getenv s'
      end
  end.
Definition ExpandEnvironmentStrings (getenv : bytes -> option bytes) (s : bytes) : bytes :=
  expand (length s) getenv s.

Definition config_pattern : bytes := b:"%ProgrmFiles%\Cloudkick\etc\cloudkick.cfg".
Definition MAX_PATH : nat := 260%nat.

(** A file system as the set of its files; [CREATE_NEW] fails on a file that exists,
    and the directory may not allow it. *)
Record files : Type := Files { existing : gset bytes; handles : nat }.

Definition CreateFile (allowed : bytes -> bool) (path : bytes) : C files bool :=
  let! e := gets existing in
  if decide (path ∈ e) then ret false
  else if allowed path then
    modify (fun s => Files ({[path]} ∪ existing s) (S (handles s))) ;;; ret true
  else ret false.
Definition CloseHandle : C files unit := modify (fun s => Files (existing s) (pred (handles s))).

(** The block before the agent starts; an expansion that does not fit leaves the
    buffer empty. *)
Definition create_config (getenv : bytes -> option bytes) (allowed : bytes -> bool) : C files unit :=
  let path := ExpandEnvironmentStrings getenv config_pattern in
  let buffer := if decide (length path < MAX_PATH)%nat then path else [] in
  let! hfile := CreateFile allowed buffer in
  if (hfile : bool) then CloseHandle else ret tt.

(** *** The file that is created is not the one that is read *)

Definition created_suffix : bytes := b:"\Cloudkick\etc\cloudkick.cfg".

Lemma expand_pattern getenv : exists v, ExpandEnvironmentStrings getenv config_pattern = v ++ created_suffix.
Proof.
  change (ExpandEnvironmentStrings getenv config_pattern) with
    (match getenv (b:"ProgrmFiles") with
     | Some v => v ++ created_suffix
     | None => b:"%ProgrmFiles%" ++ created_suffix
     end).
  destruct (getenv _) as [v|]; [by exists v|by exists (b:"%ProgrmFiles%")].
Qed.

(** Both names end in a different directory. *)
Lemma suffixes_differ v w : v ++ created_suffix <> w ++ win_suffix.
Proof.
  change created_suffix with (b:"\Cloudkic" ++ ["k"%char] ++ b:"\etc\cloudkick.cfg").
  change win_suffix with (b:"\Cloudkick Agen" ++ ["t"%char] ++ b:"\etc\cloudkick.cfg").
  rewrite !app_assoc. intros H. apply app_inv_tail in H. apply app_inj_tail in H as [_ H]. discriminate H.
Qed.

(** What [equus_conf_init] reads on Windows. *)
Lemma conf_path_windows B E s p s' :
  win32 B = true -> conf_path B E s = (Ok (Some p), s') -> exists w, p = w ++ win_suffix.
Proof.
  intros HB. unfold conf_path. rewrite HB. destruct (ProgramFiles E) as [d|]; [|by intros [=]].
  case_decide; [|by intros [=]]. intros [= <- _]. eauto.
Qed.

(** The empty configuration file of the service is of no use. Whatever the
    environment defines, the file the service's thread creates is never the one
    [equus_conf_init] then opens. *)
Theorem created_file_is_not_the_config (getenv : bytes -> option bytes) (allowed : bytes -> bool)
    (B : Conf.build) (E : Conf.env) (s s' : Conf.state) (p : bytes) (fs : files) :
  win32 B = true -> conf_path B E s = (Ok (Some p), s') -> p ∉ existing fs ->
  exists fs', create_config getenv allowed fs = (Ok tt, fs') /\ p ∉ existing fs' /\
    handles fs' = handles fs.
Proof.
  intros HB Hp Hfs. destruct (conf_path_windows B E s p s' HB Hp) as [w ->].
  set (path := ExpandEnvironmentStrings getenv config_pattern).
  set (buffer := if decide (length path < MAX_PATH)%nat then path else []).
  assert (w ++ win_suffix <> buffer) as Hne.
  { unfold buffer. case_decide.
    - unfold path. destruct (expand_pattern getenv) as [v ->]. intros Hx. by eapply suffixes_differ.
    - intros Hx. apply app_eq_nil in Hx as [_ Hx]. discriminate Hx. }
  enough (wp (create_config getenv allowed) (fun o fs' => o = Ok tt /\ w ++ win_suffix ∉ existing fs' /\
    handles fs' = handles fs) fs) as (o & fs' & -> & -> & Hx)%wp_run by eauto.
  unfold create_config, CreateFile, CloseHandle. fold path. fold buffer. wp_simpl.
  destruct (decide (buffer ∈ existing fs)); wp_simpl; [done|]. destruct (allowed buffer); wp_simpl; [|done].
  split; [done|]. split; [set_solver|done].
Qed.

Lemma created_file_is_not_the_config_witness :
  exists fs', create_config (fun _ => None) (fun _ => true) (Files ∅ 0) = (Ok tt, fs') /\
    b:"C:\Program Files\Cloudkick Agent\etc\cloudkick.cfg" ∉ existing fs' /\ handles fs' = 0%nat.
Proof.
  apply (created_file_is_not_the_config (fun _ => None) (fun _ => true) (Conf.Build true [] None)
    (Conf.Env (fun _ _ => None) (fun _ => false) (Some (b:"C:\Program Files"))) Conf.init Conf.init _ (Files ∅ 0));
    [done|done|set_solver].
Defined.
End ConfigFile.

(** ** The switches of the executable *)

Inductive action : Type := AInstall | ADelete | AStart | AStatus | AStop | ANoService.

(** [stricmp]: case is ignored. *)
Definition lower (c : ascii) : ascii :=
  let n := nat_of_ascii c in
  if decide (65 <= n <= 90)%nat then ascii_of_nat (n + 32) else c.
Definition stricmp_eq (x y : bytes) : bool := bool_decide (lower <$> cstr x = lower <$> cstr y).

Record wstate : Type := WState { agent : Main.state; scm : world Service.obj Service.event }.
Definition with_scm (w : world Service.obj Service.event) (s : wstate) : wstate := WState (agent s) w.
Definition with_main (m : Main.state) (s : wstate) : wstate := WState m (scm s).
Definition on_scm {X} (m : C (world Service.obj Service.event) X) : C wstate X := zoom scm with_scm m.
Definition on_main {X} (m : C Main.state X) : C wstate X := zoom agent with_main m.

Section WinMain.
Context `{Compiler} `{Interpreter}.
Variable A : Main.agent.
Variable E : Service.env.
Variable fuel : nat.
(** Whether the dispatcher could connect to the service manager; it returns when the
    service has stopped. *)
Variable StartServiceCtrlDispatcher : bool.

Definition win32_run_service : C wstate Z :=
  if StartServiceCtrlDispatcher then stop (Exited EXIT_SUCCESS)
  else
    on_main (on_log (Log.equus_log (LE A) EQUUS_LOG_CRITICAL (b:"StartServiceCtrlDispatcher: failed"))) ;;;
    ret EXIT_FAILURE.

Definition run_core (argv : list bytes) : C wstate Z :=
  on_main (main_core A fuel (Z.of_nat (length argv)) (Some argv)).

(** The body of the loop over the arguments: [Some] when [main] returns. *)
Definition switch (argv : list bytes) (arg : bytes) : C wstate (option Z) :=
  if stricmp_eq arg (b:"--install") then on_scm (win32_service_install E) ;;; ret (Some 0)
  else if stricmp_eq arg (b:"--delete") then on_scm (win32_service_delete E) ;;; ret (Some 0)
  else if stricmp_eq arg (b:"--start") then on_scm (win32_service_start E fuel) ;;; ret (Some 0)
  else if stricmp_eq arg (b:"--status") then on_scm (win32_service_status E) ;;; ret (Some 0)
  else if stricmp_eq arg (b:"--stop") then on_scm (win32_service_stop E fuel) ;;; ret (Some 0)
  else if stricmp_eq arg (b:"--noservice") then let! rv := run_core argv in ret (Some rv)
  else ret None.

Definition main (argv : list bytes) : C wstate Z :=
  let! r := loop (S (length argv)) (fun i =>
    if decide (i < length argv)%nat then
      match argv !! i with
      | None => stop (Undefined "argv read out of bounds")
      | Some arg =>
          let! r := switch argv arg in
          ret (match r with Some rv => inr (Some rv) | None => inl (S i) end)
      end
    else ret (inr None)) 1%nat in
  match r with
  | Some rv => ret rv
  | None => if decide (length argv = 1)%nat then win32_run_service else run_core argv
  end.

(** *** Specification *)

Definition action_of (arg : bytes) : option action :=
  if stricmp_eq arg (b:"--install") then Some AInstall
  else if stricmp_eq arg (b:"--delete") then Some ADelete
  else if stricmp_eq arg (b:"--start") then Some AStart
  else if stricmp_eq arg (b:"--status") then Some AStatus
  else if stricmp_eq arg (b:"--stop") then Some AStop
  else if stricmp_eq arg (b:"--noservice") then Some ANoService
  else None.

(** The switch that counts: the first one, whatever comes before it. *)
Definition chosen (argv : list bytes) : option action := head (omap action_of (tail argv)).

Definition perform (argv : list bytes) (a : action) : C wstate Z :=
  match a with
  | AInstall => on_scm (win32_service_install E) ;;; ret 0
  | ADelete => on_scm (win32_service_delete E) ;;; ret 0
  | AStart => on_scm (win32_service_start E fuel) ;;; ret 0
  | AStatus => on_scm (win32_service_status E) ;;; ret 0
  | AStop => on_scm (win32_service_stop E fuel) ;;; ret 0
  | ANoService => run_core argv
  end.

Lemma bind_assoc {W X Y Z} (m : C W X) (f : X -> C W Y) (g : Y -> C W Z) w :
  bind (bind m f) g w = bind m (fun x => bind (f x) g) w.
Proof. unfold bind. by destruct (m w) as [[x|?] w']. Qed.

Lemma bind_ret_r {W X} (m : C W X) w : bind m ret w = m w.
Proof. unfold bind, ret. by destruct (m w) as [[x|?] w']. Qed.

Lemma switch_spec argv arg w :
  switch argv arg w =
  match action_of arg with
  | Some a => bind (perform argv a) (fun rv => ret (Some rv)) w
  | None => (Ok None, w)
  end.
Proof.
  unfold switch, action_of. repeat case_match; simplify_eq; try done; unfold perform; by rewrite bind_assoc.
Qed.

Definition main_body (argv : list bytes) (i : nat) : C wstate (nat + option Z) :=
  if decide (i < length argv)%nat then
    match argv !! i with
    | None => stop (Undefined "argv read out of bounds")
    | Some arg =>
        let! r := switch argv arg in
        ret (match r with Some rv => inr (Some rv) | None => inl (S i) end)
    end
  else ret (inr None).

Lemma main_loop argv w : forall n i, (length argv - i < n)%nat ->
  loop n (main_body argv) i w =
  match head (omap action_of (drop i argv)) with
  | Some a => bind (perform argv a) (fun rv => ret (Some rv)) w
  | None => (Ok None, w)
  end.
Proof.
  induction n as [|n IH]; intros i Hn.
  - lia.
  - rewrite loop_S. unfold bind at 1. unfold main_body at 1. case_decide as Hi.
    + destruct (argv !! i) as [arg|] eqn:Ha; [|by apply lookup_ge_None in Ha; lia].
      rewrite (drop_S _ _ _ Ha). unfold bind at 1. rewrite switch_spec. cbn [omap list_omap].
      destruct (action_of arg) as [a|]; cbn [head].
      * unfold bind, ret. by destruct (perform argv a w) as [[rv|f] w'].
      * unfold ret. rewrite IH by lia. done.
    + rewrite drop_ge by lia. done.
Qed.

(** The switches of the executable. The first argument that is a switch, in any
    letter case, decides: the service command is carried out and the program returns
    0, or the agent runs in the console.  Without a switch the program runs as a
    service when it has no argument at all, and as a console program otherwise. *)
Lemma switches_spec (argv : list bytes) (w : wstate) :
  main argv w =
  match chosen argv with
  | Some a => perform argv a w
  | None => if decide (length argv = 1%nat) then win32_run_service w else run_core argv w
  end.
Proof.
  unfold main. fold (main_body argv). unfold bind at 1. rewrite main_loop by lia.
  unfold chosen. replace (tail argv) with (drop 1 argv) by by destruct argv.
  destruct (head _) as [a|].
  - unfold bind, ret. by destruct (perform argv a w) as [[rv|f] w'].
  - by case_decide.
Qed.
End WinMain.
