(* ===== verification/Octets.v ===== *)
(** * Octets and incremental filters

    What the byte-oriented libraries bound into the interpreter share: the
    value of a [char] as an unsigned octet and back, lookup tables of 256
    octets, shifts and masks as arithmetic, and the loop
    [while (input < last) state = step( *input++, state, &buffer)] that feeds a
    block of input to a filter whose output goes to a [luaL_Buffer]. *)

From S2P Require Import Prelude CString.
#[global] Open Scope Z_scope.

(** ** Octets *)

(** [(unsigned char) c], and the conversion of an integer to a [char]. *)
Definition uc (c : ascii) : Z := Z.of_N (N_of_ascii c).
Definition chr (z : Z) : ascii := ascii_of_N (Z.to_N (z mod 256)).

Lemma uc_range c : 0 <= uc c < 256.
Proof. unfold uc. pose proof (N_ascii_bounded c). lia. Qed.

Lemma chr_uc c : chr (uc c) = c.
Proof.
  unfold chr. rewrite Z.mod_small by apply uc_range. unfold uc.
  rewrite N2Z.id. apply ascii_N_embedding.
Qed.

Lemma uc_chr z : uc (chr z) = z mod 256.
Proof.
  unfold uc, chr. pose proof (Z.mod_pos_bound z 256 ltac:(lia)).
  rewrite N_ascii_embedding by lia. lia.
Qed.

Lemma chr_mod z : chr (z mod 256) = chr z.
Proof. unfold chr. by rewrite Z.mod_mod by lia. Qed.

Lemma uc_inj c d : uc c = uc d -> c = d.
Proof. intros H. by rewrite <- (chr_uc c), <- (chr_uc d), H. Qed.

(** A property of every octet is checked by trying the 256 of them. *)
Definition octets : list ascii := (fun i => chr (Z.of_nat i)) <$> seq 0 256.

Lemma all_octets (P : ascii -> Prop) : Forall P octets -> forall c, P c.
Proof.
  intros H c. rewrite Forall_forall in H. apply H.
  apply list_elem_of_fmap. exists (Z.to_nat (uc c)). pose proof (uc_range c).
  split; [rewrite Z2Nat.id by lia; by rewrite chr_uc|].
  apply elem_of_seq. lia.
Qed.

(** Prove a decidable statement about one octet. *)
Ltac for_all_octets c :=
  revert c; cbv zeta; refine (all_octets _ _); by_decide.

(** ** Tables indexed by an octet *)

Definition table (A : Type) : Type := list A.
Definition tbl {A} (d : A) (t : table A) (c : ascii) : A := nth (Z.to_nat (uc c)) t d.

(** ** Shifts and masks *)

Lemma shiftl_mul v k : 0 <= k -> Z.shiftl v k = v * 2 ^ k.
Proof. intros. by apply Z.shiftl_mul_pow2. Qed.

Lemma shiftr_div v k : 0 <= k -> Z.shiftr v k = v / 2 ^ k.
Proof. intros. by apply Z.shiftr_div_pow2. Qed.

(** Or-ing a field below bit [k] into a word shifted by [k] adds it. *)
Lemma lor_shiftl v x k : 0 <= k -> 0 <= x < 2 ^ k -> Z.lor (Z.shiftl v k) x = v * 2 ^ k + x.
Proof.
  intros Hk Hx. rewrite <- shiftl_mul by done.
  assert (Z.land (Z.shiftl v k) x = 0) as Hd.
  { apply Z.bits_inj'. intros n Hn. rewrite Z.land_spec, Z.bits_0.
    destruct (decide (n < k)).
    - by rewrite Z.shiftl_spec_low.
    - rewrite <- (Z.mod_small x (2 ^ k)) by done.
      rewrite Z.mod_pow2_bits_high by lia.
      apply andb_false_r. }
  rewrite <- Z.lxor_lor by done. by rewrite Z.add_nocarry_lxor.
Qed.

Lemma land_63 v : Z.land v 63 = v mod 64.
Proof. by apply (Z.land_ones v 6). Qed.

Lemma land_255 v : Z.land v 255 = v mod 256.
Proof. by apply (Z.land_ones v 8). Qed.

Lemma land_15 v : Z.land v 15 = v mod 16.
Proof. by apply (Z.land_ones v 4). Qed.

Create Rewrite HintDb bits.
#[global] Hint Rewrite shiftl_mul shiftr_div land_63 land_255 land_15 using lia : bits.

(** Division and remainder by constants are linear over their quotients. *)
Ltac div_lia := Z.to_euclidean_division_equations; lia.

(** ** Feeding a block of input to a filter *)

Section Feed.
Context {S : Type} (step : ascii -> S -> bytes -> S * bytes).

Fixpoint feed (input : bytes) (s : S) (buffer : bytes) : S * bytes :=
  match input with
  | [] => (s, buffer)
  | c :: input' => let '(s', buffer') := step c s buffer in feed input' s' buffer'
  end.

Lemma feed_app xs ys s buffer :
  feed (xs ++ ys) s buffer =
  let '(s', buffer') := feed xs s buffer in feed ys s' buffer'.
Proof.
  revert s buffer. induction xs as [|x xs IH]; intros s buffer; cbn; [done|].
  destruct (step x s buffer). apply IH.
Qed.

(** A step that only appends to the buffer. *)
Definition appends : Prop :=
  forall c s buffer, step c s buffer = ((step c s []).1, buffer ++ (step c s []).2).

Hypothesis Happ : appends.

Lemma feed_out input s buffer :
  feed input s buffer = ((feed input s []).1, buffer ++ (feed input s []).2).
Proof.
  revert s buffer. induction input as [|x input IH]; intros s buffer; cbn.
  - by rewrite app_nil_r.
  - rewrite (Happ x s buffer). destruct (step x s []) as [s' o']; cbn.
    rewrite (IH s' (buffer ++ o')), (IH s' o'). cbn. by rewrite app_assoc.
Qed.

Lemma feed_invariant (I : S -> Prop) input s buffer :
  (forall c s b, I s -> I (step c s b).1) -> I s -> I (feed input s buffer).1.
Proof.
  intros Hstep. revert s buffer. induction input as [|x input IH]; intros s buffer HI; cbn; [done|].
  specialize (Hstep x s buffer HI). destruct (step x s buffer). by apply IH.
Qed.
End Feed.

(** ** Little-endian integers *)

Fixpoint le_bytes (n : nat) (z : Z) : bytes :=
  match n with
  | O => []
  | S n' => chr z :: le_bytes n' (z / 256)
  end.

Fixpoint le_value (b : bytes) : Z :=
  match b with
  | [] => 0
  | c :: b' => uc c + 256 * le_value b'
  end.

Lemma length_le_bytes n z : length (le_bytes n z) = n.
Proof. revert z. induction n as [|n IH]; intros z; cbn; [done|]. by rewrite IH. Qed.

Lemma le_value_bytes n z : le_value (le_bytes n z) = z mod 256 ^ Z.of_nat n.
Proof.
  revert z. induction n as [|n IH]; intros z; [by rewrite Z.mod_1_r|].
  cbn [le_bytes le_value]. rewrite IH, uc_chr, Nat2Z.inj_succ, Z.pow_succ_r by lia.
  rewrite Z.rem_mul_r by (try apply Z.pow_nonzero; lia). lia.
Qed.

Lemma le_value_range b : 0 <= le_value b < 256 ^ Z.of_nat (length b).
Proof.
  induction b as [|c b IH]; [done|]. cbn [le_value length].
  rewrite Nat2Z.inj_succ, Z.pow_succ_r by lia. pose proof (uc_range c). lia.
Qed.
