(* ===== verification/Mime.v ===== *)
(** * Incremental filters and Base64 (luasocket's [mime.c])

    What the encoders the interpreter offers to scripts as [mime.*] share, and
    the Base64 encoder and decoder.  Each exported function takes the context
    left by the previous call and a block of input ([None] for [nil], the end of
    the input) and returns the output and the new context; [stream] chains such
    calls over a sequence of blocks as the filters of [ltn12] do, and
    [incremental] is the shape of the functions that carry an atom of octets
    from one call to the next. *)

From S2P Require Import Prelude CString Octets.
#[global] Open Scope Z_scope.

(** ** What the exported functions share *)

Definition CRLF : bytes := [CR; LF].
Definition EQCRLF : bytes := of_string "=" ++ CRLF.

(** The end of an exported function whose input is over: [luaL_pushresult], and
    [nil] in the place of a result whose first character is NUL. *)
Definition last_result (buffer : bytes) : option bytes :=
  match buffer with
  | [] => None
  | c :: _ => if decide (c = NUL) then None else Some buffer
  end.

(** Chained calls of [low]: every block, then [nil]; the outputs joined. *)
Definition stream {K} (low : K -> option bytes -> option bytes * K) : K -> list bytes -> bytes :=
  fix go ctx chunks :=
    match chunks with
    | [] => default [] (low ctx None).1
    | c :: chunks' =>
        let '(out, ctx') := low ctx (Some c) in default [] out ++ go ctx' chunks'
    end.

(** The column a text that starts at column [col] ends at, when none of its
    lines has more than [n] characters ([None] otherwise).  Line feeds end
    lines; carriage returns take no room. *)
Fixpoint column (n col : Z) (b : bytes) : option Z :=
  match b with
  | [] => Some col
  | c :: b' =>
      if decide (c = LF) then column n 0 b'
      else if decide (c = CR) then column n col b'
      else if decide (col + 1 <= n) then column n (col + 1) b' else None
  end.

Lemma column_app n col a b : column n col (a ++ b) = column n col a ≫= fun col' => column n col' b.
Proof.
  revert col. induction a as [|c a IH]; intros col; cbn; [done|].
  repeat case_decide; by rewrite ?IH.
Qed.

Lemma column_1 n col c :
  c <> LF -> c <> CR -> col + 1 <= n -> column n col [c] = Some (col + 1).
Proof. intros. cbn. do 2 rewrite decide_False by done. by rewrite decide_True. Qed.

Lemma column_CRLF n col : column n col CRLF = Some 0.
Proof. done. Qed.

Lemma column_EQCRLF n col : col + 1 <= n -> column n col EQCRLF = Some 0.
Proof.
  intros. unfold EQCRLF. change (of_string "=") with ["="%char].
  by rewrite column_app, column_1.
Qed.

(** ** Base64 *)

Definition b64base : bytes :=
  of_string "ABCDEFGHIJKLMNOPQRSTUVWXYZabcdefghijklmnopqrstuvwxyz0123456789+/".
Definition b64base_at (i : Z) : ascii := nth (Z.to_nat i) b64base NUL.
Definition EQ : ascii := "="%char.

(** The table is filled with 255, then the 64 digits get their values, and the
    padding character counts as the digit 0. *)
Definition b64setup : table Z :=
  let t := replicate 256 255 in
  let t := foldl (fun t i => <[Z.to_nat (uc (b64base_at (Z.of_nat i))) := Z.of_nat i]> t)
             t (seq 0 64) in
  <[Z.to_nat (uc EQ) := 0]> t.
Definition b64unbase : table Z := Eval vm_compute in b64setup.
Definition b64unbase_at (c : ascii) : Z := tbl 255 b64unbase c.

(** [input] holds the octets of the atom that [size] counts. *)
Definition b64encode (c : ascii) (input : bytes) (buffer : bytes) : bytes * bytes :=
  let input := input ++ [c] in
  match input with
  | [i0; i1; i2] =>
      let value := 0 in
      let value := Z.shiftl (value + uc i0) 8 in
      let value := Z.shiftl (value + uc i1) 8 in
      let value := value + uc i2 in
      let code3 := b64base_at (Z.land value 63) in
      let value := Z.shiftr value 6 in
      let code2 := b64base_at (Z.land value 63) in
      let value := Z.shiftr value 6 in
      let code1 := b64base_at (Z.land value 63) in
      let value := Z.shiftr value 6 in
      let code0 := b64base_at value in
      ([], buffer ++ [code0; code1; code2; code3])
  | _ => (input, buffer)
  end.

Definition b64pad (input : bytes) (buffer : bytes) : bytes * bytes :=
  match input with
  | [i0] =>
      let value := Z.shiftl (uc i0) 4 in
      let code1 := b64base_at (Z.land value 63) in
      let value := Z.shiftr value 6 in
      let code0 := b64base_at value in
      ([], buffer ++ [code0; code1; EQ; EQ])
  | [i0; i1] =>
      let value := Z.shiftl (uc i0) 8 in
      let value := Z.shiftl (Z.lor value (uc i1)) 2 in
      let code2 := b64base_at (Z.land value 63) in
      let value := Z.shiftr value 6 in
      let code1 := b64base_at (Z.land value 63) in
      let value := Z.shiftr value 6 in
      let code0 := b64base_at value in
      ([], buffer ++ [code0; code1; code2; EQ])
  | _ => ([], buffer)
  end.

Definition b64decode (c : ascii) (input : bytes) (buffer : bytes) : bytes * bytes :=
  if decide (b64unbase_at c > 64) then (input, buffer)
  else
    let input := input ++ [c] in
    match input with
    | [i0; i1; i2; i3] =>
        let value := Z.shiftl (b64unbase_at i0) 6 in
        let value := Z.shiftl (Z.lor value (b64unbase_at i1)) 6 in
        let value := Z.shiftl (Z.lor value (b64unbase_at i2)) 6 in
        let value := Z.lor value (b64unbase_at i3) in
        let decoded2 := chr (Z.land value 255) in
        let value := Z.shiftr value 8 in
        let decoded1 := chr (Z.land value 255) in
        let value := Z.shiftr value 8 in
        let decoded0 := chr value in
        let valid := if decide (i2 = EQ) then 1%nat else if decide (i3 = EQ) then 2%nat else 3%nat in
        ([], buffer ++ take valid [decoded0; decoded1; decoded2])
    | _ => (input, buffer)
    end.

Definition mime_global_b64 (C D : option bytes) : option bytes * option bytes :=
  match C with
  | None => (None, None)
  | Some input =>
      let '(atom, buffer) := feed b64encode input [] [] in
      match D with
      | None =>
          let '(atom, buffer) := b64pad atom buffer in (last_result buffer, None)
      | Some input =>
          let '(atom, buffer) := feed b64encode input atom buffer in (Some buffer, Some atom)
      end
  end.

Definition mime_global_unb64 (C D : option bytes) : option bytes * option bytes :=
  match C with
  | None => (None, None)
  | Some input =>
      let '(atom, buffer) := feed b64decode input [] [] in
      match D with
      | None => (last_result buffer, None)
      | Some input =>
          let '(atom, buffer) := feed b64decode input atom buffer in (Some buffer, Some atom)
      end
  end.

(** ** What incremental processing means

    The encoders and decoders that carry an atom of unprocessed octets share
    one shape.  A call feeds the carried octets and the new block to [step]; at
    the end of the input [pad] deals with what is left. *)

Section Incremental.
Context (step : ascii -> bytes -> bytes -> bytes * bytes) (pad : bytes -> bytes -> bytes * bytes).

Definition incremental (C D : option bytes) : option bytes * option bytes :=
  match C with
  | None => (None, None)
  | Some input =>
      let '(atom, buffer) := feed step input [] [] in
      match D with
      | None => let '(atom, buffer) := pad atom buffer in (last_result buffer, None)
      | Some input =>
          let '(atom, buffer) := feed step input atom buffer in (Some buffer, Some atom)
      end
  end.

(** [carried atom]: the atom can be the context of a call.  Fed again it comes
    back without output, so splitting the input makes no difference. *)
Class Carries (carried : bytes -> Prop) : Prop := {
  carries_appends : appends step;
  carries_nil : carried [];
  carries_step : forall c a, carried a -> carried (step c a []).1;
  carries_again : forall a, carried a -> feed step a [] [] = (a, []);
  carries_pad : forall a, carried a -> default [] (last_result (pad a []).2) = (pad a []).2
}.

Lemma stream_incremental carried `{!Carries carried} atom chunks :
  carried atom ->
  stream incremental (Some atom) chunks =
  let '(atom', buffer) := feed step (concat chunks) atom [] in
  buffer ++ (pad atom' []).2.
Proof.
  revert atom. induction chunks as [|c chunks IH]; intros atom Ha; cbn.
  - rewrite carries_again by done. pose proof (carries_pad atom Ha) as Hp.
    by destruct (pad atom []).
  - rewrite carries_again by done.
    assert (carried (feed step c atom []).1) as Hc.
    { apply (feed_invariant step carried); [|done]. intros d s b Hs.
      rewrite carries_appends. by apply carries_step. }
    rewrite feed_app. destruct (feed step c atom []) as [a o]; cbn in Hc |- *.
    rewrite (IH a Hc). rewrite (feed_out step carries_appends _ a o).
    destruct (feed step (concat chunks) a []); cbn. by rewrite app_assoc.
Qed.
End Incremental.

(** ** Base64: RFC 4648 as arithmetic

    An atom of octets is a number written in base 256; its encoding is the same
    number in base 64. *)

Definition b64_digit (d : Z) : ascii :=
  if decide (d < 26) then chr (65 + d)
  else if decide (d < 52) then chr (97 + (d - 26))
  else if decide (d < 62) then chr (48 + (d - 52))
  else if decide (d = 62) then "+"%char else "/"%char.

Fixpoint digits (n : nat) (v : Z) : bytes :=
  match n with
  | O => []
  | S n' => digits n' (v / 64) ++ [b64_digit (v mod 64)]
  end.

Fixpoint base64 (s : bytes) : bytes :=
  match s with
  | [] => []
  | [a] => digits 2 (uc a * 2 ^ 4) ++ [EQ; EQ]
  | [a; b] => digits 3 ((uc a * 256 + uc b) * 2 ^ 2) ++ [EQ]
  | a :: b :: c :: s' => digits 4 ((uc a * 256 + uc b) * 256 + uc c) ++ base64 s'
  end.

Lemma below_64 (P : Z -> Prop) :
  Forall (fun i => P (Z.of_nat i)) (seq 0 64) -> forall d, 0 <= d < 64 -> P d.
Proof.
  intros H d Hd. rewrite <- (Z2Nat.id d) by lia. rewrite Forall_forall in H.
  apply H. apply elem_of_seq. lia.
Qed.

Lemma base_digit d : 0 <= d < 64 -> b64base_at d = b64_digit d.
Proof. revert d. apply below_64. by_decide. Qed.

Lemma unbase_digit d : 0 <= d < 64 -> b64unbase_at (b64_digit d) = d.
Proof. revert d. apply below_64. by_decide. Qed.

Lemma digit_not_eq d : 0 <= d < 64 -> b64_digit d <> EQ.
Proof. revert d. apply below_64. by_decide. Qed.

Lemma digit_not_nul d : 0 <= d < 64 -> b64_digit d <> NUL.
Proof. revert d. apply below_64. by_decide. Qed.

(** The setup the table is the result of. *)
Lemma b64unbase_setup : b64unbase = b64setup.
Proof. vm_compute. reflexivity. Qed.


(** *** The encoder computes it *)

Ltac octet_bounds :=
  repeat match goal with
         | |- context [uc ?c] =>
             lazymatch goal with
             | _ : 0 <= uc c < 256 |- _ => fail
             | _ => pose proof (uc_range c)
             end
         end.

Lemma digits_2 v : 0 <= v < 64 ^ 2 -> digits 2 v = [b64_digit (v / 64); b64_digit (v mod 64)].
Proof. intros. cbn. by rewrite (Z.mod_small (v / 64)) by div_lia. Qed.

Lemma digits_3 v : 0 <= v < 64 ^ 3 ->
  digits 3 v = [b64_digit (v / 64 / 64); b64_digit ((v / 64) mod 64); b64_digit (v mod 64)].
Proof. intros. cbn. by rewrite (Z.mod_small (v / 64 / 64)) by div_lia. Qed.

Lemma digits_4 v : 0 <= v < 64 ^ 4 ->
  digits 4 v = [b64_digit (v / 64 / 64 / 64); b64_digit ((v / 64 / 64) mod 64);
                b64_digit ((v / 64) mod 64); b64_digit (v mod 64)].
Proof. intros. cbn. by rewrite (Z.mod_small (v / 64 / 64 / 64)) by div_lia. Qed.

Lemma b64encode_atom a b c buffer :
  b64encode c [a; b] buffer = ([], buffer ++ digits 4 ((uc a * 256 + uc b) * 256 + uc c)).
Proof.
  unfold b64encode; cbn [app]. octet_bounds. autorewrite with bits.
  change (2 ^ 8) with 256. change (2 ^ 6) with 64.
  replace (((0 + uc a) * 256 + uc b) * 256 + uc c) with ((uc a * 256 + uc b) * 256 + uc c) by lia.
  rewrite !base_digit by div_lia.
  by rewrite digits_4 by lia.
Qed.

Lemma b64pad_1 a : b64pad [a] [] = ([], base64 [a]).
Proof.
  unfold b64pad, base64. octet_bounds. autorewrite with bits. change (2 ^ 6) with 64.
  rewrite !base_digit by div_lia. by rewrite digits_2 by lia.
Qed.

Lemma b64pad_2 a b : b64pad [a; b] [] = ([], base64 [a; b]).
Proof.
  unfold b64pad, base64. octet_bounds. rewrite lor_shiftl by lia. autorewrite with bits.
  change (2 ^ 6) with 64. change (2 ^ 8) with 256.
  rewrite !base_digit by div_lia. by rewrite digits_3 by lia.
Qed.

(** The atom the encoder may carry. *)
Definition short (a : bytes) : Prop := (length a < 3)%nat.

(** Destructs a carried atom into its possible shapes. *)
Ltac shapes a :=
  unfold short in *; destruct a as [|? [|? [|? ?]]];
  try (exfalso; match goal with H : (length _ < 3)%nat |- _ => cbn in H; lia end).

Lemma b64encode_appends : appends b64encode.
Proof.
  intros c s buffer. unfold b64encode.
  destruct (s ++ [c]) as [|? [|? [|? [|? ?]]]]; cbn; by rewrite ?app_nil_r.
Qed.

Lemma b64pad_short a : short a -> b64pad a [] = ([], base64 a).
Proof. intros Ha. shapes a; [done|apply b64pad_1|apply b64pad_2]. Qed.

Lemma b64pad_out a buffer : b64pad a buffer = ([], buffer ++ (b64pad a []).2).
Proof. by destruct a as [|? [|? [|? ?]]]; cbn; rewrite ?app_nil_r. Qed.

(** Encoded text is never taken for an empty result. *)
Lemma last_result_base64 s : s <> [] -> last_result (base64 s) = Some (base64 s).
Proof.
  intros Hs. destruct s as [|a [|b [|c s]]]; [done|..]; cbn [base64]; octet_bounds;
    [rewrite digits_2 by lia|rewrite digits_3 by lia|rewrite digits_4 by lia];
    cbn [app last_result]; by rewrite decide_False by (apply digit_not_nul; div_lia).
Qed.

#[export] Instance b64_carries : Carries b64encode b64pad short.
Proof.
  split.
  - apply b64encode_appends.
  - unfold short; cbn; lia.
  - intros c a Ha. shapes a; cbn; lia.
  - intros a Ha. shapes a; done.
  - intros a Ha. rewrite b64pad_short by done. cbn [snd].
    destruct (decide (a = [])) as [->|]; [done|]. by rewrite last_result_base64.
Qed.

Lemma feed_b64encode s a :
  short a ->
  let '(a', buffer) := feed b64encode s a [] in buffer ++ (b64pad a' []).2 = base64 (a ++ s).
Proof.
  revert a. induction s as [|c s IH]; intros a Ha; cbn [feed].
  - by rewrite app_nil_r, b64pad_short.
  - shapes a.
    + apply (IH [c]). cbn; lia.
    + apply (IH [_; c]). cbn; lia.
    + rewrite b64encode_atom. rewrite (feed_out _ b64encode_appends).
      specialize (IH [] ltac:(cbn; lia)). destruct (feed b64encode s [] []) as [a' o].
      cbn [fst snd app] in *. cbn [base64]. by rewrite <- IH, <- app_assoc.
Qed.

Lemma b64_stream pieces :
  stream mime_global_b64 (Some []) pieces = base64 (concat pieces).
Proof.
  change mime_global_b64 with (incremental b64encode b64pad).
  rewrite (stream_incremental _ _ short) by (unfold short; cbn; lia).
  pose proof (feed_b64encode (concat pieces) [] ltac:(unfold short; cbn; lia)) as H.
  by destruct (feed b64encode (concat pieces) [] []).
Qed.

(** *** The decoder inverts it *)

(** A character the decoder does not skip. *)
Definition significant (c : ascii) : Prop := b64unbase_at c <= 64.
#[global] Instance significant_dec c : Decision (significant c) := _.

Definition octets3 (v : Z) : bytes := [chr (v / 256 / 256); chr ((v / 256) mod 256); chr (v mod 256)].
Definition kept (x2 x3 : ascii) : nat :=
  if decide (x2 = EQ) then 1%nat else if decide (x3 = EQ) then 2%nat else 3%nat.

Lemma unbase_eq : b64unbase_at EQ = 0.
Proof. done. Qed.

Lemma b64decode_skip c a buffer : ~ significant c -> b64decode c a buffer = (a, buffer).
Proof. unfold significant, b64decode. intros. by rewrite decide_True by lia. Qed.

Lemma b64decode_more c a buffer :
  significant c -> (length a < 3)%nat -> b64decode c a buffer = (a ++ [c], buffer).
Proof.
  unfold significant, b64decode. intros. rewrite decide_False by lia. by shapes a.
Qed.

Lemma b64decode_atom x0 x1 x2 x3 d0 d1 d2 d3 buffer :
  b64unbase_at x0 = d0 -> b64unbase_at x1 = d1 -> b64unbase_at x2 = d2 -> b64unbase_at x3 = d3 ->
  0 <= d0 < 64 -> 0 <= d1 < 64 -> 0 <= d2 < 64 -> 0 <= d3 < 64 ->
  feed b64decode [x0; x1; x2; x3] [] buffer =
  ([], buffer ++ take (kept x2 x3) (octets3 (((d0 * 64 + d1) * 64 + d2) * 64 + d3))).
Proof.
  intros H0 H1 H2 H3 ? ? ? ?. cbn [feed].
  do 3 (rewrite b64decode_more by (unfold significant; cbn [length]; lia); cbn [app]).
  unfold b64decode. rewrite decide_False by lia. cbn [app]. rewrite H0, H1, H2, H3.
  rewrite !lor_shiftl by lia. autorewrite with bits.
  change (2 ^ 6) with 64. change (2 ^ 8) with 256. done.
Qed.

Lemma b64decode_appends : appends b64decode.
Proof.
  intros c s buffer. unfold b64decode. case_decide; [by rewrite app_nil_r|].
  destruct (s ++ [c]) as [|? [|? [|? [|? [|? ?]]]]]; cbn; by rewrite ?app_nil_r.
Qed.

Lemma feed_significant s a buffer :
  feed b64decode s a buffer = feed b64decode (filter significant s) a buffer.
Proof.
  revert a buffer. induction s as [|c s IH]; intros a buffer; [done|]. rewrite filter_cons.
  case_decide as Hc; cbn [feed]; [|by rewrite b64decode_skip].
  destruct (b64decode c a buffer). apply IH.
Qed.

(** Induction three octets at a time, as the encoding goes. *)
Lemma atoms_ind (P : bytes -> Prop) :
  P [] -> (forall a, P [a]) -> (forall a b, P [a; b]) ->
  (forall a b c s, P s -> P (a :: b :: c :: s)) -> forall s, P s.
Proof.
  intros H0 H1 H2 H3. fix IH 1.
  intros [|a [|b [|c s]]]; [exact H0|apply H1|apply H2|apply H3, IH].
Qed.

Lemma kept_digits d2 d3 : 0 <= d2 < 64 -> 0 <= d3 < 64 -> kept (b64_digit d2) (b64_digit d3) = 3%nat.
Proof. intros. unfold kept. by rewrite !decide_False by (apply digit_not_eq; lia). Qed.

Lemma kept_2 d2 : 0 <= d2 < 64 -> kept (b64_digit d2) EQ = 2%nat.
Proof. intros. unfold kept. by rewrite decide_False by (apply digit_not_eq; lia). Qed.

(** Four digits of a number below [2 ^ 24] give back its three octets. *)
Lemma octets3_of a b c : octets3 ((uc a * 256 + uc b) * 256 + uc c) = [a; b; c].
Proof.
  unfold octets3. octet_bounds.
  repeat f_equal; (etrans; [|apply chr_uc]); f_equal; div_lia.
Qed.

Lemma uc_NUL : uc NUL = 0.
Proof. done. Qed.

Ltac decode_digits :=
  first [apply unbase_digit; subst; div_lia | apply unbase_eq | subst; div_lia].

Lemma feed_base64 s buffer : feed b64decode (base64 s) [] buffer = ([], buffer ++ s).
Proof.
  revert buffer. induction s as [| a | a b | a b c s IH] using atoms_ind;
    intros buffer; cbn [base64]; octet_bounds.
  - by rewrite app_nil_r.
  - rewrite digits_2 by lia. cbn [app]. set (v := uc a * 2 ^ 4).
    rewrite (b64decode_atom _ _ _ _ (v / 64) (v mod 64) 0 0) by decode_digits.
    replace (((v / 64 * 64 + v mod 64) * 64 + 0) * 64 + 0)
      with ((uc a * 256 + uc NUL) * 256 + uc NUL) by (unfold v; rewrite uc_NUL; div_lia).
    by rewrite octets3_of.
  - rewrite digits_3 by lia. cbn [app]. set (v := (uc a * 256 + uc b) * 2 ^ 2).
    rewrite (b64decode_atom _ _ _ _ (v / 64 / 64) ((v / 64) mod 64) (v mod 64) 0) by decode_digits.
    rewrite kept_2 by (subst v; div_lia).
    replace (((v / 64 / 64 * 64 + (v / 64) mod 64) * 64 + v mod 64) * 64 + 0)
      with ((uc a * 256 + uc b) * 256 + uc NUL) by (unfold v; rewrite uc_NUL; div_lia).
    by rewrite octets3_of.
  - rewrite digits_4 by lia. set (v := (uc a * 256 + uc b) * 256 + uc c).
    rewrite feed_app, (b64decode_atom _ _ _ _ (v / 64 / 64 / 64) ((v / 64 / 64) mod 64)
      ((v / 64) mod 64) (v mod 64)) by decode_digits.
    rewrite kept_digits by (subst v; div_lia).
    replace (((v / 64 / 64 / 64 * 64 + (v / 64 / 64) mod 64) * 64 + (v / 64) mod 64) * 64 + v mod 64)
      with v by div_lia.
    unfold v. rewrite octets3_of, IH. by rewrite <- app_assoc.
Qed.

Definition quad (a : bytes) : Prop := (length a < 4)%nat /\ Forall significant a.

Lemma b64decode_step c a : quad a -> quad (b64decode c a []).1.
Proof.
  intros [Hl Ha]. unfold b64decode. case_decide as Hc; [by split|].
  assert (Forall significant (a ++ [c])) as Ha' by (apply Forall_app; repeat constructor; [done|unfold significant; lia]).
  destruct a as [|? [|? [|? [|? ?]]]]; cbn in Hl |- *; try (exfalso; lia);
    split; cbn; (lia || done || constructor).
Qed.

#[export] Instance unb64_carries : Carries b64decode pair quad.
Proof.
  split.
  - apply b64decode_appends.
  - by split; [cbn; lia|].
  - apply b64decode_step.
  - intros a [Hl Ha].
    destruct a as [|x0 [|x1 [|x2 [|? ?]]]]; [done|..|cbn in Hl; lia];
      repeat match goal with H : Forall _ (_ :: _) |- _ => inversion H; clear H; subst end;
      cbn [feed]; repeat (rewrite b64decode_more by (done || (cbn [length]; lia)); cbn [app]); done.
  - done.
Qed.

Lemma stream_unb64 lines :
  stream mime_global_unb64 (Some []) lines = (feed b64decode (concat lines) [] []).2.
Proof.
  change mime_global_unb64 with (incremental b64decode pair).
  rewrite (stream_incremental _ _ quad) by (split; [cbn; lia|done]).
  destruct (feed b64decode (concat lines) [] []); cbn. by rewrite app_nil_r.
Qed.


(** C38: base64 encoding does not depend on how the input is cut: whatever the
    blocks, the joined outputs of the chained calls of [b64] (the last one
    with [nil], which pads) are the RFC 4648 encoding of the joined blocks, the
    number written by each three octets rewritten in base 64. *)
Theorem base64_stream_spec pieces :
  stream mime_global_b64 (Some []) pieces = base64 (concat pieces).
Proof. apply b64_stream. Qed.

(** C36: base64 round trip: decoding any text whose significant characters are
    those an encoding produced, line breaks and other foreign characters
    inserted anywhere and the text cut into any blocks, restores exactly the
    octets that were encoded, NULs included. *)
Theorem base64_roundtrip pieces lines :
  filter significant (concat lines) = stream mime_global_b64 (Some []) pieces ->
  stream mime_global_unb64 (Some []) lines = concat pieces.
Proof.
  intros H. rewrite stream_unb64, feed_significant, H, b64_stream. by rewrite feed_base64.
Qed.

(** Decoded in one call, data that begins with a NUL octet is lost: [unb64]
    answers [nil], because it tests the first character of its result to see
    whether it is empty; data that begins with any other octet is restored. *)
Theorem unb64_loses_leading_nul s :
  s <> [] ->
  mime_global_b64 (Some s) None = (Some (base64 s), None) /\
  mime_global_unb64 (Some (base64 s)) None =
    ((if decide (head s = Some NUL) then None else Some s), None).
Proof.
  intros Hs. split.
  - unfold mime_global_b64. pose proof (feed_b64encode s [] ltac:(unfold short; cbn; lia)) as H.
    destruct (feed b64encode s [] []) as [a o]. rewrite b64pad_out. cbn [app] in H.
    rewrite H. by rewrite last_result_base64.
  - unfold mime_global_unb64. rewrite feed_base64. cbn [app].
    destruct s as [|c s]; [done|]. cbn [head last_result].
    by repeat case_decide; simplify_eq.
Qed.

Example unb64_loses_leading_nul_witness :
  mime_global_unb64 (Some (of_string "AAEC")) None = (None, None).
Proof.
  exact (proj2 (unb64_loses_leading_nul [chr 0; chr 1; chr 2] ltac:(discriminate))).
Defined.

Example base64_roundtrip_witness :
  stream mime_global_unb64 (Some [])
    [of_string "SGV"; CRLF; of_string "sbG8"; CRLF ++ of_string "="] = of_string "Hello".
Proof.
  refine (eq_trans (base64_roundtrip [of_string "He"; of_string "llo"] _ _) _);
    vm_compute; reflexivity.
Defined.
