(* ===== verification/QuotedPrintable.v ===== *)
(** * Quoted-printable (luasocket's [mime.c])

    The encoder [mime.qp], the decoder [mime.unqp] and the soft line breaker
    [mime.qpwrp].  The three meet at a grammar of encoded text, [qp_text]: the
    encoder writes it, the line breaker keeps it, and the decoder reads back
    the text it stands for. *)

From S2P Require Import Prelude CString Octets Mime.
#[global] Open Scope Z_scope.

(** ** Lookup tables *)

Inductive qp_class : Type := QP_PLAIN | QP_QUOTED | QP_CR | QP_IF_LAST.
#[global] Instance qp_class_eq_dec : EqDecision qp_class.
Proof. solve_decision. Defined.

Definition TAB : ascii := ascii_of_nat 9.

(** [for (i = first; i <= last; i++) t[i] = v] *)
Definition fill {A} (first last : nat) (v : A) (t : table A) : table A :=
  foldl (fun t i => <[i := v]> t) t (seq first (S last - first)).
Definition set_entry {A} (c : ascii) (v : A) (t : table A) : table A := <[Z.to_nat (uc c) := v]> t.

Definition qpsetup : table qp_class * table Z :=
  let qpclass := replicate 256 QP_QUOTED in
  let qpclass := fill 33 60 QP_PLAIN qpclass in
  let qpclass := fill 62 126 QP_PLAIN qpclass in
  let qpclass := set_entry TAB QP_IF_LAST qpclass in
  let qpclass := set_entry SP QP_IF_LAST qpclass in
  let qpclass := set_entry CR QP_CR qpclass in
  let qpunbase := replicate 256 255 in
  let qpunbase := foldl (fun t '(c, v) => set_entry c v t) qpunbase
    [("0", 0); ("1", 1); ("2", 2); ("3", 3); ("4", 4); ("5", 5); ("6", 6); ("7", 7); ("8", 8);
     ("9", 9); ("A", 10); ("a", 10); ("B", 11); ("b", 11); ("C", 12); ("c", 12); ("D", 13);
     ("d", 13); ("E", 14); ("e", 14); ("F", 15); ("f", 15)]%char in
  (qpclass, qpunbase).

Definition qptables : table qp_class * table Z := Eval vm_compute in qpsetup.
Definition qpclass (c : ascii) : qp_class := tbl QP_QUOTED qptables.1 c.
Definition qpunbase (c : ascii) : Z := tbl 255 qptables.2 c.
Definition qpbase : bytes := of_string "0123456789ABCDEF".
Definition qpbase_at (i : Z) : ascii := nth (Z.to_nat i) qpbase NUL.

#[global] Arguments qpclass : simpl never.
#[global] Arguments qpunbase : simpl never.

(** ** The encoder *)

Definition qpquote (c : ascii) : bytes :=
  [EQ; qpbase_at (Z.shiftr (uc c) 4); qpbase_at (Z.land (uc c) 15)].

(** [marker] is the C string that replaces a CRLF of the text.
    The loop [while (size > 0)]: [input] holds the octets that [size] counts,
    and going round drops the first. *)
Fixpoint qpencode_loop (marker : bytes) (input buffer : bytes) : bytes * bytes :=
  match input with
  | [] => ([], buffer)
  | i0 :: rest =>
      match qpclass i0 with
      | QP_CR =>
          match rest with
          | [] => (input, buffer)
          | i1 :: _ =>
              if decide (i1 = LF) then ([], buffer ++ marker)
              else qpencode_loop marker rest (buffer ++ qpquote i0)
          end
      | QP_IF_LAST =>
          match rest with
          | i1 :: i2 :: _ =>
              if decide (i1 = CR /\ i2 = LF) then ([], buffer ++ qpquote i0 ++ marker)
              else qpencode_loop marker rest (buffer ++ [i0])
          | _ => (input, buffer)
          end
      | QP_QUOTED => qpencode_loop marker rest (buffer ++ qpquote i0)
      | QP_PLAIN => qpencode_loop marker rest (buffer ++ [i0])
      end
  end.

Definition qpencode (marker : bytes) (c : ascii) (input buffer : bytes) : bytes * bytes :=
  qpencode_loop marker (input ++ [c]) buffer.

Definition qppad (input buffer : bytes) : bytes * bytes :=
  let buffer :=
    foldl (fun buffer c => if decide (qpclass c = QP_PLAIN) then buffer ++ [c]
                           else buffer ++ qpquote c) buffer input in
  ([], if decide (0 < length input)%nat then buffer ++ EQCRLF else buffer).

Definition mime_global_qp (marker : bytes) (C D : option bytes) : option bytes * option bytes :=
  match C with
  | None => (None, None)
  | Some input =>
      let '(atom, buffer) := feed (qpencode marker) input [] [] in
      match D with
      | None =>
          let '(atom, buffer) := qppad atom buffer in (last_result buffer, None)
      | Some input =>
          let '(atom, buffer) := feed (qpencode marker) input atom buffer in
          (Some buffer, Some atom)
      end
  end.

(** ** The decoder *)

Definition qpdecode (c : ascii) (input buffer : bytes) : bytes * bytes :=
  let input := input ++ [c] in
  match input with
  | [] => ([], buffer)
  | i0 :: rest =>
      if decide (i0 = EQ) then
        match rest with
        | i1 :: i2 :: _ =>
            if decide (i1 = CR /\ i2 = LF) then ([], buffer)
            else
              let c := qpunbase i1 in
              let d := qpunbase i2 in
              if decide (c > 15 \/ d > 15) then ([], buffer ++ [i0; i1; i2])
              else ([], buffer ++ [chr (Z.shiftl c 4 + d)])
        | _ => (input, buffer)
        end
      else if decide (i0 = CR) then
        match rest with
        | i1 :: _ => ([], if decide (i1 = LF) then buffer ++ [i0; i1] else buffer)
        | [] => (input, buffer)
        end
      else
        ([], if decide (i0 = TAB \/ uc i0 > 31 /\ uc i0 < 127) then buffer ++ [i0] else buffer)
  end.

Definition mime_global_unqp (C D : option bytes) : option bytes * option bytes :=
  match C with
  | None => (None, None)
  | Some input =>
      let '(atom, buffer) := feed qpdecode input [] [] in
      match D with
      | None => (last_result buffer, None)
      | Some input =>
          let '(atom, buffer) := feed qpdecode input atom buffer in (Some buffer, Some atom)
      end
  end.

(** ** Soft line breaks *)

(** One round of [while (input < last)]; the state is [left]. *)
Definition qpwrp_step (length : Z) (c : ascii) (left : Z) (buffer : bytes) : Z * bytes :=
  if decide (c = CR) then (left, buffer)
  else if decide (c = LF) then (length, buffer ++ CRLF)
  else if decide (c = EQ) then
    let '(l, buffer) := if decide (left <= 3) then (length, buffer ++ EQCRLF) else (left, buffer) in
    (l - 1, buffer ++ [c])
  else
    let '(l, buffer) := if decide (left <= 1) then (length, buffer ++ EQCRLF) else (left, buffer) in
    (l - 1, buffer ++ [c]).

Definition mime_global_qpwrp (length left : Z) (B : option bytes) : option bytes * Z :=
  match B with
  | None => (if decide (left < length) then Some EQCRLF else None, length)
  | Some input =>
      let '(l, buffer) := feed (qpwrp_step length) input left [] in (Some buffer, l)
  end.

(** ** The grammar of encoded text *)

Definition literal (c : ascii) : Prop := qpclass c = QP_PLAIN \/ qpclass c = QP_IF_LAST.

(** [qp_text e s]: the encoded text [e] stands for [s]. *)
Inductive qp_text : bytes -> bytes -> Prop :=
| qp_nil : qp_text [] []
| qp_literal c e s : literal c -> qp_text e s -> qp_text (c :: e) (c :: s)
| qp_quoted c e s : qp_text e s -> qp_text (qpquote c ++ e) (c :: s)
| qp_line e s : qp_text e s -> qp_text (CRLF ++ e) (CRLF ++ s)
| qp_soft e s : qp_text e s -> qp_text (EQCRLF ++ e) s.

Lemma qp_text_app e1 s1 e2 s2 : qp_text e1 s1 -> qp_text e2 s2 -> qp_text (e1 ++ e2) (s1 ++ s2).
Proof.
  intros H1 H2. induction H1; rewrite <- ?app_assoc; cbn [app] in *; [done|..].
  - by constructor.
  - by apply qp_quoted.
  - by apply (qp_line (e ++ e2) (s ++ s2)).
  - by apply (qp_soft (e ++ e2) (s ++ s2)).
Qed.

Lemma qp_unit_literal c : literal c -> qp_text [c] [c].
Proof. intros. apply qp_literal; [done|constructor]. Qed.

Lemma qp_unit_quoted c : qp_text (qpquote c) [c].
Proof. rewrite <- (app_nil_r (qpquote c)). apply qp_quoted. constructor. Qed.

Lemma qp_unit_line : qp_text CRLF CRLF.
Proof. apply (qp_line [] []). constructor. Qed.

Lemma qp_unit_soft : qp_text EQCRLF [].
Proof. apply (qp_soft [] []). constructor. Qed.

Create HintDb qp.
#[export] Hint Resolve qp_nil qp_text_app qp_unit_literal qp_unit_quoted qp_unit_line qp_unit_soft : qp.
#[export] Hint Extern 1 (literal _) => (by left) || (by right) : qp.

(** What the two tables say of an octet. *)
Lemma qptables_setup : qptables = qpsetup.
Proof. vm_compute. reflexivity. Qed.

#[global] Instance literal_dec c : Decision (literal c) := _.

Lemma literal_printable c :
  literal c -> c <> EQ /\ c <> CR /\ c <> LF /\ c <> NUL /\ (c = TAB \/ uc c > 31 /\ uc c < 127).
Proof. for_all_octets c. Qed.

Lemma hex_of_octet c :
  let h := qpbase_at (Z.shiftr (uc c) 4) in
  let l := qpbase_at (Z.land (uc c) 15) in
  qpunbase h = Z.shiftr (uc c) 4 /\ qpunbase l = Z.land (uc c) 15 /\
  (h <> EQ /\ h <> CR /\ h <> LF) /\ (l <> EQ /\ l <> CR /\ l <> LF) /\
  ~ (qpunbase h > 15 \/ qpunbase l > 15) /\
  chr (Z.shiftl (qpunbase h) 4 + qpunbase l) = c.
Proof. for_all_octets c. Qed.

Lemma qpclass_cr c : qpclass c = QP_CR -> c = CR.
Proof. for_all_octets c. Qed.

(** ** The encoder writes the grammar *)

Section Encoder.
Context (marker : bytes).

(** Octets whose encoding depends on what comes next. *)
Definition pending (p : bytes) : Prop :=
  match p with
  | [] => True
  | [c] => qpclass c = QP_CR \/ qpclass c = QP_IF_LAST
  | [c; _] => qpclass c = QP_IF_LAST
  | _ => False
  end.

(** What a call to the loop has done with the octets of [p]: some are encoded,
    the rest are kept. *)
Definition consumed (p : bytes) (buffer : bytes) (r : bytes * bytes) : Prop :=
  exists out s, r.2 = buffer ++ out /\ pending r.1 /\ qp_text out s /\ p = s ++ r.1.

Hypothesis Hmarker : qp_text marker CRLF.

Lemma consumed_nil p buffer : pending p -> consumed p buffer (p, buffer).
Proof. intros. exists [], []. rewrite app_nil_r. eauto with qp. Qed.

Lemma consumed_all out s buffer : qp_text out s -> consumed s buffer ([], buffer ++ out).
Proof. intros. exists out, s. rewrite app_nil_r. cbn. auto. Qed.

Lemma consumed_cons u s p buffer r :
  qp_text u s -> consumed p (buffer ++ u) r -> consumed (s ++ p) buffer r.
Proof.
  intros Hu (out & s' & Hr & Hp & Ho & ->). exists (u ++ out), (s ++ s').
  rewrite Hr, !app_assoc. auto with qp.
Qed.

Lemma loop_1 c buffer : consumed [c] buffer (qpencode_loop marker [c] buffer).
Proof.
  cbn. destruct (qpclass c) eqn:Hc.
  - apply consumed_all. auto with qp.
  - apply consumed_all. auto with qp.
  - apply consumed_nil. by left.
  - apply consumed_nil. by right.
Qed.

Lemma loop_2 c d buffer : consumed [c; d] buffer (qpencode_loop marker [c; d] buffer).
Proof.
  assert (forall u, qp_text u [c] ->
    consumed [c; d] buffer (qpencode_loop marker [d] (buffer ++ u))) as Hnext.
  { intros u Hu. by apply (consumed_cons u [c] [d]), loop_1. }
  cbn [qpencode_loop] in Hnext |- *. destruct (qpclass c) eqn:Hc.
  - auto with qp.
  - auto with qp.
  - case_decide as Hd; [|auto with qp].
    rewrite (qpclass_cr c Hc), Hd. by apply consumed_all.
  - by apply consumed_nil.
Qed.

Lemma loop_3 c d e buffer :
  qpclass c = QP_IF_LAST -> consumed [c; d; e] buffer (qpencode_loop marker [c; d; e] buffer).
Proof.
  intros Hc. cbn [qpencode_loop]. rewrite Hc. case_decide as Hd.
  - destruct Hd as [-> ->]. apply (consumed_all _ ([c] ++ CRLF)). auto with qp.
  - apply (consumed_cons [c] [c] [d; e]); [auto with qp|]. apply loop_2.
Qed.

Lemma qpencode_consumed c p buffer :
  pending p -> consumed (p ++ [c]) buffer (qpencode marker c p buffer).
Proof.
  unfold qpencode. destruct p as [|x [|y [|z p]]]; cbn [app pending]; intros Hp.
  - apply loop_1.
  - apply loop_2.
  - by apply loop_3.
  - done.
Qed.

Lemma feed_qpencode s p buffer :
  pending p -> consumed (p ++ s) buffer (feed (qpencode marker) s p buffer).
Proof.
  revert p buffer. induction s as [|c s IH]; intros p buffer Hp; cbn [feed].
  - rewrite app_nil_r. by apply consumed_nil.
  - replace (p ++ c :: s) with ((p ++ [c]) ++ s) by by rewrite <- app_assoc.
    destruct (qpencode_consumed c p buffer Hp) as (out & t & Ho & Hp' & Ht & ->).
    destruct (qpencode marker c p buffer) as [p' b']; cbn in *; subst b'.
    rewrite <- app_assoc. apply (consumed_cons out); auto.
Qed.

Lemma qppad_fold p buffer :
  exists out, qp_text out p /\
    foldl (fun buffer c => if decide (qpclass c = QP_PLAIN) then buffer ++ [c]
                           else buffer ++ qpquote c) buffer p = buffer ++ out.
Proof.
  revert buffer. induction p as [|c p IH]; intros buffer.
  - exists []. rewrite app_nil_r. auto with qp.
  - cbn. assert (exists u, qp_text u [c] /\
      (if decide (qpclass c = QP_PLAIN) then buffer ++ [c] else buffer ++ qpquote c) = buffer ++ u)
      as (u & Hu & ->) by (case_decide; eauto with qp).
    destruct (IH (buffer ++ u)) as (out & Ho & ->). exists (u ++ out).
    rewrite <- app_assoc. split; [|done]. by apply (qp_text_app u [c]).
Qed.

Lemma qppad_text p : qp_text (qppad p []).2 p.
Proof.
  unfold qppad. destruct (qppad_fold p []) as (out & Ho & ->). cbn [snd app].
  case_decide; [|done]. rewrite <- (app_nil_r p). auto with qp.
Qed.
End Encoder.

Lemma qpencode_loop_appends marker p buffer :
  qpencode_loop marker p buffer =
  ((qpencode_loop marker p []).1, buffer ++ (qpencode_loop marker p []).2).
Proof.
  revert buffer. induction p as [|c p IH]; intros buffer; cbn [qpencode_loop].
  - by rewrite app_nil_r.
  - destruct (qpclass c).
    + rewrite (IH (buffer ++ [c])), (IH ([] ++ [c])). cbn. by rewrite <- app_assoc.
    + rewrite (IH (buffer ++ qpquote c)), (IH ([] ++ qpquote c)). cbn [fst snd]. by rewrite <- app_assoc.
    + destruct p as [|d p]; [by rewrite app_nil_r|]. case_decide; [done|].
      rewrite (IH (buffer ++ qpquote c)), (IH ([] ++ qpquote c)). cbn [fst snd]. by rewrite <- app_assoc.
    + destruct p as [|d [|e p]]; [by rewrite app_nil_r..|]. case_decide; [done|].
      rewrite (IH (buffer ++ [c])), (IH ([] ++ [c])). cbn [fst snd]. by rewrite <- app_assoc.
Qed.

Lemma qpencode_again marker p : pending p -> feed (qpencode marker) p [] [] = (p, []).
Proof.
  destruct p as [|x [|y [|z p]]]; cbn [pending]; intros Hp; [done| | |done].
  - unfold feed, qpencode. cbn. by destruct Hp as [->| ->].
  - unfold feed, qpencode. cbn. rewrite Hp. by cbn; rewrite Hp.
Qed.

Lemma last_result_text e s : qp_text e s -> default [] (last_result e) = e.
Proof.
  intros H. destruct H as [|c e s Hc|c e s|e s|e s]; try done.
  destruct (literal_printable c Hc) as (_ & _ & _ & ? & _). cbn. by rewrite decide_False.
Qed.

Lemma qp_carries marker : qp_text marker CRLF -> Carries (qpencode marker) qppad pending.
Proof.
  intros Hm. split.
  - intros c p buffer. apply qpencode_loop_appends.
  - done.
  - intros c p Hp. by destruct (qpencode_consumed marker Hm c p [] Hp) as (? & ? & _ & ? & _).
  - apply qpencode_again.
  - intros a Ha. eapply last_result_text, qppad_text.
Qed.

Lemma stream_qp marker pieces :
  qp_text marker CRLF ->
  qp_text (stream (mime_global_qp marker) (Some []) pieces) (concat pieces).
Proof.
  intros Hm. pose proof (qp_carries marker Hm).
  change (mime_global_qp marker) with (incremental (qpencode marker) qppad).
  rewrite (stream_incremental _ _ pending) by done.
  destruct (feed_qpencode marker Hm (concat pieces) [] [] I) as (out & s & Ho & Hp & Hs & Hc).
  destruct (feed (qpencode marker) (concat pieces) [] []) as [p b]; cbn [fst snd app] in *; subst b.
  rewrite Hc. auto using qppad_text with qp.
Qed.

(** ** The decoder reads it *)

Lemma qpdecode_appends : appends qpdecode.
Proof.
  intros c s buffer. unfold qpdecode.
  destruct (s ++ [c]) as [|i0 [|i1 [|i2 rest]]]; repeat case_decide; cbn; by rewrite ?app_nil_r.
Qed.

Lemma qpdecode_literal c buffer : literal c -> qpdecode c [] buffer = ([], buffer ++ [c]).
Proof.
  intros (? & ? & ? & ? & ?)%literal_printable. unfold qpdecode; cbn [app].
  rewrite decide_False by done. rewrite decide_False by done. by rewrite decide_True.
Qed.

Lemma qpdecode_quoted c buffer : feed qpdecode (qpquote c) [] buffer = ([], buffer ++ [c]).
Proof.
  destruct (hex_of_octet c) as (_ & _ & (_ & ? & _) & _ & Hhex & Hc). unfold qpquote. cbn [feed].
  change (qpdecode EQ [] buffer) with ([EQ], buffer).
  cbv beta iota. change (qpdecode ?x [EQ] buffer) with ([EQ; x], buffer). cbv beta iota.
  unfold qpdecode; cbn [app]. rewrite (decide_True (P := EQ = EQ)) by done.
  rewrite decide_False by tauto. by rewrite decide_False, Hc.
Qed.

Lemma feed_qp_text e s buffer :
  qp_text e s -> feed qpdecode e [] buffer = ([], buffer ++ s).
Proof.
  intros H. revert buffer. induction H as [|c e s Hc H IH|c e s H IH|e s H IH|e s H IH]; intros buffer.
  - by rewrite app_nil_r.
  - cbn [feed]. rewrite qpdecode_literal, IH by done. by rewrite <- app_assoc.
  - rewrite feed_app, qpdecode_quoted, IH. by rewrite <- app_assoc.
  - rewrite feed_app. change (feed qpdecode CRLF [] buffer) with (@nil ascii, buffer ++ CRLF).
    cbv beta iota. rewrite IH. by rewrite <- app_assoc.
  - rewrite feed_app. change (feed qpdecode EQCRLF [] buffer) with (@nil ascii, buffer).
    cbv beta iota. by rewrite IH.
Qed.

(** Octets the decoder may carry: the beginning of an escape or of a line break. *)
Definition undecided (p : bytes) : Prop :=
  match p with
  | [] => True
  | [c] => c = EQ \/ c = CR
  | [c; _] => c = EQ
  | _ => False
  end.

#[export] Instance unqp_carries : Carries qpdecode pair undecided.
Proof.
  split.
  - apply qpdecode_appends.
  - done.
  - intros c p Hp. unfold qpdecode.
    destruct p as [|x [|y [|z p]]]; cbn in Hp |- *; [|destruct Hp; subst|subst|done];
      repeat (case_decide; cbn); subst; try done; tauto.
  - intros p Hp. destruct p as [|x [|y [|z p]]]; cbn in Hp; [done|by destruct Hp; subst|by subst|done].
  - done.
Qed.

Lemma stream_unqp lines :
  stream mime_global_unqp (Some []) lines = (feed qpdecode (concat lines) [] []).2.
Proof.
  change mime_global_unqp with (incremental qpdecode pair).
  rewrite (stream_incremental _ _ undecided) by done.
  destruct (feed qpdecode (concat lines) [] []); cbn. by rewrite app_nil_r.
Qed.

(** ** The line breaker keeps the grammar and bounds the lines *)

Section Wrap.
Context (length : Z) (Hlength : 4 <= length).

Definition room (left : Z) : Prop := 1 <= left <= length.

(** [wrapped e s left r]: from [left] free columns, the output [r] stands for
    [s], fits, and leaves room. *)
Definition wrapped (s : bytes) (left : Z) (r : Z * bytes) : Prop :=
  qp_text r.2 s /\ room r.1 /\ column length (length - left) r.2 = Some (length - r.1).

Lemma qpwrp_appends : appends (qpwrp_step length).
Proof.
  intros c left buffer. unfold qpwrp_step.
  repeat (case_decide; cbn); by rewrite <- ?app_assoc, ?app_nil_r.
Qed.

Lemma wrapped_app e1 s1 e2 s2 left :
  wrapped s1 left (feed (qpwrp_step length) e1 left []) ->
  (forall l, room l -> wrapped s2 l (feed (qpwrp_step length) e2 l [])) ->
  wrapped (s1 ++ s2) left (feed (qpwrp_step length) (e1 ++ e2) left []).
Proof.
  intros (H1 & Hr1 & Hc1) H2. rewrite feed_app.
  destruct (feed (qpwrp_step length) e1 left []) as [l o]; cbn in *.
  rewrite (feed_out _ qpwrp_appends). destruct (H2 l Hr1) as (Ht & Hr & Hc).
  split; [by apply qp_text_app|]. split; [done|]. cbn. by rewrite column_app, Hc1.
Qed.

Lemma wrapped_literal c left :
  literal c -> room left -> wrapped [c] left (feed (qpwrp_step length) [c] left []).
Proof.
  intros Hc Hl. destruct (literal_printable c Hc) as (? & ? & ? & _). unfold room in *.
  cbn [feed]. unfold qpwrp_step. rewrite !decide_False by done.
  case_decide; (split; [|split]); cbn [fst snd app]; unfold room; try lia.
  - apply qp_soft. auto with qp.
  - rewrite column_app, column_EQCRLF by lia. cbn [mbind option_bind].
    rewrite column_1 by (done || lia). f_equal. lia.
  - auto with qp.
  - rewrite column_1 by (done || lia). f_equal. lia.
Qed.

Lemma qpwrp_plain c left buffer :
  c <> CR -> c <> LF -> c <> EQ -> 1 < left ->
  qpwrp_step length c left buffer = (left - 1, buffer ++ [c]).
Proof.
  intros. unfold qpwrp_step. do 4 rewrite decide_False by (done || lia). done.
Qed.

Lemma column_quoted c col : col + 3 <= length -> column length col (qpquote c) = Some (col + 3).
Proof.
  intros Hc. destruct (hex_of_octet c) as (_ & _ & (?&?&?) & (?&?&?) & _).
  unfold qpquote. change ([EQ; ?h; ?l]) with ([EQ] ++ [h] ++ [l]).
  rewrite !column_app, column_1 by (done || lia). cbn [mbind option_bind].
  rewrite column_app, column_1 by (done || lia). cbn [mbind option_bind].
  rewrite column_1 by (done || lia). f_equal. lia.
Qed.

Lemma wrapped_quoted c left :
  room left -> wrapped [c] left (feed (qpwrp_step length) (qpquote c) left []).
Proof.
  intros Hl. destruct (hex_of_octet c) as (_ & _ & (?&?&?) & (?&?&?) & _). unfold room in *.
  assert (forall l b, 4 <= l ->
    feed (qpwrp_step length) (tail (qpquote c)) (l - 1) (b ++ [EQ]) = (l - 3, b ++ qpquote c)) as Hfeed.
  { intros l b Hl4. unfold qpquote; cbn [tail feed].
    rewrite qpwrp_plain by (done || lia). rewrite qpwrp_plain by (done || lia).
    rewrite <- !app_assoc. f_equal. lia. }
  change (feed (qpwrp_step length) (qpquote c) left []) with
    (let '(l, b) := qpwrp_step length EQ left [] in feed (qpwrp_step length) (tail (qpquote c)) l b).
  unfold qpwrp_step at 1. rewrite (decide_False (P := EQ = CR)), (decide_False (P := EQ = LF)),
    (decide_True (P := EQ = EQ)) by done.
  case_decide; rewrite Hfeed by lia; (split; [|split]); cbn [fst snd app]; unfold room; try lia.
  - apply qp_soft. auto with qp.
  - rewrite column_app, column_EQCRLF by lia. cbn [mbind option_bind].
    rewrite column_quoted by lia. f_equal. lia.
  - auto with qp.
  - rewrite column_quoted by lia. f_equal. lia.
Qed.

Lemma wrapped_line left :
  room left -> wrapped CRLF left (feed (qpwrp_step length) CRLF left []).
Proof.
  intros Hl. change (feed _ CRLF left []) with (length, CRLF). unfold room in *.
  split; [auto with qp|]. split; [unfold room; cbn; lia|]. cbn [fst snd].
  rewrite column_CRLF. f_equal. lia.
Qed.

Lemma wrapped_soft left :
  room left -> wrapped [] left (feed (qpwrp_step length) EQCRLF left []).
Proof.
  intros Hl. unfold room in *. 
  change (feed (qpwrp_step length) EQCRLF left []) with
    (let '(l, b) := qpwrp_step length EQ left [] in feed (qpwrp_step length) CRLF l b).
  unfold qpwrp_step at 1. rewrite (decide_False (P := EQ = CR)), (decide_False (P := EQ = LF)),
    (decide_True (P := EQ = EQ)) by done.
  case_decide; change (feed (qpwrp_step length) CRLF ?l ?b) with (length, b ++ CRLF);
    (split; [|split]); cbn [fst snd]; unfold room; try lia.
  - rewrite <- app_assoc. apply qp_soft, (qp_soft []), qp_nil.
  - rewrite <- app_assoc. change ([EQ] ++ CRLF) with EQCRLF.
    rewrite app_nil_l, column_app, column_EQCRLF by lia. cbn [mbind option_bind].
    rewrite column_EQCRLF by lia. f_equal. lia.
  - apply (qp_soft []), qp_nil.
  - rewrite app_nil_l. change ([EQ] ++ CRLF) with EQCRLF. rewrite column_EQCRLF by lia. f_equal. lia.
Qed.

Lemma wrapped_nil left : room left -> wrapped [] left (left, []).
Proof. intros Hl. split; [auto with qp|]. split; [done|]. done. Qed.

Lemma feed_qpwrp e s left :
  qp_text e s -> room left -> wrapped s left (feed (qpwrp_step length) e left []).
Proof.
  intros H. revert left. induction H as [|c e s Hc H IH|c e s H IH|e s H IH|e s H IH]; intros left Hl.
  - by apply wrapped_nil.
  - apply (wrapped_app [c] [c]); [by apply wrapped_literal|done].
  - apply (wrapped_app (qpquote c) [c]); [by apply wrapped_quoted|done].
  - apply (wrapped_app CRLF CRLF); [by apply wrapped_line|done].
  - apply (wrapped_app EQCRLF []); [by apply wrapped_soft|done].
Qed.

(** The chained calls, the last one with [nil]. *)
Lemma stream_qpwrp left chunks :
  stream (mime_global_qpwrp length) left chunks =
  let '(l, b) := feed (qpwrp_step length) (concat chunks) left [] in
  b ++ if decide (l < length) then EQCRLF else [].
Proof.
  revert left. induction chunks as [|c chunks IH]; intros left; cbn.
  - by case_decide.
  - rewrite feed_app. destruct (feed (qpwrp_step length) c left []) as [l o]; cbn.
    rewrite IH, (feed_out _ qpwrp_appends _ l o).
    destruct (feed (qpwrp_step length) (concat chunks) l []); cbn. by rewrite app_assoc.
Qed.

Lemma wrapped_stream e s chunks :
  qp_text e s -> concat chunks = e ->
  let out := stream (mime_global_qpwrp length) length chunks in
  qp_text out s /\ column length 0 out = Some 0.
Proof.
  intros H <-. rewrite stream_qpwrp.
  destruct (feed_qpwrp _ _ length H ltac:(unfold room; lia)) as (Ht & Hr & Hc).
  destruct (feed (qpwrp_step length) (concat chunks) length []) as [l b]; cbn [fst snd] in *.
  unfold room in Hr. replace (length - length) with 0 in Hc by lia.
  rewrite column_app, Hc. cbn [mbind option_bind].
  case_decide.
  - split; [|apply column_EQCRLF; lia]. rewrite <- (app_nil_r s). auto with qp.
  - rewrite app_nil_r. split; [done|]. cbn. f_equal. lia.
Qed.
End Wrap.

(** C37: quoted-printable round trip: whatever the octets and however the text
    and its encoding are cut into blocks, decoding what [qp] writes restores the
    text, when the end-of-line marker stands for a CRLF itself (CRLF, the
    default, for text; [=0D=0A] for binary data). *)
Theorem qp_roundtrip marker pieces lines :
  qp_text marker CRLF ->
  concat lines = stream (mime_global_qp marker) (Some []) pieces ->
  stream mime_global_unqp (Some []) lines = concat pieces.
Proof.
  intros Hm H. rewrite stream_unqp, H. by rewrite (feed_qp_text _ (concat pieces)) by by apply stream_qp.
Qed.

(** C39: quoted-printable lines: passed through [qpwrp], which inserts soft line
    breaks, encoded text keeps within [length] columns, 4 or more, on every line and still
    decodes to the original text, for a marker of line ends that stands for CRLF:
    no escape is ever split. *)
Theorem qpwrp_bounds_lines length marker pieces chunks lines :
  4 <= length -> qp_text marker CRLF ->
  concat chunks = stream (mime_global_qp marker) (Some []) pieces ->
  concat lines = stream (mime_global_qpwrp length) length chunks ->
  column length 0 (concat lines) = Some 0 /\
  stream mime_global_unqp (Some []) lines = concat pieces.
Proof.
  intros Hl Hm Hc Hw.
  destruct (wrapped_stream length Hl _ _ chunks (stream_qp marker pieces Hm) Hc) as [Ht Hcol].
  rewrite stream_unqp, Hw. split; [done|]. by rewrite (feed_qp_text _ (concat pieces)).
Qed.

Example qp_roundtrip_witness :
  stream mime_global_unqp (Some [])
    [of_string "a =3"; of_string "D b=20" ++ CRLF ++ of_string "x=20=" ++ CRLF] =
  of_string "a = b " ++ CRLF ++ of_string "x ".
Proof.
  refine (qp_roundtrip CRLF [of_string "a = b " ++ [CR]; [LF]; of_string "x "] _ qp_unit_line _).
  vm_compute. reflexivity.
Defined.

Example qpwrp_bounds_lines_witness :
  column 4 0 (of_string "a=" ++ CRLF ++ of_string "=3D=" ++ CRLF ++ of_string "b=" ++ CRLF) = Some 0.
Proof.
  refine (proj1 (qpwrp_bounds_lines 4 CRLF [of_string "a=b"] [of_string "a=3D"; of_string "b"]
    [of_string "a=" ++ CRLF ++ of_string "=3D=" ++ CRLF ++ of_string "b=" ++ CRLF] ltac:(lia) qp_unit_line _ _));
  vm_compute; reflexivity.
Defined.
