(* ===== verification/MimeText.v ===== *)
(** * Text filters (luasocket's [mime.c])

    Line wrapping ([mime.wrp]), end-of-line normalisation ([mime.eol]) and SMTP
    dot stuffing ([mime.dot]).  Their context is a number. *)

From S2P Require Import Prelude CString Octets Mime.
#[global] Open Scope Z_scope.

(** ** Line wrapping *)

(** One round of [while (input < last)]; the state is [left]. *)
Definition wrp_step (length : Z) (c : ascii) (left : Z) (buffer : bytes) : Z * bytes :=
  if decide (c = CR) then (left, buffer)
  else if decide (c = LF) then (length, buffer ++ CRLF)
  else
    let '(l, buffer) := if decide (left <= 0) then (length, buffer ++ CRLF) else (left, buffer) in
    (l - 1, buffer ++ [c]).

Definition mime_global_wrp (length left : Z) (B : option bytes) : option bytes * Z :=
  match B with
  | None => (if decide (left < length) then Some CRLF else None, length)
  | Some input =>
      let '(l, buffer) := feed (wrp_step length) input left [] in (Some buffer, l)
  end.

(** ** End-of-line normalisation *)

Definition eolcandidate (c : Z) : bool := bool_decide (c = uc CR \/ c = uc LF).

(** [c] is a plain [char]; as [CR] and [LF] are below 128, its sign does not
    matter to the comparisons. *)
Definition eolprocess (marker : bytes) (c : ascii) (last : Z) (buffer : bytes) : Z * bytes :=
  if eolcandidate (uc c) then
    if eolcandidate last then
      (0, if decide (uc c = last) then buffer ++ marker else buffer)
    else (uc c, buffer ++ marker)
  else (0, buffer ++ [c]).

Definition mime_global_eol (marker : bytes) (ctx : Z) (B : option bytes) : option bytes * Z :=
  match B with
  | None => (None, 0)
  | Some input =>
      let '(ctx, buffer) := feed (eolprocess marker) input ctx [] in (Some buffer, ctx)
  end.

(** ** Dot stuffing *)

Definition DOT : ascii := "."%char.

Definition dot (c : ascii) (state : Z) (buffer : bytes) : Z * bytes :=
  let buffer := buffer ++ [c] in
  if decide (c = CR) then (1, buffer)
  else if decide (c = LF) then (if decide (state = 1) then 2 else 0, buffer)
  else if decide (c = DOT) then
    (0, if decide (state = 2) then buffer ++ [DOT] else buffer)
  else (0, buffer).

Definition mime_global_dot (state : Z) (B : option bytes) : option bytes * Z :=
  match B with
  | None => (None, 2)
  | Some input =>
      let '(state, buffer) := feed dot input state [] in (Some buffer, state)
  end.

(** ** Chained calls

    Each filter feeds the blocks one after the other to the same loop, so only
    their concatenation matters. *)

Lemma stream_feed (step : ascii -> Z -> bytes -> Z * bytes)
    (low : Z -> option bytes -> option bytes * Z) ctx chunks :
  appends step ->
  (forall k B, low k (Some B) = let '(k', b) := feed step B k [] in (Some b, k')) ->
  stream low ctx chunks =
  let '(k, b) := feed step (concat chunks) ctx [] in b ++ default [] (low k None).1.
Proof.
  intros Happ Hlow. revert ctx. induction chunks as [|c chunks IH]; intros ctx; cbn; [done|].
  rewrite Hlow, feed_app. destruct (feed step c ctx []) as [k o]; cbn.
  rewrite IH, (feed_out step Happ _ k o).
  destruct (feed step (concat chunks) k []); cbn. by rewrite app_assoc.
Qed.

Lemma wrp_appends length : appends (wrp_step length).
Proof.
  intros c left buffer. unfold wrp_step.
  repeat (case_decide; cbn); by rewrite <- ?app_assoc, ?app_nil_r.
Qed.

Lemma eol_appends marker : appends (eolprocess marker).
Proof.
  intros c ctx buffer. unfold eolprocess.
  repeat (case_decide || case_match; cbn); by rewrite ?app_nil_r.
Qed.

Lemma dot_appends : appends dot.
Proof.
  intros c state buffer. unfold dot.
  repeat (case_decide; cbn); by rewrite <- ?app_assoc, ?app_nil_r.
Qed.

(** ** Wrapped lines fit *)

Section Wrap.
Context (length : Z) (Hlength : 1 <= length).

(** A character that is not part of a line break. *)
Definition visible (c : ascii) : Prop := ~ (c = CR \/ c = LF).
#[global] Instance visible_dec c : Decision (visible c) := _.

Definition wrapped (s : bytes) (left : Z) (r : Z * bytes) : Prop :=
  filter visible r.2 = filter visible s /\ 0 <= r.1 <= length /\
  column length (length - left) r.2 = Some (length - r.1).

Lemma wrapped_step c left :
  0 <= left <= length -> wrapped [c] left (wrp_step length c left []).
Proof.
  intros Hl. unfold wrapped, wrp_step.
  case_decide as Hcr; [subst; cbn; split; [done|]; split; [lia|done]|].
  case_decide as Hlf; [subst; cbn; split; [done|]; split; [lia|f_equal; lia]|].
  case_decide; cbn [fst snd app]; (split; [done|]); (split; [lia|]).
  - rewrite column_app, column_CRLF. cbn [mbind option_bind].
    rewrite column_1 by (done || lia). f_equal. lia.
  - rewrite column_1 by (done || lia). f_equal. lia.
Qed.

Lemma feed_wrp s left :
  0 <= left <= length -> wrapped s left (feed (wrp_step length) s left []).
Proof.
  revert left. induction s as [|c s IH]; intros left Hl; cbn [feed].
  { split; [done|]. split; [done|]. done. }
  destruct (wrapped_step c left Hl) as (Hv & Hr & Hc).
  destruct (wrp_step length c left []) as [l o]; cbn [fst snd] in *.
  rewrite (feed_out _ (wrp_appends length)).
  destruct (IH l Hr) as (Hv' & Hr' & Hc').
  split; cbn [fst snd]; [|split; [done|by rewrite column_app, Hc]].
  rewrite filter_app, Hv, Hv'. by rewrite <- filter_app.
Qed.

Lemma stream_wrp chunks :
  let out := stream (mime_global_wrp length) length chunks in
  column length 0 out = Some 0 /\ filter visible out = filter visible (concat chunks).
Proof.
  rewrite (stream_feed _ _ _ _ (wrp_appends length)) by done.
  destruct (feed_wrp (concat chunks) length ltac:(lia)) as (Hv & Hr & Hc).
  destruct (feed (wrp_step length) (concat chunks) length []) as [l b]; cbn [fst snd mime_global_wrp] in *.
  replace (length - length) with 0 in Hc by lia.
  rewrite column_app, Hc, filter_app, Hv. cbn [mbind option_bind].
  case_decide; cbn; rewrite app_nil_r; (split; [|done]); [done|f_equal; lia].
Qed.
End Wrap.

(** ** One end-of-line convention *)

(** Lines with [sep] between them. *)
Fixpoint join (sep : bytes) (lines : list bytes) : bytes :=
  match lines with
  | [] => []
  | [l] => l
  | l :: lines' => l ++ sep ++ join sep lines'
  end.

(** The conventions the comment of [mime_global_eol] is about. *)
Definition conventions : list bytes := [[CR]; [LF]; CRLF; [LF; CR]].

Section Eol.
Context (marker : bytes).
Local Abbreviation eol := (feed (eolprocess marker)).

(** The contexts met between lines and line breaks of a convention. *)
Definition between (sep : bytes) (ctx : Z) : Prop := ctx = 0 \/ sep = [CR] /\ ctx = uc CR \/ sep = [LF] /\ ctx = uc LF.

Lemma candidate_octet c : eolcandidate (uc c) = bool_decide (~ visible c).
Proof. for_all_octets c. Qed.

Lemma eol_line l ctx :
  Forall visible l -> eol l ctx [] = (if decide (l = []) then ctx else 0, l).
Proof.
  intros Hl. revert ctx. induction Hl as [|c l Hc Hl IH]; intros ctx; [done|]. cbn [feed].
  unfold eolprocess at 1. rewrite candidate_octet, bool_decide_false by tauto.
  rewrite (feed_out _ (eol_appends marker)), IH. cbn [fst snd app].
  rewrite (decide_False (P := c :: l = [])) by done. by case_decide.
Qed.

Lemma eol_sep sep ctx :
  sep ∈ conventions -> between sep ctx ->
  exists ctx', eol sep ctx [] = (ctx', marker) /\ between sep ctx'.
Proof.
  intros Hsep Hctx. unfold conventions in Hsep. unfold between.
  repeat (apply elem_of_cons in Hsep as [->|Hsep]); [..|by apply not_elem_of_nil in Hsep];
    destruct Hctx as [->|[[? ->]|[? ->]]]; try discriminate; eexists; (split; [reflexivity|]); auto.
Qed.

Lemma eol_join sep lines ctx :
  sep ∈ conventions -> Forall (Forall visible) lines -> between sep ctx ->
  (eol (join sep lines) ctx []).2 = join marker lines.
Proof.
  intros Hsep Hl. revert ctx. induction Hl as [|l lines Hv Hl IH]; intros ctx Hctx; [done|].
  assert (between sep (if decide (l = []) then ctx else 0)) as Hctx' by (case_decide; [done|by left]).
  destruct lines as [|l' lines]; [cbn [join]; by rewrite eol_line|].
  change (join ?s (l :: l' :: lines)) with (l ++ s ++ join s (l' :: lines)).
  rewrite feed_app, eol_line by done. rewrite feed_app, (feed_out _ (eol_appends marker) sep).
  destruct (eol_sep sep _ Hsep Hctx') as (k & -> & Hk). cbn [fst snd].
  rewrite (feed_out _ (eol_appends marker)). cbn [snd]. rewrite IH by done.
  by rewrite <- app_assoc.
Qed.

Lemma stream_eol ctx chunks :
  stream (mime_global_eol marker) ctx chunks = (eol (concat chunks) ctx []).2.
Proof.
  rewrite (stream_feed _ _ _ _ (eol_appends marker)) by done.
  destruct (eol (concat chunks) ctx []); cbn. by rewrite app_nil_r.
Qed.
End Eol.

(** ** Dot stuffing and the receiver *)

(** What an SMTP server does with the message data (RFC 5321, 4.5.2), from the
    place in the line it is at: a line of a single dot ends the message, and
    the first dot of any other line is removed. The message and what follows. *)
Inductive place := MidLine | AfterCR | LineStart.
#[global] Instance place_eq_dec : EqDecision place.
Proof. solve_decision. Defined.

Definition next (p : place) (c : ascii) : place :=
  if decide (c = CR) then AfterCR
  else if decide (c = LF /\ p = AfterCR) then LineStart else MidLine.

Fixpoint smtp_data (p : place) (b : bytes) : option (bytes * bytes) :=
  match b with
  | [] => None
  | c :: b' =>
      let message := '(m, rest) ← smtp_data (next p c) b'; Some (c :: m, rest) in
      if decide (p = LineStart /\ c = DOT) then
        match b' with
        | c1 :: c2 :: rest =>
            if decide (c1 = CR /\ c2 = LF) then Some ([], rest) else smtp_data MidLine b'
        | _ => smtp_data MidLine b'
        end
      else message
  end.

Definition end_of_data : bytes := CRLF ++ [DOT] ++ CRLF.

(** The contexts of [dot]. *)
Definition place_of (state : Z) : place :=
  if decide (state = 2) then LineStart else if decide (state = 1) then AfterCR else MidLine.

Lemma smtp_data_char p c b :
  ~ (p = LineStart /\ c = DOT) ->
  smtp_data p (c :: b) = '(m, rest) ← smtp_data (next p c) b; Some (c :: m, rest).
Proof. intros. cbn [smtp_data]. by rewrite decide_False. Qed.

Lemma smtp_data_stuffed b : smtp_data LineStart (DOT :: DOT :: b) = smtp_data MidLine (DOT :: b).
Proof. by destruct b. Qed.

Lemma dot_step c state :
  dot c state [] =
  (match next (place_of state) c with LineStart => 2 | AfterCR => 1 | MidLine => 0 end,
   if decide (place_of state = LineStart /\ c = DOT) then [DOT; DOT] else [c]).
Proof.
  unfold dot, next, place_of. cbn [app].
  repeat (case_decide; subst; cbn); try done; exfalso; tauto || congruence || naive_solver.
Qed.

Lemma place_of_state p :
  place_of (match p with LineStart => 2 | AfterCR => 1 | MidLine => 0 end) = p.
Proof. by destruct p. Qed.

Lemma dot_sent s state rest :
  smtp_data (place_of state) ((feed dot s state []).2 ++ end_of_data ++ rest) = Some (s ++ CRLF, rest).
Proof.
  revert state. induction s as [|c s IH]; intros state; cbn [feed].
  - by destruct (place_of state).
  - rewrite dot_step, (feed_out _ dot_appends). cbn [snd]. rewrite <- app_assoc.
    set (p := place_of state). case_decide as Hd.
    + destruct Hd as [-> ->]. cbn [app]. rewrite smtp_data_stuffed, smtp_data_char by naive_solver.
      specialize (IH 0). change (place_of 0) with (next MidLine DOT) in IH.
      change (match next LineStart DOT with LineStart => 2 | AfterCR => 1 | MidLine => 0 end) with 0.
      by rewrite IH.
    + cbn [app]. rewrite smtp_data_char by done.
      pose proof (place_of_state (next p c)) as Hp. specialize (IH (match next p c with LineStart => 2 | AfterCR => 1 | MidLine => 0 end)).
      rewrite Hp in IH. by rewrite IH.
Qed.

Lemma stream_dot chunks : stream mime_global_dot 2 chunks = (feed dot (concat chunks) 2 []).2.
Proof.
  rewrite (stream_feed _ _ _ _ dot_appends) by done.
  destruct (feed dot (concat chunks) 2 []); cbn. by rewrite app_nil_r.
Qed.

(** C40: dot stuffing is transparent: whatever the message and however it is cut
    into blocks, a server that receives the stuffed text followed by the end
    mark reads the message itself, ended by a CRLF, and what was sent after the
    mark is left for it to read: no line of the message ends it early. *)
Theorem dot_transparent chunks rest :
  smtp_data LineStart (stream mime_global_dot 2 chunks ++ end_of_data ++ rest) =
  Some (concat chunks ++ CRLF, rest).
Proof. rewrite stream_dot. apply (dot_sent _ 2). Qed.

(** Any one of the four end-of-line conventions is converted exactly: when
    the lines of a text are separated by CR, LF, CRLF or LFCR, [eol] gives the
    same lines separated by the marker, empty lines and all, however the text
    is cut into blocks, even inside a two-character line break. *)
Lemma eol_converts marker sep lines chunks :
  sep ∈ conventions -> Forall (Forall visible) lines -> concat chunks = join sep lines ->
  stream (mime_global_eol marker) 0 chunks = join marker lines.
Proof. intros Hs Hl Hc. rewrite stream_eol, Hc. apply eol_join; [done..|by left]. Qed.

(** Line wrapping: the output of [wrp] has no line of more than [length]
    columns and ends at the beginning of a line, and apart from line breaks it
    is the input, however the input is cut into blocks. *)
Theorem wrp_bounds_lines length chunks :
  1 <= length ->
  let out := stream (mime_global_wrp length) length chunks in
  column length 0 out = Some 0 /\ filter visible out = filter visible (concat chunks).
Proof. intros Hl. by apply stream_wrp. Qed.

Example eol_converts_witness :
  stream (mime_global_eol CRLF) 0 [of_string "a" ++ [LF]; [CR; LF]; CR :: of_string "b"] =
  of_string "a" ++ CRLF ++ CRLF ++ of_string "b".
Proof.
  refine (eol_converts CRLF [LF; CR] [of_string "a"; []; of_string "b"] _ _ _ _);
    [by_decide|by_decide|reflexivity].
Defined.

Example wrp_bounds_lines_witness :
  column 2 0 (of_string "ab" ++ CRLF ++ of_string "c" ++ CRLF) = Some 0.
Proof. exact (proj1 (wrp_bounds_lines 2 [of_string "abc"] ltac:(lia))). Defined.
