(* ===== verification/Pack.v ===== *)
(** * Binary records (the [pack] library, [lpack.c])

    [string.pack] writes its arguments as the format says, [string.unpack]
    reads such records back.  The order of the octets on the machine is a
    parameter; [int] has 4 octets, [long] and [size_t] 8.  The Lua number type is
    a parameter with the conversions C makes on it; that an argument of the other
    type is first converted by the interpreter when it can be is not modelled:
    here it is an argument error.  The values are pushed without
    [lua_checkstack]; the interpreter's stack is taken to have room. *)

From S2P Require Import Prelude CString Octets.
#[global] Open Scope Z_scope.

Definition INT_MAX : Z := 2 ^ 31 - 1.

(** [x + y] of two [int]s. *)
Definition int_add {W} (x y : Z) : C W Z :=
  if decide (- 2 ^ 31 <= x + y <= INT_MAX) then ret (x + y) else stop (Undefined "signed overflow").

(** ** The machine *)

(** Whether the first octet of an integer is the lowest. *)
Class Machine : Type := { little_endian : bool }.

(** The object representation of an integer of [m] octets, and the integer (as an
    unsigned one) that some octets represent. *)
Definition int_bytes `{Machine} (m : nat) (z : Z) : bytes :=
  if little_endian then le_bytes m z else rev (le_bytes m z).
Definition int_value `{Machine} (b : bytes) : Z := le_value (if little_endian then b else rev b).

Lemma length_int_bytes `{Machine} m z : length (int_bytes m z) = m.
Proof. unfold int_bytes. case_match; rewrite ?length_rev; apply length_le_bytes. Qed.

Lemma int_value_bytes `{Machine} m z : int_value (int_bytes m z) = z mod 256 ^ Z.of_nat m.
Proof. unfold int_value, int_bytes. case_match; rewrite ?rev_involutive; apply le_value_bytes. Qed.


(** ** The C types of the format codes *)

Inductive ctype : Type :=
| CInt (size : nat) (signed : bool)
| CDouble
| CFloat.

Definition sizeof (T : ctype) : nat :=
  match T with CInt m _ => m | CDouble => 8%nat | CFloat => 4%nat end.

(** The cases made by [PACKNUMBER] and [UNPACKNUMBER]. *)
Definition number_code (c : ascii) : option ctype :=
  match c with
  | "n" | "d" => Some CDouble
  | "f" => Some CFloat
  | "c" => Some (CInt 1 true)
  | "b" => Some (CInt 1 false)
  | "h" => Some (CInt 2 true)
  | "H" => Some (CInt 2 false)
  | "i" => Some (CInt 4 true)
  | "I" => Some (CInt 4 false)
  | "l" => Some (CInt 8 true)
  | "L" => Some (CInt 8 false)
  | _ => None
  end%char.

(** The cases made by [PACKSTRING] and [UNPACKSTRING]: the size of the length. *)
Definition string_code (c : ascii) : option nat :=
  match c with
  | "p" => Some 1%nat
  | "P" => Some 2%nat
  | "a" => Some 8%nat
  | _ => None
  end%char.

Definition endian_code (c : ascii) : bool :=
  match c with "<" | ">" | "=" => true | _ => false end%char.

Definition blank_code (c : ascii) : bool :=
  match c with " " | "," => true | _ => false end%char.

(** [int x=1; int e=*(char* )&x;] and the tests of the code. *)
Definition doendian `{Machine} (c : ascii) : bool :=
  let e := bool_decide (hd NUL (int_bytes 4 1) <> NUL) in
  if decide (c = "<"%char) then negb e
  else if decide (c = ">"%char) then e
  else false.

(** The loop exchanges [a[i]] and [a[j]], [n] times. *)
Fixpoint swap_loop (n i j : nat) (a : bytes) : bytes :=
  match n with
  | O => a
  | S n' =>
      let t := nth i a NUL in
      let a := <[i := nth j a NUL]> a in
      let a := <[j := t]> a in
      swap_loop n' (S i) (j - 1) a
  end.

Definition doswap (swap : bool) (p : bytes) (n : nat) : bytes :=
  if swap then swap_loop (n / 2) 0 (n - 1) p else p.

Definition badcode {W A} (c : ascii) : C W A :=
  stop (LuaError ("bad code `" ++ String c "'")).

(** ** Counts *)

Definition isdigit (c : ascii) : bool := bool_decide (48 <= uc c <= 57).

(** [while (isdigit( *f)) N=10*N+( *f++)-'0']; [None] when [10*N] plus the character
    leaves the range of [int]. *)
Fixpoint count_digits (N : Z) (f : bytes) : option (Z * bytes) :=
  match f with
  | c :: f' =>
      if isdigit c then
        if decide (10 * N + uc c <= INT_MAX) then count_digits (10 * N + uc c - 48) f' else None
      else Some (N, f)
  | [] => Some (N, [])
  end.

(** The count after a code, 1 when there is none: whether digits were read, the
    count, and the rest of the format. *)
Definition parse_count (f : bytes) : option (bool * Z * bytes) :=
  match f with
  | c :: _ =>
      if isdigit c then
        match count_digits 0 f with
        | Some (N, f') => Some (true, N, f')
        | None => None
        end
      else Some (false, 1, f)
  | [] => Some (false, 1, [])
  end.

Definition read_count {W} (f : bytes) : C W (bool * Z * bytes) :=
  match parse_count f with
  | Some r => ret r
  | None => stop (Undefined "signed overflow of a repeat count")
  end.

(** ** Lua numbers *)

Class LuaNumber (num : Type) : Type := {
  of_int : Z -> num;            (** [(lua_Number) a] *)
  to_int : num -> Z;            (** the value without its fraction *)
  of_double : bytes -> num;     (** the object representation of a [double] *)
  double_repr : num -> bytes;
  of_float : bytes -> num;      (** the same of a [float] *)
  float_repr : num -> bytes
}.

(** What the conversions promise (IEEE 754 binary64 and binary32). *)
Class LuaNumberLaws (num : Type) `{LuaNumber num} : Prop := {
  to_of_int : forall z, - 2 ^ 53 <= z <= 2 ^ 53 -> to_int (of_int z) = z;
  of_double_repr : forall x, of_double (double_repr x) = x;
  length_double_repr : forall x, length (double_repr x) = 8%nat;
  length_float_repr : forall x, length (float_repr x) = 4%nat
}.

Section Pack.
Context {num : Type} `{LuaNumber num} `{Machine}.

Inductive value : Type :=
| Nil
| Num (x : num)
| Str (s : bytes).

(** The values of an integer type. *)
Definition int_min (m : nat) (signed : bool) : Z := if signed then - (256 ^ Z.of_nat m / 2) else 0.
Definition int_max (m : nat) (signed : bool) : Z :=
  if signed then 256 ^ Z.of_nat m / 2 - 1 else 256 ^ Z.of_nat m - 1.

(** The object representation of [(T) x]; a number outside the range of an
    integer type has no defined conversion. *)
Definition to_repr {W} (T : ctype) (x : num) : C W bytes :=
  match T with
  | CInt m signed =>
      if decide (int_min m signed <= to_int x <= int_max m signed) then ret (int_bytes m (to_int x))
      else stop (Undefined "number outside the range of the integer type")
  | CDouble => ret (double_repr x)
  | CFloat => ret (float_repr x)
  end.

(** The [lua_Number] of an object of type [T]. *)
Definition of_repr (T : ctype) (b : bytes) : num :=
  match T with
  | CInt m signed =>
      let z := int_value b in of_int (if decide (z <= int_max m signed) then z else z - 256 ^ Z.of_nat m)
  | CDouble => of_double b
  | CFloat => of_float b
  end.

(** ** Packing *)

Record packer : Type := Packer { pi : nat; pswap : bool; pb : bytes }.

Definition luaL_checknumber (args : list value) : C packer num :=
  let! st := get in
  match args !! pi st with
  | Some (Num x) => put (Packer (S (pi st)) (pswap st) (pb st)) ;;; ret x
  | _ => stop (LuaError "number expected")
  end.

Definition luaL_checklstring (args : list value) : C packer bytes :=
  let! st := get in
  match args !! pi st with
  | Some (Str s) => put (Packer (S (pi st)) (pswap st) (pb st)) ;;; ret s
  | _ => stop (LuaError "string expected")
  end.

Definition luaL_addlstring (s : bytes) : C packer unit :=
  modify (fun st => Packer (pi st) (pswap st) (pb st ++ s)).

(** The cases that the two macros make; [m] is the size of the length's type. *)
Definition PACKNUMBER (args : list value) (T : ctype) (N : Z) : C packer Z :=
  let! x := luaL_checknumber args in
  let! a := to_repr T x in
  let! st := get in
  luaL_addlstring (doswap (pswap st) a (sizeof T)) ;;;
  ret N.

Definition PACKSTRING (args : list value) (m : nat) (N : Z) : C packer Z :=
  let! a := luaL_checklstring args in
  let ll := int_bytes m (Z.of_nat (length a)) in
  let! st := get in
  luaL_addlstring (doswap (pswap st) ll m) ;;;
  luaL_addlstring a ;;;
  ret N.

(** The [switch] of [l_pack], with the count left after [N--]; the count it
    leaves. *)
Definition pack_case (args : list value) (c : ascii) (N : Z) : C packer Z :=
  if endian_code c then
    modify (fun st => Packer (pi st) (doendian c) (pb st)) ;;; ret 0
  else if decide (c = "A"%char \/ c = "z"%char) then
    let! a := luaL_checklstring args in
    luaL_addlstring (if decide (c = "z"%char) then a ++ [NUL] else a) ;;;
    ret N
  else match string_code c with
  | Some m => PACKSTRING args m N
  | None =>
  match number_code c with
  | Some T => PACKNUMBER args T N
  | None => if blank_code c then ret N else badcode c
  end end.

(** [while (N--) switch (c)]. *)
Definition pack_code (args : list value) (c : ascii) (N : Z) : C packer unit :=
  loop (S (Z.to_nat N)) (fun N =>
    if decide (N = 0) then ret (inr tt)
    else let! N' := pack_case args c (N - 1) in ret (inl N')) N.

Definition pack_round (args : list value) (f : bytes) : C packer (bytes + unit) :=
  match f with
  | [] => ret (inr tt)
  | c :: f' =>
      let! '(_, N, f'') := read_count f' in
      pack_code args c N ;;;
      ret (inl f'')
  end.

(** [args] are the arguments after the format. *)
Definition l_pack (f : bytes) (args : list value) : outcome bytes :=
  let '(o, st) := loop (S (length (cstr f))) (pack_round args) (cstr f) (Packer 0 false []) in
  match o with Ok _ => Ok (pb st) | Stop e => Stop e end.

(** ** Unpacking *)

Record unpacker : Type := Unpacker { ui : Z; uswap : bool; ustack : list value }.

Definition lua_push (v : value) : C unpacker unit :=
  modify (fun st => Unpacker (ui st) (uswap st) (ustack st ++ [v])).
Definition set_i (i : Z) : C unpacker unit :=
  modify (fun st => Unpacker i (uswap st) (ustack st)).

(** [m] octets at [s + i]: the string and its terminating NUL can be read. *)
Definition peek {W} (s : bytes) (i m : Z) : C W bytes :=
  if decide (0 <= i /\ 0 <= m /\ i + m <= Z.of_nat (length s) + 1) then
    ret (take (Z.to_nat m) (drop (Z.to_nat i) (s ++ [NUL])))
  else stop (Undefined "read outside the string").

(** What is left of the count, or [goto done]. *)
Inductive control : Type := Next (N : Z) | Done.

(** The cases that the two macros make. *)
Definition UNPACKNUMBER (s : bytes) (T : ctype) (N : Z) : C unpacker control :=
  let len := Z.of_nat (length s) in
  let! st := get in
  let i := ui st in
  let m := sizeof T in
  let! e := int_add i (Z.of_nat m) in
  if decide (u64 e > len) then ret Done
  else
    let! a := peek s i (Z.of_nat m) in
    set_i e ;;;
    lua_push (Num (of_repr T (doswap (uswap st) a m))) ;;;
    ret (Next N).

(** [i+l] for a length [l] of [m] octets: the sum is a [size_t] when [l] is one,
    and an [int] when [l] is converted to [int]. *)
Definition add_length {W} (m : nat) (i l : Z) : C W Z :=
  if decide (m = 8%nat) then ret (u64 (i + l)) else int_add i l.

Definition UNPACKSTRING (s : bytes) (m : nat) (N : Z) : C unpacker control :=
  let len := Z.of_nat (length s) in
  let! st := get in
  let i := ui st in
  let! e := int_add i (Z.of_nat m) in
  if decide (u64 e > len) then ret Done
  else
    let! b := peek s i (Z.of_nat m) in
    let l := int_value (doswap (uswap st) b m) in
    let! e' := add_length m e l in
    if decide (u64 e' > len) then ret Done
    else
      let! a := peek s e l in
      lua_push (Str a) ;;; set_i (i32 e') ;;; ret (Next N).

(** The [switch] of [l_unpack]. *)
Definition unpack_case (s : bytes) (c : ascii) (N : Z) : C unpacker control :=
  let len := Z.of_nat (length s) in
  let! st := get in
  let i := ui st in
  if endian_code c then
    modify (fun st => Unpacker (ui st) (doendian c) (ustack st)) ;;; ret (Next 0)
  else if decide (c = "A"%char) then
    let! N := int_add N 1 in
    let! e := int_add i N in
    if decide (u64 e > len) then ret Done
    else
      let! a := peek s i N in
      lua_push (Str a) ;;; set_i e ;;; ret (Next 0)
  else if decide (c = "z"%char) then
    if decide (u64 i >= len) then ret Done
    else
      let l := cstr (drop (Z.to_nat i) s) in
      lua_push (Str l) ;;; set_i (i32 (u64 (i + Z.of_nat (length l) + 1))) ;;; ret (Next N)
  else match string_code c with
  | Some m => UNPACKSTRING s m N
  | None =>
  match number_code c with
  | Some T => UNPACKNUMBER s T N
  | None => if blank_code c then ret (Next N) else badcode c
  end end.

(** [while (N--) switch (c)]: whether the end of the data was reached. *)
Definition unpack_code (s : bytes) (c : ascii) (N : Z) : C unpacker bool :=
  loop (S (Z.to_nat N)) (fun N =>
    if decide (N = 0) then ret (inr false)
    else
      let! r := unpack_case s c (N - 1) in
      ret (match r with Next N' => inl N' | Done => inr true end)) N.

Definition unpack_round (s f : bytes) : C unpacker (bytes + unit) :=
  match f with
  | [] => ret (inr tt)
  | c :: f' =>
      let! '(digits, N, f'') := read_count f' in
      (if decide (digits = true /\ N = 0 /\ c = "A"%char) then lua_push (Str []) else ret tt) ;;;
      let! over := unpack_code s c N in
      ret (if (over : bool) then inr tt else inl f'')
  end.

(** The values returned: the position takes the place of the [nil] pushed
    first.  [init] is the third argument, or 1, as the interpreter converts it. *)
Definition l_unpack (s f : bytes) (init : Z) : outcome (list value) :=
  if decide (- 2 ^ 31 <= init - 1 <= INT_MAX) then
    let '(o, st) :=
      (loop (S (length (cstr f))) (unpack_round s) (cstr f) ;;;
       let! st := get in int_add (ui st) 1) (Unpacker (init - 1) false [Nil]) in
    match o with
    | Ok i => Ok (<[0%nat := Num (of_int i)]> (ustack st))
    | Stop e => Stop e
    end
  else Stop (Undefined "number outside the range of the integer type").
End Pack.


(** ** Swapping octets *)

Lemma doswap_length sw p n : n ∈ [1; 2; 4; 8]%nat -> length p = n -> length (doswap sw p n) = n.
Proof.
  intros Hn Hp. destruct sw; [|done]. subst n.
  destruct p as [|c0 [|c1 [|c2 [|c3 [|c4 [|c5 [|c6 [|c7 [|c8 p]]]]]]]]]; try done;
    exfalso; cbn in Hn; rewrite !elem_of_cons, elem_of_nil in Hn; lia.
Qed.

(** Twice swapped, the octets are back in order. *)
Lemma doswap_twice sw p n :
  n ∈ [1; 2; 4; 8]%nat -> length p = n -> doswap sw (doswap sw p n) n = p.
Proof.
  intros Hn Hp. destruct sw; [|done]. subst n.
  destruct p as [|c0 [|c1 [|c2 [|c3 [|c4 [|c5 [|c6 [|c7 [|c8 p]]]]]]]]]; try done;
    exfalso; cbn in Hn; rewrite !elem_of_cons, elem_of_nil in Hn; lia.
Qed.

Lemma string_code_size c m : string_code c = Some m -> m ∈ [1; 2; 4; 8]%nat.
Proof.
  assert (from_option (fun m => bool_decide (m ∈ [1; 2; 4; 8]%nat)) true (string_code c) = true) as Hc
    by for_all_octets c.
  intros Hm. rewrite Hm in Hc. by apply bool_decide_eq_true in Hc.
Qed.

Lemma number_code_size c T : number_code c = Some T -> sizeof T ∈ [1; 2; 4; 8]%nat.
Proof.
  assert (from_option (fun T => bool_decide (sizeof T ∈ [1; 2; 4; 8]%nat)) true (number_code c) = true)
    as Hc by for_all_octets c.
  intros Hm. rewrite Hm in Hc. by apply bool_decide_eq_true in Hc.
Qed.

Lemma of_size n : n ∈ [1; 2; 4; 8]%nat -> (0 < n <= 8)%nat.
Proof. rewrite !elem_of_cons, elem_of_nil. lia. Qed.

(** ** Counts *)

Lemma count_digits_spec N f N' f' :
  0 <= N -> count_digits N f = Some (N', f') -> 0 <= N' /\ exists pre, f = pre ++ f'.
Proof.
  revert N. induction f as [|c f IH]; intros N HN; cbn; [intros [= <- <-]; by split; [|exists []]|].
  destruct (isdigit c) eqn:Hd; [|intros [= <- <-]; by split; [|exists []]].
  unfold isdigit in Hd. apply bool_decide_eq_true in Hd.
  case_decide; [|done]. intros (? & pre & ->)%IH; [|lia]. split; [done|]. by exists (c :: pre).
Qed.

Lemma parse_count_spec f d N f' :
  parse_count f = Some (d, N, f') -> 0 <= N /\ exists pre, f = pre ++ f'.
Proof.
  unfold parse_count. destruct f as [|c f]; [intros [= <- <- <-]; by split; [|exists []]|].
  destruct (isdigit c); [|intros [= <- <- <-]; by split; [|exists []]].
  destruct (count_digits 0 (c :: f)) as [[N1 f1]|] eqn:Hc; [|done]. intros [= <- <- <-].
  by apply (count_digits_spec 0 (c :: f)).
Qed.

(** ** Reading back what was written *)

Section RoundTrip.
Context {num : Type} `{LuaNumberLaws num} `{Machine}.
Implicit Types (args vs : list (@value num)).

(** The argument is of the kind this code writes, and comes back unchanged from its
    field. *)
Definition fits (c : ascii) (a : @value num) : Prop :=
  match a with
  | Nil => False
  | Num x =>
      match number_code c with
      | Some (CInt _ _) => of_int (to_int x) = x
      | Some CDouble => True
      | Some CFloat => of_float (float_repr x) = x
      | None => False
      end
  | Str s =>
      (c = "z"%char /\ no_nul s) \/ exists m, string_code c = Some m /\ Z.of_nat (length s) < 256 ^ Z.of_nat m
  end.

Lemma peek_field {W} pre w post (st : W) :
  let s := pre ++ w ++ post in
  peek s (Z.of_nat (length pre)) (Z.of_nat (length w)) st = (Ok w, st).
Proof.
  unfold peek. rewrite decide_True by (rewrite !length_app; lia).
  rewrite !Nat2Z.id, <- app_assoc, drop_app_length, <- app_assoc, take_app_length. done.
Qed.

Lemma length_repr {W} T x b (st st' : W) :
  to_repr T x st = (Ok b, st') -> st' = st /\ length b = sizeof T.
Proof.
  destruct T as [m signed| |]; cbn; [case_decide|..]; intros [= <- <-];
    auto using length_int_bytes, length_double_repr, length_float_repr.
Qed.

Lemma repr_back {W} c T x b (st st' : W) :
  number_code c = Some T -> fits c (Num x) -> to_repr T x st = (Ok b, st') -> of_repr T b = x.
Proof.
  intros Hc Hf. cbn in Hf. rewrite Hc in Hf. destruct T as [m signed| |]; cbn.
  - case_decide as Hr; intros [= <- <-]. rewrite int_value_bytes.
    assert (0 < 256 ^ Z.of_nat m) by (apply Z.pow_pos_nonneg; lia).
    etrans; [|exact Hf]. f_equal. revert Hr. unfold int_min, int_max.
    generalize (to_int x) as z. generalize dependent (256 ^ Z.of_nat m). intros M HM z Hr.
    destruct (decide (0 <= z)).
    + rewrite Z.mod_small by (destruct signed; div_lia). rewrite decide_True by (destruct signed; div_lia). done.
    + destruct signed; [|div_lia]. rewrite <- (Z.mod_add z 1 M), Z.mod_small by div_lia.
      rewrite decide_False by div_lia. lia.
  - intros [= <- <-]. apply of_double_repr.
  - intros [= <- <-]. done.
Qed.

(** [mirrors cs m u g]: when the packing step [m] succeeds on arguments that fit
    fields of the codes [cs] it has consumed these and appended some octets; on any
    string that holds the octets where the unpacking step [u] stands, [u] gives
    back the same arguments and moves past the octets, with the result [g] makes of
    the one of [m]. *)
Definition small (s : bytes) : Prop := Z.of_nat (length s) + 2 <= INT_MAX.

Definition mirrors {A B} (args : list (@value num)) (cs : list ascii) (m : C packer A)
    (u : bytes -> C (@unpacker num) B) (g : A -> B) : Prop :=
  forall p sw b a st', let vs := take (length cs) (drop p args) in
  Forall2 fits cs vs -> m (Packer p sw b) = (Ok a, st') ->
  exists w sw',
    st' = Packer (p + length cs) sw' (b ++ w) /\
    forall pre post stk, small (pre ++ w ++ post) ->
      u (pre ++ w ++ post) (Unpacker (Z.of_nat (length pre)) sw stk) =
        (Ok (g a), Unpacker (Z.of_nat (length (pre ++ w))) sw' (stk ++ vs)).

Context (args : list (@value num)).

Lemma mirrors_ret {A B} (a : A) (g : A -> B) : mirrors args [] (ret a) (fun _ => ret (g a)) g.
Proof.
  intros p sw b a' st' vs _ [= <- <-]. exists [], sw. rewrite !app_nil_r, Nat.add_0_r.
  split; [done|]. intros pre post stk _. by rewrite !app_nil_r.
Qed.

Lemma bind_ok {W A B} (m : C W A) (k : A -> C W B) st b st' :
  bind m k st = (Ok b, st') -> exists a st1, m st = (Ok a, st1) /\ k a st1 = (Ok b, st').
Proof. unfold bind. destruct (m st) as [[a|f] st1]; [eauto|done]. Qed.

Lemma bind_ok_intro {W A B} (m : C W A) (k : A -> C W B) st a st1 :
  m st = (Ok a, st1) -> bind m k st = k a st1.
Proof. unfold bind. by intros ->. Qed.

Lemma int_add_ok {W} x y (st : W) : - 2 ^ 31 <= x + y <= INT_MAX -> int_add x y st = (Ok (x + y), st).
Proof. intros. unfold int_add. by rewrite decide_True. Qed.

Lemma fits_app cs1 cs2 p :
  Forall2 fits (cs1 ++ cs2) (take (length (cs1 ++ cs2)) (drop p args)) ->
  Forall2 fits cs1 (take (length cs1) (drop p args)) /\
  Forall2 fits cs2 (take (length cs2) (drop (p + length cs1) args)) /\
  take (length (cs1 ++ cs2)) (drop p args) =
    take (length cs1) (drop p args) ++ take (length cs2) (drop (p + length cs1) args).
Proof.
  rewrite length_app, <- take_take_drop, drop_drop. intros (l1 & l2 & Hf1 & Hf2 & Heq)%Forall2_app_inv_l.
  apply Forall2_length in Hf1 as Hl1. apply Forall2_length in Hf2 as Hl2.
  assert (length (take (length cs1) (drop p args)) = length l1) as Hl.
  { apply (f_equal length) in Heq. rewrite !length_app, !length_take, !length_drop in Heq.
    rewrite length_take, length_drop. lia. }
  apply app_inj_1 in Heq as [-> ->]; [|done]. done.
Qed.

Lemma mirrors_bind {A B A' B'} cs1 cs2 (m : C packer A) u (g : A -> B)
    (k : A -> C packer A') (k' : bytes -> B -> C unpacker B') (g' : A' -> B') :
  mirrors args cs1 m u g ->
  (forall a st st', m st = (Ok a, st') -> mirrors args cs2 (k a) (fun s => k' s (g a)) g') ->
  mirrors args (cs1 ++ cs2) (bind m k) (fun s => bind (u s) (k' s)) g'.
Proof.
  intros Hm Hk p sw b a st' vs (Hf1 & Hf2 & Hvs)%fits_app (a1 & st1 & Hm1 & Hm2)%bind_ok.
  destruct (Hm _ _ _ _ _ Hf1 Hm1) as (w1 & sw1 & -> & Hu1).
  destruct (Hk a1 _ _ Hm1 _ _ _ _ _ Hf2 Hm2) as (w2 & sw2 & -> & Hu2).
  exists (w1 ++ w2), sw2. unfold vs. rewrite Hvs, length_app, <- app_assoc, Nat.add_assoc.
  split; [done|]. intros pre post stk Hs. rewrite <- app_assoc in Hs |- *.
  erewrite bind_ok_intro by by apply (Hu1 pre (w2 ++ post)).
  rewrite !(app_assoc pre) in Hs |- *. rewrite Hu2 by done. by rewrite !app_assoc.
Qed.

(** The fields of a case: one for each argument it consumes. *)
Definition fields_of (c : ascii) : list ascii :=
  if endian_code c || blank_code c then [] else [c].

Lemma checknumber_ok p sw b x st' :
  luaL_checknumber args (Packer p sw b) = (Ok x, st') ->
  args !! p = Some (Num x) /\ st' = Packer (S p) sw b.
Proof.
  unfold luaL_checknumber, bind, get; cbn.
  destruct (args !! p) as [[]|]; try done. by intros [= -> <-].
Qed.

Lemma checklstring_ok p sw b s st' :
  luaL_checklstring args (Packer p sw b) = (Ok s, st') ->
  args !! p = Some (Str s) /\ st' = Packer (S p) sw b.
Proof.
  unfold luaL_checklstring, bind, get; cbn.
  destruct (args !! p) as [[]|]; try done. by intros [= -> <-].
Qed.

Lemma take_one p a : args !! p = Some a -> take 1 (drop p args) = [a].
Proof. intros Ha. by rewrite (drop_S _ a). Qed.

(** One field written and read: [w] holds the octets of [v]. *)
Lemma mirrors_one {A B} c (m : C packer A) (u : bytes -> C unpacker B) (g : A -> B) :
  (forall p sw b a st', m (Packer p sw b) = (Ok a, st') ->
    exists v w, args !! p = Some v /\ st' = Packer (S p) sw (b ++ w) /\
    (fits c v -> forall pre post stk, small (pre ++ w ++ post) ->
      u (pre ++ w ++ post) (Unpacker (Z.of_nat (length pre)) sw stk) =
        (Ok (g a), Unpacker (Z.of_nat (length (pre ++ w))) sw (stk ++ [v])))) ->
  mirrors args [c] m u g.
Proof.
  intros Hone p sw b a st' vs Hf Hm. destruct (Hone _ _ _ _ _ Hm) as (v & w & Hv & -> & Hu).
  exists w, sw. subst vs. cbn [length] in *. rewrite (take_one _ _ Hv) in *. rewrite Nat.add_1_r.
  apply Forall2_cons in Hf as [Hf _]. auto.
Qed.

Lemma peek_at {W} (s pre w post : bytes) i m (st : W) :
  s = pre ++ w ++ post -> i = Z.of_nat (length pre) -> m = Z.of_nat (length w) ->
  peek s i m st = (Ok w, st).
Proof. intros -> -> ->. apply peek_field. Qed.

Lemma mirrors_number c T N :
  number_code c = Some T ->
  mirrors args [c] (PACKNUMBER args T N) (fun s => UNPACKNUMBER s T N) Next.
Proof.
  intros HT. apply mirrors_one.
  intros p sw b a st' (x & st1 & [Hx ->]%checknumber_ok & Hm)%bind_ok.
  apply bind_ok in Hm as (r & st2 & Hr & Hm).
  destruct (length_repr _ _ _ _ _ Hr) as [-> Hlr].
  exists (Num x), (doswap sw r (sizeof T)). split; [done|].
  pose proof (number_code_size c T HT) as Hsz. pose proof (of_size _ Hsz) as Hle.
  pose proof (doswap_length sw r _ Hsz Hlr) as Hld.
  cbn in Hm. injection Hm as <- <-. split; [done|].
  intros Hf pre post stk Hs. unfold small, INT_MAX in Hs. rewrite !length_app, Hld in Hs.
  unfold UNPACKNUMBER, bind at 1, get at 1. cbn [ui uswap].
  erewrite bind_ok_intro by (apply int_add_ok; unfold INT_MAX; lia).
  rewrite decide_False by (unfold u64; rewrite Z.mod_small, !length_app, Hld; lia).
  erewrite bind_ok_intro by (apply (peek_at _ pre (doswap sw r (sizeof T)) post); [done|done|by rewrite Hld]).
  rewrite doswap_twice by done. rewrite (repr_back c T x r _ _ HT Hf Hr). rewrite length_app, Hld.
  by rewrite Nat2Z.inj_add.
Qed.

Lemma add_length_ok {W} m x y (st : W) :
  0 <= x + y <= INT_MAX -> add_length m x y st = (Ok (x + y), st).
Proof.
  intros Hr. unfold INT_MAX in Hr. unfold add_length. case_decide; [|apply int_add_ok; unfold INT_MAX; lia].
  unfold u64. by rewrite Z.mod_small by lia.
Qed.

Lemma mirrors_string c m N :
  string_code c = Some m ->
  mirrors args [c] (PACKSTRING args m N) (fun s => UNPACKSTRING s m N) Next.
Proof.
  intros Hm. apply mirrors_one.
  intros p sw b n st' (a & st1 & [Ha ->]%checklstring_ok & Hn)%bind_ok.
  pose proof (string_code_size c m Hm) as Hsz. pose proof (of_size _ Hsz) as Hle.
  pose proof (length_int_bytes m (Z.of_nat (length a))) as Hll.
  pose proof (doswap_length sw _ m Hsz Hll) as Hld.
  cbn in Hn. injection Hn as <- <-.
  exists (Str a), (doswap sw (int_bytes m (Z.of_nat (length a))) m ++ a).
  split; [done|]. split; [by rewrite app_assoc|]. intros Hf pre post stk Hs.
  assert (Z.of_nat (length a) < 256 ^ Z.of_nat m) as Hlen.
  { destruct Hf as [[-> _]|(m' & Hm' & Hlen)]; [done|]. rewrite Hm in Hm'. by injection Hm' as ->. }
  set (ll := doswap sw _ m) in *. set (s := pre ++ (ll ++ a) ++ post) in *.
  assert (length s = length pre + m + length a + length post)%nat as Hls by
    (unfold s; rewrite !length_app, Hld; lia).
  unfold small, INT_MAX in Hs. rewrite Hls in Hs.
  unfold UNPACKSTRING, bind at 1, get at 1. cbn [ui uswap].
  erewrite bind_ok_intro by (apply int_add_ok; unfold INT_MAX; lia).
  rewrite decide_False by (unfold u64; rewrite Z.mod_small; lia).
  erewrite bind_ok_intro by (apply (peek_at s pre ll (a ++ post)); [unfold s; by rewrite <- app_assoc|done|by rewrite Hld]).
  assert (int_value (doswap sw ll m) = Z.of_nat (length a)) as ->.
  { unfold ll. rewrite doswap_twice by done. rewrite int_value_bytes, Z.mod_small; lia. }
  erewrite bind_ok_intro by (apply add_length_ok; unfold INT_MAX; lia).
  rewrite decide_False by (unfold u64; rewrite Z.mod_small; lia).
  erewrite bind_ok_intro by (apply (peek_at s (pre ++ ll) a post);
    [unfold s; by rewrite <- !app_assoc|rewrite length_app; lia|done]).
  unfold bind, lua_push, set_i, modify, ret. cbn [uswap ustack]. rewrite i32_small by lia. repeat f_equal.
  rewrite !length_app. lia.
Qed.

Lemma mirrors_zstring N :
  mirrors args ["z"%char]
    (let! a := luaL_checklstring args in luaL_addlstring (a ++ [NUL]) ;;; ret N)
    (fun s => let! st := get in
      let i := ui st in
      if decide (u64 i >= Z.of_nat (length s)) then ret Done
      else
        let l := cstr (drop (Z.to_nat i) s) in
        lua_push (Str l) ;;; set_i (i32 (u64 (i + Z.of_nat (length l) + 1))) ;;; ret (Next N)) Next.
Proof.
  apply mirrors_one.
  intros p sw b n st' (a & st1 & [Ha ->]%checklstring_ok & Hn)%bind_ok.
  cbn in Hn. injection Hn as <- <-. exists (Str a), (a ++ [NUL]).
  split; [done|]. split; [done|]. intros Hf pre post stk Hs.
  assert (no_nul a) as Hz by (by destruct Hf as [[_ Hz]|(m & Hm & _)]).
  unfold small, INT_MAX in Hs. rewrite !length_app in Hs. cbn [length] in Hs.
  unfold bind at 1, get at 1. cbn [ui].
  rewrite decide_False by (unfold u64; rewrite Z.mod_small, !length_app by lia; cbn [length]; lia).
  rewrite Nat2Z.id, drop_app_length, <- app_assoc.
  change (a ++ [NUL] ++ post) with (a ++ NUL :: post). rewrite cstr_app_nul by auto.
  unfold bind, lua_push, set_i, modify, ret. cbn [ui uswap ustack].
  unfold u64. rewrite Z.mod_small, i32_small by lia. repeat f_equal. rewrite !length_app. cbn. lia.
Qed.

Lemma mirrors_endian c :
  mirrors args []
    (modify (fun st => Packer (pi st) (doendian c) (pb st)) ;;; ret 0)
    (fun s => let! st := get in
      modify (fun st => Unpacker (ui st) (doendian c) (ustack st)) ;;; ret (Next 0)) Next.
Proof.
  intros p sw b n st' vs _ Hm. cbn in Hm. injection Hm as <- <-.
  exists [], (doendian c). rewrite !app_nil_r, Nat.add_0_r. split; [done|].
  intros pre post stk _. by rewrite !app_nil_r.
Qed.

Lemma code_kinds c :
  (endian_code c = true -> c <> "z"%char) /\ (c = "z"%char -> endian_code c = false /\ blank_code c = false) /\
  (is_Some (string_code c) -> endian_code c = false /\ blank_code c = false) /\
  (is_Some (number_code c) -> endian_code c = false /\ blank_code c = false).
Proof. for_all_octets c. Qed.

Lemma pack_case_mirrors c N :
  c <> "A"%char ->
  mirrors args (fields_of c) (pack_case args c N) (fun s => unpack_case s c N) Next.
Proof.
  intros HA. destruct (code_kinds c) as (_ & Hz & Hs & Hn).
  unfold pack_case, unpack_case, fields_of.
  destruct (endian_code c) eqn:He; [apply (mirrors_endian c)|]. cbn [orb].
  destruct (decide (c = "z"%char)) as [->|Hnz].
  { rewrite (decide_True (P := "z"%char = "A"%char \/ "z"%char = "z"%char)) by auto.
    destruct (Hz eq_refl) as [_ ->]. by apply mirrors_zstring. }
  rewrite decide_False by tauto. destruct (decide (c = "A"%char)); [done|].
  destruct (string_code c) as [m|] eqn:Hm.
  { destruct (Hs ltac:(done)) as [_ ->]. by apply (mirrors_string c m N). }
  destruct (number_code c) as [T|] eqn:HT.
  { destruct (Hn ltac:(done)) as [_ ->]. by apply (mirrors_number c T N). }
  destruct (blank_code c); [|by intros ? ? ? ? ? ? ?].
  intros p sw b n' st' vs Hf Hr. by apply (mirrors_ret N Next p sw b n' st' Hf Hr).
Qed.

Lemma pack_case_count c N N' st st' :
  pack_case args c N st = (Ok N', st') -> N' = if endian_code c then 0 else N.
Proof.
  unfold pack_case. destruct (endian_code c); [by intros [= <- _]|].
  case_decide; [|case_match; [|case_match; [|by case_match; intros [= <- _]]]]; intros Hr;
    repeat (apply bind_ok in Hr as (? & ? & _ & Hr)); by injection Hr as <- _.
Qed.

Lemma mirrors_ext {A B} cs (m m' : C packer A) (u u' : bytes -> C unpacker B) (g : A -> B) :
  (forall st, m st = m' st) -> (forall s st, u s st = u' s st) ->
  mirrors args cs m' u' g -> mirrors args cs m u g.
Proof.
  intros Hm Hu Hmir p sw b a st' vs Hf. rewrite Hm. intros (w & sw' & ? & Hw)%(Hmir _ _ _ _ _ Hf).
  exists w, sw'. setoid_rewrite Hu. auto.
Qed.

Lemma bind_map {W A B D} (m : C W A) (h : A -> B) (k : B -> C W D) st :
  bind (bind m (fun a => ret (h a))) k st = bind m (fun a => k (h a)) st.
Proof. unfold bind. by destruct (m st) as [[]]. Qed.

(** [k] times the same fields. *)
Definition repeated (k : nat) (c : ascii) : list ascii := concat (replicate k (fields_of c)).

(** The count of a code, and what is left of it. *)
Lemma mirrors_repeat c k N :
  c <> "A"%char -> 0 <= N -> Z.to_nat N = k ->
  mirrors args (repeated k c)
    (loop (S k) (fun N => if decide (N = 0) then ret (inr tt)
       else let! N' := pack_case args c (N - 1) in ret (inl N')) N)
    (fun s => loop (S k) (fun N => if decide (N = 0) then ret (inr false)
       else let! r := unpack_case s c (N - 1) in
            ret (match r with Next N' => inl N' | Done => inr true end)) N)
    (fun _ => false).
Proof.
  intros HA. revert N. induction k as [|k IH]; intros N HN Hk.
  - assert (N = 0) as -> by lia. apply (mirrors_ret tt (fun _ => false)).
  - assert (N <> 0) by lia.
    eapply mirrors_ext.
    + intros st. rewrite loop_S, decide_False by done. apply bind_map.
    + intros s st. rewrite loop_S, decide_False by done. apply bind_map.
    + unfold repeated. cbn [replicate concat]. eapply mirrors_bind; [by apply pack_case_mirrors|].
      intros N' st st' Hc%pack_case_count. cbv beta iota.
      destruct (endian_code c) eqn:He; subst N'.
      * assert (concat (replicate k (fields_of c)) = []) as ->.
        { unfold fields_of. rewrite He. clear. by induction k. }
        apply (mirrors_ret tt (fun _ => false)).
      * apply IH; lia.
Qed.

(** The fields of a format, one for each argument it consumes. *)
Fixpoint fields (n : nat) (f : bytes) : list ascii :=
  match n, f with
  | S n', c :: f' =>
      match parse_count f' with
      | Some (_, N, f'') => repeated (Z.to_nat N) c ++ fields n' f''
      | None => []
      end
  | _, _ => []
  end.

Definition format_fields (f : bytes) : list ascii := fields (S (length (cstr f))) (cstr f).

Lemma pack_round_eq n c f d N f' st :
  parse_count f = Some (d, N, f') ->
  loop (S n) (pack_round args) (c :: f) st =
  (pack_code args c N ;;; loop n (pack_round args) f') st.
Proof.
  intros Hp. rewrite loop_S. unfold pack_round at 1, read_count. rewrite Hp.
  unfold bind, ret. by destruct (pack_code args c N st) as [[]].
Qed.

Lemma unpack_round_eq n (s : bytes) c f d N f' (st : @unpacker num) :
  parse_count f = Some (d, N, f') -> c <> "A"%char ->
  loop (S n) (unpack_round s) (c :: f) st =
  (let! over := unpack_code s c N in
   match (if (over : bool) then inr tt else inl f') with
   | inl f' => loop n (unpack_round s) f'
   | inr a => ret a
   end) st.
Proof.
  intros Hp Hc. rewrite loop_S. unfold unpack_round at 1, read_count. rewrite Hp.
  unfold bind at 2, ret at 1. rewrite decide_False by tauto.
  unfold bind, ret. by destruct (unpack_code s c N st) as [[[]|]].
Qed.

Lemma mirrors_loop n f :
  "A"%char ∉ f ->
  mirrors args (fields n f) (loop n (pack_round args) f) (fun s => loop n (unpack_round s) f) id.
Proof.
  revert f. induction n as [|n IH]; intros f Hf; [by intros ? ? ? ? ? ? ?|].
  destruct f as [|c f]; [apply (mirrors_ret tt id)|].
  apply not_elem_of_cons in Hf as [HA%not_eq_sym Hf]. cbn [fields].
  destruct (parse_count f) as [[[d N] f']|] eqn:Hp; cycle 1.
  { intros p sw b a st' vs _ Hr. rewrite loop_S in Hr. unfold pack_round at 1, read_count in Hr.
    by rewrite Hp in Hr. }
  destruct (parse_count_spec f d N f' Hp) as (HN & pre & ->).
  eapply mirrors_ext; [intros; by apply pack_round_eq with d|intros; by apply unpack_round_eq with d|].
  eapply mirrors_bind; [by apply mirrors_repeat|]. intros ? ? ? _.
  apply IH. set_solver.
Qed.

Lemma roundtrip f b :
  "A"%char ∉ cstr f -> Forall2 fits (format_fields f) args ->
  l_pack f args = Ok b -> small b ->
  l_unpack b f 1 = Ok (Num (of_int (Z.of_nat (length b) + 1)) :: args).
Proof.
  intros HA Hfit. unfold l_pack, l_unpack.
  destruct (loop _ (pack_round args) (cstr f) _) as [[a|] st] eqn:Hp; [|done]. intros [= <-] Hs.
  apply Forall2_length in Hfit as Hlen. unfold format_fields in *.
  destruct (mirrors_loop _ _ HA _ _ _ _ _ ltac:(by rewrite Hlen, drop_0, firstn_all) Hp) as (w & sw & -> & Hu).
  cbn [pb app drop] in *. rewrite Hlen, firstn_all in Hu.
  specialize (Hu [] [] [Nil]). rewrite app_nil_r in Hu. cbn [app length Z.of_nat] in Hu.
  rewrite decide_True by (unfold INT_MAX; lia). change (1 - 1) with (Z.of_nat 0).
  erewrite bind_ok_intro by by apply Hu. unfold small, INT_MAX in Hs.
  unfold bind, get. cbn [ui]. rewrite int_add_ok by (unfold INT_MAX; lia). done.
Qed.
End RoundTrip.

(** ** Reads stay inside the string *)




Section Bounds.
Context {num : Type} `{LuaNumber num} `{Machine}.

Context (s : bytes) (top : Z).
Local Abbreviation len := (Z.of_nat (length s)).







Hypothesis Htop : len + 1 <= top.
Hypothesis Hroom : top + 2 ^ 16 <= INT_MAX.







End Bounds.

(** C22: reading back a record: when [pack] succeeds, [unpack] with the same format
    on the packed octets returns the position after the last one and exactly the
    arguments, for any format of the integer, floating-point and string codes
    (other than [A], which does not store the length) with repeat counts and
    changes of byte order, whatever the order of the octets on the machine.  Each
    argument is of the kind its own field writes and exact in it (no fraction in
    an integer field, no more digits than a [float] has in one of those, strings no
    longer than their length field can say, no NUL in a zero-terminated string),
    and the record is shorter than 2 GiB. *)
Theorem pack_unpack_roundtrip {num} `{LuaNumberLaws num} `{Machine} (f : bytes) (args : list (@value num)) b :
  "A"%char ∉ cstr f -> Forall2 fits (format_fields f) args ->
  l_pack f args = Ok b -> small b ->
  l_unpack b f 1 = Ok (Num (of_int (Z.of_nat (length b) + 1)) :: args).
Proof. apply roundtrip. Qed.


(** A count that is not an [int]: on machines where it wraps around to a negative
    one, it passes the test of the length. *)
Lemma unpack_count_overflow {num} `{LuaNumber num} `{Machine} s :
  @l_unpack num _ _ s (of_string "A4294967290") 1 = Stop (Undefined "signed overflow of a repeat count").
Proof. reflexivity. Qed.

(** The size in a field of code [a] is added to the position modulo [2 ^ 64], so
    a size close to [2 ^ 64] passes the test and is then read. *)
Lemma unpack_size_overflow {num} `{LuaNumber num} `{M : Machine} :
  @l_unpack num _ _ (chr 248 :: replicate 7 (chr 255)) (of_string "<a") 1 =
  Stop (Undefined "read outside the string").
Proof. destruct M as [[]]; reflexivity. Qed.

(** A position before the string is not refused. *)
Lemma unpack_before_string {num} `{LuaNumber num} `{Machine} :
  @l_unpack num _ _ (of_string "abcd") (of_string "i") 0 =
  Stop (Undefined "read outside the string").
Proof. reflexivity. Qed.

(** ** An instance of the number interface: 64-bit integers *)

Definition wrap64 (z : Z) : Z := (z + 2 ^ 63) mod 2 ^ 64 - 2 ^ 63.

Record int64 : Type := Int64 { val : Z; val_ok : Z.eqb (wrap64 val) val = true }.

Lemma int64_eq x y : val x = val y -> x = y.
Proof.
  destruct x as [x Hx], y as [y Hy]; cbn. intros ->. f_equal.
  apply Eqdep_dec.UIP_dec, bool_dec.
Qed.

Lemma wrap64_id z : - 2 ^ 63 <= z < 2 ^ 63 -> wrap64 z = z.
Proof. intros. unfold wrap64. rewrite Z.mod_small; lia. Qed.

Lemma wrap64_ok z : Z.eqb (wrap64 (wrap64 z)) (wrap64 z) = true.
Proof.
  apply Z.eqb_eq, wrap64_id. unfold wrap64.
  pose proof (Z.mod_pos_bound (z + 2 ^ 63) (2 ^ 64) ltac:(lia)). lia.
Qed.

Definition int64_of (z : Z) : int64 := Int64 (wrap64 z) (wrap64_ok z).

#[global] Instance int64_number : LuaNumber int64 := {
  of_int := int64_of;
  to_int := val;
  of_double b := int64_of (le_value b);
  double_repr x := le_bytes 8 (val x);
  of_float b := int64_of (le_value b);
  float_repr x := le_bytes 4 (val x)
}.

#[global] Instance int64_laws : LuaNumberLaws int64.
Proof.
  split.
  - intros z Hz. apply wrap64_id. lia.
  - intros x. apply int64_eq. cbn [of_double double_repr int64_number int64_of val].
    rewrite le_value_bytes. transitivity (wrap64 (val x)); [|apply Z.eqb_eq, val_ok].
    unfold wrap64. change (256 ^ Z.of_nat 8) with (2 ^ 64). by rewrite Z.add_mod_idemp_l by lia.
  - intros x. apply length_le_bytes.
  - intros x. apply length_le_bytes.
Qed.

(** Machines of both orders. *)
Definition little : Machine := {| little_endian := true |}.
Definition big : Machine := {| little_endian := false |}.

(** A negative number, a text and a number of two octets; the second fits only its
    own field. *)
Definition record0 : list (@value int64) :=
  [Num (int64_of (-2)); Str (of_string "hi"); Num (int64_of 513)].

Example packed_alike :
  (forall m, m = little \/ m = big ->
    @l_pack _ _ m (of_string ">hp<H") record0 = Ok (chr <$> [255; 254; 2; 104; 105; 1; 2])) /\
  @l_pack _ _ little (of_string "h") [Num (int64_of 1)] = Ok (chr <$> [1; 0]) /\
  @l_pack _ _ big (of_string "h") [Num (int64_of 1)] = Ok (chr <$> [0; 1]).
Proof. split; [intros m [-> | ->]|split]; vm_compute; reflexivity. Qed.

Example pack_unpack_roundtrip_witness :
  @l_unpack _ _ big (chr <$> [255; 254; 2; 104; 105; 1; 2]) (of_string ">hp<H") 1 =
  Ok (Num (int64_of 8) :: record0).
Proof.
  refine (@pack_unpack_roundtrip _ _ _ big (of_string ">hp<H") record0 (chr <$> [255; 254; 2; 104; 105; 1; 2]) _ _ _ _).
  - by_decide.
  - assert (format_fields (of_string ">hp<H") = of_string "hpH") as -> by reflexivity.
    apply Forall2_cons. split; [by apply int64_eq|]. apply Forall2_cons.
    split; [right; exists 1%nat; by split|]. apply Forall2_cons. split; [by apply int64_eq|].
    by apply Forall2_nil.
  - vm_compute. f_equal.
  - unfold small. cbn. unfold INT_MAX. lia.
Defined.

