(* ===== verification/Transport.v ===== *)
(** * Streamed input and output (luasocket's [io.h])

    The interface between the buffered objects scripts use ([buffer.c]) and the
    transport below them ([usocket.c]): the functions of [t_io] as a class over
    the state of the transport, and what a transport promises as a class of
    laws.  [Buffer.v] is proved against the laws alone; [Socket.v] proves them
    of the sockets, [SslSession.v] of TLS connections. *)

From S2P Require Import Prelude CString.
#[global] Open Scope Z_scope.

(** ** Results of an operation *)

Definition IO_DONE : Z := 0.
Definition IO_TIMEOUT : Z := -1.
Definition IO_CLOSED : Z := -2.
Definition IO_UNKNOWN : Z := -3.

Definition io_strerror (err : Z) : option string :=
  if decide (err = IO_DONE) then None
  else if decide (err = IO_CLOSED) then Some "closed"%string
  else if decide (err = IO_TIMEOUT) then Some "timeout"%string
  else Some "unknown error"%string.

(** [t_io]: [send] and [recv] with their [err] and their [*sent] or the data
    stored, and [error].  The time limits they are given belong to the object;
    [io_markstart] is [timeout_markstart] on them. *)
Class Transport (T : Type) : Type := {
  io_send : bytes -> C T (Z * nat);
  io_recv : nat -> C T (Z * bytes);
  io_error : T -> Z -> option string;
  io_markstart : T -> T
}.

(** What a transport promises in the states [ready]: [unread] is what the peer
    has still to deliver, [wire] what has been sent to it; counts fit an [int].
    Data is sent when it is [sendable]: anything after data that has gone out, and
    after a failure the same data again. *)
Class TransportLaws (T : Type) `{Transport T}
    (ready : T -> Prop) (sendable : T -> bytes -> Prop) (unread wire : T -> bytes) : Prop := {
  recv_delivers n t :
    (0 < n)%nat -> Z.of_nat n < 2 ^ 31 -> ready t ->
    exists e got t', io_recv n t = (Ok (e, got), t') /\ ready t' /\
      unread t = got ++ unread t' /\ wire t' = wire t /\
      (length got <= n)%nat /\ (e = IO_DONE <-> got <> []) /\ (e = IO_CLOSED -> unread t = []) /\
      (forall d, sendable t d -> sendable t' d);
  send_delivers data t :
    data <> [] -> Z.of_nat (length data) < 2 ^ 31 -> ready t -> sendable t data ->
    exists e sent t', io_send data t = (Ok (e, sent), t') /\ ready t' /\
      wire t' = wire t ++ take sent data /\ unread t' = unread t /\
      (sent <= length data)%nat /\ (e = IO_DONE <-> (0 < sent)%nat) /\
      (forall d, e = IO_DONE \/ d = data -> sendable t' d);
  markstart_transfers_nothing t :
    ready t -> ready (io_markstart t) /\ unread (io_markstart t) = unread t /\ wire (io_markstart t) = wire t /\
      (forall d, sendable t d -> sendable (io_markstart t) d)
}.
