(* ===== verification/Socket.v ===== *)
(** * Sockets with time limits (luasocket's [timeout.c] and [usocket.c])

    The time limits of an object and the two transfer functions of a POSIX
    socket, which never block in the transfer itself and wait with [select].
    The kernel is a class of system calls; its laws say what is documented of
    them, with a bound on how often it may interrupt a call or let it find
    nothing to do.  The functions satisfy the laws of [Transport.v] and keep
    within the time limits. *)

From S2P Require Import Prelude CString Transport.
#[global] Open Scope Z_scope.

(** ** Time limits

    Times are in microseconds; a negative limit is no limit. *)

Record t_timeout : Type := Timeout { block : Z; total : Z; start : Z }.

Definition timeout_init (b t : Z) (tm : t_timeout) : t_timeout := Timeout b t (start tm).
Definition timeout_getstart (tm : t_timeout) : Z := start tm.
Definition timeout_iszero (tm : t_timeout) : bool := bool_decide (block tm = 0).

(** [return -1], a second. *)
Definition no_limit : Z := -1000000.

(** [now] is what [timeout_gettime] answers. *)
Definition timeout_get (now : Z) (tm : t_timeout) : Z :=
  if decide (block tm < 0 /\ total tm < 0) then no_limit
  else if decide (block tm < 0) then Z.max (total tm - now + start tm) 0
  else if decide (total tm < 0) then block tm
  else Z.min (block tm) (Z.max (total tm - now + start tm) 0).

Definition timeout_getretry (now : Z) (tm : t_timeout) : Z :=
  if decide (block tm < 0 /\ total tm < 0) then no_limit
  else if decide (block tm < 0) then Z.max (total tm - now + start tm) 0
  else if decide (total tm < 0) then Z.max (block tm - now + start tm) 0
  else Z.min (block tm) (Z.max (total tm - now + start tm) 0).

Definition timeout_markstart (now : Z) (tm : t_timeout) : t_timeout :=
  Timeout (block tm) (total tm) now.

(** [t] is the time or -1 when it is missing, [mode] the first character of the
    mode. *)
Definition timeout_meth_settimeout (t : Z) (mode : ascii) (tm : t_timeout) : outcome t_timeout :=
  if decide (mode = "b"%char) then Ok (Timeout t (total tm) (start tm))
  else if decide (mode = "r"%char \/ mode = "t"%char) then Ok (Timeout (block tm) t (start tm))
  else Stop (LuaError "invalid timeout mode").

(** ** The kernel *)

Definition EINTR : Z := 4.
Definition EAGAIN : Z := 11.
Definition EPIPE : Z := 32.

Definition WAITFD_R : Z := 1.
Definition WAITFD_W : Z := 2.
Definition WAITFD_C : Z := Z.lor WAITFD_R WAITFD_W.

(** The calls on one descriptor: their result, what they store, and [errno]. *)
Class Kernel (K : Type) : Type := {
  sys_read : nat -> K -> Z * bytes * Z * K;
  sys_send : bytes -> K -> Z * Z * K;
  (** the directions waited for, the time limit; also whether the descriptor is
      left in the read set *)
  sys_select : Z -> option Z -> K -> Z * bool * Z * K;
  gettimeofday : K -> Z
}.

Definition SOCKET_INVALID : Z := -1.

Section Socket.
Context {K : Type} `{Kernel K} (fuel : nat).

Record sock : Type := Sock { fd : Z; tm : t_timeout; os : K }.

Definition with_os (k : K) (s : sock) : sock := Sock (fd s) (tm s) k.

(** The [do ... while (ret == -1 && errno == EINTR)] loop and what follows. *)
Definition socket_waitfd (sw : Z) : C sock Z :=
  let! s := get in
  if timeout_iszero (tm s) then ret IO_TIMEOUT
  else
    let! '(r, readable, errno) := loop fuel (fun _ : unit =>
        let! s := get in
        let t := timeout_getretry (gettimeofday (os s)) (tm s) in
        let '(r, readable, errno, k) := sys_select sw (if decide (0 <= t) then Some t else None) (os s) in
        put (with_os k s) ;;;
        ret (if decide (r = -1 /\ errno = EINTR) then inl tt else inr (r, readable, errno))) tt in
    ret (if decide (r = -1) then errno
         else if decide (r = 0) then IO_TIMEOUT
         else if decide (sw = WAITFD_C /\ readable = true) then IO_CLOSED
         else IO_DONE).

(** The error code and [*sent]. *)
Definition socket_send (data : bytes) : C sock (Z * nat) :=
  let! s := get in
  if decide (fd s = SOCKET_INVALID) then ret (IO_CLOSED, 0%nat)
  else
    loop fuel (fun _ : unit =>
      let! s := get in
      let '(sent, errno, k) := sys_send data (os s) in
      put (with_os k s) ;;;
      if decide (sent > 0) then ret (inr (IO_DONE, Z.to_nat sent))
      else if decide (sent = 0 \/ errno = EPIPE) then ret (inr (IO_CLOSED, 0%nat))
      else if decide (errno = EINTR) then ret (inl tt)
      else if decide (errno <> EAGAIN) then ret (inr (errno, 0%nat))
      else
        let! err := socket_waitfd WAITFD_W in
        ret (if decide (err <> IO_DONE) then inr (err, 0%nat) else inl tt)) tt.

(** The error code and the data stored, [*got] octets. *)
Definition socket_recv (count : nat) : C sock (Z * bytes) :=
  let! s := get in
  if decide (fd s = SOCKET_INVALID) then ret (IO_CLOSED, [])
  else
    loop fuel (fun _ : unit =>
      let! s := get in
      let '(taken, data, errno, k) := sys_read count (os s) in
      put (with_os k s) ;;;
      if decide (taken > 0) then ret (inr (IO_DONE, data))
      else if decide (taken = 0) then ret (inr (IO_CLOSED, []))
      else if decide (errno = EINTR) then ret (inl tt)
      else if decide (errno <> EAGAIN) then ret (inr (errno, []))
      else
        let! err := socket_waitfd WAITFD_R in
        ret (if decide (err <> IO_DONE) then inr (err, []) else inl tt)) tt.
End Socket.

(** [EADDRINUSE] and the others, as on Linux; [strerror] is the system's, and
    [errno] what it last set. *)
Definition socket_strerror (strerror : Z -> string) (errno err : Z) : option string :=
  if decide (err <= 0) then io_strerror err
  else match err with
  | 98 => Some "address already in use"
  | 106 => Some "already connected"
  | 13 => Some "permission denied"
  | 111 => Some "connection refused"
  | 103 => Some "closed"
  | 104 => Some "closed"
  | 110 => Some "timeout"
  | _ => Some (strerror errno)
  end%string.

(** ** What is documented of the kernel *)

(** [usable]: the descriptor is open and does not block; [unread]: what the peer
    has still to deliver; [wire]: what it has been sent.  [patience] bounds how
    many more calls will be interrupted or find nothing to do; a call takes at
    most [delta] besides the time it is told to wait. *)
Class KernelLaws (K : Type) `{Kernel K} (usable : K -> Prop) (unread wire : K -> bytes)
    (patience : K -> nat) (delta : Z) : Prop := {
  delta_pos : 0 <= delta;
  read_law n k taken data errno k' :
    usable k -> (0 < n)%nat -> sys_read n k = (taken, data, errno, k') ->
    usable k' /\ wire k' = wire k /\ (patience k' <= patience k)%nat /\
    gettimeofday k <= gettimeofday k' <= gettimeofday k + delta /\
    ((taken = Z.of_nat (length data) /\ (length data <= n)%nat /\ data <> [] /\ unread k = data ++ unread k') \/
     (taken = 0 /\ unread k = [] /\ unread k' = []) \/
     (taken = -1 /\ 0 < errno /\ unread k' = unread k /\
      ((errno = EINTR \/ errno = EAGAIN) -> (patience k' < patience k)%nat)));
  send_law data k sent errno k' :
    usable k -> sys_send data k = (sent, errno, k') ->
    usable k' /\ unread k' = unread k /\ (patience k' <= patience k)%nat /\
    gettimeofday k <= gettimeofday k' <= gettimeofday k + delta /\
    -1 <= sent <= Z.of_nat (length data) /\
    wire k' = wire k ++ take (Z.to_nat sent) data /\
    (sent = -1 -> 0 < errno /\ ((errno = EINTR \/ errno = EAGAIN) -> (patience k' < patience k)%nat));
  select_law sw t k r readable errno k' :
    usable k -> (forall limit, t = Some limit -> 0 <= limit) ->
    sys_select sw t k = (r, readable, errno, k') ->
    usable k' /\ unread k' = unread k /\ wire k' = wire k /\ (patience k' <= patience k)%nat /\
    gettimeofday k <= gettimeofday k' /\
    (forall limit, t = Some limit -> gettimeofday k' <= gettimeofday k + limit + delta) /\
    -1 <= r /\ (r = -1 -> 0 < errno /\ (errno = EINTR -> (patience k' < patience k)%nat))
}.

Section Laws.
Context {K : Type} (gone usable : K -> Prop) (unread wire : K -> bytes) (patience : K -> nat) (delta : Z)
  `{KernelLaws K usable unread wire patience delta} (fuel : nat).

(** What is known of the kernel: [gone] when the socket has been closed. *)
Definition live (s : @sock K) : Prop :=
  if decide (fd s = SOCKET_INVALID) then gone (os s) else usable (os s).

Lemma live_usable s : fd s <> SOCKET_INVALID -> live s <-> usable (os s).
Proof. intros. unfold live. by rewrite decide_False. Qed.

(** When an operation has to end at the latest: when its limit has passed since
    it was started. *)
Definition deadline (tm : t_timeout) : option Z :=
  if decide (total tm < 0) then
    if decide (block tm < 0) then None else Some (start tm + block tm)
  else Some (start tm + total tm).

Lemma retry_wait now tm :
  let t := timeout_getretry now tm in
  (t < 0 -> deadline tm = None) /\
  (forall D, deadline tm = Some D -> 0 <= t /\ now + t <= Z.max now D).
Proof.
  unfold timeout_getretry, deadline, no_limit. repeat case_decide; cbv zeta;
    (split; [intros; done || (exfalso; lia)|intros D HD; simplify_eq; lia]).
Qed.

Local Abbreviation now s := (gettimeofday (os s)).
Local Abbreviation allowance s := (Z.of_nat (patience (os s))).

(** The time, with what the interruptions still to come can cost. *)
Definition spent (s : @sock K) : Z := now s + 2 * delta * allowance s.

(** Nothing has been transferred between two states of one socket. *)
Definition idle (s s' : @sock K) : Prop :=
  fd s' = fd s /\ tm s' = tm s /\ unread (os s') = unread (os s) /\ wire (os s') = wire (os s) /\
  (patience (os s') <= patience (os s))%nat /\ live s'.

Lemma idle_refl s : live s -> idle s s.
Proof. by repeat split. Qed.

(** A call on the descriptor that leaves it usable. *)
Lemma idle_call s0 s k :
  fd s <> SOCKET_INVALID -> idle s0 s -> usable k -> unread k = unread (os s) -> wire k = wire (os s) ->
  (patience k <= patience (os s))%nat -> idle s0 (with_os k s).
Proof.
  intros Hfd (? & ? & ? & ? & ? & ?) ? ? ? ?. do 2 (split; [done|]). cbn.
  split; [congruence|]. split; [congruence|]. split; [lia|]. by apply live_usable.
Qed.

Lemma idle_trans s1 s2 s3 : idle s1 s2 -> idle s2 s3 -> idle s1 s3.
Proof. unfold idle. intros (? & ? & ? & ? & ? & ?) (? & ? & ? & ? & ? & ?). repeat split; (congruence || lia || done). Qed.

Lemma less_patience p p' : (p' < p)%nat -> delta * Z.of_nat p' <= delta * Z.of_nat p - delta.
Proof. pose proof delta_pos. nia. Qed.

Lemma same_patience p p' : (p' <= p)%nat -> delta * Z.of_nat p' <= delta * Z.of_nat p.
Proof. pose proof delta_pos. nia. Qed.

(** [M] leaves time for a wait. *)
Definition time_to_wait (M : Z) (s : @sock K) : Prop :=
  forall D, deadline (tm s) = Some D ->
    spent s <= M - delta /\ D + 2 * delta * allowance s <= M - delta.

Lemma wp_waitfd M sw s0 :
  fd s0 <> SOCKET_INVALID -> live s0 -> (patience (os s0) < fuel)%nat -> time_to_wait M s0 ->
  wp (socket_waitfd fuel sw) (fun o s => exists e, o = Ok e /\ idle s0 s /\ (e = IO_CLOSED -> sw = WAITFD_C) /\
    (forall D, deadline (tm s0) = Some D -> spent s <= M)) s0.
Proof.
  intros Hfd Hlive Hfuel HM. pose proof delta_pos as Hdelta. unfold socket_waitfd. rewrite wp_bind, wp_get. cbn [then_post].
  case_match.
  { rewrite wp_ret. exists IO_TIMEOUT. split; [done|]. split; [by apply idle_refl|]. split; [done|].
    intros D HD. apply HM in HD. lia. }
  rewrite wp_bind.
  apply (wp_loop_measure _ (fun _ s => idle s0 s /\ time_to_wait M s) (fun _ s => patience (os s)));
    [|by split; [apply idle_refl|]|done].
  intros _ s [Hi Ht]. rewrite wp_bind, wp_get. cbn [then_post].
  assert (fd s <> SOCKET_INVALID) as Hfds by (destruct Hi as [-> _]; done).
  set (t := timeout_getretry _ _). destruct (retry_wait (now s) (tm s)) as [Hnone Hsome]. fold t in Hnone, Hsome.
  destruct (sys_select sw _ (os s)) as [[[r readable] errno] k] eqn:Hsel.
  apply select_law in Hsel as (Hus & Hu & Hw & Hp & Hn & Hlimit & Hr & Hintr);
    [|by apply live_usable; [|apply Hi]|intros limit; case_decide; [by intros [= <-]|done]].
  rewrite wp_bind, wp_put. cbn [then_post]. rewrite wp_ret.
  assert (idle s0 (with_os k s)) as Hi' by (by apply idle_call).
  assert (forall D, deadline (tm s) = Some D -> gettimeofday k <= Z.max (now s) D + delta) as Hk.
  { intros D HD. destruct (Hsome D HD) as [Ht0 Htl]. specialize (Hlimit t). rewrite decide_True in Hlimit by done.
    specialize (Hlimit eq_refl). lia. }
  pose proof (same_patience _ _ Hp). clear Hlimit.
  destruct (decide (r = -1 /\ errno = EINTR)) as [[-> ->]|Hagain].
  - destruct (Hintr eq_refl) as [_ Hless]. specialize (Hless eq_refl).
    pose proof (less_patience _ _ Hless). split; [|done]. split; [done|].
    intros D HD. cbn in HD. specialize (Hk D HD). destruct (Ht D HD). unfold spent in *. cbn. lia.
  - cbn [then_post]. rewrite wp_ret. eexists. split; [reflexivity|]. split; [done|]. split.
    + repeat case_decide; unfold IO_CLOSED, IO_TIMEOUT, IO_DONE; try lia.
    + intros D HD. destruct Hi as (_ & Htm & _). rewrite <- Htm in HD.
      specialize (Hk D HD). destruct (Ht D HD). unfold spent in *. cbn. lia.
Qed.

(** The latest time a transfer started in [s0] may reach. *)
Definition latest (s0 : sock) : Z :=
  Z.max (now s0) (default 0 (deadline (tm s0))) + 2 * delta * allowance s0.

Definition on_time (s0 s : @sock K) : Prop :=
  forall D, deadline (tm s) = Some D -> spent s <= latest s0 /\ D + 2 * delta * allowance s <= latest s0.

Lemma on_time_start s0 : on_time s0 s0.
Proof. intros D HD. unfold latest, spent. rewrite HD. cbn. lia. Qed.

(** A call that found nothing to do leaves time to wait. *)
Lemma on_time_again s0 s k :
  on_time s0 s -> (patience k < patience (os s))%nat ->
  gettimeofday k <= gettimeofday (os s) + delta -> time_to_wait (latest s0) (with_os k s).
Proof.
  intros Ht Hp Hn D HD. destruct (Ht D HD). pose proof (less_patience _ _ Hp). pose proof delta_pos.
  unfold spent in *. cbn. lia.
Qed.

Lemma time_to_wait_on_time s0 s : time_to_wait (latest s0) s -> on_time s0 s.
Proof. intros Ht D HD. destruct (Ht D HD). pose proof delta_pos. lia. Qed.

(** A wait has used the time it had. *)
Lemma on_time_waited s0 s s' :
  time_to_wait (latest s0) s -> idle s s' ->
  (forall D, deadline (tm s) = Some D -> spent s' <= latest s0) -> on_time s0 s'.
Proof.
  intros Ht (_ & Htm & _ & _ & Hp & _) Hs D HD. rewrite Htm in HD. destruct (Ht D HD).
  pose proof (same_patience _ _ Hp). pose proof delta_pos. split; [by eapply Hs|lia].
Qed.

(** Where a transfer ends in time. *)
Definition ended (s0 s : @sock K) : Prop :=
  fd s = fd s0 /\ tm s = tm s0 /\ (patience (os s) <= patience (os s0))%nat /\ live s /\
  forall D, deadline (tm s0) = Some D -> now s <= latest s0 + delta.

Lemma ended_call s0 s k :
  fd s <> SOCKET_INVALID -> idle s0 s -> on_time s0 s -> usable k -> (patience k <= patience (os s))%nat ->
  gettimeofday k <= gettimeofday (os s) + delta -> ended s0 (with_os k s).
Proof.
  intros Hfd (Hf & Htm & _ & _ & Hp & _) Ht Hus Hpk Hn. split; [done|]. split; [done|]. split; [cbn; lia|].
  split; [by apply live_usable|].
  intros D HD. rewrite <- Htm in HD. destruct (Ht D HD). pose proof delta_pos.
  unfold spent in *. cbn. nia.
Qed.

Lemma ended_idle s0 s : idle s0 s -> on_time s0 s -> ended s0 s.
Proof.
  intros (Hf & Htm & _ & _ & Hp & Hl) Ht. do 4 (split; [done|]). intros D HD. rewrite <- Htm in HD.
  destruct (Ht D HD). pose proof delta_pos. unfold spent in *. nia.
Qed.

Lemma again_cases errno : errno = EINTR \/ ~ errno <> EAGAIN -> errno = EINTR \/ errno = EAGAIN.
Proof. intros [?| ?%dec_stable]; auto. Qed.

(** What the calls do that failed: again, or give up with the error and
    nothing done. *)
Lemma wp_retry {B} (giveup : Prop) `{Decision giveup} (sw errno : Z) (none : B) s0 s k :
  fd s <> SOCKET_INVALID -> (patience (os s) < fuel)%nat -> sw <> WAITFD_C -> 0 < errno ->
  idle s0 (with_os k s) -> on_time s0 s -> (patience k <= patience (os s))%nat ->
  gettimeofday k <= gettimeofday (os s) + delta ->
  ((errno = EINTR \/ ~ giveup) -> (patience k < patience (os s))%nat) ->
  wp (if decide (errno = EINTR) then ret (inl tt)
      else if decide giveup then ret (inr (errno, none))
      else let! err := socket_waitfd fuel sw in
           ret (if decide (err <> IO_DONE) then inr (err, none) else inl tt))
    (fun o s' => idle s0 s' /\
       ((o = Ok (inl tt) /\ on_time s0 s' /\ (patience (os s') < patience (os s))%nat) \/
        (exists e, o = Ok (inr (e, none)) /\ ended s0 s' /\ e <> IO_DONE /\ e <> IO_CLOSED)))
    (with_os k s).
Proof.
  intros Hfd Hfuel Hsw Herrno Hik Ht Hpk Hn Hless.
  destruct (decide (errno = EINTR)) as [Hintr|Hintr].
  { rewrite wp_ret. specialize (Hless (or_introl Hintr)). split; [done|]. left. split; [done|]. split; [|done].
    by apply time_to_wait_on_time, on_time_again. }
  destruct (decide giveup) as [Hgive|Hagain].
  { rewrite wp_ret. split; [done|]. right. exists errno. split; [done|]. split.
    - destruct Hik as (Hf & Htm & _ & _ & Hp & Hl). do 4 (split; [done|]).
      intros D HD. rewrite <- Htm in HD. destruct (Ht D HD). pose proof (same_patience _ _ Hpk).
      pose proof delta_pos. unfold spent in *. cbn. nia.
    - unfold IO_DONE, IO_CLOSED. lia. }
  specialize (Hless (or_intror Hagain)).
  assert (time_to_wait (latest s0) (with_os k s)) as Hwait by by apply on_time_again.
  rewrite wp_bind. eapply wp_mono; [apply (wp_waitfd (latest s0)); [done|apply Hik|cbn; lia|done]|].
  intros o s' (e & -> & Hi' & Hopen & Hspent). cbn [then_post]. rewrite wp_ret.
  assert (on_time s0 s') as Ht' by (by eapply on_time_waited).
  assert (idle s0 s') as Hi0 by (by eapply idle_trans).
  split; [done|]. case_decide as He.
  - right. exists e. split; [done|]. split; [by apply ended_idle|]. split; [done|]. intros Hc. by apply Hsw, Hopen.
  - left. split; [done|]. split; [done|]. destruct Hi' as (_ & _ & _ & _ & Hp' & _). cbn in Hp'. lia.
Qed.

Lemma ended_by s0 s D :
  ended s0 s -> deadline (tm s0) = Some D ->
  now s <= Z.max (now s0) D + (2 * allowance s0 + 1) * delta.
Proof.
  intros (_ & _ & _ & _ & Hend) HD. specialize (Hend D HD). unfold latest in Hend. rewrite HD in Hend.
  cbn in Hend. lia.
Qed.

Lemma wp_socket_recv n s0 :
  (0 < n)%nat -> live s0 -> (patience (os s0) < fuel)%nat ->
  wp (socket_recv fuel n) (fun o s => exists e got, o = Ok (e, got) /\ ended s0 s /\
    wire (os s) = wire (os s0) /\ unread (os s0) = got ++ unread (os s) /\ (length got <= n)%nat /\
    (e = IO_DONE <-> got <> []) /\
    (e = IO_CLOSED -> fd s0 = SOCKET_INVALID \/ unread (os s0) = [])) s0.
Proof.
  intros Hn Hlive Hfuel. unfold socket_recv. rewrite wp_bind, wp_get. cbn [then_post]. case_decide as Hfd.
  { rewrite wp_ret. exists IO_CLOSED, []. split; [done|].
    split; [apply ended_idle; [by apply idle_refl|apply on_time_start]|].
    do 2 (split; [done|]). split; [cbn; lia|]. split; [done|]. by left. }
  apply (wp_loop_measure _ (fun _ s => idle s0 s /\ on_time s0 s) (fun _ s => patience (os s)));
    [|split; [by apply idle_refl|apply on_time_start]|done].
  intros _ s [Hi Ht]. rewrite wp_bind, wp_get. cbn [then_post].
  destruct (sys_read n (os s)) as [[[taken data] errno] k] eqn:Hread.
  pose proof Hi as (Hf & Htm & Hu & Hw & Hp & Hl).
  assert (fd s <> SOCKET_INVALID) as Hfds by congruence. apply live_usable in Hl; [|done].
  apply read_law in Hread as (Hus & Hwk & Hpk & Hnow & Hread); [|done..].
  assert (ended s0 (with_os k s)) as Hend by (by apply ended_call; lia || done).
  rewrite wp_bind, wp_put. cbn [then_post].
  destruct Hread as [(Htk & Hlen & Hne & Huk)|[(-> & Huk & Huk')|(-> & Herrno & Huk & Hless)]].
  - assert (length data <> 0)%nat by (intros Hz; by apply Hne, length_zero_iff_nil).
    rewrite decide_True by lia. rewrite wp_ret. exists IO_DONE, data.
    split; [done|]. split; [done|]. split; [cbn; congruence|]. split; [cbn; congruence|].
    split; [done|]. by split.
  - rewrite decide_False, decide_True by lia. rewrite wp_ret. exists IO_CLOSED, [].
    split; [done|]. split; [done|]. split; [cbn; congruence|]. split; [cbn; congruence|].
    split; [cbn; lia|]. split; [done|]. right. congruence.
  - do 2 rewrite decide_False by lia.
    eapply wp_mono; [apply (wp_retry (errno <> EAGAIN) WAITFD_R errno [] s0 s k);
      try done; [lia|by apply idle_call|lia|by intros ?%again_cases; apply Hless]|].
    intros o s' [Hi' [(-> & Ht' & Hlt)|(e & -> & Hend' & Hd & Hc)]]; [by split|].
    destruct Hi' as (_ & _ & Hu' & Hw' & _). exists e, []. do 4 (split; [done|]).
    split; [cbn; lia|]. by split.
Qed.

Lemma wp_socket_send data s0 :
  live s0 -> (patience (os s0) < fuel)%nat ->
  wp (socket_send fuel data) (fun o s => exists e sent, o = Ok (e, sent) /\ ended s0 s /\
    unread (os s) = unread (os s0) /\ wire (os s) = wire (os s0) ++ take sent data /\
    (sent <= length data)%nat /\ (e = IO_DONE <-> (0 < sent)%nat)) s0.
Proof.
  intros Hlive Hfuel. unfold socket_send. rewrite wp_bind, wp_get. cbn [then_post]. case_decide as Hfd.
  { rewrite wp_ret. exists IO_CLOSED, 0%nat. split; [done|].
    split; [apply ended_idle; [by apply idle_refl|apply on_time_start]|].
    split; [done|]. split; [by rewrite app_nil_r|]. split; [lia|]. split; [done|lia]. }
  apply (wp_loop_measure _ (fun _ s => idle s0 s /\ on_time s0 s) (fun _ s => patience (os s)));
    [|split; [by apply idle_refl|apply on_time_start]|done].
  intros _ s [Hi Ht]. rewrite wp_bind, wp_get. cbn [then_post].
  destruct (sys_send data (os s)) as [[sent errno] k] eqn:Hsend.
  pose proof Hi as (Hf & Htm & Hu & Hw & Hp & Hl).
  assert (fd s <> SOCKET_INVALID) as Hfds by congruence. apply live_usable in Hl; [|done].
  apply send_law in Hsend as (Hus & Huk & Hpk & Hnow & Hrange & Hwk & Hless); [|done].
  assert (ended s0 (with_os k s)) as Hend by (by apply ended_call; lia || done).
  rewrite wp_bind, wp_put. cbn [then_post].
  destruct (decide (sent > 0)) as [Hpos|Hpos].
  { rewrite wp_ret. exists IO_DONE, (Z.to_nat sent). split; [done|]. split; [done|].
    split; [cbn; congruence|]. split; [cbn; congruence|]. split; [lia|]. split; [lia|done]. }
  replace (Z.to_nat sent) with 0%nat in Hwk by lia. cbn in Hwk. rewrite app_nil_r in Hwk.
  case_decide as Hclosed.
  { rewrite wp_ret. exists IO_CLOSED, 0%nat. split; [done|]. split; [done|]. split; [cbn; congruence|].
    split; [cbn; rewrite app_nil_r; congruence|]. split; [lia|]. split; [done|lia]. }
  destruct (Hless ltac:(lia)) as [Herrno Hless'].
  eapply wp_mono; [apply (wp_retry (errno <> EAGAIN) WAITFD_W errno 0%nat s0 s k);
    try done; [lia|by apply idle_call|lia|by intros ?%again_cases; apply Hless']|].
  intros o s' [Hi' [(-> & Ht' & Hlt)|(e & -> & Hend' & Hd & Hc)]]; [by split|].
  destruct Hi' as (_ & _ & Hu' & Hw' & _). exists e, 0%nat. do 3 (split; [done|]).
  split; [by rewrite app_nil_r|]. split; [lia|]. split; [done|lia].
Qed.
End Laws.

(** ** The sockets are a transport *)

Section Instance.
Context {K : Type} (gone usable : K -> Prop) (unread wire : K -> bytes) (patience : K -> nat) (delta : Z)
  `{KernelLaws K usable unread wire patience delta} (fuel : nat).
Context (strerror : Z -> string) (errno : K -> Z) (s0 : @sock K).

#[local] Instance socket_io : Transport (@sock K) := {
  io_send := socket_send fuel;
  io_recv := socket_recv fuel;
  io_error s := socket_strerror strerror (errno (os s));
  io_markstart s := Sock (fd s) (timeout_markstart (gettimeofday (os s)) (tm s)) (os s)
}.

(** The socket and the limits are those of [s0], and the system interrupts a
    transfer less often than the loops allow for. *)
Definition socket_ready (s : @sock K) : Prop :=
  fd s = fd s0 /\ block (tm s) = block (tm s0) /\ total (tm s) = total (tm s0) /\
  live gone usable s /\ (patience (os s) < fuel)%nat.

(** Nothing can be read from a socket that was closed. *)
Definition socket_unread (s : @sock K) : bytes :=
  if decide (fd s = SOCKET_INVALID) then [] else unread (os s).

#[local] Instance socket_laws : TransportLaws (@sock K) socket_ready (fun _ _ => True) socket_unread (fun s => wire (os s)).
Proof.
  split.
  - intros n s Hn _ (Hf0 & Hb0 & Ht0 & Hl & Hs). unfold socket_unread. destruct (decide (fd s = SOCKET_INVALID)) as [Hfd|Hfd].
    + exists IO_CLOSED, [], s. cbn. unfold socket_recv, bind, get. do 2 rewrite decide_True by done.
      split; [done|]. split; [done|]. split; [done|]. split; [done|]. split; [cbn; lia|]. by split.
    + pose proof (wp_socket_recv gone usable unread wire patience delta fuel n s Hn Hl Hs) as Hwp.
      apply wp_run in Hwp as (o & s' & Hrun & e & got & -> & (Hf & Htm & Hp & Hl' & _) & Hw & Hu & Hlen & Hok & Hcl).
      exists e, got, s'. split; [done|]. rewrite Hf, decide_False by done.
      split; [unfold socket_ready; rewrite Hf, Htm; repeat split; done || lia|]. do 4 (split; [done|]).
      split; [|done]. intros He. by destruct (Hcl He).
  - intros data s Hdata _ (Hf0 & Hb0 & Ht0 & Hl & Hs).
    pose proof (wp_socket_send gone usable unread wire patience delta fuel data s Hl Hs) as Hwp.
    apply wp_run in Hwp as (o & s' & Hrun & e & sent & -> & (Hf & Htm & Hp & Hl' & _) & Hu & Hw & Hlen & Hok).
    exists e, sent, s'. split; [done|]. split; [unfold socket_ready; rewrite Hf, Htm; repeat split; done || lia|].
    split; [done|]. split; [|done]. unfold socket_unread. by rewrite Hf, Hu.
  - intros s Hs. by split.
Qed.
End Instance.

(** ** Reading and writing in time *)

Lemma live_open {K} (usable : K -> Prop) (s : @sock K) :
  fd s = SOCKET_INVALID \/ usable (os s) -> live (fun _ => True) usable s.
Proof. unfold live. case_decide; naive_solver. Qed.

(** The microseconds a call may take beyond its limit. *)
Definition overrun (delta : Z) (patience : nat) : Z := (2 * Z.of_nat patience + 1) * delta.

(** C12: reading from a socket ends within its time limit: whatever the kernel
    does, the call returns by the moment the limit set on the object has passed
    since the operation was marked as started, but for the time of the system
    calls themselves; it then returns the next octets of the stream, or an error
    and no octets, and it only reports the connection closed at the end of the
    stream or on a socket that was closed. *)
Theorem socket_recv_in_time {K} usable (unread wire : K -> bytes) patience delta
    `{KernelLaws K usable unread wire patience delta} fuel n (s0 : @sock K) :
  (0 < n)%nat -> fd s0 = SOCKET_INVALID \/ usable (os s0) -> (patience (os s0) < fuel)%nat ->
  exists e got s, socket_recv fuel n s0 = (Ok (e, got), s) /\
    unread (os s0) = got ++ unread (os s) /\ wire (os s) = wire (os s0) /\ (length got <= n)%nat /\
    (e = IO_DONE <-> got <> []) /\
    (e = IO_CLOSED -> fd s0 = SOCKET_INVALID \/ unread (os s0) = []) /\
    (forall D, deadline (tm s0) = Some D ->
       gettimeofday (os s) <= Z.max (gettimeofday (os s0)) D + overrun delta (patience (os s0))).
Proof.
  intros Hn Hl Hfuel. apply live_open in Hl.
  pose proof (wp_socket_recv _ usable unread wire patience delta fuel n s0 Hn Hl Hfuel) as Hwp.
  apply wp_run in Hwp as (o & s & Hrun & e & got & -> & Hend & Hw & Hu & Hlen & Hok & Hcl).
  exists e, got, s. do 6 (split; [done|]). intros D HD.
  by apply (ended_by (fun _ => True) usable patience delta).
Qed.

(** Writing to a socket ends within its time limit in the same way, and the
    octets it reports as sent, and no others, have gone out; it reports an error
    exactly when none have. *)
Theorem socket_send_in_time {K} usable (unread wire : K -> bytes) patience delta
    `{KernelLaws K usable unread wire patience delta} fuel data (s0 : @sock K) :
  fd s0 = SOCKET_INVALID \/ usable (os s0) -> (patience (os s0) < fuel)%nat ->
  exists e sent s, socket_send fuel data s0 = (Ok (e, sent), s) /\
    wire (os s) = wire (os s0) ++ take sent data /\ unread (os s) = unread (os s0) /\
    (sent <= length data)%nat /\ (e = IO_DONE <-> (0 < sent)%nat) /\
    (forall D, deadline (tm s0) = Some D ->
       gettimeofday (os s) <= Z.max (gettimeofday (os s0)) D + overrun delta (patience (os s0))).
Proof.
  intros Hl Hfuel. apply live_open in Hl.
  pose proof (wp_socket_send _ usable unread wire patience delta fuel data s0 Hl Hfuel) as Hwp.
  apply wp_run in Hwp as (o & s & Hrun & e & sent & -> & Hend & Hu & Hw & Hlen & Hok).
  exists e, sent, s. do 5 (split; [done|]). intros D HD.
  by apply (ended_by (fun _ => True) usable patience delta).
Qed.

(** ** A kernel that is busy for a while *)

Record toy : Type := Toy { input : bytes; busy : nat; clock : Z; output : bytes }.

#[global] Instance toy_kernel : Kernel toy := {
  sys_read n k :=
    match busy k with
    | S b => (-1, [], EAGAIN, Toy (input k) b (clock k) (output k))
    | O => let got := take n (input k) in
           (Z.of_nat (length got), got, 0, Toy (drop n (input k)) 0 (clock k) (output k))
    end;
  sys_send d k :=
    match busy k with
    | S b => (-1, EINTR, Toy (input k) b (clock k) (output k))
    | O => let sent := Nat.min 2 (length d) in
           (Z.of_nat sent, 0, Toy (input k) 0 (clock k) (output k ++ take sent d))
    end;
  sys_select sw t k :=
    (1, true, 0, Toy (input k) (busy k) (clock k + from_option (Z.min 10) 10 t) (output k));
  gettimeofday := clock
}.

#[global] Instance toy_laws : KernelLaws toy (fun _ => True) input output busy 0.
Proof.
  split.
  - done.
  - intros n k taken data errno k' _ Hn. cbn. destruct (busy k) as [|b] eqn:Hb; intros [= <- <- <- <-]; cbn; (split; [done|]).
    + split; [done|]. split; [lia|]. split; [lia|]. destruct (input k) as [|c i] eqn:Hi.
      * right; left. rewrite take_nil, drop_nil. done.
      * left. split; [done|]. split; [rewrite length_take; lia|]. split; [by destruct n; [lia|]|].
        by rewrite take_drop.
    + split; [done|]. split; [lia|]. split; [lia|]. right; right. repeat split; try done; intros; lia.
  - intros data k sent errno k' _. cbn. destruct (busy k) as [|b] eqn:Hb; intros [= <- <- <-]; cbn [input output busy clock]; (split; [done|]).
    + split; [done|]. split; [lia|]. split; [lia|]. split; [destruct data as [|? [|? ?]]; cbn [length Nat.min]; lia|]. split; [by rewrite Nat2Z.id|]. lia.
    + split; [done|]. split; [lia|]. split; [lia|]. split; [lia|]. split; [by rewrite app_nil_r|].
      intros _. split; [done|]. intros; lia.
  - intros sw t k r readable errno k' _ Ht. cbn. intros [= <- <- <- <-]; cbn [input output busy clock].
    assert (match t with Some l => 0 <= l | None => True end) as Hl by (destruct t; [by apply Ht|done]).
    do 3 (split; [done|]). split; [lia|]. split; [destruct t; cbn; lia|].
    split; [|lia]. intros limit ->. cbn. lia.
Qed.

Definition socket0 : @sock toy :=
  Sock 3 (Timeout 5000000 (-1) 0) (Toy (of_string "ok") 2 0 []).

Example socket_recv_in_time_witness :
  exists e got s, socket_recv 10 5 socket0 = (Ok (e, got), s) /\
    input (os socket0) = got ++ input (os s) /\ output (os s) = output (os socket0) /\ (length got <= 5)%nat /\
    (e = IO_DONE <-> got <> []) /\
    (e = IO_CLOSED -> fd socket0 = SOCKET_INVALID \/ input (os socket0) = []) /\
    (forall D, deadline (tm socket0) = Some D ->
       gettimeofday (os s) <= Z.max (gettimeofday (os socket0)) D + overrun 0 (busy (os socket0))).
Proof. apply (socket_recv_in_time (fun _ => True) input output busy 0 10 5 socket0); [lia|by right|cbn; lia]. Defined.

Example socket_send_in_time_witness :
  exists e sent s, socket_send 10 (of_string "abc") socket0 = (Ok (e, sent), s) /\
    output (os s) = output (os socket0) ++ take sent (of_string "abc") /\ input (os s) = input (os socket0) /\
    (sent <= 3)%nat /\ (e = IO_DONE <-> (0 < sent)%nat) /\
    (forall D, deadline (tm socket0) = Some D ->
       gettimeofday (os s) <= Z.max (gettimeofday (os socket0)) D + overrun 0 (busy (os socket0))).
Proof. apply (socket_send_in_time (fun _ => True) input output busy 0 10 (of_string "abc") socket0); [by right|cbn; lia]. Defined.
