(* ===== verification/Sleep.v ===== *)
(** * Clock and sleep of luasocket ([timeout.c])

    The two functions of [timeout.c] that scripts call directly: the time, and
    [sleep], which goes back to sleep when a signal wakes it early.  A time is an
    exact number of nanoseconds (the code has a double of seconds). *)

From S2P Require Import Prelude.
#[global] Open Scope Z_scope.

Definition second : Z := 1000000000.

(** [struct timespec]. *)
Record timespec : Type := TimeSpec { tv_sec : Z; tv_nsec : Z }.

Definition nanos (t : timespec) : Z := tv_sec t * second + tv_nsec t.
#[global] Arguments nanos : simpl never.

(** What [nanosleep] accepts. *)
Definition valid (t : timespec) : Prop := 0 <= tv_sec t /\ 0 <= tv_nsec t < second.

(** [nanosleep] answers its result, the remaining time when it stores one, and
    the system afterwards. *)
Class Sleeper (K : Type) : Type := {
  nanosleep : timespec -> K -> Z * option timespec * K;
  timeout_gettime : K -> Z
}.

(** What is documented of it: it sleeps at least the time asked for, or is
    interrupted and stores what is left; it refuses an invalid time and stores
    nothing.  [signals] bounds the interruptions to come. *)
Class SleeperLaws (K : Type) `{Sleeper K} (signals : K -> nat) : Prop := {
  nanosleep_sleeps t k rv rmd k' : valid t -> nanosleep t k = (rv, rmd, k') ->
    (rv = 0 /\ timeout_gettime k + nanos t <= timeout_gettime k') \/
    (rv = -1 /\ (signals k' < signals k)%nat /\
     exists r, rmd = Some r /\ valid r /\ timeout_gettime k + nanos t <= timeout_gettime k' + nanos r);
  nanosleep_refuses t k : ~ valid t -> nanosleep t k = (-1, None, k)
}.

Section Sleep.
Context {K : Type} `{Sleeper K}.
Variable fuel : nat.

Definition timeout_lua_gettime : C K Z := gets timeout_gettime.

(** The conversion of [n] to a [struct timespec]; the conversion to [int] has a
    result only in its range. *)
Definition to_timespec (n : Z) : option timespec :=
  let sec := Z.quot n second in
  if decide (- 2 ^ 31 <= sec < 2 ^ 31) then
    let nsec := n - sec * second in
    Some (TimeSpec sec (if decide (second <= nsec) then 999999999 else nsec))
  else None.

(** One call of [nanosleep]; an interrupted one is followed by a call with the
    remaining time, whose variable has no value when the call stored none. *)
Definition sleep_round (t : timespec) : C K (timespec + unit) :=
  let! k := get in
  let '(rv, rmd, k') := nanosleep t k in
  put k' ;;;
  if decide (rv = 0) then ret (inr tt)
  else match rmd with
       | Some r => ret (inl (TimeSpec (tv_sec r) (tv_nsec r)))
       | None => stop (Undefined "uninitialised remainder")
       end.

Definition timeout_lua_sleep (n : Z) : C K Z :=
  match to_timespec n with
  | None => stop (Undefined "conversion to int")
  | Some t => loop fuel sleep_round t ;;; ret 0
  end.

Lemma to_timespec_valid n :
  0 <= n < 2 ^ 31 * second -> exists t, to_timespec n = Some t /\ valid t /\ nanos t = n.
Proof.
  intros Hn. unfold to_timespec, valid, nanos, second in *.
  pose proof (Z.quot_rem' n 1000000000). pose proof (Z.rem_bound_pos n 1000000000).
  rewrite decide_True by lia. eexists. split; [done|]. cbn.
  rewrite decide_False by lia. lia.
Qed.

Lemma to_timespec_negative n :
  - (2 ^ 31 * second) < n < 0 -> exists t, to_timespec n = Some t /\ ~ valid t.
Proof.
  intros Hn. unfold to_timespec, valid, second in *.
  pose proof (Z.quot_rem' n 1000000000). pose proof (Z.rem_bound_pos_neg n 1000000000 ltac:(lia) ltac:(lia)).
  rewrite decide_True by lia. eexists. split; [done|]. cbn.
  rewrite decide_False by lia. lia.
Qed.

Context {signals : K -> nat} `{!SleeperLaws K signals}.

Lemma wp_sleep_rounds t k :
  valid t -> (signals k < fuel)%nat ->
  wp (loop fuel sleep_round t)
     (fun o k' => o = Ok tt /\ timeout_gettime k + nanos t <= timeout_gettime k') k.
Proof.
  intros Ht Hfuel.
  apply (wp_loop_measure _ (fun r k' => valid r /\ timeout_gettime k + nanos t <= timeout_gettime k' + nanos r)
           (fun _ k' => signals k')); [|split; [done|lia]|done].
  intros r k1 [Hr Hslept]. unfold sleep_round. rewrite wp_bind, wp_get. cbn [then_post].
  destruct (nanosleep r k1) as [[rv rmd] k2] eqn:Hs.
  apply nanosleep_sleeps in Hs as [[-> Hdone]|(-> & Hless & r' & -> & Hr' & Hleft)]; [| |done].
  - rewrite wp_bind, wp_put. cbn [then_post]. rewrite decide_True, wp_ret by done. split; [done|lia].
  - rewrite wp_bind, wp_put. cbn [then_post]. rewrite decide_False, wp_ret by done.
    destruct r'. split; [split; [done|cbn; lia]|done].
Qed.
End Sleep.

(** With more fuel than there are signals to come, [sleep(n)] returns no
    earlier than [n] after the call, however often a signal interrupts it; for a
    negative time it goes round on a remainder that was never stored. *)
Lemma sleep_lasts {K} `{Sleeper K} signals `{!SleeperLaws K signals} fuel n k :
  (signals k < fuel)%nat ->
  (0 <= n < 2 ^ 31 * second ->
     exists k', timeout_lua_sleep fuel n k = (Ok 0, k') /\ timeout_gettime k + n <= timeout_gettime k') /\
  (- (2 ^ 31 * second) < n < 0 ->
     timeout_lua_sleep fuel n k = (Stop (Undefined "uninitialised remainder"), k)).
Proof.
  intros Hfuel. split; intros Hn.
  - destruct (to_timespec_valid n Hn) as (t & Ht & Hv & <-). unfold timeout_lua_sleep. rewrite Ht.
    destruct (proj1 (wp_run _ _ _) (wp_sleep_rounds fuel t k Hv Hfuel)) as (? & k' & Hrun & -> & Hle).
    exists k'. unfold bind. by rewrite Hrun.
  - destruct (to_timespec_negative n Hn) as (t & Ht & Hv). unfold timeout_lua_sleep. rewrite Ht.
    destruct fuel as [|fuel]; [lia|]. rewrite loop_S. unfold sleep_round, bind. cbn.
    by rewrite (nanosleep_refuses t k Hv).
Qed.

(** A system that sends some signals, each halfway through the sleep it finds. *)
Record drowsy : Type := Drowsy { clock : Z; alarms : nat }.

#[global] Instance drowsy_sleeper : Sleeper drowsy := {
  nanosleep t k :=
    if decide (0 <= tv_sec t /\ 0 <= tv_nsec t < second) then
      match alarms k with
      | O => (0, None, Drowsy (clock k + nanos t) 0)
      | S a => (-1, Some (TimeSpec (tv_sec t) (tv_nsec t / 2)),
                Drowsy (clock k + (tv_nsec t - tv_nsec t / 2)) a)
      end
    else (-1, None, k);
  timeout_gettime := clock
}.

#[global] Instance drowsy_laws : SleeperLaws drowsy alarms.
Proof.
  split.
  - intros t k rv rmd k' Hv. pose proof Hv as [Hs Hn]. cbn. rewrite decide_True by done.
    destruct (alarms k) as [|a] eqn:Ha; intros [= <- <- <-]; cbn; [left; split; [done|lia]|right].
    split; [done|]. split; [lia|]. eexists. split; [done|]. unfold valid, nanos, second in *. cbn.
    pose proof (Z.div_mod (tv_nsec t) 2). pose proof (Z.mod_pos_bound (tv_nsec t) 2). lia.
  - intros t k Hv. cbn. by rewrite decide_False.
Qed.

Example sleep_lasts_witness :
  (exists k', timeout_lua_sleep 5 2500000000 (Drowsy 7 3) = (Ok 0, k') /\ 7 + 2500000000 <= clock k') /\
  timeout_lua_sleep 5 (-1500000000) (Drowsy 7 3) = (Stop (Undefined "uninitialised remainder"), Drowsy 7 3).
Proof.
  split.
  - apply (proj1 (sleep_lasts alarms 5 2500000000 (Drowsy 7 3) ltac:(cbn; lia))). unfold second; lia.
  - apply (proj2 (sleep_lasts alarms 5 (-1500000000) (Drowsy 7 3) ltac:(cbn; lia))). unfold second; lia.
Defined.
