(* ===== verification/Net.v ===== *)
(** * Descriptors of sockets

    The socket calls of the system as a class over its state, each on the
    descriptor it is given, and what is documented of them as laws: the state
    stands for a table of the descriptors the process has open, and a call
    changes the entries it is documented to change and no others.  Seen from one
    descriptor the system is a [Kernel] of [Socket.v]. *)

From S2P Require Import Prelude CString Transport Socket.
#[global] Open Scope Z_scope.

Definition EBADF : Z := 9.
Definition ECONNABORTED : Z := 103.
Definition EINPROGRESS : Z := 115.
Definition O_NONBLOCK : Z := 2048.
Definition AF_UNSPEC : Z := 0.
Definition AF_INET : Z := 2.
Definition SOCK_STREAM : Z := 1.

(** [struct sockaddr_in], address and port as numbers; [struct hostent] with the
    addresses of its list. *)
Record sockaddr : Type := SockAddr { sin_family : Z; sin_addr : Z; sin_port : Z }.
Record hostent : Type := HostEnt {
  h_name : bytes; h_aliases : list bytes; h_addr_list : list Z
}.

(** The result of a call with [errno], and with what it stores. *)
Class Net (N : Type) : Type := {
  net_socket : Z -> Z -> Z -> N -> Z * Z * N;
  net_close : Z -> N -> N;
  net_getfl : Z -> N -> Z;
  net_setfl : Z -> Z -> N -> N;
  net_bind : Z -> sockaddr -> N -> Z * Z * N;
  net_listen : Z -> Z -> N -> Z * Z * N;
  net_connect : Z -> sockaddr -> N -> Z * Z * N;
  net_accept : Z -> N -> Z * Z * N;
  net_shutdown : Z -> Z -> N -> N;
  net_read : Z -> nat -> N -> Z * bytes * Z * N;
  net_send : Z -> bytes -> N -> Z * Z * N;
  net_recvfrom : Z -> nat -> N -> Z * bytes * sockaddr * Z * N;
  net_sendto : Z -> bytes -> sockaddr -> N -> Z * Z * N;
  net_recv : Z -> nat -> N -> Z * Z * N;
  (** the three sets, and what is left in them *)
  net_select : Z -> gset Z -> gset Z -> gset Z -> option Z -> N -> Z * gset Z * gset Z * gset Z * Z * N;
  net_setsockopt : Z -> Z -> Z -> list Z -> N -> Z * N;
  net_getpeername : Z -> N -> option sockaddr;
  net_getsockname : Z -> N -> option sockaddr;
  net_gethostname : N -> option bytes;
  (** the entry found, [h_errno] and [errno] *)
  net_gethostbyname : bytes -> N -> option hostent * Z * Z * N;
  net_gethostbyaddr : Z -> N -> option hostent * Z * Z * N;
  net_time : N -> Z;
  net_errno : N -> Z
}.

(** The [fd_set]s [socket_waitfd] makes; a set it does not pass is empty. *)
Definition fds_for (sw mask fd : Z) : gset Z := if decide (Z.land sw mask <> 0) then {[fd]} else ∅.

Definition net_kernel {N} `{Net N} (fd : Z) : Kernel N := {|
  sys_read := net_read fd;
  sys_send := net_send fd;
  sys_select sw t k :=
    let '(r, rfds, _, _, errno, k') :=
      net_select (fd + 1) (fds_for sw WAITFD_R fd) (fds_for sw WAITFD_W fd) ∅ t k in
    (r, bool_decide (fd ∈ rfds), errno, k');
  gettimeofday := net_time
|}.

(** ** The table of descriptors *)

(** Whether the descriptor listens and whether calls on it may block; what the
    peer has still to deliver, and what it has been sent. *)
Record desc : Type := Desc {
  d_listens : bool; d_nonblock : bool; d_unread : bytes; d_wire : bytes
}.

Definition set_nonblock (b : bool) (e : desc) : desc := Desc (d_listens e) b (d_unread e) (d_wire e).
Definition set_listens (e : desc) : desc := Desc true (d_nonblock e) (d_unread e) (d_wire e).
Definition set_streams (u w : bytes) (e : desc) : desc := Desc (d_listens e) (d_nonblock e) u w.

Section Table.
Context {N : Type} `{Net N} (descs : N -> gmap Z desc) (patience : N -> nat) (delta : Z).

(** Time passes, and with it the interruptions still to come. *)
Definition passes (k k' : N) : Prop := (patience k' <= patience k)%nat /\ net_time k <= net_time k'.
Definition quick (k k' : N) : Prop := passes k k' /\ net_time k' <= net_time k + delta.

(** A call on [fd] that leaves alone the other descriptors, and whether calls
    on this one block. *)
Definition only_on (fd : Z) (k k' : N) : Prop :=
  descs k' = descs k \/
  exists e e', descs k !! fd = Some e /\ d_nonblock e' = d_nonblock e /\ descs k' = <[fd := e']> (descs k).

Definition does_not_block (fd : Z) (k : N) : Prop := exists e, descs k !! fd = Some e /\ d_nonblock e = true.

(** A call that failed says why. *)
Definition fails (r errno : Z) : Prop := r = -1 /\ 0 < errno.

(** A new descriptor is one that was free. *)
Definition opens (fd : Z) (k k' : N) : Prop :=
  0 <= fd /\ descs k !! fd = None /\
  exists e, d_listens e = false /\ d_wire e = [] /\ descs k' = <[fd := e]> (descs k).
End Table.

Class NetLaws (N : Type) `{Net N} (descs : N -> gmap Z desc) (patience : N -> nat) (delta : Z) : Prop := {
  net_delta : 0 <= delta;
  net_socket_law dom type proto k r errno k' :
    net_socket dom type proto k = (r, errno, k') ->
    passes patience k k' /\ (opens descs r k k' \/ (fails r errno /\ descs k' = descs k));
  net_close_law fd k : passes patience k (net_close fd k) /\ descs (net_close fd k) = delete fd (descs k);
  net_setfl_law fd flags k :
    passes patience k (net_setfl fd flags k) /\
    descs (net_setfl fd flags k) = alter (set_nonblock (Z.testbit flags 11)) fd (descs k);
  net_bind_law fd a k r errno k' :
    net_bind fd a k = (r, errno, k') ->
    passes patience k k' /\ descs k' = descs k /\ (r = 0 \/ fails r errno);
  net_listen_law fd backlog k r errno k' :
    net_listen fd backlog k = (r, errno, k') ->
    passes patience k k' /\
    ((r = 0 /\ is_Some (descs k !! fd) /\ descs k' = alter set_listens fd (descs k)) \/
     (fails r errno /\ descs k' = descs k));
  net_shutdown_law fd how k :
    passes patience k (net_shutdown fd how k) /\ only_on descs fd k (net_shutdown fd how k);
  net_connect_law fd a k r errno k' :
    net_connect fd a k = (r, errno, k') -> does_not_block descs fd k ->
    quick patience delta k k' /\ only_on descs fd k k' /\
    (r = 0 \/ (fails r errno /\ (errno = EINTR -> (patience k' < patience k)%nat)));
  net_accept_law fd k r errno k' :
    net_accept fd k = (r, errno, k') -> does_not_block descs fd k ->
    quick patience delta k k' /\
    (opens descs r k k' \/
     (fails r errno /\ descs k' = descs k /\
      ((errno = EINTR \/ errno = EAGAIN \/ errno = ECONNABORTED) -> (patience k' < patience k)%nat)));
  net_recv_law fd n k r errno k' :
    net_recv fd n k = (r, errno, k') -> does_not_block descs fd k ->
    quick patience delta k k' /\ (n = 0%nat -> descs k' = descs k) /\ (0 <= r \/ fails r errno);
  net_read_law fd n k taken data errno k' e :
    net_read fd n k = (taken, data, errno, k') -> descs k !! fd = Some e -> d_nonblock e = true -> (0 < n)%nat ->
    quick patience delta k k' /\
    exists u, descs k' = <[fd := set_streams u (d_wire e) e]> (descs k) /\
      ((taken = Z.of_nat (length data) /\ (length data <= n)%nat /\ data <> [] /\ d_unread e = data ++ u) \/
       (taken = 0 /\ d_unread e = [] /\ u = []) \/
       (fails taken errno /\ u = d_unread e /\
        ((errno = EINTR \/ errno = EAGAIN) -> (patience k' < patience k)%nat)));
  net_send_law fd data k sent errno k' e :
    net_send fd data k = (sent, errno, k') -> descs k !! fd = Some e -> d_nonblock e = true ->
    quick patience delta k k' /\ -1 <= sent <= Z.of_nat (length data) /\
    descs k' = <[fd := set_streams (d_unread e) (d_wire e ++ take (Z.to_nat sent) data) e]> (descs k) /\
    (sent = -1 -> 0 < errno /\ ((errno = EINTR \/ errno = EAGAIN) -> (patience k' < patience k)%nat));
  net_sendto_law fd data a k sent errno k' :
    net_sendto fd data a k = (sent, errno, k') -> does_not_block descs fd k ->
    quick patience delta k k' /\ descs k' = descs k /\ -1 <= sent <= Z.of_nat (length data) /\
    (sent = -1 -> 0 < errno /\ ((errno = EINTR \/ errno = EAGAIN) -> (patience k' < patience k)%nat));
  net_recvfrom_law fd n k taken data a errno k' :
    net_recvfrom fd n k = (taken, data, a, errno, k') -> does_not_block descs fd k ->
    quick patience delta k k' /\ descs k' = descs k /\
    ((taken = Z.of_nat (length data) /\ (length data <= n)%nat) \/
     (fails taken errno /\ ((errno = EINTR \/ errno = EAGAIN) -> (patience k' < patience k)%nat)));
  net_select_law n rfds wfds efds t k r rfds' wfds' efds' errno k' :
    net_select n rfds wfds efds t k = (r, rfds', wfds', efds', errno, k') ->
    (forall limit, t = Some limit -> 0 <= limit) ->
    passes patience k k' /\ descs k' = descs k /\
    (forall limit, t = Some limit -> net_time k' <= net_time k + limit + delta) /\
    -1 <= r /\ (r = -1 -> 0 < errno /\ (errno = EINTR -> (patience k' < patience k)%nat)) /\
    (r = -1 -> rfds' = rfds /\ wfds' = wfds /\ efds' = efds) /\
    (0 <= r -> rfds' ⊆ rfds /\ wfds' ⊆ wfds /\ efds' ⊆ efds /\ r = Z.of_nat (size rfds' + size wfds' + size efds'));
  net_setsockopt_law fd level name val k r k' :
    net_setsockopt fd level name val k = (r, k') -> passes patience k k' /\ descs k' = descs k;
  net_gethostbyname_law name k hp h_errno errno k' :
    net_gethostbyname name k = (hp, h_errno, errno, k') ->
    passes patience k k' /\ descs k' = descs k /\ (forall h, hp = Some h -> h_addr_list h <> []);
  net_gethostbyaddr_law addr k hp h_errno errno k' :
    net_gethostbyaddr addr k = (hp, h_errno, errno, k') ->
    passes patience k k' /\ descs k' = descs k /\ (forall h, hp = Some h -> h_addr_list h <> [])
}.

(** ** One descriptor of the table *)

Section Descriptor.
Context {N : Type} (descs : N -> gmap Z desc) (patience : N -> nat) (delta : Z)
  `{NetLaws N descs patience delta}.

Lemma passes_refl k : passes patience k k.
Proof. by split. Qed.

Lemma passes_trans k1 k2 k3 : passes patience k1 k2 -> passes patience k2 k3 -> passes patience k1 k3.
Proof. intros [? ?] [? ?]. split; lia. Qed.

(** The streams of a descriptor; none when it is closed. *)
Definition net_unread (fd : Z) (k : N) : bytes := default [] (d_unread <$> descs k !! fd).
Definition net_wire (fd : Z) (k : N) : bytes := default [] (d_wire <$> descs k !! fd).

(** Since [k0] nothing but the streams of [fd] has changed. *)
Definition streams_on (fd : Z) (k0 k : N) : Prop :=
  exists e u w, descs k0 !! fd = Some e /\ d_nonblock e = true /\
    descs k = <[fd := set_streams u w e]> (descs k0) /\ passes patience k0 k.

Lemma streams_on_start fd k : does_not_block descs fd k -> streams_on fd k k.
Proof.
  intros (e & He & Hn). exists e, (d_unread e), (d_wire e). split; [done|]. split; [done|].
  split; [|apply passes_refl]. rewrite insert_id; [done|]. by destruct e.
Qed.

Lemma streams_on_step fd k0 k e u w k' :
  streams_on fd k0 k -> descs k !! fd = Some e -> descs k' = <[fd := set_streams u w e]> (descs k) ->
  passes patience k k' -> streams_on fd k0 k'.
Proof.
  intros (e0 & u0 & w0 & He0 & Hn & Hk & Hp) He Hk' Hp'. exists e0, u, w. split; [done|]. split; [done|].
  split; [|by eapply passes_trans]. rewrite Hk in He. rewrite lookup_insert_eq in He. simplify_eq.
  by rewrite Hk', Hk, insert_insert_eq.
Qed.

Lemma streams_on_quiet fd k0 k k' :
  streams_on fd k0 k -> descs k' = descs k -> passes patience k k' -> streams_on fd k0 k'.
Proof.
  intros (e0 & u0 & w0 & He0 & Hn & Hk & Hp) Hk' Hp'. exists e0, u0, w0. split; [done|]. split; [done|].
  split; [congruence|by eapply passes_trans].
Qed.

Lemma streams_on_lookup fd k0 k :
  streams_on fd k0 k -> exists e, descs k !! fd = Some e /\ d_nonblock e = true.
Proof. intros (e0 & u0 & w0 & He0 & Hn & -> & Hp). eexists. by rewrite lookup_insert_eq. Qed.

(** One descriptor behaves as [Socket.v] asks. *)
Lemma net_kernel_laws fd k0 :
  @KernelLaws N (net_kernel fd) (streams_on fd k0) (net_unread fd) (net_wire fd) patience delta.
Proof.
  split.
  - apply net_delta.
  - intros n k taken data errno k' Hon Hn Hread. cbn in *.
    destruct (streams_on_lookup _ _ _ Hon) as (e & He & Hnb).
    destruct (net_read_law _ _ _ _ _ _ _ _ Hread He Hnb Hn) as ([Hp Ht] & u & Hk & Hcases).
    unfold net_unread, net_wire. rewrite He, Hk, lookup_insert_eq. cbn.
    split; [by eapply streams_on_step|]. split; [done|]. split; [apply Hp|]. split; [split; [apply Hp|done]|].
    unfold fails in Hcases. naive_solver.
  - intros data k sent errno k' Hon Hsend. cbn in *.
    destruct (streams_on_lookup _ _ _ Hon) as (e & He & Hnb).
    destruct (net_send_law _ _ _ _ _ _ _ Hsend He Hnb) as ([Hp Ht] & Hrange & Hk & Hless).
    unfold net_unread, net_wire. rewrite He, Hk, lookup_insert_eq. cbn.
    split; [by eapply streams_on_step|]. split; [done|]. split; [apply Hp|]. split; [split; [apply Hp|done]|].
    done.
  - intros sw t k r readable errno k' Hon Ht Hsel. cbn in Hsel.
    destruct (net_select _ _ _ _ _ _) as [[[[[r0 rfds] wfds] efds] errno0] k0'] eqn:Hs. simplify_eq.
    destruct (net_select_law _ _ _ _ _ _ _ _ _ _ _ _ Hs Ht) as (Hp & Hk & Hlimit & Hr & Hintr & _).
    unfold net_unread, net_wire. rewrite Hk. split; [by eapply streams_on_quiet|].
    do 2 (split; [done|]). split; [apply Hp|]. split; [apply Hp|]. done.
Qed.
End Descriptor.

(** ** A network that is busy for a while *)

(** [backlog]: the connections waiting to be accepted, with what their peers
    will send. *)
Record toynet : Type := ToyNet {
  t_table : gmap Z desc; t_backlog : list bytes; t_busy : nat; t_clock : Z
}.

Definition t_with (f : gmap Z desc -> gmap Z desc) (k : toynet) : toynet :=
  ToyNet (f (t_table k)) (t_backlog k) (t_busy k) (t_clock k).

(** A descriptor that is free. *)
Definition t_free (m : gmap Z desc) : Z := Z.pos (fresh (set_map (C := gset Z) (D := gset positive) Z.to_pos (dom m))).

Lemma t_free_spec m : 0 <= t_free m /\ m !! t_free m = None.
Proof.
  unfold t_free. set (X := set_map _ _). pose proof (is_fresh X) as Hfresh. split; [lia|].
  apply eq_None_not_Some. intros Hsome. apply Hfresh. unfold X. apply elem_of_map.
  exists (Z.pos (fresh X)). split; [done|]. by apply elem_of_dom.
Qed.

(** A call on an open descriptor, which is interrupted while the net is busy. *)
Definition t_call {A} (err : A) (fd : Z) (k : toynet) (f : desc -> A * Z * toynet) : A * Z * toynet :=
  match t_table k !! fd, t_busy k with
  | None, _ => (err, EBADF, k)
  | Some _, S b => (err, EINTR, ToyNet (t_table k) (t_backlog k) b (t_clock k))
  | Some e, O => f e
  end.

Definition t_host : hostent := HostEnt (of_string "localhost") [] [2130706433].

#[global] Instance toynet_net : Net toynet := {
  net_socket _ _ _ k := let r := t_free (t_table k) in (r, 0, t_with <[r := Desc false false [] []]> k);
  net_close fd := t_with (delete fd);
  net_getfl fd k := if decide ((d_nonblock <$> t_table k !! fd) = Some true) then O_NONBLOCK else 0;
  net_setfl fd flags := t_with (alter (set_nonblock (Z.testbit flags 11)) fd);
  net_bind _ _ k := (0, 0, k);
  net_listen fd _ k :=
    match t_table k !! fd with Some _ => (0, 0, t_with (alter set_listens fd) k) | None => (-1, EBADF, k) end;
  net_connect fd _ k := t_call (-1) fd k (fun e =>
    (-1, EINPROGRESS, t_with <[fd := set_streams (of_string "welcome") (d_wire e) e]> k));
  net_accept fd k := t_call (-1) fd k (fun _ =>
    match t_backlog k with
    | [] => (-1, EINPROGRESS, k)
    | c :: cs => let r := t_free (t_table k) in
        (r, 0, ToyNet (<[r := Desc false false c []]> (t_table k)) cs (t_busy k) (t_clock k))
    end);
  net_shutdown _ _ k := k;
  net_read fd n k := t_call (-1, []) fd k (fun e =>
    let got := take n (d_unread e) in
    (Z.of_nat (length got), got, 0, t_with <[fd := set_streams (drop n (d_unread e)) (d_wire e) e]> k));
  net_send fd d k := t_call (-1) fd k (fun e =>
    (Z.of_nat (length d), 0, t_with <[fd := set_streams (d_unread e) (d_wire e ++ d) e]> k));
  net_recvfrom fd _ k := (-1, [], SockAddr 0 0 0, EBADF, k);
  net_sendto _ d _ k := (Z.of_nat (length d), 0, k);
  net_recv _ _ k := (0, 0, k);
  net_select _ rfds wfds efds t k :=
    (Z.of_nat (size rfds + size wfds + size efds), rfds, wfds, efds, 0, ToyNet (t_table k) (t_backlog k) (t_busy k) (t_clock k + from_option (Z.min 10) 10 t));
  net_setsockopt _ _ _ _ k := (0, k);
  net_getpeername _ _ := None;
  net_getsockname _ _ := Some (SockAddr AF_INET 2130706433 4166);
  net_gethostname _ := Some (of_string "localhost");
  net_gethostbyname _ k := (Some t_host, 0, 0, k);
  net_gethostbyaddr _ k := (Some t_host, 0, 0, k);
  net_time := t_clock;
  net_errno _ := 0
}.

Lemma t_passes k m b c : (b <= t_busy k)%nat -> t_clock k <= c -> forall l, passes t_busy k (ToyNet m l b c).
Proof. by split. Qed.

Lemma t_quick k m b l : (b <= t_busy k)%nat -> quick t_busy 0 k (ToyNet m l b (t_clock k)).
Proof. intros. split; [by apply t_passes|cbn; lia]. Qed.

Lemma t_quick_refl k : quick t_busy 0 k k.
Proof. split; [by split|lia]. Qed.

#[global] Instance toynet_laws : NetLaws toynet t_table t_busy 0.
Proof.
  split; try done.
  - intros dom type proto k r errno k' [= <- _ <-]. split; [by apply t_passes|]. left.
    destruct (t_free_spec (t_table k)). split; [done|]. split; [done|]. by eexists (Desc _ _ _ _).
  - intros fd a k r errno k' [= <- <- <-]. split; [by split|]. split; [done|by left].
  - intros fd backlog k r errno k'. cbn. destruct (t_table k !! fd) eqn:He; intros [= <- <- <-].
    + split; [by apply t_passes|]. left. by eauto.
    + split; [by split|]. by right.
  - intros fd how k. split; [by split|by left].
  - intros fd a k r errno k' Hc (e & He & Hn). revert Hc. cbn. unfold t_call. rewrite He.
    destruct (t_busy k) as [|b] eqn:Hb; intros [= <- <- <-].
    + split; [apply t_quick; lia|]. split; [right; by exists e, (set_streams (of_string "welcome") (d_wire e) e)|]. by right.
    + split; [apply t_quick; lia|]. split; [by left|]. right. split; [done|]. cbn. lia.
  - intros fd k r errno k' Hc (e & He & Hn). revert Hc. cbn. unfold t_call. rewrite He.
    destruct (t_busy k) as [|b] eqn:Hb; [destruct (t_backlog k)|]; intros [= <- <- <-].
    + split; [apply t_quick_refl|]. right. split; [done|]. split; [done|]. by intros [?|[?|?]].
    + split; [apply t_quick; lia|]. left. destruct (t_free_spec (t_table k)). split; [done|]. split; [done|].
      by eexists (Desc _ _ _ _).
    + split; [apply t_quick; lia|]. right. split; [done|]. split; [done|]. cbn. lia.
  - intros fd n k r errno k' [= <- <- <-] _. split; [apply t_quick_refl|]. split; [done|]. by left.
  - intros fd n k taken data errno k' e Hc He Hn Hpos. revert Hc. cbn. unfold t_call. rewrite He.
    destruct (t_busy k) as [|b] eqn:Hb; intros [= <- <- <- <-].
    + split; [apply t_quick; lia|]. exists (drop n (d_unread e)). split; [done|].
      destruct (d_unread e) as [|c u] eqn:Hu; [right; left; by rewrite take_nil, drop_nil|left].
      split; [done|]. split; [rewrite length_take; lia|]. split; [by destruct n; [lia|]|by rewrite take_drop].
    + split; [apply t_quick; lia|]. exists (d_unread e). split; [|right; right; split; [done|]; split; [done|cbn; lia]].
      cbn. rewrite insert_id; [done|]. by destruct e.
  - intros fd data k sent errno k' e Hc He Hn. revert Hc. cbn. unfold t_call. rewrite He.
    destruct (t_busy k) as [|b] eqn:Hb; intros [= <- <- <-]; (split; [apply t_quick; lia|]; split; [lia|]).
    + rewrite Nat2Z.id, firstn_all. split; [done|lia].
    + cbn. rewrite app_nil_r, insert_id; [split; [done|]; intros _; split; [done|lia]|]. by destruct e.
  - intros fd data a k sent errno k' [= <- <- <-] _. split; [apply t_quick_refl|]. split; [done|]. split; [lia|lia].
  - intros fd n k taken data a errno k' [= <- <- <- <- <-] _. split; [apply t_quick_refl|]. split; [done|]. right.
    split; [done|]. by intros [?|?].
  - intros n r0 w0 e0 t k r r1 w1 e1 errno k' [= <- <- <- <- <- <-] Ht.
    assert (match t with Some l => 0 <= l | None => True end) as Hl by (destruct t; [by apply Ht|done]).
    split; [apply t_passes; [done|destruct t; cbn; lia]|]. split; [done|].
    split; [intros limit ->; cbn; lia|]. split; [lia|]. split; [lia|]. done.
  - intros fd level name val k r k' [= <- <-]. by split.
  - intros name k hp he errno k' [= <- <- <- <-]. split; [by split|]. split; [done|]. by intros h [= <-].
  - intros name k hp he errno k' [= <- <- <- <-]. split; [by split|]. split; [done|]. by intros h [= <-].
Qed.
