(* ===== verification/SocketOps.v ===== *)
(** * Opening, naming and closing sockets (the rest of luasocket's [usocket.c])

    The operations on a descriptor besides the transfers of [Socket.v]: the two
    modes, creation and destruction, [bind], [listen], [connect] and [accept]
    with time limits, datagrams, the name service. *)

From S2P Require Import Prelude CString Transport Socket Net.
#[global] Open Scope Z_scope.

Section Ops.
Context {N : Type} `{Net N} (fuel : nat).
Context (strerror hstrerror : Z -> string).

(** A call on the descriptor of a socket: its result and [errno]. *)
Definition call (f : Z -> N -> Z * Z * N) : C (@sock N) (Z * Z) :=
  let! s := get in
  let '(r, errno, k) := f (fd s) (os s) in
  put (with_os k s) ;;; ret (r, errno).

Definition socket_setblocking : C (@sock N) unit :=
  let! s := get in
  let flags := net_getfl (fd s) (os s) in
  let flags := Z.land flags (Z.lnot O_NONBLOCK) in
  put (with_os (net_setfl (fd s) flags (os s)) s).

Definition socket_setnonblocking : C (@sock N) unit :=
  let! s := get in
  let flags := net_getfl (fd s) (os s) in
  let flags := Z.lor flags O_NONBLOCK in
  put (with_os (net_setfl (fd s) flags (os s)) s).

Definition socket_destroy : C (@sock N) unit :=
  let! s := get in
  if decide (fd s <> SOCKET_INVALID) then
    socket_setblocking ;;;
    modify (fun s => with_os (net_close (fd s) (os s)) s) ;;;
    modify (fun s => Sock SOCKET_INVALID (tm s) (os s))
  else ret tt.

(** The three sets, and what [select] leaves in them; [NULL] waits for ever. *)
Definition socket_select (n : Z) (rfds wfds efds : gset Z) (lim : t_timeout) : C N (Z * (gset Z * gset Z * gset Z)) :=
  loop fuel (fun '(rfds, wfds, efds) =>
    let! k := get in
    let t := timeout_getretry (net_time k) lim in
    let '(r, rfds, wfds, efds, errno, k) :=
      net_select n rfds wfds efds (if decide (0 <= t) then Some t else None) k in
    put k ;;;
    ret (if decide (r < 0 /\ errno = EINTR) then inl (rfds, wfds, efds) else inr (r, (rfds, wfds, efds))))
    (rfds, wfds, efds).

Definition socket_create (domain type protocol : Z) : C (@sock N) Z :=
  let! s := get in
  let '(r, errno, k) := net_socket domain type protocol (os s) in
  put (Sock r (tm s) k) ;;;
  ret (if decide (r <> SOCKET_INVALID) then IO_DONE else errno).

Definition socket_bind (addr : sockaddr) : C (@sock N) Z :=
  socket_setblocking ;;;
  let! '(r, errno) := call (fun fd => net_bind fd addr) in
  let err := if decide (r < 0) then errno else IO_DONE in
  socket_setnonblocking ;;;
  ret err.

Definition socket_listen (backlog : Z) : C (@sock N) Z :=
  socket_setblocking ;;;
  let! '(r, errno) := call (fun fd => net_listen fd backlog) in
  let err := if decide (r <> 0) then errno else IO_DONE in
  socket_setnonblocking ;;;
  ret err.

Definition socket_shutdown (how : Z) : C (@sock N) unit :=
  socket_setblocking ;;;
  modify (fun s => with_os (net_shutdown (fd s) how (os s)) s) ;;;
  socket_setnonblocking.

(** [socket_waitfd] on the descriptor of the socket. *)
Definition waitfd (sw : Z) : C (@sock N) Z :=
  let! s := get in @socket_waitfd N (net_kernel (fd s)) fuel sw.

(** The calls of [connect] until one is not interrupted: 0 or the error. *)
Definition connect_uninterrupted (addr : sockaddr) : C (@sock N) Z :=
  loop fuel (fun _ : unit =>
    let! '(r, errno) := call (fun fd => net_connect fd addr) in
    ret (if decide (r = 0) then inr IO_DONE
         else if decide (errno = EINTR) then inl tt else inr errno)) tt.

Definition socket_connect (addr : sockaddr) : C (@sock N) Z :=
  let! s := get in
  if decide (fd s = SOCKET_INVALID) then ret IO_CLOSED
  else
    let! err := connect_uninterrupted addr in
    if decide (err = IO_DONE) then ret IO_DONE
    else if decide (err <> EINPROGRESS /\ err <> EAGAIN) then ret err
    else
      let! s := get in
      if timeout_iszero (tm s) then ret IO_TIMEOUT
      else
        let! err := waitfd WAITFD_C in
        if decide (err = IO_CLOSED) then
          let! '(r, errno) := call (fun fd => net_recv fd 0) in
          ret (if decide (r = 0) then IO_DONE else errno)
        else ret err.

(** The error code and [*pa]. *)
Definition socket_accept : C (@sock N) (Z * Z) :=
  let! s := get in
  if decide (fd s = SOCKET_INVALID) then ret (IO_CLOSED, SOCKET_INVALID)
  else
    loop fuel (fun _ : unit =>
      let! '(pa, errno) := call net_accept in
      if decide (pa <> SOCKET_INVALID) then ret (inr (IO_DONE, pa))
      else if decide (errno = EINTR) then ret (inl tt)
      else if decide (errno <> EAGAIN /\ errno <> ECONNABORTED) then ret (inr (errno, pa))
      else
        let! err := waitfd WAITFD_R in
        ret (if decide (err <> IO_DONE) then inr (err, pa) else inl tt)) tt.

Definition socket_sendto (data : bytes) (addr : sockaddr) : C (@sock N) (Z * nat) :=
  let! s := get in
  if decide (fd s = SOCKET_INVALID) then ret (IO_CLOSED, 0%nat)
  else
    loop fuel (fun _ : unit =>
      let! '(sent, errno) := call (fun fd => net_sendto fd data addr) in
      if decide (sent > 0) then ret (inr (IO_DONE, Z.to_nat sent))
      else if decide (sent = 0 \/ errno = EPIPE) then ret (inr (IO_CLOSED, 0%nat))
      else if decide (errno = EINTR) then ret (inl tt)
      else if decide (errno <> EAGAIN) then ret (inr (errno, 0%nat))
      else
        let! err := waitfd WAITFD_W in
        ret (if decide (err <> IO_DONE) then inr (err, 0%nat) else inl tt)) tt.

(** The error code, the datagram and where it came from. *)
Definition socket_recvfrom (count : nat) : C (@sock N) (Z * option (bytes * sockaddr)) :=
  let! s := get in
  if decide (fd s = SOCKET_INVALID) then ret (IO_CLOSED, None)
  else
    loop fuel (fun _ : unit =>
      let! s := get in
      let '(taken, data, from, errno, k) := net_recvfrom (fd s) count (os s) in
      put (with_os k s) ;;;
      if decide (taken > 0) then ret (inr (IO_DONE, Some (data, from)))
      else if decide (taken = 0) then ret (inr (IO_CLOSED, None))
      else if decide (errno = EINTR) then ret (inl tt)
      else if decide (errno <> EAGAIN) then ret (inr (errno, None))
      else
        let! err := waitfd WAITFD_R in
        ret (if decide (err <> IO_DONE) then inr (err, None) else inl tt)) tt.

(** The error of the name service, when it has no entry. *)
Definition host_error (hp : option hostent) (h_errno errno : Z) : Z :=
  if decide (hp <> None) then IO_DONE
  else if decide (h_errno <> 0) then h_errno
  else if decide (errno <> 0) then errno
  else IO_UNKNOWN.

Definition socket_gethostbyaddr (addr : Z) : C N (Z * option hostent) :=
  let! k := get in
  let '(hp, h_errno, errno, k) := net_gethostbyaddr addr k in
  put k ;;; ret (host_error hp h_errno errno, hp).

Definition socket_gethostbyname (addr : bytes) : C N (Z * option hostent) :=
  let! k := get in
  let '(hp, h_errno, errno, k) := net_gethostbyname addr k in
  put k ;;; ret (host_error hp h_errno errno, hp).

(** [HOST_NOT_FOUND] is 1. *)
Definition socket_hoststrerror (err : Z) : option string :=
  if decide (err <= 0) then io_strerror err
  else match err with
  | 1 => Some "host not found"%string
  | _ => Some (hstrerror err)
  end.

Definition socket_ioerror (s : @sock N) (err : Z) : option string :=
  socket_strerror strerror (net_errno (os s)) err.
End Ops.

(** ** What the operations do to the table of descriptors *)

Section Specs.
Context {N : Type} (descs : N -> gmap Z desc) (patience : N -> nat) (delta : Z)
  `{NetLaws N descs patience delta} (fuel : nat).

Local Abbreviation passes := (passes patience).

(** The operation keeps the descriptor and the limits of the socket. *)
Definition same_socket (s s' : @sock N) : Prop := fd s' = fd s /\ tm s' = tm s /\ passes (os s) (os s').

Lemma same_socket_refl s : same_socket s s.
Proof. do 2 (split; [done|]). apply passes_refl. Qed.

Lemma same_socket_trans s1 s2 s3 : same_socket s1 s2 -> same_socket s2 s3 -> same_socket s1 s3.
Proof. intros (? & ? & ?) (? & ? & ?). do 2 (split; [congruence|]). by eapply passes_trans. Qed.

Lemma same_socket_os s s' k : same_socket s s' -> passes (os s') k -> same_socket s (with_os k s').
Proof. intros (? & ? & ?) ?. do 2 (split; [done|]). by eapply passes_trans. Qed.

Lemma wp_socket_setblocking s :
  wp socket_setblocking (fun o s' => o = Ok tt /\ same_socket s s' /\
    descs (os s') = alter (set_nonblock false) (fd s) (descs (os s))) s.
Proof.
  unfold socket_setblocking. rewrite wp_bind, wp_get. cbn [then_post]. rewrite wp_put.
  split; [done|]. set (flags := Z.land _ _). destruct (net_setfl_law (fd s) flags (os s)) as [Hp Hd].
  split; [by apply same_socket_os; [apply same_socket_refl|]|].
  cbn [os with_os]. rewrite Hd. unfold flags. by rewrite Z.land_spec, Z.lnot_spec, andb_false_r by done.
Qed.

Lemma wp_socket_setnonblocking s :
  wp socket_setnonblocking (fun o s' => o = Ok tt /\ same_socket s s' /\
    descs (os s') = alter (set_nonblock true) (fd s) (descs (os s))) s.
Proof.
  unfold socket_setnonblocking. rewrite wp_bind, wp_get. cbn [then_post]. rewrite wp_put.
  split; [done|]. set (flags := Z.lor _ _). destruct (net_setfl_law (fd s) flags (os s)) as [Hp Hd].
  split; [by apply same_socket_os; [apply same_socket_refl|]|].
  cbn [os with_os]. rewrite Hd. unfold flags. by rewrite Z.lor_spec, orb_true_r.
Qed.

(** A descriptor that does not block, or none. *)
Definition settled (fd : Z) (m : gmap Z desc) : Prop := forall e, m !! fd = Some e -> d_nonblock e = true.

Lemma alter_twice (m : gmap Z desc) f g fd : alter f fd (alter g fd m) = alter (fun e => f (g e)) fd m.
Proof.
  apply map_eq. intros d. destruct (decide (d = fd)) as [->|Hd].
  - rewrite !lookup_alter_eq. by destruct (m !! fd).
  - by rewrite !lookup_alter_ne.
Qed.

Lemma alter_agree (m : gmap Z desc) f g fd :
  (forall e, m !! fd = Some e -> f e = g e) -> alter f fd m = alter g fd m.
Proof.
  intros Hf. apply map_eq. intros d. destruct (decide (d = fd)) as [->|Hd].
  - rewrite !lookup_alter_eq. destruct (m !! fd) as [e|] eqn:He; [|done]. cbn. by rewrite Hf.
  - by rewrite !lookup_alter_ne.
Qed.

(** The two changes of mode around a call undo each other. *)
Lemma remode fd (m : gmap Z desc) f :
  settled fd m -> (forall e, f (set_nonblock false e) = set_nonblock false (f e)) ->
  (forall e, d_nonblock (f e) = d_nonblock e) ->
  alter (set_nonblock true) fd (alter f fd (alter (set_nonblock false) fd m)) = alter f fd m.
Proof.
  intros Hm Hf Hn. rewrite !alter_twice. apply alter_agree. intros e He. apply Hm in He.
  rewrite Hf. rewrite <- (Hn e) in He. destruct (f e). cbn in *. by subst.
Qed.

Lemma remode_id fd (m : gmap Z desc) :
  settled fd m -> alter (set_nonblock true) fd (alter (set_nonblock false) fd m) = m.
Proof.
  intros Hm. rewrite alter_twice. apply alter_id. intros [] He. apply Hm in He. cbn in *. by subst.
Qed.

Lemma wp_socket_call (f : Z -> N -> Z * Z * N) Q (s : @sock N) :
  wp (call f) Q s =
    (let '(r, errno, k) := f (fd s) (os s) in Q (Ok (r, errno)) (with_os k s)).
Proof. unfold call. rewrite wp_bind, wp_get. cbn [then_post]. by destruct (f (fd s) (os s)) as [[r errno] k]. Qed.

(** The descriptor is given back, and the socket is closed for good;
    closing it again does nothing. *)
Lemma wp_socket_destroy s :
  (fd s = SOCKET_INVALID -> descs (os s) !! fd s = None) ->
  wp socket_destroy (fun o s' => o = Ok tt /\ fd s' = SOCKET_INVALID /\ tm s' = tm s /\
    passes (os s) (os s') /\ descs (os s') = delete (fd s) (descs (os s))) s.
Proof.
  intros Hclosed. unfold socket_destroy. rewrite wp_bind, wp_get. cbn [then_post]. case_decide as Hfd.
  - rewrite wp_bind. eapply wp_mono; [apply wp_socket_setblocking|]. intros o s1 (-> & (Hf & Htm & Hp) & Hd).
    cbn [then_post]. rewrite wp_bind, wp_modify. cbn [then_post]. rewrite wp_modify. cbn.
    destruct (net_close_law (fd s1) (os s1)) as [Hp' ->]. do 2 (split; [done|]). split; [done|].
    split; [by eapply passes_trans|]. by rewrite Hd, Hf, delete_alter_eq.
  - rewrite wp_ret.
    do 3 (split; [done|]). split; [apply passes_refl|]. by rewrite delete_id by auto.
Qed.

(** A new descriptor, or the error and an invalid one. *)
Lemma wp_socket_create dom type proto s :
  wp (socket_create dom type proto) (fun o s' => exists e, o = Ok e /\ tm s' = tm s /\ passes (os s) (os s') /\
    ((e = IO_DONE /\ opens descs (fd s') (os s) (os s')) \/
     (0 < e /\ fd s' = SOCKET_INVALID /\ descs (os s') = descs (os s)))) s.
Proof.
  unfold socket_create. rewrite wp_bind, wp_get. cbn [then_post].
  destruct (net_socket dom type proto (os s)) as [[r errno] k] eqn:Hs.
  apply net_socket_law in Hs as (Hp & [Ho|[[-> Herrno] Hd]]); rewrite wp_bind, wp_put; cbn [then_post]; rewrite wp_ret.
  - destruct Ho as (Hr & ?). rewrite decide_True by (unfold SOCKET_INVALID; lia).
    eexists. split; [done|]. do 2 (split; [done|]). left. split; [done|]. by split.
  - rewrite decide_False by (by intros []). eexists. split; [done|]. do 2 (split; [done|]). by right.
Qed.

(** Binding changes nothing else; a failure has a positive code. *)
Lemma wp_socket_bind addr s :
  settled (fd s) (descs (os s)) ->
  wp (socket_bind addr) (fun o s' => exists e, o = Ok e /\ same_socket s s' /\
    descs (os s') = descs (os s) /\ 0 <= e) s.
Proof.
  intros Hset. unfold socket_bind. rewrite wp_bind. eapply wp_mono; [apply wp_socket_setblocking|].
  intros o s1 (-> & Hs1 & Hd1). cbn [then_post]. rewrite wp_bind, wp_socket_call.
  destruct (net_bind (fd s1) addr (os s1)) as [[r errno] k] eqn:Hb.
  apply net_bind_law in Hb as (Hp & Hd & He). cbn [then_post]. rewrite wp_bind.
  eapply wp_mono; [apply wp_socket_setnonblocking|]. intros o s2 (-> & Hs2 & Hd2). cbn [then_post]. rewrite wp_ret.
  eexists. split; [done|]. split; [by eapply same_socket_trans; [apply same_socket_os|]|].
  cbn in Hd2. pose proof Hs1 as [Hf _]. rewrite Hd2, Hd, Hd1, Hf. split.
  - by apply remode_id.
  - unfold fails, IO_DONE in *. case_decide; lia.
Qed.

(** A socket that listens is so marked; one that does not is as it was. *)
Lemma wp_socket_listen backlog s :
  settled (fd s) (descs (os s)) ->
  wp (socket_listen backlog) (fun o s' => exists e, o = Ok e /\ same_socket s s' /\
    ((e = IO_DONE /\ is_Some (descs (os s) !! fd s) /\ descs (os s') = alter set_listens (fd s) (descs (os s))) \/
     (0 < e /\ descs (os s') = descs (os s)))) s.
Proof.
  intros Hset. unfold socket_listen. rewrite wp_bind. eapply wp_mono; [apply wp_socket_setblocking|].
  intros o s1 (-> & Hs1 & Hd1). cbn [then_post]. rewrite wp_bind, wp_socket_call.
  destruct (net_listen (fd s1) backlog (os s1)) as [[r errno] k] eqn:Hl.
  apply net_listen_law in Hl as (Hp & He). cbn [then_post]. rewrite wp_bind.
  eapply wp_mono; [apply wp_socket_setnonblocking|]. intros o s2 (-> & Hs2 & Hd2). cbn [then_post]. rewrite wp_ret.
  eexists. split; [done|]. split; [by eapply same_socket_trans; [apply same_socket_os|]|].
  cbn in Hd2. pose proof Hs1 as [Hf _]. rewrite Hf in *.
  destruct He as [(-> & Hsome & Hd)|[[-> Herrno] Hd]]; rewrite Hd2, Hd, Hd1.
  - left. rewrite decide_False by lia. split; [done|]. split.
    + rewrite Hd1, lookup_alter_eq in Hsome. by rewrite fmap_is_Some in Hsome.
    + by apply remode.
  - right. rewrite decide_True by lia. split; [done|].
    by apply remode_id.
Qed.

Lemma wp_socket_shutdown how s :
  settled (fd s) (descs (os s)) ->
  wp (socket_shutdown how) (fun o s' => o = Ok tt /\ same_socket s s' /\ only_on descs (fd s) (os s) (os s')) s.
Proof.
  intros Hset. unfold socket_shutdown. rewrite wp_bind. eapply wp_mono; [apply wp_socket_setblocking|].
  intros o s1 (-> & Hs1 & Hd1). cbn [then_post]. rewrite wp_bind, wp_modify. cbn [then_post].
  destruct (net_shutdown_law (fd s1) how (os s1)) as [Hp Hon]. pose proof Hs1 as [Hf _].
  eapply wp_mono; [apply wp_socket_setnonblocking|]. intros o s2 (-> & Hs2 & Hd2). split; [done|].
  split; [by eapply same_socket_trans; [apply same_socket_os|]|].
  cbn in Hd2. rewrite Hf in *. destruct Hon as [Hd|(e & e' & He & _ & Hd)]; rewrite Hd, Hd1 in Hd2.
  - left. rewrite Hd2. by apply remode_id.
  - rewrite Hd1, lookup_alter_eq in He. destruct (descs (os s) !! fd s) as [e0|] eqn:He0; [|done].
    right. exists e0, (set_nonblock true e'). split; [done|]. split; [by rewrite (Hset e0)|].
    rewrite Hd2, alter_insert_eq. apply map_eq. intros d. destruct (decide (d = fd s)) as [->|Hne].
    + by rewrite !lookup_insert_eq.
    + by rewrite !lookup_insert_ne, lookup_alter_ne.
Qed.

(** ** Waiting with a limit *)

Lemma only_on_trans d k1 k2 k3 : only_on descs d k1 k2 -> only_on descs d k2 k3 -> only_on descs d k1 k3.
Proof.
  intros [H12|(e1 & e2 & H1 & Hn & H12)] [H23|(e2' & e3 & H2 & Hn' & H23)].
  - left. congruence.
  - right. exists e2', e3. by rewrite <- H12.
  - right. exists e1, e2. split; [done|]. split; [done|congruence].
  - right. exists e1, e3. rewrite H12, lookup_insert_eq in H2. simplify_eq. split; [done|].
    split; [congruence|]. by rewrite H23, H12, insert_insert_eq.
Qed.

Lemma only_on_blocks d k k' : only_on descs d k k' -> does_not_block descs d k -> does_not_block descs d k'.
Proof.
  intros [Hd|(e & e' & He & Hn & Hd)] (e0 & He0 & Hn0); unfold does_not_block; rewrite Hd; [by exists e0|].
  exists e'. rewrite lookup_insert_eq. split; [done|]. simplify_eq. congruence.
Qed.

(** Nothing has been transferred on a descriptor: the table is as it was. *)
Lemma streams_on_same d k0 k :
  streams_on descs patience d k0 k -> net_unread descs d k = net_unread descs d k0 ->
  net_wire descs d k = net_wire descs d k0 -> descs k = descs k0.
Proof.
  intros (e & u & w & He & Hn & Hd & _). unfold net_unread, net_wire. rewrite Hd, He, lookup_insert_eq. cbn.
  intros -> ->. rewrite <- (insert_id (descs k0) d e) at 2 by done. f_equal. by destruct e.
Qed.

(** The time, with what the interruptions still to come can cost. *)
Definition net_spent (k : N) : Z := net_time k + 2 * delta * Z.of_nat (patience k).

Local Abbreviation laws d k0 := (net_kernel_laws descs patience delta d k0).

Lemma wp_net_waitfd M sw s0 :
  fd s0 <> SOCKET_INVALID -> does_not_block descs (fd s0) (os s0) -> (patience (os s0) < fuel)%nat ->
  (forall D, deadline (tm s0) = Some D ->
     net_spent (os s0) <= M - delta /\ D + 2 * delta * Z.of_nat (patience (os s0)) <= M - delta) ->
  wp (waitfd fuel sw) (fun o s => exists e, o = Ok e /\ same_socket s0 s /\ descs (os s) = descs (os s0) /\
    (e = IO_CLOSED -> sw = WAITFD_C) /\ (forall D, deadline (tm s0) = Some D -> net_spent (os s) <= M)) s0.
Proof.
  intros Hfd Hnb Hfuel HM. unfold waitfd. rewrite wp_bind, wp_get. cbn [then_post].
  eapply wp_mono; [apply (@wp_waitfd N (fun _ => True) _ _ _ _ _ (net_kernel (fd s0)) (laws (fd s0) (os s0)) fuel M);
    [done| |done|done]|].
  { apply live_usable; [done|]. by apply streams_on_start. }
  intros o s (e & -> & (Hf & Htm & Hu & Hw & Hp & Hl) & He & Ht). exists e. split; [done|].
  apply live_usable in Hl; [|congruence].
  split; [do 2 (split; [done|]); by destruct Hl as (? & ? & ? & ? & ? & ? & ?)|].
  split; [by eapply streams_on_same|]. by split.
Qed.

(** ** Connecting *)

Lemma wp_connect_uninterrupted addr s0 :
  does_not_block descs (fd s0) (os s0) -> (patience (os s0) < fuel)%nat ->
  wp (connect_uninterrupted fuel addr) (fun o s => exists e, o = Ok e /\ 0 <= e /\ same_socket s0 s /\
    only_on descs (fd s0) (os s0) (os s) /\ net_spent (os s) <= net_spent (os s0) + delta) s0.
Proof.
  intros Hnb Hfuel. pose proof net_delta as Hdelta. unfold connect_uninterrupted.
  apply (wp_loop_measure _ (fun _ s => same_socket s0 s /\ only_on descs (fd s0) (os s0) (os s) /\
    net_spent (os s) <= net_spent (os s0)) (fun _ s => patience (os s)));
    [|split; [apply same_socket_refl|]; split; [by left|lia]|done].
  intros _ s (Hs & Hon & Ht). rewrite wp_bind, wp_socket_call. pose proof Hs as [Hf _]. rewrite Hf.
  destruct (net_connect (fd s0) addr (os s)) as [[r errno] k] eqn:Hc.
  apply net_connect_law in Hc as ([Hp Hq] & Honk & Hr); [|by eapply only_on_blocks].
  cbn [then_post]. rewrite wp_ret.
  assert (same_socket s0 (with_os k s)) as Hs' by by apply same_socket_os.
  assert (only_on descs (fd s0) (os s0) k) as Hon' by by eapply only_on_trans.
  pose proof Hp as [Hpk _]. assert (net_spent k <= net_spent (os s0) + delta) by (unfold net_spent in *; nia).
  destruct (decide (r = 0)); [exists IO_DONE; done|].
  destruct Hr as [?|[[_ Herrno] Hless]]; [done|]. destruct (decide (errno = EINTR)) as [Hi|Hi].
  - specialize (Hless Hi). split; [|done]. split; [done|]. split; [done|]. cbn. unfold net_spent in *. nia.
  - exists errno. split; [done|]. split; [lia|]. done.
Qed.

(** Connecting ends: at once when it fails at once or no time is allowed, and in
    any case by the time limit. *)
Lemma wp_socket_connect addr s0 :
  (fd s0 <> SOCKET_INVALID -> does_not_block descs (fd s0) (os s0)) -> (patience (os s0) < fuel)%nat ->
  wp (socket_connect fuel addr) (fun o s => exists e, o = Ok e /\ same_socket s0 s /\
    only_on descs (fd s0) (os s0) (os s) /\ (fd s0 = SOCKET_INVALID -> e = IO_CLOSED) /\
    (forall D, deadline (tm s0) = Some D ->
       net_time (os s) <= Z.max (net_time (os s0)) D + overrun delta (S (patience (os s0))))) s0.
Proof.
  intros Hnb Hfuel. pose proof net_delta as Hdelta. unfold socket_connect, overrun.
  rewrite wp_bind, wp_get. cbn [then_post]. case_decide as Hfd.
  { rewrite wp_ret. exists IO_CLOSED. split; [done|]. split; [apply same_socket_refl|]. split; [by left|].
    split; [done|]. intros D HD. nia. }
  specialize (Hnb Hfd). rewrite wp_bind. eapply wp_mono; [by apply wp_connect_uninterrupted|].
  intros o s (e & -> & He & Hs & Hon & Ht). cbn [then_post]. pose proof Hs as (Hf & Htm & [Hpat _]).
  assert (forall D, deadline (tm s0) = Some D ->
    net_time (os s) <= Z.max (net_time (os s0)) D + (2 * Z.of_nat (S (patience (os s0))) + 1) * delta) as Hend.
  { intros D HD. unfold net_spent in Ht. nia. }
  case_decide; [rewrite wp_ret; exists IO_DONE; done|].
  case_decide; [rewrite wp_ret; exists e; done|].
  rewrite wp_bind, wp_get. cbn [then_post]. case_match; [rewrite wp_ret; exists IO_TIMEOUT; done|].
  clear Hend. set (M := Z.max (net_time (os s0)) (default 0 (deadline (tm s0))) +
    2 * delta * Z.of_nat (patience (os s0)) + 2 * delta).
  rewrite wp_bind. eapply wp_mono; [apply (wp_net_waitfd M); [congruence|rewrite Hf; by eapply only_on_blocks|lia|]|].
  { rewrite Htm. unfold M, net_spent in *. intros D ->. cbn. nia. }
  rewrite Htm. intros o s1 (e1 & -> & Hs1 & Hd & _ & HM). cbn [then_post].
  assert (same_socket s0 s1) as Hs01 by by eapply same_socket_trans.
  assert (only_on descs (fd s0) (os s0) (os s1)) as Hon1 by (eapply only_on_trans; [done|]; by left).
  case_decide; cycle 1.
  { rewrite wp_ret. exists e1. do 3 (split; [done|]). split; [done|]. intros D HD. specialize (HM D HD).
    unfold M, net_spent in HM. rewrite HD in HM. cbn in HM. nia. }
  rewrite wp_bind, wp_socket_call. destruct (net_recv (fd s1) 0 (os s1)) as [[r errno] k] eqn:Hrecv.
  pose proof Hs01 as [Hf1 _]. rewrite Hf1 in Hrecv.
  apply net_recv_law in Hrecv as ([Hp Hq] & Hdk & _); [|by eapply only_on_blocks].
  cbn [then_post]. rewrite wp_ret. eexists. split; [done|]. split; [by apply same_socket_os|].
  split; [eapply only_on_trans; [done|left; by apply Hdk]|]. split; [done|].
  intros D HD. specialize (HM D HD). unfold M, net_spent in HM. rewrite HD in HM. cbn in *. nia.
Qed.

(** ** Calls that are tried again *)

(** Where an operation ends in time. *)
Definition in_time (s0 s : @sock N) : Prop :=
  forall D, deadline (tm s0) = Some D ->
    net_time (os s) <= Z.max (net_time (os s0)) D + overrun delta (patience (os s0)).

(** Nothing has happened on the descriptors, and there may be time left. *)
Definition awaiting (s0 s : @sock N) : Prop :=
  same_socket s0 s /\ descs (os s) = descs (os s0) /\ @on_time N patience delta (net_kernel (fd s0)) s0 s.

Lemma awaiting_start s0 : awaiting s0 s0.
Proof. split; [apply same_socket_refl|]. split; [done|]. apply on_time_start. Qed.

Lemma awaiting_idle s0 s k :
  fd s0 <> SOCKET_INVALID -> does_not_block descs (fd s0) (os s0) ->
  awaiting s0 s -> passes (os s) k -> descs k = descs (os s) ->
  idle (fun _ => True) (streams_on descs patience (fd s0) (os s0)) (net_unread descs (fd s0))
    (net_wire descs (fd s0)) patience s0 (with_os k s).
Proof.
  intros Hfd Hnb ((Hf & Htm & Hps) & Hd & _) Hp Hk. do 2 (split; [done|]). cbn.
  unfold net_unread, net_wire. rewrite Hk, Hd. do 2 (split; [done|]). split; [destruct Hp, Hps; lia|].
  apply live_usable; [cbn; congruence|]. eapply streams_on_quiet; [by apply streams_on_start|cbn; congruence|].
  by eapply passes_trans.
Qed.

(** A call that ends an operation. *)
Lemma in_time_call s0 s k :
  fd s0 <> SOCKET_INVALID -> does_not_block descs (fd s0) (os s0) ->
  awaiting s0 s -> quick patience delta (os s) k -> in_time s0 (with_os k s).
Proof.
  intros Hfd Hnb Haw [Hp Hq] D HD. pose proof net_delta. destruct Haw as ((Hf & Htm & [Hps _]) & _ & Ht).
  rewrite <- Htm in HD. destruct (Ht D HD) as [Hspent _]. unfold spent, latest, overrun in *.
  rewrite <- Htm, HD in Hspent. cbn in *. nia.
Qed.

Lemma wp_net_retry {B} giveup `{Decision giveup} sw errno (none : B) s0 s k :
  fd s0 <> SOCKET_INVALID -> does_not_block descs (fd s0) (os s0) -> (patience (os s) < fuel)%nat ->
  sw <> WAITFD_C -> 0 < errno -> awaiting s0 s -> quick patience delta (os s) k -> descs k = descs (os s) ->
  ((errno = EINTR \/ ~ giveup) -> (patience k < patience (os s))%nat) ->
  wp (if decide (errno = EINTR) then ret (inl tt)
      else if decide giveup then ret (inr (errno, none))
      else let! err := waitfd fuel sw in
           ret (if decide (err <> IO_DONE) then inr (err, none) else inl tt))
    (fun o s' =>
       (o = Ok (inl tt) /\ awaiting s0 s' /\ (patience (os s') < patience (os s))%nat) \/
       (exists e, o = Ok (inr (e, none)) /\ e <> IO_DONE /\ same_socket s0 s' /\
          descs (os s') = descs (os s0) /\ in_time s0 s'))
    (with_os k s).
Proof.
  intros Hfd Hnb Hfuel Hsw Herrno Haw [Hp Hq] Hk Hless. pose proof Haw as ((Hf & _) & _ & Ht).
  assert (fd s <> SOCKET_INVALID) as Hfds by congruence.
  pose proof (awaiting_idle s0 s k Hfd Hnb Haw Hp Hk) as Hidle.
  pose proof (@wp_retry N (fun _ => True) _ _ _ _ _ (net_kernel (fd s0)) (laws (fd s0) (os s0)) fuel B giveup _
    sw errno none s0 s k Hfds Hfuel Hsw Herrno Hidle Ht ltac:(apply Hp) Hq Hless) as Hwp.
  assert (forall Q, wp (if decide (errno = EINTR) then ret (inl tt)
      else if decide giveup then ret (inr (errno, none))
      else let! err := @socket_waitfd N (net_kernel (fd s0)) fuel sw in
           ret (if decide (err <> IO_DONE) then inr (err, none) else inl tt)) Q (with_os k s) ->
    wp (if decide (errno = EINTR) then ret (inl tt)
      else if decide giveup then ret (inr (errno, none))
      else let! err := waitfd fuel sw in
           ret (if decide (err <> IO_DONE) then inr (err, none) else inl tt)) Q (with_os k s)) as Hsame.
  { intros Q. destruct (decide (errno = EINTR)); [done|]. destruct (decide giveup); [done|].
    rewrite !wp_bind. unfold waitfd. rewrite wp_bind, wp_get. cbn [then_post fd with_os]. by rewrite Hf. }
  apply Hsame. eapply wp_mono; [exact Hwp|].
  intros o s' ((Hf' & Htm' & Hu & Hw & Hp' & Hl) & Hcases). apply live_usable in Hl; [|congruence].
  pose proof (streams_on_same _ _ _ Hl Hu Hw) as Hd'.
  assert (same_socket s0 s') as Hs' by (do 2 (split; [done|]); by destruct Hl as (? & ? & ? & ? & ? & ? & ?)).
  destruct Hcases as [(-> & Ht' & Hlt)|(e & -> & Hend & Hd & _)]; [by left|].
  right. exists e. do 4 (split; [done|]). intros D HD. by eapply (ended_by (fun _ => True)) in Hend.
Qed.

Lemma opens_from d k0 k k' : descs k = descs k0 -> opens descs d k k' -> opens descs d k0 k'.
Proof. unfold opens. by intros ->. Qed.

(** Accepting: a new descriptor for the connection, or an error and none. *)
Lemma wp_socket_accept s0 :
  (fd s0 <> SOCKET_INVALID -> does_not_block descs (fd s0) (os s0)) -> (patience (os s0) < fuel)%nat ->
  wp (socket_accept fuel) (fun o s => exists e pa, o = Ok (e, pa) /\ same_socket s0 s /\
    ((e = IO_DONE /\ opens descs pa (os s0) (os s)) \/
     (e <> IO_DONE /\ pa = SOCKET_INVALID /\ descs (os s) = descs (os s0))) /\
    in_time s0 s) s0.
Proof.
  intros Hnb Hfuel. pose proof net_delta as Hdelta. unfold socket_accept.
  rewrite wp_bind, wp_get. cbn [then_post]. case_decide as Hfd.
  { rewrite wp_ret. exists IO_CLOSED, SOCKET_INVALID. split; [done|]. split; [apply same_socket_refl|].
    split; [by right|]. intros D HD. unfold overrun. nia. }
  specialize (Hnb Hfd).
  apply (wp_loop_measure _ (fun _ => awaiting s0) (fun _ s => patience (os s)));
    [|apply awaiting_start|done].
  intros _ s Haw. pose proof Haw as (Hs & Hd & _). pose proof Hs as (Hf & _ & [Hps _]).
  rewrite wp_bind, wp_socket_call. rewrite Hf.
  destruct (net_accept (fd s0) (os s)) as [[pa errno] k] eqn:Ha.
  apply net_accept_law in Ha as (Hq & Hcases); [|unfold does_not_block; by rewrite Hd].
  pose proof Hq as [Hp _]. cbn [then_post].
  destruct Hcases as [Ho|[[-> Herrno] [Hk Hless]]].
  - rewrite decide_True by (destruct Ho; unfold SOCKET_INVALID; lia). rewrite wp_ret.
    exists IO_DONE, pa. split; [done|]. split; [by apply same_socket_os|].
    split; [left; split; [done|by eapply opens_from]|by apply (in_time_call s0 s k)].
  - rewrite decide_False by (by intros []).
    eapply wp_mono; [apply (wp_net_retry (errno <> EAGAIN /\ errno <> ECONNABORTED) WAITFD_R errno (-1) s0 s k);
      try done; [lia|]|].
    { intros Hagain. apply Hless. destruct (decide (errno = EINTR)); [by left|]. right.
      destruct (decide (errno = EAGAIN)); [by left|]. right. destruct (decide (errno = ECONNABORTED)); naive_solver. }
    intros o s' [(-> & Haw' & Hlt)|(e & -> & Hd' & Hs' & Hds & Hin)]; [done|].
    exists e, SOCKET_INVALID. split; [done|]. split; [done|]. split; [by right|done].
Qed.

(** Datagrams: the socket and the table of descriptors are left alone. *)
Lemma wp_socket_sendto data a s0 :
  (fd s0 <> SOCKET_INVALID -> does_not_block descs (fd s0) (os s0)) -> (patience (os s0) < fuel)%nat ->
  wp (socket_sendto fuel data a) (fun o s => exists e n, o = Ok (e, n) /\ same_socket s0 s /\
    descs (os s) = descs (os s0) /\ (n <= length data)%nat /\ (e = IO_DONE <-> (0 < n)%nat) /\ in_time s0 s) s0.
Proof.
  intros Hnb Hfuel. pose proof net_delta as Hdelta. unfold socket_sendto.
  rewrite wp_bind, wp_get. cbn [then_post]. case_decide as Hfd.
  { rewrite wp_ret. exists IO_CLOSED, 0%nat. split; [done|]. split; [apply same_socket_refl|].
    split; [done|]. split; [lia|]. split; [split; [done|lia]|]. intros D HD. unfold overrun. nia. }
  specialize (Hnb Hfd).
  apply (wp_loop_measure _ (fun _ => awaiting s0) (fun _ s => patience (os s)));
    [|apply awaiting_start|done].
  intros _ s Haw. pose proof Haw as (Hs & Hd & _). pose proof Hs as (Hf & _ & [Hps _]).
  rewrite wp_bind, wp_socket_call. rewrite Hf.
  destruct (net_sendto (fd s0) data a (os s)) as [[sent errno] k] eqn:Ha.
  apply net_sendto_law in Ha as (Hq & Hk & Hrange & Hless); [|unfold does_not_block; by rewrite Hd].
  pose proof Hq as [Hp _]. cbn [then_post].
  assert (same_socket s0 (with_os k s) /\ descs k = descs (os s0) /\ in_time s0 (with_os k s)) as (Hs' & Hk' & Hin)
    by (split; [by apply same_socket_os|]; split; [congruence|by apply in_time_call]).
  destruct (decide (sent > 0)).
  { rewrite wp_ret. exists IO_DONE, (Z.to_nat sent). do 3 (split; [done|]). split; [lia|]. split; [split; [lia|done]|done]. }
  case_decide as Hclosed.
  { rewrite wp_ret. exists IO_CLOSED, 0%nat. do 3 (split; [done|]). split; [lia|]. split; [split; [done|lia]|done]. }
  destruct (Hless ltac:(lia)) as [Herrno Hless'].
  eapply wp_mono; [apply (wp_net_retry (errno <> EAGAIN) WAITFD_W errno 0%nat s0 s k);
    try done; [lia|by intros ?%again_cases; apply Hless']|].
  intros o s' [(-> & Haw' & Hlt)|(e & -> & Hd' & Hss & Hds & Hint)]; [done|].
  exists e, 0%nat. do 3 (split; [done|]). split; [lia|]. split; [|done]. split; [done|lia].
Qed.

(** A datagram fits the count; an empty one is reported as the end of the
    connection. *)
Lemma wp_socket_recvfrom count s0 :
  (fd s0 <> SOCKET_INVALID -> does_not_block descs (fd s0) (os s0)) -> (patience (os s0) < fuel)%nat ->
  wp (socket_recvfrom fuel count) (fun o s => exists e r, o = Ok (e, r) /\ same_socket s0 s /\
    descs (os s) = descs (os s0) /\ in_time s0 s /\
    match r with
    | Some (data, a) => e = IO_DONE /\ (0 < length data <= count)%nat
    | None => e <> IO_DONE
    end) s0.
Proof.
  intros Hnb Hfuel. pose proof net_delta as Hdelta. unfold socket_recvfrom.
  rewrite wp_bind, wp_get. cbn [then_post]. case_decide as Hfd.
  { rewrite wp_ret. exists IO_CLOSED, None. split; [done|]. split; [apply same_socket_refl|].
    split; [done|]. split; [|done]. intros D HD. unfold overrun. nia. }
  specialize (Hnb Hfd).
  apply (wp_loop_measure _ (fun _ => awaiting s0) (fun _ s => patience (os s)));
    [|apply awaiting_start|done].
  intros _ s Haw. pose proof Haw as (Hs & Hd & _). pose proof Hs as (Hf & _ & [Hps _]).
  rewrite wp_bind, wp_get. cbn [then_post]. rewrite Hf.
  destruct (net_recvfrom (fd s0) count (os s)) as [[[[taken data] a] errno] k] eqn:Ha.
  apply net_recvfrom_law in Ha as (Hq & Hk & Hcases); [|unfold does_not_block; by rewrite Hd].
  pose proof Hq as [Hp _]. rewrite wp_bind, wp_put. cbn [then_post].
  assert (same_socket s0 (with_os k s) /\ descs k = descs (os s0) /\ in_time s0 (with_os k s)) as (Hs' & Hk' & Hin)
    by (split; [by apply same_socket_os|]; split; [congruence|by apply in_time_call]).
  destruct (decide (taken > 0)).
  { rewrite wp_ret. exists IO_DONE, (Some (data, a)). do 4 (split; [done|]). split; [done|].
    unfold fails in Hcases. lia. }
  destruct (decide (taken = 0)).
  { rewrite wp_ret. exists IO_CLOSED, None. done. }
  destruct Hcases as [?|[[_ Herrno] Hless']]; [lia|].
  eapply wp_mono; [apply (wp_net_retry (errno <> EAGAIN) WAITFD_R errno None s0 s k);
    try done; [lia|by intros ?%again_cases; apply Hless']|].
  intros o s' [(-> & Haw' & Hlt)|(e & -> & Hd' & Hss & Hds & Hint)]; [done|].
  by exists e, None.
Qed.

(** What [select] leaves in the sets it is given: nothing new, and as many
    descriptors as it answers; after a failure the sets are as they were. *)
Definition selected (sets : gset Z * gset Z * gset Z) (r : Z) (sets' : gset Z * gset Z * gset Z) : Prop :=
  let '(rfds, wfds, efds) := sets in
  let '(rfds', wfds', efds') := sets' in
  (r = -1 /\ sets' = sets) \/
  (rfds' ⊆ rfds /\ wfds' ⊆ wfds /\ efds' ⊆ efds /\ r = Z.of_nat (size rfds' + size wfds' + size efds')).

(** The system's [select] is called until it is not interrupted, each time with
    what is left of the limit: the answer of the last call, and the sets it
    leaves. *)
Definition time_left (lim : t_timeout) (k : N) : option Z :=
  let t := timeout_getretry (net_time k) lim in if decide (0 <= t) then Some t else None.

Inductive select_calls (n : Z) (rfds wfds efds : gset Z) (lim : t_timeout) :
    N -> Z -> gset Z * gset Z * gset Z -> N -> Prop :=
| select_interrupted k k' r sets k'' :
    net_select n rfds wfds efds (time_left lim k) k = (-1, rfds, wfds, efds, EINTR, k') ->
    select_calls n rfds wfds efds lim k' r sets k'' -> select_calls n rfds wfds efds lim k r sets k''
| select_answers k r rfds' wfds' efds' errno k' :
    net_select n rfds wfds efds (time_left lim k) k = (r, rfds', wfds', efds', errno, k') ->
    ~ (r < 0 /\ errno = EINTR) -> select_calls n rfds wfds efds lim k r (rfds', wfds', efds') k'.

(** [select] on sets of descriptors ends within the limit, with the system's
    answer. *)
Lemma wp_socket_select n rfds wfds efds lim k0 :
  (patience k0 < fuel)%nat ->
  wp (socket_select fuel n rfds wfds efds lim) (fun o k => exists r sets, o = Ok (r, sets) /\ passes k0 k /\
    descs k = descs k0 /\ select_calls n rfds wfds efds lim k0 r sets k /\ selected (rfds, wfds, efds) r sets /\
    (forall D, deadline lim = Some D -> net_time k <= Z.max (net_time k0) D + overrun delta (patience k0))) k0.
Proof.
  intros Hfuel. pose proof net_delta as Hdelta. unfold socket_select.
  apply (wp_loop_measure _ (fun sets k => sets = (rfds, wfds, efds) /\ passes k0 k /\ descs k = descs k0 /\
    (forall r sets k', select_calls n rfds wfds efds lim k r sets k' -> select_calls n rfds wfds efds lim k0 r sets k') /\
    (forall D, deadline lim = Some D -> net_spent k <= Z.max (net_time k0) D + 2 * delta * Z.of_nat (patience k0)))
    (fun _ k => patience k)); [|split; [done|]; split; [apply passes_refl|]; split; [done|]; split; [done|]; unfold net_spent; lia|done].
  intros [[r0 w0] e0] k ([= -> -> ->] & Hp & Hd & Hcalls & Ht). rewrite wp_bind, wp_get. cbn [then_post]. cbv zeta.
  set (t := timeout_getretry _ _). destruct (retry_wait (net_time k) lim) as [_ Hsome]. fold t in Hsome.
  destruct (net_select _ _ _ _ _ k) as [[[[[r r1] w1] e1] errno] k'] eqn:Hs. pose proof Hs as Hcall.
  apply net_select_law in Hs as (Hpk & Hk & Hlimit & Hr & Hintr & Hsame & Hsets); [|intros limit; case_decide; [by intros [= <-]|done]].
  rewrite wp_bind, wp_put. cbn [then_post]. rewrite wp_ret.
  assert (passes k0 k') as Hp' by by eapply passes_trans.
  assert (forall D, deadline lim = Some D -> net_time k' <= Z.max (net_time k) D + delta) as Hk'.
  { intros D HD. destruct (Hsome D HD). specialize (Hlimit t). rewrite decide_True in Hlimit by done.
    specialize (Hlimit eq_refl). lia. }
  pose proof Hpk as [Hpat _]. pose proof Hp as [Hp0 _]. unfold overrun, net_spent in *.
  destruct (decide (r < 0 /\ errno = EINTR)) as [[Hneg Herr]|Hdone].
  - destruct (Hintr ltac:(lia)) as [_ Hless]. specialize (Hless Herr). destruct (Hsame ltac:(lia)) as (-> & -> & ->). split; [|done]. split; [done|]. split; [done|].
    split; [congruence|]. split.
    { intros r' sets k'' Hc. apply Hcalls. eapply select_interrupted; [|done].
      assert (r = -1) as -> by lia. by rewrite <- Herr. }
    intros D HD. specialize (Ht D HD). specialize (Hk' D HD). nia.
  - eexists r, _. split; [done|]. split; [done|]. split; [congruence|].
    split; [by eapply Hcalls, select_answers|]. split.
    { destruct (decide (r = -1)) as [Hm|]; [left|right; apply Hsets; lia].
      destruct (Hsame Hm) as (-> & -> & ->). done. }
    intros D HD.
    specialize (Ht D HD). specialize (Hk' D HD). nia.
Qed.

Lemma host_error_done (hp : option hostent) h_errno errno :
  host_error hp h_errno errno = IO_DONE <-> hp <> None.
Proof. unfold host_error. repeat case_decide; unfold IO_DONE, IO_UNKNOWN in *; naive_solver lia. Qed.

Lemma wp_gethostbyname name k :
  wp (socket_gethostbyname name) (fun o k' => exists e hp, o = Ok (e, hp) /\ passes k k' /\ descs k' = descs k /\
    (e = IO_DONE <-> hp <> None) /\ (forall h, hp = Some h -> h_addr_list h <> [])) k.
Proof.
  unfold socket_gethostbyname. rewrite wp_bind, wp_get. cbn [then_post].
  destruct (net_gethostbyname name k) as [[[hp h_errno] errno] k'] eqn:Hg.
  apply net_gethostbyname_law in Hg as (Hp & Hd & Ha). rewrite wp_bind, wp_put. cbn [then_post]. rewrite wp_ret.
  eexists _, hp. split; [done|]. do 2 (split; [done|]). split; [|done]. apply host_error_done.
Qed.
End Specs.

(** ** Connecting and accepting *)

(** Connecting ends: the call returns by the moment the time limit set on the
    object has passed since the operation was marked as started (but for the time
    of the system calls themselves), whatever interrupts it; a closed socket is
    refused without a system call, no other descriptor is touched, and the
    descriptor is left in the mode it had. *)
Theorem socket_connect_in_time {N} descs patience delta `{NetLaws N descs patience delta}
    fuel addr (s0 : @sock N) :
  (fd s0 <> SOCKET_INVALID -> does_not_block descs (fd s0) (os s0)) -> (patience (os s0) < fuel)%nat ->
  exists e s, socket_connect fuel addr s0 = (Ok e, s) /\ fd s = fd s0 /\ tm s = tm s0 /\
    only_on descs (fd s0) (os s0) (os s) /\ (fd s0 = SOCKET_INVALID -> e = IO_CLOSED) /\
    (forall D, deadline (tm s0) = Some D ->
       net_time (os s) <= Z.max (net_time (os s0)) D + overrun delta (S (patience (os s0)))).
Proof.
  intros Hnb Hfuel. pose proof (wp_socket_connect descs patience delta fuel addr s0 Hnb Hfuel) as Hwp.
  apply wp_run in Hwp as (o & s & Hrun & e & -> & (Hf & Htm & _) & Hon & Hc & Ht). by exists e, s.
Qed.

(** Accepting ends in time in the same way; it either returns a descriptor
    that was free before and is the only one the system has opened, or an error
    and no descriptor, and then no descriptor has been opened: connections that
    were given up before they could be accepted are passed over. *)
Lemma socket_accept_in_time {N} descs patience delta `{NetLaws N descs patience delta}
    fuel (s0 : @sock N) :
  (fd s0 <> SOCKET_INVALID -> does_not_block descs (fd s0) (os s0)) -> (patience (os s0) < fuel)%nat ->
  exists e pa s, socket_accept fuel s0 = (Ok (e, pa), s) /\ fd s = fd s0 /\ tm s = tm s0 /\
    ((e = IO_DONE /\ opens descs pa (os s0) (os s)) \/
     (e <> IO_DONE /\ pa = SOCKET_INVALID /\ descs (os s) = descs (os s0))) /\
    (forall D, deadline (tm s0) = Some D ->
       net_time (os s) <= Z.max (net_time (os s0)) D + overrun delta (patience (os s0))).
Proof.
  intros Hnb Hfuel. pose proof (wp_socket_accept descs patience delta fuel s0 Hnb Hfuel) as Hwp.
  apply wp_run in Hwp as (o & s & Hrun & e & pa & -> & (Hf & Htm & _) & Hcases & Ht). by exists e, pa, s.
Qed.

(** A listening socket in a net with one connection waiting. *)
Definition net0 : toynet :=
  ToyNet {[ 3 := Desc true true [] []; 5 := Desc false true [] [] ]} [of_string "hello"] 2 0.
Definition listener0 : @sock toynet := Sock 3 (Timeout 5000000 (-1) 0) net0.

Lemma net0_does_not_block : does_not_block t_table 3 net0.
Proof. by eexists (Desc _ _ _ _). Qed.

Example socket_connect_in_time_witness :
  exists e s, socket_connect 10 (SockAddr AF_INET 2130706433 80) listener0 = (Ok e, s) /\ fd s = fd listener0 /\
    tm s = tm listener0 /\
    only_on t_table (fd listener0) (os listener0) (os s) /\ (fd listener0 = SOCKET_INVALID -> e = IO_CLOSED) /\
    (forall D, deadline (tm listener0) = Some D -> net_time (os s) <= Z.max (net_time (os listener0)) D + overrun 0 (S (t_busy net0))).
Proof.
  apply (socket_connect_in_time t_table t_busy 0 10 (SockAddr AF_INET 2130706433 80) listener0);
    [intros _; exact net0_does_not_block|cbn; lia].
Defined.

Example socket_accept_in_time_witness :
  exists e pa s, socket_accept 10 listener0 = (Ok (e, pa), s) /\ fd s = fd listener0 /\ tm s = tm listener0 /\
    ((e = IO_DONE /\ opens t_table pa (os listener0) (os s)) \/
     (e <> IO_DONE /\ pa = SOCKET_INVALID /\ t_table (os s) = t_table net0)) /\
    (forall D, deadline (tm listener0) = Some D -> net_time (os s) <= Z.max (net_time (os listener0)) D + overrun 0 (t_busy net0)).
Proof.
  apply (socket_accept_in_time t_table t_busy 0 10 listener0);
    [intros _; exact net0_does_not_block|cbn; lia].
Defined.

(** The connection waiting is accepted in the third round. *)
Example accept_third_time :
  (socket_accept 10 listener0).1 = Ok (IO_DONE, 6).
Proof. vm_compute. reflexivity. Qed.
