(* ===== verification/Inet.v ===== *)
(** * Internet addresses (luasocket's [inet.c])

    Addresses and names: [inet_aton] (the version for systems without one), the
    tables of resolver information for scripts, and the creation, connection and
    binding of sockets by address or name.  On systems that have [inet_aton] the
    C library's is called: the functions take it as [aton]. *)

From S2P Require Import Prelude CString Lua Transport Socket Net SocketOps.
#[global] Open Scope Z_scope.

(** ** Dotted addresses *)

Fixpoint scan_digits (acc : Z) (p : bytes) : Z * bytes :=
  match p with
  | c :: p' => match digit c with Some d => scan_digits (10 * acc + d) p' | None => (acc, p) end
  | [] => (acc, [])
  end.

(** [sscanf]'s conversion of an unsigned number: what follows it; [None] when
    there is none.  A number that does not fit has no defined conversion. *)
Definition scan_u (p : bytes) : outcome (option (Z * bytes)) :=
  let p := skip_space p in
  let '(sign, p) :=
    match p with
    | c :: p' => if decide (c = "-"%char) then (-1, p') else if decide (c = "+"%char) then (1, p') else (1, p)
    | [] => (1, [])
    end in
  match p with
  | c :: _ =>
      match digit c with
      | Some _ =>
          let '(v, rest) := scan_digits 0 p in
          if decide (0 <= sign * v < 2 ^ 32) then Ok (Some (sign * v, rest)) else Stop (Undefined "conversion of a number")
      | None => Ok None
      end
  | [] => Ok None
  end.

(** A dot of the format. *)
Definition scan_dot (p : bytes) : option bytes :=
  match p with
  | c :: p' => if decide (c = "."%char) then Some p' else None
  | [] => None
  end.

(** The four numbers, and what [%n] leaves behind; [None] when the format is not
    met to its end. *)
Definition scan_quad (cp : bytes) : outcome (option (Z * Z * Z * Z * bytes)) :=
  let number (p : bytes) (k : Z -> bytes -> outcome (option (Z * Z * Z * Z * bytes))) :=
    match scan_u p with
    | Ok (Some (v, rest)) => k v rest
    | Ok None => Ok None
    | Stop f => Stop f
    end in
  let dot (p : bytes) (k : bytes -> outcome (option (Z * Z * Z * Z * bytes))) :=
    match scan_dot p with Some rest => k rest | None => Ok None end in
  number cp (fun a p => dot p (fun p =>
  number p (fun b p => dot p (fun p =>
  number p (fun c p => dot p (fun p =>
  number p (fun d p => Ok (Some (a, b, c, d, p))))))))).

(** [None] is the result 0; addresses are numbers, as [ntohl] gives them. *)
Definition inet_aton (cp : bytes) : outcome (option Z) :=
  match scan_quad (cstr cp) with
  | Ok (Some (a, b, c, d, rest)) =>
      if decide (rest <> []) then Ok None
      else if decide (a > 255 \/ b > 255 \/ c > 255 \/ d > 255) then Ok None
      else Ok (Some (Z.shiftl (Z.shiftl (Z.shiftl a 8 + b) 8 + c) 8 + d))
  | Ok None => Ok None
  | Stop f => Stop f
  end.

(** The C library's [inet_ntoa]. *)
Definition inet_ntoa (a : Z) : bytes :=
  let octet i := dec (Z.land (Z.shiftr a i) 255) in
  octet 24 ++ ["."%char] ++ octet 16 ++ ["."%char] ++ octet 8 ++ ["."%char] ++ octet 0.

(** ** Resolver information for scripts *)

(** [i] counts from 1: the table on the top gets the values of the list. *)
Fixpoint push_list (i : Z) (l : list bytes) : C lua unit :=
  match l with
  | [] => ret tt
  | x :: l' =>
      lua_pushnumber i ;;;
      lua_pushlstring x ;;;
      lua_settable (-3) ;;;
      push_list (i + 1) l'
  end.

(** A new table with the list, for the key on the top. *)
Definition set_list (resolved : Z) (l : list bytes) : C lua unit :=
  lua_newtable ;;;
  push_list 1 l ;;;
  lua_settable resolved.

Definition inet_pushresolved (hp : hostent) : C lua unit :=
  lua_newtable ;;;
  let! resolved := lua_gettop in
  lua_pushliteral "name" ;;;
  lua_pushlstring (h_name hp) ;;;
  lua_settable resolved ;;;
  lua_pushliteral "ip" ;;;
  lua_pushliteral "alias" ;;;
  set_list resolved (h_aliases hp) ;;;
  set_list resolved (inet_ntoa <$> h_addr_list hp).

Section Inet.
Context {N : Type} `{Net N} (fuel : nat) (aton : bytes -> option Z).
Context (strerror hstrerror : Z -> string).

Record world : Type := World { state_of : lua; net_of : N }.

Definition on_lua {A} (m : C lua A) : C world A := zoom state_of (fun l w => World l (net_of w)) m.
Definition on_net {A} (m : C N A) : C world A := zoom net_of (fun k w => World (state_of w) k) m.

(** The functions that take the address read it to its end as a C string. *)
Definition inet_gethost (address : bytes) : C N (Z * option hostent) :=
  match aton (cstr address) with
  | Some addr => socket_gethostbyaddr addr
  | None => socket_gethostbyname (cstr address)
  end.

(** [lua_pushstring] of a message that may be the null pointer. *)
Definition push_message (msg : option string) : C lua unit :=
  match msg with Some m => lua_pushliteral m | None => lua_pushnil end.

(** What both functions do with the host found; [first] is the first result. *)
Definition push_host (first : hostent -> outcome bytes) : C world Z :=
  let! address := on_lua (luaL_checkstring 1) in
  let! '(err, hp) := on_net (inet_gethost address) in
  if decide (err <> IO_DONE) then
    on_lua lua_pushnil ;;;
    on_lua (push_message (socket_hoststrerror hstrerror err)) ;;;
    ret 2
  else
    match hp with
    | Some hp =>
        match first hp with
        | Ok s => on_lua (lua_pushlstring s) ;;; on_lua (inet_pushresolved hp) ;;; ret 2
        | Stop f => stop f
        end
    | None => stop (Undefined "null pointer")
    end.

Definition inet_global_tohostname : C world Z := push_host (fun hp => Ok (h_name hp)).

Definition inet_global_toip : C world Z :=
  push_host (fun hp => match h_addr_list hp with
    | a :: _ => Ok (inet_ntoa a)
    | [] => Stop (Undefined "null pointer")
    end).

(** The name is cut to the 256 characters before the buffer's last. *)
Definition inet_global_gethostname : C world Z :=
  let! w := get in
  match net_gethostname (net_of w) with
  | None => on_lua lua_pushnil ;;; on_lua (lua_pushliteral "gethostname failed") ;;; ret 2
  | Some name => on_lua (lua_pushlstring (cstr (take 256 name))) ;;; ret 1
  end.

Definition inet_meth_getpeername (fd : Z) : C world Z :=
  let! w := get in
  match net_getpeername fd (net_of w) with
  | None => on_lua lua_pushnil ;;; on_lua (lua_pushliteral "getpeername failed")
  | Some peer => on_lua (lua_pushlstring (inet_ntoa (sin_addr peer))) ;;; on_lua (lua_pushnumber (sin_port peer))
  end ;;;
  ret 2.

Definition inet_meth_getsockname (fd : Z) : C world Z :=
  let! w := get in
  match net_getsockname fd (net_of w) with
  | None => on_lua lua_pushnil ;;; on_lua (lua_pushliteral "getsockname failed")
  | Some name => on_lua (lua_pushlstring (inet_ntoa (sin_addr name))) ;;; on_lua (lua_pushnumber (sin_port name))
  end ;;;
  ret 2.

(** ** Sockets by address or name *)

(** The message, or none when the socket was made. *)
Definition inet_trycreate (type : Z) : C (@sock N) (option string) :=
  let! err := socket_create AF_INET type 0 in
  let! s := get in
  ret (socket_strerror strerror (net_errno (os s)) err).

Definition on_os {A} (m : C N A) : C (@sock N) A := zoom os with_os m.

(** The address a name stands for, or the error. *)
Definition resolve (address : bytes) : C (@sock N) (Z + option string) :=
  match aton (cstr address) with
  | Some a => ret (inl a)
  | None =>
      let! '(err, hp) := on_os (socket_gethostbyname (cstr address)) in
      if decide (err <> IO_DONE) then ret (inr (socket_hoststrerror hstrerror err))
      else match hp ≫= (fun h => head (h_addr_list h)) with
           | Some a => ret (inl a)
           | None => stop (Undefined "null pointer")
           end
  end.

Definition wildcard (address : bytes) : bool := str_eq address (of_string "*").

Definition inet_tryconnect (address : bytes) (port : Z) : C (@sock N) (option string) :=
  let! r :=
    (if wildcard address then ret (inl (SockAddr AF_UNSPEC 0 port))
     else
       let! a := resolve address in
       ret (match a with inl a => inl (SockAddr AF_INET a port) | inr msg => inr msg end)) in
  match r with
  | inr msg => ret msg
  | inl remote =>
      let! err := socket_connect fuel remote in
      let! s := get in
      ret (socket_strerror strerror (net_errno (os s)) err)
  end.

Definition inet_trybind (address : bytes) (port : Z) : C (@sock N) (option string) :=
  let! a := (if wildcard address then ret (inl 0) else resolve address) in
  match a with
  | inr msg => ret msg
  | inl a =>
      let! err := socket_bind (SockAddr AF_INET a port) in
      (if decide (err <> IO_DONE) then socket_destroy else ret tt) ;;;
      let! s := get in
      ret (socket_strerror strerror (net_errno (os s)) err)
  end.
End Inet.

(** ** Dotted addresses are read back *)

Definition starts_without_digit (p : bytes) : Prop :=
  match p with c :: _ => digit c = None | [] => True end.

Lemma scan_digits_stop acc p : starts_without_digit p -> scan_digits acc p = (acc, p).
Proof. destruct p as [|c p]; [done|]. cbn. by intros ->. Qed.

Lemma scan_digits_app ds rest acc :
  Forall (fun c => digit c <> None) ds -> starts_without_digit rest ->
  scan_digits acc (ds ++ rest) = ((scan_digits acc ds).1, rest).
Proof.
  intros Hds Hrest. revert acc. induction Hds as [|c ds Hc Hds IH]; intros acc; cbn [app scan_digits].
  - by rewrite scan_digits_stop.
  - by destruct (digit c); [apply IH|].
Qed.

(** How an octet is printed: digits that are read back as the octet. *)
Lemma dec_octet b :
  0 <= b < 256 ->
  Forall (fun c => digit c <> None) (dec b) /\ (scan_digits 0 (dec b)).1 = b /\
  exists c p, dec b = c :: p /\ isspace c = false /\ c <> "-"%char /\ c <> "+"%char /\ c <> NUL.
Proof.
  intros Hb.
  assert (Forall (fun b => match dec b with
    | [] => false
    | c :: p => bool_decide (Forall (fun c => digit c <> None) (c :: p) /\ (scan_digits 0 (c :: p)).1 = b /\
        isspace c = false /\ c <> "-"%char /\ c <> "+"%char /\ c <> NUL)
    end = true) (seqZ 0 256)) as Hall by by_decide.
  rewrite Forall_forall in Hall. specialize (Hall b). rewrite elem_of_seqZ in Hall. specialize (Hall ltac:(lia)).
  destruct (dec b) as [|c p]; [done|]. apply bool_decide_eq_true in Hall.
  destruct Hall as (? & ? & ? & ? & ? & ?).
  split; [done|]. split; [done|]. by exists c, p.
Qed.

Lemma scan_u_octet b rest :
  0 <= b < 256 -> starts_without_digit rest -> scan_u (dec b ++ rest) = Ok (Some (b, rest)).
Proof.
  intros Hb Hrest. destruct (dec_octet b Hb) as (Hds & Hv & c & p & Hdec & Hsp & Hminus & Hplus & _).
  unfold scan_u. rewrite Hdec in *. cbn [app skip_space]. rewrite Hsp, decide_False, decide_False by done.
  apply Forall_cons in Hds as Hc. destruct Hc as [Hc _]. destruct (digit c) eqn:Hdigit; [|done].
  change (c :: p ++ rest) with ((c :: p) ++ rest). rewrite scan_digits_app, Hv by done.
  rewrite decide_True by lia. by rewrite Z.mul_1_l.
Qed.

Lemma dec_octet_no_nul b : 0 <= b < 256 -> no_nul (dec b).
Proof.
  intros Hb. destruct (dec_octet b Hb) as (Hds & _). intros Hin.
  rewrite Forall_forall in Hds. by apply (Hds _ Hin).
Qed.

Lemma scan_dot_dot p : scan_dot ("."%char :: p) = Some p.
Proof. unfold scan_dot. by rewrite decide_True. Qed.

Lemma octet_range a i : 0 <= Z.land (Z.shiftr a i) 255 < 256.
Proof. change 255 with (Z.ones 8). rewrite Z.land_ones by lia. apply Z.mod_pos_bound. lia. Qed.

Lemma octets_value a :
  0 <= a < 2 ^ 32 ->
  Z.shiftl (Z.shiftl (Z.shiftl (Z.land (Z.shiftr a 24) 255) 8 + Z.land (Z.shiftr a 16) 255) 8
    + Z.land (Z.shiftr a 8) 255) 8 + Z.land (Z.shiftr a 0) 255 = a.
Proof.
  intros Ha. change 255 with (Z.ones 8). rewrite !Z.land_ones, !Z.shiftl_mul_pow2, !Z.shiftr_div_pow2 by lia.
  change (2 ^ 0) with 1. change (2 ^ 8) with 256. change (2 ^ 16) with 65536. change (2 ^ 24) with 16777216.
  change (2 ^ 32) with 4294967296 in Ha. Z.to_euclidean_division_equations. lia.
Qed.

Lemma no_nul_dot : no_nul ["."%char].
Proof. intros H. apply list_elem_of_singleton in H. discriminate. Qed.

Lemma inet_ntoa_no_nul a : no_nul (inet_ntoa a).
Proof.
  unfold inet_ntoa. repeat apply no_nul_app; try apply no_nul_dot; apply dec_octet_no_nul, octet_range.
Qed.

(** The text of an address is read back as the address. *)
Theorem inet_aton_ntoa (a : Z) : 0 <= a < 2 ^ 32 -> inet_aton (inet_ntoa a) = Ok (Some a).
Proof.
  intros Ha. unfold inet_aton. rewrite cstr_id by apply inet_ntoa_no_nul.
  unfold inet_ntoa, scan_quad. cbn zeta. 
  do 3 (rewrite scan_u_octet; [|apply octet_range|done]; cbn [app]; rewrite scan_dot_dot).
  rewrite <- (app_nil_r (dec (Z.land (Z.shiftr a 0) 255))), scan_u_octet; [|apply octet_range|done].
  rewrite decide_False by auto. pose proof (octet_range a 24). pose proof (octet_range a 16).
  pose proof (octet_range a 8). pose proof (octet_range a 0). rewrite decide_False by lia.
  by rewrite octets_value.
Qed.

Example inet_aton_ntoa_witness : 0 <= 2130706433 < 2 ^ 32 /\ inet_aton (inet_ntoa 2130706433) = Ok (Some 2130706433).
Proof. split; [lia|]. apply inet_aton_ntoa. lia. Defined.

Example aton_loopback : inet_ntoa 2130706433 = of_string "127.0.0.1".
Proof. vm_compute. reflexivity. Qed.

(** Signs and blanks are accepted where [sscanf] skips them; what is not four
    octets to the end of the string is not. *)
Example aton_blank : inet_aton (of_string " 1. 2.+3.4") = Ok (Some 16909060).
Proof. vm_compute. reflexivity. Qed.
Example aton_short : inet_aton (of_string "127.1") = Ok None.
Proof. vm_compute. reflexivity. Qed.
Example aton_large : inet_aton (of_string "256.1.1.1") = Ok None.
Proof. vm_compute. reflexivity. Qed.

(** ** The table of a host *)

Lemma wp_push_list t i l st L Q :
  stack L = LTable t :: st -> Q (Ok tt) (add_values t i (LString <$> l) L) -> wp (push_list i l) Q L.
Proof.
  revert i L. induction l as [|x l IH]; intros i L Hs HQ; cbn [push_list]; [by rewrite wp_ret|].
  unfold lua_pushnumber, lua_pushlstring, push. rewrite wp_bind, wp_modify. cbn [then_post].
  rewrite wp_bind, wp_modify. cbn [then_post]. rewrite wp_bind.
  rewrite (wp_settable (-3) t (KNum i) (LNumber i) (LString x) (stack L)); [|done..|].
  - cbn [then_post]. apply IH; [done|]. cbn [add_values fmap list_fmap] in HQ.
    replace (with_stack _ _) with (add_field t (KNum i) (LString x) L); [done|]. by destruct L.
  - apply (holds_top _ 2); [|done]. cbn. by rewrite Hs.
Qed.

(** What scripts are told of a host: its name and the lists of its aliases and
    addresses. *)
Definition describes (L : lua) (t : positive) (hp : hostent) : Prop :=
  exists ta ti,
    field L t (KStr "name") = LString (h_name hp) /\
    field L t (KStr "alias") = LTable ta /\ array L ta (LString <$> h_aliases hp) /\
    field L t (KStr "ip") = LTable ti /\ array L ti (LString <$> (inet_ntoa <$> h_addr_list hp)).

(** A new table filled with a list, and stored in an older one. *)
Definition with_list (t t' : positive) (k : string) (l : list bytes) (st : list lval) (L : lua) : lua :=
  with_stack st (add_field t (KStr k) (LTable t') (add_values t' 1 (LString <$> l) (Lua st (<[t' := ∅]> (tables L)) (globals L)))).

Lemma wp_set_list t k l kst st pre Q L :
  stack L = LString (of_string k) :: kst -> kst = pre ++ LTable t :: st -> is_Some (tables L !! t) ->
  (forall t', tables L !! t' = None -> Q (Ok tt) (with_list t t' k l kst L)) ->
  wp (set_list (Z.of_nat (S (length st))) l) Q L.
Proof.
  intros Hs Hkst Ht HQ. unfold set_list. rewrite wp_bind. apply wp_newtable. intros t' Hfresh. cbn [then_post].
  rewrite wp_bind. eapply wp_push_list; [done|]. cbn [then_post].
  set (L1 := add_values _ _ _ _).
  assert (stack L1 = LTable t' :: LString (of_string k) :: kst) as HL1
    by (unfold L1; rewrite stack_add_values; cbn; by rewrite Hs).
  rewrite (wp_settable _ t (KStr k) (LString (of_string k)) (LTable t') kst _ L1); [|done|done| |].
  - replace (with_stack kst (add_field t (KStr k) (LTable t') L1)) with (with_list t t' k l kst L); [by apply HQ|].
    unfold with_list, L1, with_stack, add_field. cbn. f_equal; [|by rewrite !globals_add_values].
    assert (forall st1 st2 T g, tables (add_values t' 1 (LString <$> l) (Lua st1 T g)) = tables (add_values t' 1 (LString <$> l) (Lua st2 T g))) as Heq.
    { intros st1 st2. generalize 1. clear. induction l as [|x l IH]; intros i T g; [done|]. cbn. apply IH. }
    by rewrite (Heq kst (LTable t' :: stack L)).
  - cbn. f_equal. f_equal. apply string_of_list_ascii_of_string.
  - eapply (holds_above (LTable t' :: LString (of_string k) :: pre)); [|done]. by rewrite HL1, Hkst.
Qed.

(** Looking at the state after that. *)
Lemma field_with_list t t' k l st L a k' :
  a <> t' -> field (with_list t t' k l st L) a k' = if decide (a = t /\ k' = KStr k) then LTable t' else field L a k'.
Proof.
  intros Ha. unfold with_list. rewrite field_with_stack, field_add_field.
  case_decide; [done|]. rewrite field_add_values. destruct k'; [rewrite decide_False by naive_solver|..];
    unfold field; cbn; by rewrite lookup_insert_ne.
Qed.

Lemma array_with_list t t' k l st L : t <> t' -> array (with_list t t' k l st L) t' (LString <$> l).
Proof.
  intros Ht j Hj. unfold with_list. rewrite field_with_stack, field_add_field, decide_False by naive_solver.
  apply array_add_values; [|done]. intros k'. unfold field. cbn. by rewrite lookup_insert_eq.
Qed.

Lemma is_table_with_list t t' k l st L a :
  is_Some (tables L !! a) \/ a = t' -> is_Some (tables (with_list t t' k l st L) !! a).
Proof.
  intros Ha. unfold with_list, with_stack, add_field. cbn.
  destruct (decide (a = t)) as [->|]; [by rewrite lookup_insert_eq|]. rewrite lookup_insert_ne by done.
  apply is_table_add_values. cbn. destruct (decide (a = t')) as [->|]; [by rewrite lookup_insert_eq|].
  rewrite lookup_insert_ne by done. naive_solver.
Qed.

Lemma globals_with_list t t' k l st L : globals (with_list t t' k l st L) = globals L.
Proof. unfold with_list, with_stack, add_field. cbn. by rewrite globals_add_values. Qed.

Lemma wp_pushresolved hp L Q :
  (forall t L', stack L' = LTable t :: stack L -> describes L' t hp -> globals L' = globals L ->
     keeps_tables L L' -> Q (Ok tt) L') ->
  wp (inet_pushresolved hp) Q L.
Proof.
  intros HQ. unfold inet_pushresolved. rewrite wp_bind. apply wp_newtable. intros t Ht. cbn [then_post].
  rewrite wp_bind, wp_gettop. cbn [then_post]. set (L1 := Lua _ _ _). cbn [stack L1 length].
  unfold lua_pushliteral, lua_pushlstring, push. do 2 (rewrite wp_bind, wp_modify; cbn [then_post]).
  rewrite wp_bind. rewrite (wp_settable _ t (KStr "name") (LString (of_string "name")) (LString (h_name hp)) (stack L1));
    [|done|done|done|by eapply (holds_above [_; _])].
  cbn [then_post]. do 2 (rewrite wp_bind, wp_modify; cbn [then_post]).
  set (L2 := with_stack (LString (of_string "alias") :: _) _).
  assert (is_Some (tables L2 !! t)) as Ht2 by (cbn; by rewrite lookup_insert_eq).
  rewrite wp_bind. eapply (wp_set_list t "alias" _ _ (stack L) [_]); [done|done|done|].
  intros ta Hta. cbn [then_post]. set (L3 := with_list _ _ _ _ _ _).
  assert (t <> ta) as Hne by (intros ->; rewrite Hta in Ht2; by destruct Ht2).
  assert (is_Some (tables L3 !! t)) as Ht3 by (apply is_table_with_list; by left).
  eapply (wp_set_list t "ip" _ _ (stack L) []); [done|done|done|].
  intros ti Hti. set (L4 := with_list _ _ _ _ _ _).
  assert (t <> ti) as Hnei by (intros ->; rewrite Hti in Ht3; by destruct Ht3).
  assert (is_Some (tables L3 !! ta)) as Hta3 by (apply is_table_with_list; by right).
  assert (ta <> ti) as Hnea by (intros ->; rewrite Hti in Hta3; by destruct Hta3).
  assert (forall a k, a <> ti -> ~ (a = t /\ k = KStr "ip") -> field L4 a k = field L3 a k) as H43
    by (intros; unfold L4; by rewrite field_with_list, decide_False).
  assert (forall a k, a <> ta -> ~ (a = t /\ k = KStr "alias") -> field L3 a k = field L2 a k) as H32
    by (intros; unfold L3; by rewrite field_with_list, decide_False).
  apply (HQ t); [done| | |].
  - exists ta, ti. split; [|split; [|split; [|split]]].
    + rewrite H43, H32 by naive_solver. unfold L2. rewrite !field_with_stack, field_add_field. by rewrite decide_True.
    + rewrite H43 by naive_solver. unfold L3. rewrite field_with_list by done. by rewrite decide_True.
    + intros j Hj. rewrite H43 by naive_solver. by apply array_with_list.
    + unfold L4. rewrite field_with_list by done. by rewrite decide_True.
    + by apply array_with_list.
  - unfold L4, L3. by rewrite !globals_with_list.
  - intros a Ha. assert (a <> t) as Hat by (intros ->; rewrite Ht in Ha; by destruct Ha).
    assert (is_Some (tables L2 !! a)) as Ha2 by (cbn; by rewrite !lookup_insert_ne).
    assert (is_Some (tables L3 !! a)) as Ha3 by (apply is_table_with_list; by left).
    assert (a <> ta) by (intros ->; rewrite Hta in Ha2; by destruct Ha2).
    assert (a <> ti) by (intros ->; rewrite Hti in Ha3; by destruct Ha3).
    split; [apply is_table_with_list; by left|]. intros k. rewrite H43, H32 by naive_solver.
    unfold L2. rewrite !field_with_stack, field_add_field, decide_False by naive_solver.
    unfold field, L1. cbn. by rewrite lookup_insert_ne.
Qed.

(** ** The answers about hosts *)

Section Answers.
Context {N : Type} (descs : N -> gmap Z desc) (patience : N -> nat) (delta : Z)
  `{NetLaws N descs patience delta} (fuel : nat) (aton : bytes -> option Z).
Context (strerror hstrerror : Z -> string).

(** What the resolver answers about an address: by the address when it is a dotted
    one, by the name otherwise. *)
Definition resolver_answer (address : bytes) (k : N) : option hostent * Z * Z * N :=
  match aton (cstr address) with
  | Some a => net_gethostbyaddr a k
  | None => net_gethostbyname (cstr address) k
  end.

Lemma resolver_answer_law address k hp h_errno errno k' :
  resolver_answer address k = (hp, h_errno, errno, k') ->
  passes patience k k' /\ descs k' = descs k /\ (forall h, hp = Some h -> h_addr_list h <> []).
Proof. unfold resolver_answer. case_match; [apply net_gethostbyaddr_law|apply net_gethostbyname_law]. Qed.

Lemma wp_gethost address k hp h_errno errno k' Q :
  resolver_answer address k = (hp, h_errno, errno, k') ->
  Q (Ok (host_error hp h_errno errno, hp)) k' -> wp (inet_gethost aton address) Q k.
Proof.
  unfold resolver_answer, inet_gethost, socket_gethostbyaddr, socket_gethostbyname. intros Hr HQ.
  case_match; rewrite wp_bind, wp_get; cbn [then_post]; rewrite Hr, wp_bind, wp_put; cbn [then_post]; by rewrite wp_ret.
Qed.

(** A message as a script gets it: a null pointer is [nil]. *)
Definition message_value (msg : option string) : lval :=
  match msg with Some m => LString (of_string m) | None => LNil end.

(** The two values a call pushes: the first result and the table of the host, or
    [nil] and the message of the resolver's error. *)
Definition answered (first : hostent -> outcome bytes) (hp : option hostent) (err : Z) (w w' : @world N) : Prop :=
  match hp with
  | Some hp => exists x t, first hp = Ok x /\ stack (state_of w') = LTable t :: LString x :: stack (state_of w) /\
      describes (state_of w') t hp
  | None => stack (state_of w') = message_value (socket_hoststrerror hstrerror err) :: LNil :: stack (state_of w)
  end.

Lemma wp_push_host first address (w : @world N) hp h_errno errno k :
  holds (state_of w) 1 (LString address) -> resolver_answer address (net_of w) = (hp, h_errno, errno, k) ->
  (forall h, hp = Some h -> exists x, first h = Ok x) ->
  wp (push_host aton hstrerror first) (fun o w' => o = Ok 2 /\ net_of w' = k /\
    answered first hp (host_error hp h_errno errno) w w' /\
    keeps_tables (state_of w) (state_of w') /\ globals (state_of w') = globals (state_of w)) w.
Proof.
  intros Harg Hr Hfirst. unfold push_host, on_lua, on_net. rewrite wp_bind, wp_zoom, (wp_checkstring _ _ _ _ Harg).
  cbn [then_post]. rewrite wp_bind, wp_zoom. eapply wp_gethost; [done|]. cbn [then_post].
  pose proof (host_error_done hp h_errno errno) as He. case_decide as Herr.
  - destruct hp as [hp|]; [by destruct Herr; apply He|]. unfold answered.
    destruct (socket_hoststrerror hstrerror _) as [m|]; cbn [push_message message_value];
      unfold lua_pushnil, lua_pushliteral, push; do 2 (rewrite wp_bind, wp_zoom, wp_modify; cbn [then_post]);
      rewrite wp_ret; done.
  - destruct hp as [hp|]; [|by apply He in Herr]. destruct (Hfirst hp eq_refl) as [x Hx]. rewrite Hx.
    unfold lua_pushlstring, push. rewrite wp_bind, wp_zoom, wp_modify. cbn [then_post].
    rewrite wp_bind, wp_zoom. apply wp_pushresolved. intros t L' Hst Hdesc Hg Hkeep. cbn [then_post]. rewrite wp_ret.
    split; [done|]. split; [done|]. split; [|done]. by exists x, t.
Qed.

Lemma strerror_none errno e : socket_strerror strerror errno e = None <-> e = IO_DONE.
Proof.
  unfold socket_strerror, io_strerror, IO_DONE, IO_CLOSED, IO_TIMEOUT.
  repeat case_decide; try (split; [done|lia]); try done. split; [|lia]. by repeat case_match.
Qed.

(** A message exactly when no descriptor has been opened. *)
Lemma wp_trycreate type s :
  wp (inet_trycreate strerror type) (fun o s' => exists msg, o = Ok msg /\ tm s' = tm s /\
    passes patience (os s) (os s') /\
    ((msg = None /\ opens descs (fd s') (os s) (os s')) \/
     (msg <> None /\ fd s' = SOCKET_INVALID /\ descs (os s') = descs (os s)))) s.
Proof.
  unfold inet_trycreate. rewrite wp_bind. eapply wp_mono; [apply (wp_socket_create descs patience delta)|].
  intros o s' (e & -> & Htm & Hp & Hcases). cbn [then_post]. rewrite wp_bind, wp_get. cbn [then_post]. rewrite wp_ret.
  eexists. split; [done|]. do 2 (split; [done|]).
  destruct Hcases as [[-> Ho]|(He & Hf & Hd)]; [by left|right]. rewrite strerror_none.
  split; [unfold IO_DONE; lia|done].
Qed.

Lemma wp_resolve address s :
  wp (resolve aton hstrerror address) (fun o s' => exists r, o = Ok r /\ same_socket patience s s' /\
    descs (os s') = descs (os s)) s.
Proof.
  unfold resolve. destruct (aton (cstr address)) as [a|].
  { rewrite wp_ret. eexists. split; [done|]. split; [apply same_socket_refl|done]. }
  rewrite wp_bind. unfold on_os. rewrite wp_zoom. eapply wp_mono; [apply (wp_gethostbyname descs patience delta)|].
  intros o k (e & hp & -> & Hp & Hd & He & Haddr). cbn [then_post].
  assert (same_socket patience s (with_os k s)) by (by apply same_socket_os; [apply same_socket_refl|]).
  case_decide as Herr; [rewrite wp_ret; by eexists|].
  destruct hp as [hp|]; [|by apply He in Herr]. cbn. destruct (h_addr_list hp) as [|a l] eqn:Ha; [by destruct (Haddr hp)|].
  cbn. rewrite wp_ret. by eexists.
Qed.

(** Connecting by name: the object's descriptor and no other. *)
Lemma wp_tryconnect address port s0 :
  (fd s0 <> SOCKET_INVALID -> does_not_block descs (fd s0) (os s0)) -> (patience (os s0) < fuel)%nat ->
  wp (inet_tryconnect fuel aton strerror hstrerror address port) (fun o s => exists msg, o = Ok msg /\
    same_socket patience s0 s /\ only_on descs (fd s0) (os s0) (os s)) s0.
Proof.
  intros Hnb Hfuel. unfold inet_tryconnect. rewrite wp_bind.
  apply (wp_mono _ (fun o s => exists r, o = Ok r /\ same_socket patience s0 s /\ descs (os s) = descs (os s0))).
  { case_match; [rewrite wp_ret; eexists; split; [done|]; split; [apply same_socket_refl|done]|].
    rewrite wp_bind. eapply wp_mono; [apply wp_resolve|]. intros o s (r & -> & ?). cbn [then_post]. rewrite wp_ret. by eexists. }
  intros o s (r & -> & Hs & Hd). cbn [then_post]. pose proof Hs as (Hf & _ & [Hpat _]).
  destruct r as [remote|msg]; [|rewrite wp_ret; exists msg; by split; [|split; [|left]]].
  rewrite wp_bind. eapply wp_mono; [apply (wp_socket_connect descs patience delta); [|lia]|].
  { rewrite Hf. unfold does_not_block. by rewrite Hd. }
  intros o s1 (e & -> & Hs1 & Hon & _). cbn [then_post]. rewrite wp_bind, wp_get. cbn [then_post]. rewrite wp_ret.
  eexists. split; [done|]. split; [by eapply same_socket_trans|]. rewrite Hf in Hon.
  eapply only_on_trans; [by left|done].
Qed.

(** Binding by name: without an error nothing changes but the name; a socket
    that could not be bound may be gone. *)
Lemma wp_trybind address port s0 :
  (fd s0 = SOCKET_INVALID -> descs (os s0) !! fd s0 = None) -> settled (fd s0) (descs (os s0)) ->
  wp (inet_trybind aton strerror hstrerror address port) (fun o s => exists msg, o = Ok msg /\
    tm s = tm s0 /\ passes patience (os s0) (os s) /\
    ((fd s = fd s0 /\ descs (os s) = descs (os s0)) \/
     (msg <> None /\ fd s = SOCKET_INVALID /\ descs (os s) = delete (fd s0) (descs (os s0))))) s0.
Proof.
  intros Hclosed Hset. unfold inet_trybind. rewrite wp_bind.
  apply (wp_mono _ (fun o s => exists r, o = Ok r /\ same_socket patience s0 s /\ descs (os s) = descs (os s0))).
  { case_match; [rewrite wp_ret; eexists; split; [done|]; split; [apply same_socket_refl|done]|]. apply wp_resolve. }
  intros o s (r & -> & (Hf & Htm & Hp) & Hd). cbn [then_post].
  destruct r as [a|msg]; [|rewrite wp_ret; exists msg; do 3 (split; [done|]); by left].
  rewrite wp_bind. eapply wp_mono; [apply (wp_socket_bind descs patience delta); by rewrite Hf, Hd|].
  intros o s1 (e & -> & (Hf1 & Htm1 & Hp1) & Hd1 & He). cbn [then_post]. rewrite wp_bind. case_decide as Herr.
  - eapply wp_mono; [apply (wp_socket_destroy descs patience delta)|].
    { rewrite Hf1, Hf, Hd1, Hd. done. }
    intros o s2 (-> & Hf2 & Htm2 & Hp2 & Hd2). cbn [then_post]. rewrite wp_bind, wp_get. cbn [then_post]. rewrite wp_ret.
    eexists. split; [done|]. split; [congruence|]. split; [eapply passes_trans; [done|]; by eapply passes_trans|].
    right. rewrite strerror_none. split; [done|]. split; [done|]. by rewrite Hd2, Hd1, Hd, Hf1, Hf.
  - rewrite wp_ret. cbn [then_post]. rewrite wp_bind, wp_get. cbn [then_post]. rewrite wp_ret.
    eexists. split; [done|]. split; [congruence|]. split; [by eapply passes_trans|]. left. split; congruence.
Qed.
End Answers.

(** C21: what scripts are told about a host, by its name or its dotted address: the
    resolver is asked once, by the address when the string is a dotted one and by
    the name otherwise, and the system is left as that call leaves it.  When the
    resolver finds an entry (which has an address, as documented), the call returns
    its first address as text and a new table with its name and, in order, all its
    aliases and all its addresses; when it finds none, [nil] and the message of the
    resolver's [h_errno], or of [errno] when that is zero.  Nothing else on the
    stack changes, and the tables the script had are untouched. *)
Theorem toip_spec {N} descs patience delta `{NetLaws N descs patience delta} aton hstrerror address (w : @world N)
    hp h_errno errno k :
  holds (state_of w) 1 (LString address) ->
  resolver_answer aton address (net_of w) = (hp, h_errno, errno, k) ->
  exists w', inet_global_toip aton hstrerror w = (Ok 2, w') /\ net_of w' = k /\
    keeps_tables (state_of w) (state_of w') /\
    match hp with
    | Some host => exists a rest t, h_addr_list host = a :: rest /\
        stack (state_of w') = LTable t :: LString (inet_ntoa a) :: stack (state_of w) /\
        describes (state_of w') t host
    | None =>
        stack (state_of w') =
          message_value (socket_hoststrerror hstrerror (if decide (h_errno <> 0) then h_errno
            else if decide (errno <> 0) then errno else IO_UNKNOWN)) :: LNil :: stack (state_of w)
    end.
Proof.
  intros Harg Hr. destruct (resolver_answer_law descs patience delta _ _ _ _ _ _ _ Hr) as (_ & _ & Haddr).
  assert (forall h, hp = Some h -> exists x, match h_addr_list h with
    | a :: _ => Ok (inet_ntoa a) | [] => Stop (Undefined "null pointer") end = Ok x) as Hfirst.
  { intros h Hh. specialize (Haddr h Hh). destruct (h_addr_list h); [done|by eexists]. }
  pose proof (wp_push_host aton hstrerror _ address w hp h_errno errno k Harg Hr Hfirst) as Hwp.
  apply wp_run in Hwp as (o & w' & Hrun & -> & Hk & Hans & Hkeep & _). exists w'. split; [done|].
  split; [done|]. split; [done|]. destruct hp as [hp|]; [|exact Hans].
  destruct Hans as (x & t & Hx & Hst & Hdesc). specialize (Haddr hp eq_refl).
  destruct (h_addr_list hp) as [|a rest] eqn:He; [done|]. injection Hx as [= <-]. by exists a, rest, t.
Qed.

(** [NETDB_INTERNAL] (-1) is the code of a time limit that has passed. *)
Example internal_error_is_timeout hstrerror errno :
  socket_hoststrerror hstrerror (host_error None (-1) errno) = Some "timeout"%string.
Proof. reflexivity. Qed.

Definition asked0 : @world toynet := World (Lua [LString (of_string "localhost")] ∅ 1%positive) net0.

Example toip_spec_witness :
  exists w', inet_global_toip (fun _ => None) (fun _ => ""%string) asked0 = (Ok 2, w') /\ net_of w' = net0 /\
    keeps_tables (state_of asked0) (state_of w') /\
    exists a rest t, h_addr_list t_host = a :: rest /\
      stack (state_of w') = LTable t :: LString (inet_ntoa a) :: stack (state_of asked0) /\
      describes (state_of w') t t_host.
Proof.
  apply (toip_spec t_table t_busy 0 (fun _ => None) (fun _ => ""%string) (of_string "localhost") asked0
    (Some t_host) 0 0 net0); [exists 0%nat; split; reflexivity|reflexivity].
Defined.
