(* ===== verification/Auxiliar.v ===== *)
(** * Classes of objects (luasocket's [auxiliar.c] and [options.c])

    A class is a metatable of the registry: its methods are in its [__index]
    table with the name of the class, those whose names start with an underscore
    in the metatable itself, and a class belongs to a group when its metatable
    has the group's name as a key.  An object's class can be changed. *)

From S2P Require Import Prelude CString Transport Socket Net.
#[global] Open Scope Z_scope.

(** ** Metatables

    What a metatable holds under a name: a C function, [true], or the table of
    methods with the name of the class. *)
Inductive entry : Type :=
| CFunction (f : string)
| Flag
| Index (methods : gmap string string) (class : string).

Abbreviation registry := (gmap string (gmap string entry)).

(** The list of methods, split as the loop splits it. *)
Fixpoint add_methods (mt : gmap string entry) (it : gmap string string) (func : list (string * string))
    : gmap string entry * gmap string string :=
  match func with
  | [] => (mt, it)
  | (name, f) :: func' =>
      if decide (String.get 0 name = Some "_"%char) then add_methods (<[name := CFunction f]> mt) it func'
      else add_methods mt (<[name := f]> it) func'
  end.

(** [luaL_newmetatable] gives the metatable that already has the name, if any. *)
Definition auxiliar_newclass (classname : string) (func : list (string * string)) (r : registry) : registry :=
  let '(mt, it) := add_methods (default ∅ (r !! classname)) ∅ func in
  <[classname := <["__index"%string := Index it classname]> mt]> r.

Definition auxiliar_add2group (classname groupname : string) (r : registry) : registry :=
  alter <[groupname := Flag]> classname r.

(** ** Objects

    The class of an object is the name of its metatable; none is no metatable. *)

Definition metatable (r : registry) (class : option string) : option (gmap string entry) :=
  match class with Some c => r !! c | None => None end.

(** The table of methods with the class name in it. *)
Definition index_table (r : registry) (class : option string) : option entry :=
  match metatable r class with Some mt => mt !! "__index"%string | None => None end.

Definition auxiliar_getclassudata (r : registry) (classname : string) (class : option string) : bool :=
  bool_decide (class = Some classname /\ is_Some (r !! classname)).

Definition auxiliar_getgroupudata (r : registry) (groupname : string) (class : option string) : bool :=
  match metatable r class with
  | Some mt => bool_decide (is_Some (mt !! groupname))
  | None => false
  end.

(** [luaL_checkudata] raises the error of the first itself. *)
Definition auxiliar_checkclass {W} (r : registry) (classname : string) (class : option string) : C W unit :=
  if auxiliar_getclassudata r classname class then ret tt
  else stop (LuaError (classname ++ " expected")%string).

Definition auxiliar_checkgroup {W} (r : registry) (groupname : string) (class : option string) : C W unit :=
  if auxiliar_getgroupudata r groupname class then ret tt
  else stop (LuaError (groupname ++ " expected")%string).

(** The new class of the object; a name that is not registered is [nil]. *)
Definition auxiliar_setclass (r : registry) (classname : string) : option string :=
  if decide (is_Some (r !! classname)) then Some classname else None.

(** [address] is how [printf] shows the address of the object. *)
Definition auxiliar_tostring {W} (r : registry) (class : option string) (address : string) : C W string :=
  match index_table r class with
  | Some (Index _ c) => ret (c ++ ": " ++ address)%string
  | _ => stop (LuaError "invalid object passed to 'auxiliar.c:__tostring'")
  end.

(** What [object:name] finds. *)
Definition method_of (r : registry) (class : option string) (name : string) : option string :=
  match index_table r class with
  | Some (Index methods _) => methods !! name
  | _ => None
  end.

(** ** Options of a socket

    The third argument of [setoption], as far as the handlers look. *)
Inductive optval : Type :=
| OptBoolean (b : bool)
| OptTable (on : option bool) (timeout : option Z)
| OptOther.

Definition SOL_SOCKET : Z := 1.
Definition IPPROTO_TCP : Z := 6.
Definition SO_REUSEADDR : Z := 2.
Definition SO_DONTROUTE : Z := 5.
Definition SO_BROADCAST : Z := 6.
Definition SO_KEEPALIVE : Z := 9.
Definition SO_LINGER : Z := 13.
Definition TCP_NODELAY : Z := 1.

Section Options.
Context {N : Type} `{Net N}.

(** True when the option was set. *)
Definition opt_set (fd level name : Z) (val : list Z) : C N bool :=
  let! k := get in
  let '(r, k) := net_setsockopt fd level name val k in
  put k ;;; ret (negb (bool_decide (r < 0))).

Definition auxiliar_checkboolean {W} (v : optval) : C W bool :=
  match v with OptBoolean b => ret b | _ => stop (LuaError "boolean expected") end.

Definition opt_setboolean (fd level name : Z) (v : optval) : C N bool :=
  let! b := auxiliar_checkboolean v in
  opt_set fd level name [Z.b2z b].

Definition opt_reuseaddr (fd : Z) (v : optval) : C N bool := opt_setboolean fd SOL_SOCKET SO_REUSEADDR v.
Definition opt_tcp_nodelay (fd : Z) (v : optval) : C N bool := opt_setboolean fd IPPROTO_TCP TCP_NODELAY v.
Definition opt_keepalive (fd : Z) (v : optval) : C N bool := opt_setboolean fd SOL_SOCKET SO_KEEPALIVE v.
Definition opt_dontroute (fd : Z) (v : optval) : C N bool := opt_setboolean fd SOL_SOCKET SO_DONTROUTE v.
Definition opt_broadcast (fd : Z) (v : optval) : C N bool := opt_setboolean fd SOL_SOCKET SO_BROADCAST v.

(** [u_short] fields: a number that does not fit has no defined conversion. *)
Definition opt_linger (fd : Z) (v : optval) : C N bool :=
  match v with
  | OptTable on timeout =>
      match on with
      | None => stop (LuaError "boolean 'on' field expected")
      | Some b =>
          match timeout with
          | None => stop (LuaError "number 'timeout' field expected")
          | Some t =>
              if decide (0 <= t < 65536) then opt_set fd SOL_SOCKET SO_LINGER [Z.b2z b; t]
              else stop (Undefined "conversion of a number")
          end
      end
  | _ => stop (LuaError "table expected")
  end.

Definition opt_handler : Type := Z -> optval -> C N bool.

(** The handler of a name in the class's list. *)
Fixpoint opt_meth_setoption (opt : list (string * opt_handler)) (fd : Z) (name : string) (v : optval) : C N bool :=
  match opt with
  | [] => stop (LuaError ("unsupported option `" ++ String.substring 0 35 name ++ "'")%string)
  | (n, f) :: opt' => if decide (name = n) then f fd v else opt_meth_setoption opt' fd name v
  end.

Context (descs : N -> gmap Z desc) (patience : N -> nat) (delta : Z) `{!NetLaws N descs patience delta}.

(** Setting an option is no concern of the table of descriptors. *)
Definition harmless (m : C N bool) : Prop :=
  forall k, wp m (fun o k' => passes patience k k' /\ descs k' = descs k /\
    match o with Ok _ => True | Stop f => exists e, f = LuaError e end) k.

(** A time that fits its field. *)
Definition fits (v : optval) : Prop :=
  match v with OptTable _ (Some t) => 0 <= t < 65536 | _ => True end.

Lemma opt_set_harmless fd level name val : harmless (opt_set fd level name val).
Proof.
  intros k. unfold opt_set. rewrite wp_bind, wp_get. cbn [then_post].
  destruct (net_setsockopt fd level name val k) as [r k'] eqn:Hs. apply net_setsockopt_law in Hs as [Hp Hd].
  rewrite wp_bind, wp_put. cbn [then_post]. by rewrite wp_ret.
Qed.

Lemma stop_harmless e : harmless (stop (LuaError e)).
Proof. intros k. rewrite wp_stop. split; [apply passes_refl|]. split; [done|by exists e]. Qed.

Lemma opt_setboolean_harmless fd level name v : harmless (opt_setboolean fd level name v).
Proof.
  unfold opt_setboolean. destruct v; cbn [auxiliar_checkboolean]; [apply opt_set_harmless|apply stop_harmless..].
Qed.

Lemma opt_linger_harmless fd v : fits v -> harmless (opt_linger fd v).
Proof.
  destruct v as [b|[on|] [t|]|]; cbn [opt_linger fits]; intros Hfit; try apply stop_harmless.
  rewrite decide_True by done. apply opt_set_harmless.
Qed.

Lemma setoption_harmless opt fd name v :
  Forall (fun nf => forall fd, harmless (nf.2 fd v)) opt -> harmless (opt_meth_setoption opt fd name v).
Proof.
  induction 1 as [|[n f] opt Hf Hopt IH]; cbn [opt_meth_setoption]; [apply stop_harmless|].
  case_decide; [apply Hf|apply IH].
Qed.
End Options.

(** ** Registered classes *)

Lemma newclass_other c func r c' : c' <> c -> auxiliar_newclass c func r !! c' = r !! c'.
Proof. intros Hc. unfold auxiliar_newclass. destruct (add_methods _ _ _). by rewrite lookup_insert_ne. Qed.

Lemma newclass_is_class c func r : is_Some (auxiliar_newclass c func r !! c).
Proof. unfold auxiliar_newclass. destruct (add_methods _ _ _). by rewrite lookup_insert_eq. Qed.

Lemma add2group_other c g r c' : c' <> c -> auxiliar_add2group c g r !! c' = r !! c'.
Proof. intros Hc. unfold auxiliar_add2group. by rewrite lookup_alter_ne. Qed.

Lemma add2group_is_class c g r c' : is_Some (auxiliar_add2group c g r !! c') <-> is_Some (r !! c').
Proof. apply lookup_alter_is_Some. Qed.

(** ** Methods of a class *)

Lemma add_methods_index mt mt' it func : (add_methods mt it func).2 = (add_methods mt' it func).2.
Proof.
  revert mt mt' it. induction func as [|[name f] func IH]; intros mt mt' it; [done|]. cbn.
  case_decide; apply IH.
Qed.

(** The table of methods of a list. *)
Definition methods_in (func : list (string * string)) : gmap string string := (add_methods ∅ ∅ func).2.

Lemma newclass_methods c func r name :
  method_of (auxiliar_newclass c func r) (Some c) name = methods_in func !! name.
Proof.
  unfold method_of, index_table, metatable, auxiliar_newclass, methods_in.
  destruct (add_methods _ ∅ func) as [mt it] eqn:Ha. rewrite lookup_insert_eq, lookup_insert_eq.
  by rewrite (add_methods_index ∅ (default ∅ (r !! c))), Ha.
Qed.

Lemma method_of_class r r' c name : r' !! c = r !! c -> method_of r' (Some c) name = method_of r (Some c) name.
Proof. unfold method_of, index_table, metatable. by intros ->. Qed.

Lemma add2group_methods c g r c' name :
  g <> "__index"%string -> method_of (auxiliar_add2group c g r) (Some c') name = method_of r (Some c') name.
Proof.
  intros Hg. destruct (decide (c' = c)) as [->|Hc]; [|by apply method_of_class, add2group_other].
  unfold method_of, index_table, metatable, auxiliar_add2group. rewrite lookup_alter_eq.
  destruct (r !! c) as [mt|]; [|done]. cbn. by rewrite lookup_insert_ne by done.
Qed.
