(* ===== verification/Buffer.v ===== *)
(** * Buffered input and output (luasocket's [buffer.c])

    The methods [send] and [receive] of connected objects, on any transport:
    output goes out in steps, input is read through a buffer of 8192 octets. *)

From S2P Require Import Prelude CString Octets Transport.
#[global] Open Scope Z_scope.

Definition BUF_SIZE : nat := Z.to_nat 8192.
Definition STEPSIZE : nat := Z.to_nat 8192.
#[global] Arguments BUF_SIZE : simpl never.
#[global] Arguments STEPSIZE : simpl never.

Lemma BUF_SIZE_pos : (0 < BUF_SIZE)%nat.
Proof. unfold BUF_SIZE. lia. Qed.

Lemma STEPSIZE_pos : (0 < STEPSIZE)%nat.
Proof. unfold STEPSIZE. lia. Qed.

(** The counts given to a transport. *)
Lemma BUF_SIZE_int : Z.of_nat BUF_SIZE < 2 ^ 31.
Proof. unfold BUF_SIZE. lia. Qed.

Lemma STEPSIZE_int n : (n <= STEPSIZE)%nat -> Z.of_nat n < 2 ^ 31.
Proof. unfold STEPSIZE. lia. Qed.

(** [t_buffer]; times are in microseconds. *)
Record t_buffer : Type := Buf {
  birthday : Z;
  sent : Z; received : Z;
  first : nat; last : nat;
  data : bytes
}.

Section Buffer.
Context {T : Type} `{Transport T} (timeout_gettime : T -> Z) (fuel : nat).

Record state : Type := State { buf : t_buffer; io : T }.

Definition on_io {A} (m : C T A) : C state A :=
  zoom io (fun t st => State (buf st) t) m.
Definition modify_buf (f : t_buffer -> t_buffer) : C state unit :=
  modify (fun st => State (f (buf st)) (io st)).

(** The storage is whatever the memory holds. *)
Definition buffer_init (storage : bytes) (t : T) : state := State (Buf (timeout_gettime t) 0 0 0 0 storage) t.

Definition buffer_meth_getstats : C state (Z * Z * Z) :=
  gets (fun st => (received (buf st), sent (buf st), timeout_gettime (io st) - birthday (buf st))).

(** An argument that is missing leaves its statistic as it is. *)
Definition buffer_meth_setstats (r s age : option Z) : C state Z :=
  modify_buf (fun b => Buf (birthday b) (sent b) (default (received b) r) (first b) (last b) (data b)) ;;;
  modify_buf (fun b => Buf (birthday b) (default (sent b) s) (received b) (first b) (last b) (data b)) ;;;
  let! st := get in
  match age with
  | Some t => modify_buf (fun b => Buf (timeout_gettime (io st) - t) (sent b) (received b) (first b) (last b) (data b))
  | None => ret tt
  end ;;;
  ret 1.

Definition buffer_isempty (b : t_buffer) : bool := bool_decide (last b <= first b)%nat.

Definition buffer_skip (count : nat) : C state unit :=
  modify_buf (fun b => Buf (birthday b) (sent b) (u64 (received b + Z.of_nat count)) (first b + count) (last b) (data b)) ;;;
  modify_buf (fun b => if buffer_isempty b then Buf (birthday b) (sent b) (received b) 0 0 (data b) else b).

(** The error code and what the buffer holds; the transport stores what it
    receives at the start of the buffer. *)
Definition buffer_get : C state (Z * bytes) :=
  let! st := get in
  let! err :=
    (if buffer_isempty (buf st) then
       let! '(err, got) := on_io (io_recv BUF_SIZE) in
       modify_buf (fun b => Buf (birthday b) (sent b) (received b) 0 (length got) (got ++ drop (length got) (data b))) ;;;
       ret err
     else ret IO_DONE) in
  let! st := get in
  let b := buf st in
  ret (err, take (last b - first b) (drop (first b) (data b))).

(** The error code and [*sent]. *)
Definition sendraw (d : bytes) : C state (Z * nat) :=
  let count := length d in
  let! '(total, err) := loop fuel (fun '(total, err) =>
      if decide ((total < count)%nat /\ err = IO_DONE) then
        let step := if decide (count - total <= STEPSIZE)%nat then (count - total)%nat else STEPSIZE in
        let! '(err, done) := on_io (io_send (take step (drop total d))) in
        ret (inl (total + done, err)%nat)
      else ret (inr (total, err))) (0%nat, IO_DONE) in
  modify_buf (fun b => Buf (birthday b) (u64 (sent b + Z.of_nat total)) (received b) (first b) (last b) (data b)) ;;;
  ret (err, total).

(** [b] is what the [luaL_Buffer] holds; [wanted] is a [size_t]. *)
Definition recvraw (wanted : Z) (b : bytes) : C state (Z * bytes) :=
  loop fuel (fun '(total, b) =>
    let! '(err, d) := buffer_get in
    let count := if decide (Z.of_nat (length d) < wanted - total) then length d
                 else Z.to_nat (wanted - total) in
    let b := b ++ take count d in
    buffer_skip count ;;;
    let total := total + Z.of_nat count in
    ret (if decide (total >= wanted) then inr (err, b)
         else if decide (err = IO_DONE) then inl (total, b) else inr (err, b))) (0, b).

Definition recvall (b : bytes) : C state (Z * bytes) :=
  let! '(total, err, b) := loop fuel (fun '(total, b) =>
      let! '(err, d) := buffer_get in
      let total := (total + length d)%nat in
      let b := b ++ d in
      buffer_skip (length d) ;;;
      ret (if decide (err = IO_DONE) then inl (total, b) else inr (total, err, b))) (0%nat, b) in
  ret (if decide (err = IO_CLOSED) then
         if decide (0 < total)%nat then (IO_DONE, b) else (IO_CLOSED, b)
       else (err, b)).

(** The inner loop of [recvline]: where it stops, and what it adds. *)
Fixpoint scan_line (d : bytes) (pos : nat) (b : bytes) : nat * bytes :=
  match d with
  | [] => (pos, b)
  | c :: d' =>
      if decide (c = LF) then (pos, b)
      else scan_line d' (S pos) (if decide (c = CR) then b else b ++ [c])
  end.

Definition recvline (b : bytes) : C state (Z * bytes) :=
  loop fuel (fun b =>
    let! '(err, d) := buffer_get in
    let '(pos, b) := scan_line d 0 b in
    if decide (pos < length d)%nat then
      buffer_skip (pos + 1) ;;; ret (inr (err, b))
    else
      buffer_skip pos ;;;
      ret (if decide (err = IO_DONE) then inl b else inr (err, b))) b.

(** [timeout_markstart(buf->tm)] *)
Definition markstart : C state unit := modify (fun st => State (buf st) (io_markstart (io st))).

(** The second argument of [receive]: a number or a pattern. *)
Inductive pattern : Type := Bytes (n : Z) | Text (p : bytes).

(** Three Lua values. *)
Definition reply : Type := option bytes * option string * option bytes.

Definition buffer_meth_receive (p : pattern) (part : bytes) : C state reply :=
  let size := Z.of_nat (length part) in
  markstart ;;;
  let! '(err, b) :=
    match p with
    | Text s =>
        if decide (s !! 0%nat = Some "*"%char /\ s !! 1%nat = Some "l"%char) then recvline part
        else if decide (s !! 0%nat = Some "*"%char /\ s !! 1%nat = Some "a"%char) then recvall part
        else stop (LuaError "invalid receive pattern")
    | Bytes n => recvraw (u64 (n - size)) part
    end in
  let! st := get in
  if decide (err <> IO_DONE) then ret (None, io_error (io st) err, Some b)
  else ret (Some b, None, None).

(** The index of the last octet sent, the message, the index again. *)
Definition buffer_meth_send (d : bytes) (start fin : Z) : C state (option Z * option string * option Z) :=
  let size := Z.of_nat (length d) in
  markstart ;;;
  let start := if decide (start < 0) then size + start + 1 else start in
  let fin := if decide (fin < 0) then size + fin + 1 else fin in
  let start := if decide (start < 1) then 1 else start in
  let fin := if decide (fin > size) then size else fin in
  let! '(err, n) :=
    (if decide (start <= fin) then
       sendraw (take (Z.to_nat (fin - start + 1)) (drop (Z.to_nat (start - 1)) d))
     else ret (IO_DONE, 0%nat)) in
  let! st := get in
  if decide (err <> IO_DONE) then
    ret (None, io_error (io st) err, Some (Z.of_nat n + start - 1))
  else ret (Some (Z.of_nat n + start - 1), None, None).
(** ** The stream a buffer stands for *)

Context (ready : T -> Prop) (sendable : T -> bytes -> Prop) (unread wire : T -> bytes)
  `{!TransportLaws T ready sendable unread wire}.

Definition held (b : t_buffer) : bytes := take (last b - first b) (drop (first b) (data b)).
Definition stream (st : state) : bytes := held (buf st) ++ unread (io st).

Definition good (st : state) : Prop :=
  (first (buf st) <= last (buf st) <= BUF_SIZE)%nat /\ length (data (buf st)) = BUF_SIZE /\ ready (io st).

(** What could be sent can still be sent. *)
Definition keeps_sendable (st st' : state) : Prop := forall d, sendable (io st) d -> sendable (io st') d.

(** From [st] to [st'] the octets [c] of the stream have been consumed. *)
Definition consumes (c : bytes) (st st' : state) : Prop :=
  good st' /\ stream st = c ++ stream st' /\ wire (io st') = wire (io st) /\
  u64 (received (buf st')) = u64 (received (buf st) + Z.of_nat (length c)) /\
  sent (buf st') = sent (buf st) /\ keeps_sendable st st'.

Lemma length_held st : good st -> length (held (buf st)) = (last (buf st) - first (buf st))%nat.
Proof. intros (? & Hl & _). unfold held. rewrite length_take, length_drop. lia. Qed.

Lemma wp_buffer_get st :
  good st ->
  wp buffer_get (fun o st' => exists err,
    o = Ok (err, held (buf st')) /\ good st' /\ stream st' = stream st /\ wire (io st') = wire (io st) /\
    received (buf st') = received (buf st) /\ sent (buf st') = sent (buf st) /\
    (err = IO_DONE <-> held (buf st') <> []) /\ (err = IO_CLOSED -> stream st = []) /\ keeps_sendable st st') st.
Proof.
  intros Hst. pose proof (length_held st Hst) as Hh. destruct Hst as ([Hf Hl] & Hd & Hr).
  unfold buffer_get. rewrite wp_bind, wp_get. cbn [then_post]. rewrite wp_bind.
  unfold buffer_isempty. case_bool_decide as He.
  - assert (held (buf st) = []) as H1 by (apply nil_length_inv; lia).
    rewrite wp_bind. unfold on_io. rewrite wp_zoom. unfold wp at 1.
    destruct (recv_delivers BUF_SIZE (io st) BUF_SIZE_pos BUF_SIZE_int Hr)
      as (e & got & t' & -> & Hr' & Hu & Hw & Hlen & Hok & Hcl & Hsd).
    assert (take (length got) (got ++ drop (length got) (data (buf st))) = got) as Htake
      by apply take_app_length.
    cbn [fst snd then_post]. unfold modify_buf. wp_simpl.
    exists e. unfold held; cbn. rewrite Nat.sub_0_r, drop_0, Htake.
    split; [done|]. split.
    { split; [cbn; lia|]. split; [|done]. cbn. rewrite length_app, length_drop. lia. }
    unfold stream. rewrite H1. split; [by rewrite Hu|]. auto 10.
  - wp_simpl. exists IO_DONE. split; [done|]. split; [done|]. do 4 (split; [done|]).
    split; [|split; [done|by intros d]]. split; [|done]. intros _ Hn. apply (f_equal length) in Hn. rewrite Hh in Hn. cbn in Hn. lia.
Qed.

Lemma wp_buffer_skip n st :
  good st -> (n <= length (held (buf st)))%nat ->
  wp (buffer_skip n) (fun o st' => o = Ok tt /\ consumes (take n (held (buf st))) st st') st.
Proof.
  intros Hst Hn. pose proof (length_held st Hst) as Hh. destruct Hst as ([Hf Hl] & Hd & Hr).
  unfold buffer_skip, modify_buf. wp_simpl. split; [done|].
  unfold buffer_isempty. case_bool_decide as He; cbn in He.
  - split; [split; [cbn; lia|done]|]. cbn.
    assert (n = length (held (buf st))) as -> by lia. rewrite firstn_all.
    split; [done|]. split; [done|]. rewrite Hh. split; [apply Z.mod_mod; lia|]. split; [done|by intros d].
  - split; [split; [cbn; lia|done]|]. cbn.
    split; [|split; [done|]; rewrite length_take, Nat.min_l by lia; split; [apply Z.mod_mod; lia|split; [done|by intros d]]].
    unfold stream, held. cbn. rewrite app_assoc. f_equal.
    rewrite take_take, Nat.min_l by lia.
    rewrite <- (drop_drop _ n). rewrite take_take_drop. f_equal. lia.
Qed.

Lemma consumes_trans c1 c2 st st1 st2 :
  consumes c1 st st1 -> consumes c2 st1 st2 -> consumes (c1 ++ c2) st st2.
Proof.
  intros (_ & Hs1 & Hw1 & Hr1 & Hn1 & Hd1) (Hg & Hs2 & Hw2 & Hr2 & Hn2 & Hd2).
  split; [done|]. split; [by rewrite Hs1, Hs2, app_assoc|]. split; [congruence|].
  split; [|split; [congruence|intros d Hd; by apply Hd2, Hd1]]. rewrite Hr2. unfold u64 in *.
  rewrite <- Z.add_mod_idemp_l, Hr1, Z.add_mod_idemp_l by lia.
  f_equal. rewrite length_app. lia.
Qed.

Lemma consumes_refl st : good st -> consumes [] st st.
Proof. intros Hg. split; [done|]. do 2 (split; [done|]). split; [f_equal; cbn; lia|]. split; [done|by intros d]. Qed.

(** Looking at the buffer, then consuming some of what it holds. *)
Lemma wp_get_then {A} (k : Z * bytes -> C state A) (Q : outcome A -> state -> Prop) st0 c st :
  consumes c st0 st ->
  (forall err st', consumes c st0 st' -> stream st' = stream st ->
     (err = IO_DONE <-> held (buf st') <> []) -> (err = IO_CLOSED -> stream st = []) -> wp (k (err, held (buf st'))) Q st') ->
  wp (bind buffer_get k) Q st.
Proof.
  intros (Hg & Hs & Hw & Hr & Hn & Hsd) Hk. rewrite wp_bind. eapply wp_mono; [by apply wp_buffer_get|].
  intros o st' (err & -> & Hg' & Hs' & Hw' & Hr' & Hn' & He & Hcl & Hsd'). apply Hk; [|done..].
  split; [done|]. split; [congruence|]. split; [congruence|]. split; [by rewrite Hr'|]. split; [congruence|].
  intros d Hd. by apply Hsd', Hsd.
Qed.

Lemma wp_skip_then {A} (m : C state A) (Q : outcome A -> state -> Prop) n st0 c st :
  consumes c st0 st -> (n <= length (held (buf st)))%nat ->
  (forall st', consumes (c ++ take n (held (buf st))) st0 st' ->
     stream st = take n (held (buf st)) ++ stream st' -> wp m Q st') ->
  wp (buffer_skip n ;;; m) Q st.
Proof.
  intros Hc Hn Hk. rewrite wp_bind. eapply wp_mono; [apply wp_buffer_skip; [apply Hc|done]|].
  intros o st' (-> & Hc'). apply Hk; [by eapply consumes_trans|apply Hc'].
Qed.

(** The start of an operation is marked first; that transfers nothing. *)
Lemma wp_markstart {A} (m : C state A) (Q : outcome A -> state -> Prop) st :
  good st ->
  (forall st1, consumes [] st st1 -> stream st1 = stream st -> buf st1 = buf st -> wp m Q st1) ->
  wp (markstart ;;; m) Q st.
Proof.
  intros Hg Hm. pose proof Hg as (Hf & Hd & Hr).
  destruct (markstart_transfers_nothing (io st) Hr) as (Hr' & Hu & Hw & Hsd).
  rewrite wp_bind. unfold markstart. rewrite wp_modify. cbn [then_post].
  assert (stream (State (buf st) (io_markstart (io st))) = stream st) as Hs
    by (unfold stream; cbn; by rewrite Hu).
  apply Hm; [|done|done]. split; [by split|]. split; [by rewrite Hs|]. split; [done|].
  split; [f_equal; cbn; lia|by split].
Qed.

(** ** Reading a number of octets *)

(** How a read of [wanted] octets ends that has consumed [c]. *)
Definition raw_end (wanted : Z) (c : bytes) (err : Z) : Prop :=
  Z.of_nat (length c) <= wanted /\
  (err = IO_DONE -> Z.of_nat (length c) = wanted) /\
  (err <> IO_DONE -> Z.of_nat (length c) < wanted \/ wanted = 0).

Lemma wp_recvraw wanted b0 st0 :
  good st0 -> 0 <= wanted -> (length (stream st0) < fuel)%nat ->
  wp (recvraw wanted b0) (fun o st' => exists c err,
    o = Ok (err, b0 ++ c) /\ consumes c st0 st' /\ raw_end wanted c err) st0.
Proof.
  intros Hg Hw Hfuel. unfold recvraw.
  apply (wp_loop_measure _ (fun '(total, b) st => exists c, consumes c st0 st /\ b = b0 ++ c /\
    total = Z.of_nat (length c) /\ total <= wanted /\ (total < wanted \/ total = 0))
    (fun _ st => length (stream st))); [|exists []; rewrite app_nil_r; split; [by apply consumes_refl|];
    split; [done|]; cbn; lia|done].
  intros [total b] st (c & Hc & -> & -> & Hle & Hlt).
  apply (wp_get_then _ _ st0 c st Hc). intros err st1 Hc1 Hs1 He _. cbv beta iota.
  set (d := held (buf st1)) in *. set (count := if decide _ then _ else _).
  assert (count <= length d)%nat as Hcount by (unfold count; case_decide; lia).
  assert (Z.of_nat (length c) + Z.of_nat count <= wanted) as Htot by (unfold count; case_decide; lia).
  assert (length (c ++ take count d) = length c + count)%nat as Hlen
    by (rewrite length_app, length_take; lia).
  eapply wp_skip_then; [done|done|]. intros st2 Hc2 Hs2. cbv zeta. rewrite wp_ret, <- app_assoc.
  fold d in Hc2, Hs2.
  destruct (decide (Z.of_nat (length c) + Z.of_nat count >= wanted)) as [Hge|Hlt'].
  - exists (c ++ take count d), err. split; [done|]. split; [done|]. unfold raw_end. rewrite Hlen.
    split; [lia|]. split; [lia|]. intros Herr. right.
    destruct d as [|x d'] eqn:Hd; [cbn in Hcount; lia|]. exfalso. apply Herr, He. done.
  - destruct (decide (err = IO_DONE)) as [Hdone|Herr].
    + split.
      * exists (c ++ take count d). rewrite Hlen. split; [done|]. split; [done|]. lia.
      * rewrite <- Hs1, Hs2, length_app, length_take.
        assert (length d <> 0)%nat by (intros Hz; by apply He, length_zero_iff_nil).
        assert (0 < count)%nat by (unfold count; case_decide; lia). lia.
    + exists (c ++ take count d), err. split; [done|]. split; [done|]. unfold raw_end. rewrite Hlen.
      split; [lia|]. split; [done|]. lia.
Qed.

(** ** Reading to the end of the stream *)

(** How such a read ends that has consumed [c] and left [st']: without an error
    it has read everything there was. *)
Definition all_end (c : bytes) (err : Z) (st' : state) : Prop :=
  (err = IO_DONE -> c <> [] /\ stream st' = []) /\ (err = IO_CLOSED -> c = [] /\ stream st' = []).

Lemma wp_recvall b0 st0 :
  good st0 -> (length (stream st0) < fuel)%nat ->
  wp (recvall b0) (fun o st' => exists c err,
    o = Ok (err, b0 ++ c) /\ consumes c st0 st' /\ all_end c err st') st0.
Proof.
  intros Hg Hfuel. unfold recvall. rewrite wp_bind.
  apply (wp_loop_measure _ (fun '(total, b) st => exists c, consumes c st0 st /\ b = b0 ++ c /\
    total = length c) (fun _ st => length (stream st)));
    [|exists []; rewrite app_nil_r; split; [by apply consumes_refl|done]|done].
  intros [total b] st (c & Hc & -> & ->).
  apply (wp_get_then _ _ st0 c st Hc). intros err st1 Hc1 Hs1 He Hcl. cbv beta iota zeta.
  eapply wp_skip_then; [done|done|]. intros st2 Hc2 Hs2. rewrite wp_ret, <- app_assoc.
  rewrite firstn_all in Hc2, Hs2. set (d := held (buf st1)) in *.
  destruct (decide (err = IO_DONE)) as [Hdone|Herr].
  - split; [exists (c ++ d); rewrite length_app; by split|].
    assert (length d <> 0)%nat by (intros Hz; by apply He, length_zero_iff_nil).
    rewrite <- Hs1, Hs2, length_app. lia.
  - assert (d = []) as Hd by (destruct d; [done|by destruct Herr; apply He]).
    rewrite Hd, app_nil_r in Hc2 |- *. rewrite Hd in Hs2. cbn in Hs2. cbn [then_post length].
    rewrite Nat.add_0_r, wp_ret.
    destruct (decide (err = IO_CLOSED)) as [Hclosed|Hopen].
    + assert (stream st2 = []) as Hend by (rewrite <- Hs2, Hs1; by apply Hcl).
      case_decide as Hlen; eexists c, _; (split; [done|]); (split; [done|]); split; intros ?; try done.
      * split; [intros ->; cbn in Hlen; lia|done].
      * split; [apply length_zero_iff_nil; lia|done].
    + exists c, err. split; [done|]. split; [done|]. by split.
Qed.

(** ** Reading a line *)

Definition not_CR (c : ascii) : Prop := c <> CR.
#[local] Instance not_CR_dec c : Decision (not_CR c) := _.

(** How a read of a line ends that has consumed [c] and added [text]. *)
Definition line_end (c text : bytes) (err : Z) : Prop :=
  (err = IO_DONE -> exists l, c = l ++ [LF] /\ (LF ∉ l) /\ text = filter not_CR l) /\
  (err <> IO_DONE -> (LF ∉ c) /\ text = filter not_CR c).

Lemma scan_line_spec d pos b :
  exists l r, d = l ++ r /\ (LF ∉ l) /\ (r = [] \/ exists r', r = LF :: r') /\
    scan_line d pos b = ((pos + length l)%nat, b ++ filter not_CR l).
Proof.
  revert pos b. induction d as [|c d IH]; intros pos b; cbn [scan_line].
  - exists [], []. rewrite Nat.add_0_r. split; [done|]. split; [apply not_elem_of_nil|].
    split; [by left|]. by rewrite app_nil_r.
  - case_decide as Hc.
    + exists [], (c :: d). rewrite Nat.add_0_r. subst c.
      split; [done|]. split; [apply not_elem_of_nil|]. split; [eauto|]. by rewrite app_nil_r.
    + destruct (IH (S pos) (if decide (c = CR) then b else b ++ [c])) as (l & r & -> & Hl & Hr & ->).
      exists (c :: l), r. split; [done|]. split; [by apply not_elem_of_cons|]. split; [done|].
      f_equal; [cbn; lia|]. rewrite filter_cons. unfold not_CR at 2.
      destruct (decide (c = CR)) as [Hcr|Hcr]; [by rewrite (decide_False (P := c <> CR)) by (intros Hn; by apply Hn)|].
      rewrite decide_True by done. by rewrite <- app_assoc.
Qed.

Lemma wp_recvline b0 st0 :
  good st0 -> (length (stream st0) < fuel)%nat ->
  wp (recvline b0) (fun o st' => exists c text err,
    o = Ok (err, b0 ++ text) /\ consumes c st0 st' /\ line_end c text err) st0.
Proof.
  intros Hg Hfuel. unfold recvline.
  apply (wp_loop_measure _ (fun b st => exists c, consumes c st0 st /\ (LF ∉ c) /\
    b = b0 ++ filter not_CR c) (fun _ st => length (stream st)));
    [|exists []; split; [by apply consumes_refl|]; split; [apply not_elem_of_nil|by rewrite app_nil_r]|done].
  intros b st (c & Hc & Hlf & ->).
  apply (wp_get_then _ _ st0 c st Hc). intros err st1 Hc1 Hs1 He _. cbv beta iota.
  set (d := held (buf st1)) in *.
  destruct (scan_line_spec d 0 (b0 ++ filter not_CR c)) as (l & r & Hd & Hl & Hr & ->).
  assert (LF ∉ c ++ l) as Hcl by (rewrite elem_of_app; tauto).
  rewrite <- app_assoc, <- filter_app. cbn [Nat.add].
  destruct Hr as [->|[r' ->]].
  - rewrite app_nil_r in Hd. rewrite decide_False by (rewrite Hd; lia).
    eapply wp_skip_then; [done|by fold d; rewrite Hd|]. fold d. rewrite Hd, firstn_all.
    intros st2 Hc2 Hs2. rewrite wp_ret. case_decide as Hdone.
    + split; [by exists (c ++ l)|]. rewrite <- Hs1, Hs2, length_app.
      assert (length l <> 0)%nat by (intros Hz; apply He in Hdone; rewrite Hd in Hdone; by apply Hdone, length_zero_iff_nil).
      lia.
    + exists (c ++ l), (filter not_CR (c ++ l)), err. split; [done|]. split; [done|]. by split.
  - assert (length d = length l + S (length r'))%nat as Hlen by (rewrite Hd, length_app; done).
    rewrite decide_True by lia.
    eapply wp_skip_then; [done|fold d; lia|]. intros st2 Hc2 Hs2. rewrite wp_ret.
    exists (c ++ l ++ [LF]), (filter not_CR (c ++ l)), err. split; [done|]. split.
    + fold d in Hc2. by rewrite Hd, take_app_add in Hc2.
    + split; [intros _; exists (c ++ l); by rewrite app_assoc|]. intros Herr. exfalso.
      apply Herr, He. rewrite Hd. by destruct l.
Qed.

(** ** Receiving *)

(** How [receive] ends that has consumed [c] of the stream: the text it gives
    back (on an error, as the partial result) and the error code. *)
Definition receive_end (p : pattern) (part c text : bytes) (err : Z) (st' : state) : Prop :=
  match p with
  | Bytes n => text = part ++ c /\ raw_end (n - Z.of_nat (length part)) c err
  | Text s =>
      if decide (s !! 1%nat = Some "l"%char) then
        exists line, text = part ++ line /\ line_end c line err
      else text = part ++ c /\ all_end c err st'
  end.

(** A pattern [receive] accepts, and a number no smaller than what is there. *)
Definition acceptable (p : pattern) (part : bytes) : Prop :=
  match p with
  | Bytes n => Z.of_nat (length part) <= n < 2 ^ 64
  | Text s => s !! 0%nat = Some "*"%char /\ (s !! 1%nat = Some "l"%char \/ s !! 1%nat = Some "a"%char)
  end.

Definition reply_of (t : T) (text : bytes) (err : Z) : reply :=
  if decide (err = IO_DONE) then (Some text, None, None) else (None, io_error t err, Some text).

Lemma wp_reply (Q : outcome reply -> state -> Prop) err text st :
  Q (Ok (reply_of (io st) text err)) st ->
  wp (let! st := get in
      if decide (err <> IO_DONE) then ret (None, io_error (io st) err, Some text)
      else ret (Some text, None, None)) Q st.
Proof.
  unfold reply_of. intros HQ. rewrite wp_bind, wp_get. cbn [then_post]. destruct (decide (err = IO_DONE)).
  - rewrite decide_False by tauto. by rewrite wp_ret.
  - rewrite decide_True by done. by rewrite wp_ret.
Qed.

Lemma wp_receive p part st0 :
  good st0 -> (length (stream st0) < fuel)%nat -> acceptable p part ->
  wp (buffer_meth_receive p part) (fun o st' => exists c text err,
    o = Ok (reply_of (io st') text err) /\ consumes c st0 st' /\ receive_end p part c text err st') st0.
Proof.
  intros Hg Hfuel Hp. unfold buffer_meth_receive. apply wp_markstart; [done|].
  intros st1 H1 Hs1 _. rewrite <- Hs1 in Hfuel. pose proof H1 as [Hg1 _]. rewrite wp_bind.
  destruct p as [n|s].
  - cbn in Hp. unfold u64. rewrite Z.mod_small by lia.
    eapply wp_mono; [apply wp_recvraw; [done|lia|done]|].
    intros o st' (c & err & -> & Hc & He). cbn [then_post]. apply wp_reply.
    exists c, (part ++ c), err. split; [done|]. split; [by apply (consumes_trans [] c st0 st1)|]. by split.
  - destruct Hp as [Hs Hp]. unfold receive_end.
    destruct (decide (s !! 1%nat = Some "l"%char)) as [Hl|Hl].
    + rewrite decide_True by done. eapply wp_mono; [by apply wp_recvline|].
      intros o st' (c & text & err & -> & Hc & He). cbn [then_post]. apply wp_reply.
      exists c, (part ++ text), err. split; [done|].
      split; [by apply (consumes_trans [] c st0 st1)|]. eauto.
    + destruct Hp as [|Ha]; [done|].
      rewrite decide_False by tauto. rewrite decide_True by done.
      eapply wp_mono; [by apply wp_recvall|].
      intros o st' (c & err & -> & Hc & He). cbn [then_post]. apply wp_reply.
      exists c, (part ++ c), err. split; [done|].
      split; [by apply (consumes_trans [] c st0 st1)|]. by split.
Qed.

(** A number smaller than what is already there is a [size_t] close to
    [2 ^ 64], so the call reads on until the stream fails. *)
Lemma receive_short_number n part st0 :
  good st0 -> (length (stream st0) < fuel)%nat ->
  0 <= n < Z.of_nat (length part) -> Z.of_nat (length (stream st0)) + Z.of_nat (length part) < 2 ^ 64 ->
  exists c err st', buffer_meth_receive (Bytes n) part st0 = (Ok (None, io_error (io st') err, Some (part ++ c)), st') /\
    consumes c st0 st'.
Proof.
  intros Hg Hfuel Hn Hsmall.
  enough (wp (buffer_meth_receive (Bytes n) part) (fun o st' => exists c err,
    o = Ok (None, io_error (io st') err, Some (part ++ c)) /\ consumes c st0 st') st0)
    as (o & st' & Hrun & c & err & -> & Hc)%wp_run by eauto 10.
  unfold buffer_meth_receive. apply wp_markstart; [done|]. intros st1 H1 Hs1 _.
  rewrite <- Hs1 in Hfuel, Hsmall. pose proof H1 as [Hg1 _].
  assert (u64 (n - Z.of_nat (length part)) = 2 ^ 64 + n - Z.of_nat (length part)) as ->.
  { unfold u64. rewrite <- (Z.mod_add _ 1) by lia. rewrite Z.mod_small; lia. }
  rewrite wp_bind. eapply wp_mono; [apply wp_recvraw; [done|lia|done]|].
  intros o st' (c & err & -> & Hc & (_ & Hdone & _)). cbn [then_post]. rewrite wp_bind, wp_get. cbn [then_post].
  rewrite decide_True; [rewrite wp_ret; exists c, err; split; [done|by apply (consumes_trans [] c st0 st1)]|].
  intros Herr. apply Hdone in Herr.
  destruct Hc as (_ & Hs & _). rewrite Hs, length_app in Hsmall. lia.
Qed.

(** ** Sending *)

(** What goes to the transport first when data is sent. *)
Definition may_start (d : bytes) (st : state) : Prop := d <> [] -> sendable (io st) (take STEPSIZE d).

(** After [n] octets of [d], what is left of them can be sent; after all of them
    anything can. *)
Definition may_send (d : bytes) (n : nat) (st st' : state) : Prop :=
  may_start (drop n d) st' /\
  (n = length d -> forall c, (d = [] -> sendable (io st) c) -> sendable (io st') c).

(** [n] octets of [d] have gone out between [st] and [st']; an error code means
    that not all have. *)
Definition delivered (d : bytes) (n : nat) (err : Z) (st st' : state) : Prop :=
  good st' /\ wire (io st') = wire (io st) ++ take n d /\ stream st' = stream st /\
  u64 (sent (buf st')) = u64 (sent (buf st) + Z.of_nat n) /\ (n <= length d)%nat /\
  (err = IO_DONE <-> n = length d) /\ may_send d n st st'.

(** How far a send has come: what is left can be sent. *)
Definition send_round (d : bytes) (st0 : state) (l : nat * Z) (st : state) : Prop :=
  let '(total, err) := l in
  good st /\ buf st = buf st0 /\
  wire (io st) = wire (io st0) ++ take total d /\ unread (io st) = unread (io st0) /\
  (total <= length d)%nat /\ (err <> IO_DONE -> (total < length d)%nat) /\ may_send d total st0 st.

Lemma send_round_step d st0 total st e n t :
  let chunk := take STEPSIZE (drop total d) in
  send_round d st0 (total, IO_DONE) st -> (total < length d)%nat -> io_send chunk (io st) = (Ok (e, n), t) ->
  ready t -> wire t = wire (io st) ++ take n chunk -> unread t = unread (io st) -> (n <= length chunk)%nat ->
  (e = IO_DONE <-> (0 < n)%nat) -> (forall c, e = IO_DONE \/ c = chunk -> sendable t c) ->
  send_round d st0 ((total + n)%nat, e) (State (buf st) t).
Proof.
  intros chunk (Hg & Hb & Hw & Hu & Hle & _ & Hsd) Hlt _ Hr Hw' Hu' Hn He Hsd'.
  assert (length chunk <= length d - total)%nat as Hc by (unfold chunk; rewrite length_take, length_drop; lia).
  destruct Hg as (Hf & Hd & _). split; [by split|]. split; [done|]. cbn.
  assert (take n chunk = take n (drop total d)) as Htk.
  { unfold chunk in *. rewrite length_take in Hn. rewrite take_take, Nat.min_l by lia. done. }
  split; [rewrite Hw', Hw, <- app_assoc, Htk; f_equal; apply take_take_drop|].
  split; [congruence|]. split; [lia|].
  split; [intros Hne; assert (~ (0 < n)%nat) by (intros ?; by apply Hne, He); lia|].
  split; [|intros Hz c _].
  - intros _. apply Hsd'. destruct (decide (e = IO_DONE)) as [|Hne]; [by left|right].
    assert (n = 0%nat) as -> by (destruct n; [done|exfalso; apply Hne, He; lia]). by rewrite Nat.add_0_r.
  - apply Hsd'. left. apply He. lia.
Qed.

Lemma wp_sendraw d st0 :
  good st0 -> (length d < fuel)%nat -> may_start d st0 ->
  wp (sendraw d) (fun o st' => exists n err, o = Ok (err, n) /\ delivered d n err st0 st') st0.
Proof.
  intros Hg Hfuel Hstart. unfold sendraw. rewrite wp_bind.
  apply (wp_loop_measure _ (send_round d st0)
    (fun '(total, err) _ => if decide (err = IO_DONE) then (length d - total)%nat else 0%nat)); [| |case_decide; lia].
  2: { do 2 (split; [done|]). cbn [take]. rewrite app_nil_r. do 2 (split; [done|]). split; [lia|]. split; [done|].
       split; [by rewrite drop_0|]. intros Hz c Hc. apply Hc. by apply nil_length_inv. }
  intros [total err] st Hround. pose proof Hround as (Hgs & Hb & Hw & Hu & Hle & Herr & Hsd).
  case_decide as Hgo; cycle 1.
  - rewrite wp_ret. cbn [then_post]. unfold modify_buf. wp_simpl.
    exists total, err. split; [done|]. rewrite Hb.
    split; [by destruct Hgs as (? & ? & ?); rewrite <- Hb|].
    cbn. split; [done|]. split; [unfold stream; cbn; by rewrite Hu|].
    split; [apply Z.mod_mod; lia|]. split; [done|]. split; [|done]. split; [|intros ->].
    + intros He. lia.
    + destruct (decide (err = IO_DONE)); [done|]. specialize (Herr ltac:(done)). lia.
  - destruct Hgo as [Hlt ->]. cbv beta iota zeta.
    assert (take (if decide (length d - total <= STEPSIZE)%nat then (length d - total)%nat else STEPSIZE) (drop total d) =
      take STEPSIZE (drop total d)) as ->.
    { case_decide; [|done]. rewrite !take_ge; rewrite ?length_drop; (done || lia). }
    set (chunk := take STEPSIZE (drop total d)).
    assert (length chunk <= STEPSIZE /\ 0 < length chunk)%nat as [Hint%STEPSIZE_int Hpos].
    { unfold chunk. rewrite length_take, length_drop. pose proof STEPSIZE_pos. lia. }
    rewrite wp_bind. unfold on_io. rewrite wp_zoom. unfold wp at 1.
    destruct (send_delivers chunk (io st)) as (e & n & t' & Hrun & Hr' & Hw' & Hu' & Hn & He & Hsd');
      [by intros Hz; rewrite Hz in Hpos; cbn in Hpos; lia|done|apply Hgs| |].
    { apply (proj1 Hsd). intros Hz. apply (f_equal length) in Hz. rewrite length_drop in Hz. cbn in Hz. lia. }
    rewrite Hrun. cbn [fst snd then_post]. rewrite wp_ret.
    split; [by eapply send_round_step|].
    case_decide as Hdone; [apply He in Hdone|]; case_decide; lia || done.
Qed.

(** The part of the data the two indices name: its first index, and its octets. *)
Definition slice_start (size start : Z) : Z := Z.max 1 (if decide (start < 0) then size + start + 1 else start).
Definition slice_end (size fin : Z) : Z := Z.min size (if decide (fin < 0) then size + fin + 1 else fin).
Definition slice (d : bytes) (start fin : Z) : bytes :=
  let size := Z.of_nat (length d) in
  let s := slice_start size start in
  let e := slice_end size fin in
  take (Z.to_nat (e - s + 1)) (drop (Z.to_nat (s - 1)) d).

Lemma slice_nothing d start fin :
  slice d start fin = [] <-> ~ slice_start (Z.of_nat (length d)) start <= slice_end (Z.of_nat (length d)) fin.
Proof.
  unfold slice. cbv zeta. set (size := Z.of_nat (length d)).
  assert (1 <= slice_start size start /\ slice_end size fin <= size) as [H1 H2] by (unfold slice_start, slice_end; lia).
  split.
  - intros Hz Hle. apply (f_equal length) in Hz. rewrite length_take, length_drop in Hz. cbn in Hz. lia.
  - intros Hle. by replace (Z.to_nat (slice_end size fin - slice_start size start + 1)) with 0%nat by lia.
Qed.

(** The end of the call: the index of the last octet sent, and the error. *)
Definition send_reply (d : bytes) (start : Z) (r : Z * nat) : C state (option Z * option string * option Z) :=
  let '(err, n) := r in
  let! st := get in
  let i := Some (Z.of_nat n + slice_start (Z.of_nat (length d)) start - 1) in
  ret (if decide (err = IO_DONE) then (i, None, None) else (None, io_error (io st) err, i)).

(** [send] on the part of the data the indices name. *)
Lemma wp_buffer_send d start fin Q st0 :
  wp (markstart ;;; let! r := (if decide (slice d start fin = []) then ret (IO_DONE, 0%nat)
                               else sendraw (slice d start fin)) in send_reply d start r) Q st0 ->
  wp (buffer_meth_send d start fin) Q st0.
Proof.
  unfold buffer_meth_send. cbv zeta. set (size := Z.of_nat (length d)).
  replace (if decide ((if decide (start < 0) then size + start + 1 else start) < 1) then 1
           else if decide (start < 0) then size + start + 1 else start)
    with (slice_start size start) by (unfold slice_start; repeat case_decide; lia).
  replace (if decide ((if decide (fin < 0) then size + fin + 1 else fin) > size) then size
           else if decide (fin < 0) then size + fin + 1 else fin)
    with (slice_end size fin) by (unfold slice_end; repeat case_decide; lia).
  pose proof (slice_nothing d start fin) as Hno. fold size in Hno.
  rewrite !(wp_bind markstart). intros Hwp. eapply wp_mono; [exact Hwp|].
  intros [[]|f] st; [|done]. cbn [then_post]. rewrite !wp_bind.
  change (take _ (drop _ d)) with (slice d start fin).
  assert (forall m : C state (Z * nat), wp m (then_post (send_reply d start) Q) st ->
    wp m (then_post (fun '(err, n) => let! st := get in
      if decide (err <> IO_DONE) then ret (None, io_error (io st) err, Some (Z.of_nat n + slice_start size start - 1))
      else ret (Some (Z.of_nat n + slice_start size start - 1), None, None)) Q) st) as Hend.
  { intros m Hm. eapply wp_mono; [exact Hm|]. intros [[err n]|f] st'; [|done]. cbn [then_post]. unfold send_reply.
    rewrite !wp_bind, !wp_get. cbn [then_post]. fold size.
    destruct (decide (err = IO_DONE)); [rewrite decide_False by tauto|rewrite decide_True by done]; by rewrite !wp_ret. }
  destruct (decide (slice d start fin = [])) as [Hz|Hz].
  - rewrite (decide_False (P := _ <= _)) by by apply Hno. apply Hend.
  - rewrite decide_True by (destruct (decide (slice_start size start <= slice_end size fin)); [done|by apply Hno in n]). apply Hend.
Qed.

Lemma run_send d start fin st0 :
  good st0 -> (length d < fuel)%nat -> may_start (slice d start fin) st0 ->
  exists n err st',
    buffer_meth_send d start fin st0 =
      (Ok (let i := Some (Z.of_nat n + slice_start (Z.of_nat (length d)) start - 1) in
           if decide (err = IO_DONE) then (i, None, None) else (None, io_error (io st') err, i)), st') /\
    delivered (slice d start fin) n err st0 st'.
Proof.
  intros Hg Hfuel Hstart.
  enough (wp (buffer_meth_send d start fin) (fun o st' => exists n err,
    o = Ok (let i := Some (Z.of_nat n + slice_start (Z.of_nat (length d)) start - 1) in
           if decide (err = IO_DONE) then (i, None, None) else (None, io_error (io st') err, i)) /\
    delivered (slice d start fin) n err st0 st') st0) as (o & st' & Hrun & n & err & -> & Hd)%wp_run by eauto 10.
  apply wp_buffer_send. set (part := slice d start fin) in *.
  apply wp_markstart; [done|]. intros st1 (Hg1 & _ & Hw1 & _ & _ & Hsd1) Hs1 Hb1.
  enough (wp (if decide (part = []) then ret (IO_DONE, 0%nat) else sendraw part)
    (fun o st' => exists n err, o = Ok (err, n) /\ delivered part n err st1 st') st1) as Hwp.
  { rewrite wp_bind. eapply wp_mono; [exact Hwp|]. intros o st' (n & err & -> & Hd). cbn [then_post]. unfold send_reply.
    rewrite wp_bind, wp_get. cbn [then_post]. rewrite wp_ret. exists n, err. split; [done|].
    destruct Hd as (? & ? & ? & ? & ? & ? & ? & Hall). split; [done|].
    split; [congruence|]. split; [congruence|]. rewrite <- Hb1. do 3 (split; [done|]). split; [done|].
    intros Hn c Hc. apply Hall; [done|]. intros Hz. by apply Hsd1, Hc. }
  case_decide as Hz.
  - rewrite wp_ret. exists 0%nat, IO_DONE. split; [done|]. rewrite Hz.
    split; [done|]. cbn. rewrite app_nil_r. do 2 (split; [done|]). split; [f_equal; lia|]. split; [done|]. split; [done|].
    split; [by intros []|]. intros _ c Hc. by apply Hc.
  - apply wp_sendraw; [done| |intros _; by apply Hsd1, Hstart]. unfold part, slice. rewrite length_take, length_drop. lia.
Qed.
End Buffer.

(** C11: receiving: whatever the transport delivers and in whatever pieces, the
    octets a call consumes are the next ones of the stream, in order, and those
    it does not use are there for the next call; the reply holds the prefix
    given and the octets read: exactly the number asked for, or the whole stream
    when everything is asked for, or a line without its line feed and carriage
    returns; on an error the reply is the error and what had been read so far. *)
Theorem buffer_receive_spec {T} `{Transport T} fuel ready sendable unread wire
    `{!TransportLaws T ready sendable unread wire} p part st0 :
  good ready st0 -> (length (stream unread st0) < fuel)%nat -> acceptable p part ->
  exists c text err st',
    buffer_meth_receive fuel p part st0 = (Ok (reply_of (io st') text err), st') /\
    consumes ready sendable unread wire c st0 st' /\ receive_end unread p part c text err st'.
Proof.
  intros Hg Hf Hp. pose proof (wp_receive fuel ready sendable unread wire p part st0 Hg Hf Hp) as Hwp.
  apply wp_run in Hwp as (o & st' & Hrun & c & text & err & -> & Hc & He). eauto 10.
Qed.

(** Sending: the octets that reach the peer are the first [n] of the part of
    the data the two indices name (counted from the end when negative, clipped to
    the data), and the call reports the index of the last of them, with an error
    exactly when some are left; what has been received but not read is not
    disturbed. *)
Theorem buffer_send_spec {T} `{Transport T} fuel ready sendable unread wire
    `{!TransportLaws T ready sendable unread wire} d start fin st0 :
  good ready st0 -> (length d < fuel)%nat -> may_start sendable (slice d start fin) st0 ->
  exists n err st',
    buffer_meth_send fuel d start fin st0 =
      (Ok (let i := Some (Z.of_nat n + slice_start (Z.of_nat (length d)) start - 1) in
           if decide (err = IO_DONE) then (i, None, None) else (None, io_error (io st') err, i)), st') /\
    delivered ready sendable unread wire (slice d start fin) n err st0 st'.
Proof. intros. by apply run_send. Qed.

(** ** A transport that delivers given pieces *)

Record script : Type := Script { pieces : list bytes; outgoing : bytes }.

(** A piece that does not fit is delivered in parts; [send] takes at most three
    octets at a time. *)
Definition script_recv (n : nat) : C script (Z * bytes) :=
  fun t =>
    match pieces t with
    | [] => (Ok (IO_CLOSED, []), t)
    | c :: cs =>
        (Ok (IO_DONE, take n c),
         Script (if decide (length c <= n)%nat then cs else drop n c :: cs) (outgoing t))
    end.

#[local] Instance script_transport : Transport script := {
  io_send d := fun t => (Ok (IO_DONE, Nat.min 3 (length d)), Script (pieces t) (outgoing t ++ take (Nat.min 3 (length d)) d));
  io_recv := script_recv;
  io_error _ := io_strerror;
  io_markstart t := t
}.

Definition script_ready (t : script) : Prop := Forall (fun c => c <> []) (pieces t).

#[local] Instance script_laws : TransportLaws script script_ready (fun _ _ => True) (fun t => concat (pieces t)) outgoing.
Proof.
  split.
  - intros n [[|c cs] out] Hn _ Hr; unfold script_ready in Hr; cbn in Hr.
    + exists IO_CLOSED, [], (Script [] out). repeat split; try done; cbn; lia.
    + apply Forall_cons in Hr as [Hc Hcs]. do 3 eexists. split; [reflexivity|].
      assert (take n c <> []) as Hne by (destruct c, n; try done; lia).
      split; [|split; [|split; [done|split; [rewrite length_take; lia|by split]]]].
      * unfold script_ready; cbn. case_decide as Hl; [done|]. constructor; [|done].
        intros Hd. apply (f_equal length) in Hd. rewrite length_drop in Hd. cbn in Hd. lia.
      * cbn. case_decide as Hl; [by rewrite take_ge by lia|].
        cbn. by rewrite app_assoc, take_drop.
  - intros d t Hd _ Hr. do 3 eexists. split; [reflexivity|]. split; [done|].
    split; [done|]. split; [done|]. split; [lia|].
    destruct d; [done|]. split; [cbn [length]; lia|done].
  - intros t Ht. by split.
Qed.

Definition script0 : script := Script [of_string "GET /"; of_string " x" ++ [CR; LF] ++ of_string "Ho"] [].
Definition buffer0 : @state script :=
  buffer_init (fun _ => 0) (replicate BUF_SIZE NUL) script0.

Lemma buffer0_good : good script_ready buffer0.
Proof.
  split; [cbn; lia|]. split; [apply length_replicate|].
  unfold script_ready. cbn. repeat constructor; discriminate.
Qed.

Example buffer_receive_spec_witness :
  exists c text err st',
    buffer_meth_receive 100 (Text (of_string "*l")) [] buffer0 = (Ok (reply_of (io st') text err), st') /\
    consumes script_ready (fun _ _ => True) (fun t => concat (pieces t)) outgoing c buffer0 st' /\
    receive_end (fun t => concat (pieces t)) (Text (of_string "*l")) [] c text err st'.
Proof.
  apply (buffer_receive_spec 100 script_ready (fun _ _ => True) (fun t => concat (pieces t)) outgoing
    (Text (of_string "*l")) [] buffer0 buffer0_good);
    [vm_compute; lia|split; [reflexivity|left; reflexivity]].
Defined.

Example buffer_send_spec_witness :
  exists n err st',
    buffer_meth_send 100 (of_string "hello") 2 (-1) buffer0 =
      (Ok (let i := Some (Z.of_nat n + 2 - 1) in
           if decide (err = IO_DONE) then (i, None, None) else (None, io_error (io st') err, i)), st') /\
    delivered script_ready (fun _ _ => True) (fun t => concat (pieces t)) outgoing (of_string "ello") n err buffer0 st'.
Proof.
  apply (buffer_send_spec 100 script_ready (fun _ _ => True) (fun t => concat (pieces t)) outgoing
    (of_string "hello") 2 (-1) buffer0 buffer0_good); [vm_compute; lia|done].
Defined.
