(* ===== verification/Tcp.v ===== *)
(** * Connections as objects of scripts (luasocket's [tcp.c])

    A script holds objects of three classes: a master is a socket that is neither
    connected nor listening, a client one that is connected (or tried to), a
    server one that listens.  Methods turn a master into one of the others and
    are refused to objects of the wrong class.  An object carries its descriptor,
    its limits and its buffer; the calls of all objects go to one system. *)

From S2P Require Import Prelude CString Lua Transport Socket Net SocketOps Inet Auxiliar Buffer.
#[global] Open Scope Z_scope.

(** ** Classes *)

Create HintDb tcp.

Definition tcp : list (string * string) := [
  ("__gc", "meth_close"); ("__tostring", "auxiliar_tostring"); ("accept", "meth_accept");
  ("bind", "meth_bind"); ("close", "meth_close"); ("connect", "meth_connect");
  ("dirty", "meth_dirty"); ("getfd", "meth_getfd"); ("getpeername", "meth_getpeername");
  ("getsockname", "meth_getsockname"); ("getstats", "meth_getstats"); ("setstats", "meth_setstats");
  ("listen", "meth_listen"); ("receive", "meth_receive"); ("send", "meth_send");
  ("setfd", "meth_setfd"); ("setoption", "meth_setoption"); ("setpeername", "meth_connect");
  ("setsockname", "meth_bind"); ("settimeout", "meth_settimeout"); ("shutdown", "meth_shutdown")
]%string.

Definition tcp_open (r : registry) : registry :=
  let r := auxiliar_newclass "tcp{master}" tcp r in
  let r := auxiliar_newclass "tcp{client}" tcp r in
  let r := auxiliar_newclass "tcp{server}" tcp r in
  let r := auxiliar_add2group "tcp{master}" "tcp{any}" r in
  let r := auxiliar_add2group "tcp{client}" "tcp{any}" r in
  auxiliar_add2group "tcp{server}" "tcp{any}" r.

(** ** Objects *)

Record t_tcp : Type := TcpObject { t_sock : Z; t_tm : t_timeout; t_buf : t_buffer }.

(** What a method answers; times are in microseconds. *)
Inductive value : Type :=
| VNil
| VNum (z : Z)
| VTime (us : Z)
| VBool (b : bool)
| VStr (s : bytes)
| VTable (t : positive)
| VObj (i : positive).

Definition answer : Type := list value.

Definition failed (msg : option string) : answer :=
  [VNil; match msg with Some m => VStr (of_string m) | None => VNil end].
Definition done_1 : answer := [VNum 1].

Section Tcp.
Context {N : Type} `{Net N} (fuel : nat) (aton : bytes -> option Z).
Context (strerror hstrerror : Z -> string).
(** What memory holds that has just been allocated. *)
Context (storage : bytes) (noise : Z).

Record world : Type := World {
  classes : registry;
  class_of : gmap positive string;
  objects : gmap positive t_tcp;
  net : N
}.

Definition with_object (i : positive) (o : t_tcp) (k : N) (w : world) : world :=
  World (classes w) (class_of w) (<[i := o]> (objects w)) k.

Definition object (i : positive) : C world t_tcp :=
  let! w := get in
  match objects w !! i with
  | Some o => ret o
  | None => stop (Undefined "no such object")
  end.

(** A call on the socket and the limits of an object. *)
Definition on_sock {A} (i : positive) (m : C (@sock N) A) : C world A :=
  let! o := object i in
  zoom (fun w => Sock (t_sock o) (t_tm o) (net w))
    (fun s => with_object i (TcpObject (fd s) (tm s) (t_buf o)) (os s)) m.

(** A call on its buffer, which transfers through its socket. *)
Definition object_io (o : t_tcp) : Transport (@sock N) :=
  @socket_io N (net_kernel (t_sock o)) fuel strerror net_errno.

Definition gettime (s : @sock N) : Z := net_time (os s).

Definition on_buf {A} (i : positive) (m : Transport (@sock N) -> C (@Buffer.state (@sock N)) A) : C world A :=
  let! o := object i in
  zoom (fun w => State (t_buf o) (Sock (t_sock o) (t_tm o) (net w)))
    (fun st => with_object i (TcpObject (fd (io st)) (tm (io st)) (buf st)) (os (io st))) (m (object_io o)).

Definition checkclass (c : string) (i : positive) : C world unit :=
  let! w := get in auxiliar_checkclass (classes w) c (class_of w !! i).
Definition checkgroup (i : positive) : C world unit :=
  let! w := get in auxiliar_checkgroup (classes w) "tcp{any}" (class_of w !! i).
Definition setclass (c : string) (i : positive) : C world unit :=
  modify (fun w => World (classes w) (partial_alter (fun _ => auxiliar_setclass (classes w) c) i (class_of w))
    (objects w) (net w)).

(** [luaL_checknumber] made a [double] of it; one that does not fit has no
    defined conversion. *)
Definition checkport (port : Z) : C world Z :=
  if decide (0 <= port < 65536) then ret port else stop (Undefined "conversion of a number").

Definition timeout_start : C (@sock N) unit :=
  modify (fun s => Sock (fd s) (timeout_markstart (net_time (os s)) (tm s)) (os s)).

(** ** Methods *)

Definition of_reply (r : reply) : answer :=
  let '(a, msg, b) := r in
  let text o := match o with Some s => VStr s | None => VNil end in
  [text a; match msg with Some m => VStr (of_string m) | None => VNil end; text b].

Definition of_count (r : option Z * option string * option Z) : answer :=
  let '(a, msg, b) := r in
  let num o := match o with Some z => VNum z | None => VNil end in
  [num a; match msg with Some m => VStr (of_string m) | None => VNil end; num b].

Definition meth_send (i : positive) (d : bytes) (start fin : Z) : C world answer :=
  checkclass "tcp{client}" i ;;;
  let! r := on_buf i (fun T => @buffer_meth_send _ T fuel d start fin) in
  ret (of_count r).

Definition meth_receive (i : positive) (p : pattern) (part : bytes) : C world answer :=
  checkclass "tcp{client}" i ;;;
  let! r := on_buf i (fun T => @buffer_meth_receive _ T fuel p part) in
  ret (of_reply r).

Definition meth_getstats (i : positive) : C world answer :=
  checkclass "tcp{client}" i ;;;
  let! '(received, sent, age) := on_buf i (fun _ => buffer_meth_getstats gettime) in
  ret [VNum received; VNum sent; VTime age].

Definition meth_setstats (i : positive) (received sent age : option Z) : C world answer :=
  checkclass "tcp{client}" i ;;;
  let! n := on_buf i (fun _ => buffer_meth_setstats gettime received sent age) in
  ret [VNum n].

(** [static t_opt opt[]] *)
Definition tcp_options : list (string * (Z -> optval -> C N bool)) := [
  ("keepalive", opt_keepalive); ("reuseaddr", opt_reuseaddr); ("tcp-nodelay", opt_tcp_nodelay);
  ("linger", opt_linger)
]%string.

Definition meth_setoption (i : positive) (name : string) (v : optval) : C world answer :=
  checkgroup i ;;;
  let! o := object i in
  let! ok := on_sock i (on_os (opt_meth_setoption tcp_options (t_sock o) name v)) in
  ret (if ok : bool then done_1 else failed (Some "setsockopt failed"%string)).

Definition meth_getfd (i : positive) : C world answer :=
  checkgroup i ;;;
  let! o := object i in
  ret [VNum (t_sock o)].

Definition meth_setfd (i : positive) (fd : Z) : C world answer :=
  checkgroup i ;;;
  let! o := object i in
  modify (fun w => with_object i (TcpObject fd (t_tm o) (t_buf o)) (net w) w) ;;;
  ret [].

Definition meth_dirty (i : positive) : C world answer :=
  checkgroup i ;;;
  let! o := object i in
  ret [VBool (negb (buffer_isempty (t_buf o)))].

(** A new object with the descriptor, the class set before its fields are. *)
Definition new_object (c : string) (fd : Z) : C world positive :=
  let! w := get in
  let i := fresh (dom (objects w)) in
  setclass c i ;;;
  modify (fun w =>
    let tm0 := timeout_init (-1000000) (-1000000) (Timeout noise noise noise) in
    let k := (socket_setnonblocking (Sock fd tm0 (net w))).2 in
    with_object i (TcpObject fd tm0 (buf (buffer_init gettime storage k))) (os k) w) ;;;
  ret i.

Definition meth_accept (i : positive) : C world answer :=
  checkclass "tcp{server}" i ;;;
  let! '(err, sock) := on_sock i (timeout_start ;;; socket_accept fuel) in
  if decide (err = IO_DONE) then
    let! c := new_object "tcp{client}" sock in
    ret [VObj c]
  else
    let! w := get in
    ret (failed (socket_strerror strerror (net_errno (net w)) err)).

Definition meth_bind (i : positive) (address : bytes) (port : Z) : C world answer :=
  checkclass "tcp{master}" i ;;;
  let! port := checkport port in
  let! err := on_sock i (inet_trybind aton strerror hstrerror address port) in
  ret (match err with Some _ => failed err | None => done_1 end).

Definition meth_connect (i : positive) (address : bytes) (port : Z) : C world answer :=
  checkgroup i ;;;
  let! port := checkport port in
  let! err := on_sock i (timeout_start ;;; inet_tryconnect fuel aton strerror hstrerror address port) in
  setclass "tcp{client}" i ;;;
  ret (match err with Some _ => failed err | None => done_1 end).

Definition meth_close (i : positive) : C world answer :=
  checkgroup i ;;;
  on_sock i socket_destroy ;;;
  ret done_1.

Definition meth_listen (i : positive) (backlog : option Z) : C world answer :=
  checkclass "tcp{master}" i ;;;
  let! err := on_sock i (socket_listen (default 32 backlog)) in
  if decide (err <> IO_DONE) then
    let! w := get in
    ret (failed (socket_strerror strerror (net_errno (net w)) err))
  else
    setclass "tcp{server}" i ;;;
    ret done_1.

(** The [switch] on the first character: a method that starts otherwise is
    passed over. *)
Definition meth_shutdown (i : positive) (how : option string) : C world answer :=
  checkclass "tcp{client}" i ;;;
  let how := default "both"%string how in
  let invalid : C world unit := stop (LuaError "invalid shutdown method") in
  match String.get 0 how with
  | Some "b"%char => if decide (how <> "both"%string) then invalid else on_sock i (socket_shutdown 2)
  | Some "s"%char => if decide (how <> "send"%string) then invalid else on_sock i (socket_shutdown 1)
  | Some "r"%char => if decide (how <> "receive"%string) then invalid else on_sock i (socket_shutdown 0)
  | _ => ret tt
  end ;;;
  ret done_1.

(** What the functions of [inet.c] push on an empty stack. *)
Definition of_lval (v : lval) : value :=
  match v with
  | LNumber z => VNum z
  | LString s => VStr s
  | LTable t => VTable t
  | LBool b => VBool b
  | _ => VNil
  end.

Definition on_inet (m : C (@Inet.world N) Z) : C world answer :=
  let! w := get in
  let '(o, w') := m (Inet.World (Lua [] ∅ 1%positive) (net w)) in
  match o with
  | Ok n => ret (of_lval <$> rev (take (Z.to_nat n) (stack (state_of w'))))
  | Stop f => stop f
  end.

Definition meth_getpeername (i : positive) : C world answer :=
  checkgroup i ;;;
  let! o := object i in
  on_inet (inet_meth_getpeername (t_sock o)).

Definition meth_getsockname (i : positive) : C world answer :=
  checkgroup i ;;;
  let! o := object i in
  on_inet (inet_meth_getsockname (t_sock o)).

Definition meth_settimeout (i : positive) (t : Z) (mode : ascii) : C world answer :=
  checkgroup i ;;;
  on_sock i (fun s =>
    match timeout_meth_settimeout t mode (tm s) with
    | Ok tm => (Ok done_1, Sock (fd s) tm (os s))
    | Stop f => (Stop f, s)
    end).

(** A number below 1, or none, asks for a new socket; but only for a negative
    one is the object a master. *)
Definition global_create (fd : option Z) : C world answer :=
  let fd := default (-1) fd in
  let! '(err, sock) :=
    (if decide (fd < 1) then
       let! w := get in
       let '(o, s) := inet_trycreate strerror SOCK_STREAM (Sock noise (Timeout noise noise noise) (net w)) in
       put (World (classes w) (class_of w) (objects w) (os s)) ;;;
       match o with Ok err => ret (err, Socket.fd s) | Stop f => stop f end
     else ret (None, fd)) in
  match err with
  | None =>
      let! i := new_object (if decide (fd >= 0) then "tcp{client}" else "tcp{master}")%string sock in
      ret [VObj i]
  | Some _ => ret (failed err)
  end.

(** ** What scripts ask for *)

Inductive request : Type :=
| Accept | Bind (address : bytes) (port : Z) | Close | Connect (address : bytes) (port : Z)
| Dirty | Getfd | Getpeername | Getsockname | Getstats | Setstats (received sent age : option Z)
| Listen (backlog : option Z) | Receive (p : pattern) (part : bytes) | Send (d : bytes) (start fin : Z)
| Setfd (fd : Z) | Setoption (name : string) (v : optval) | Settimeout (t : Z) (mode : ascii)
| Shutdown (how : option string).

Definition serve (i : positive) (r : request) : C world answer :=
  match r with
  | Accept => meth_accept i
  | Bind a p => meth_bind i a p
  | Close => meth_close i
  | Connect a p => meth_connect i a p
  | Dirty => meth_dirty i
  | Getfd => meth_getfd i
  | Getpeername => meth_getpeername i
  | Getsockname => meth_getsockname i
  | Getstats => meth_getstats i
  | Setstats r s t => meth_setstats i r s t
  | Listen b => meth_listen i b
  | Receive p part => meth_receive i p part
  | Send d s e => meth_send i d s e
  | Setfd fd => meth_setfd i fd
  | Setoption n v => meth_setoption i n v
  | Settimeout t m => meth_settimeout i t m
  | Shutdown h => meth_shutdown i h
  end.

(** The collection of an object runs its [__gc] method and frees it. *)
Definition collect (i : positive) : C world unit :=
  meth_close i ;;;
  modify (fun w => World (classes w) (delete i (class_of w)) (delete i (objects w)) (net w)).
End Tcp.
