(* ===== verification/TcpTyping.v ===== *)
(** * Connection objects are well typed streams

    What holds of the objects of [Tcp.v] whatever scripts do with them: the class
    of an object says what its descriptor is, descriptors have one owner, and each
    object is a pair of streams of its own. *)

From S2P Require Import Prelude CString Lua Transport Socket Net SocketOps Inet Auxiliar Buffer Tcp.
#[global] Open Scope Z_scope.

(** ** Well-typed objects *)

Definition is_class (c : string) : Prop := c ∈ ["tcp{master}"; "tcp{client}"; "tcp{server}"]%string.

Lemma is_class_master : is_class "tcp{master}".
Proof. unfold is_class. by_decide. Qed.
Lemma is_class_client : is_class "tcp{client}".
Proof. unfold is_class. by_decide. Qed.
Lemma is_class_server : is_class "tcp{server}".
Proof. unfold is_class. by_decide. Qed.
#[export] Hint Resolve is_class_master is_class_client is_class_server : tcp.

Lemma is_class_cases c : is_class c -> c = "tcp{master}"%string \/ c = "tcp{client}"%string \/ c = "tcp{server}"%string.
Proof. unfold is_class. rewrite !elem_of_cons, elem_of_nil. tauto. Qed.


Section Typing.
Context {N : Type} (descs : N -> gmap Z desc) (patience : N -> nat) (delta : Z)
  `{NetLaws N descs patience delta} (fuel : nat) (aton : bytes -> option Z).
Context (strerror hstrerror : Z -> string) (storage : bytes) (noise : Z).

Local Abbreviation world := (@world N).

(** What a class says of the descriptor of its objects. *)
Inductive class_says : string -> desc -> Prop :=
| says_master e : d_listens e = false -> class_says "tcp{master}" e
| says_client e : class_says "tcp{client}" e
| says_server e : d_listens e = true -> class_says "tcp{server}" e.

(** The descriptor of an object of class [c]: none once it is closed, else one
    the system has open, which does not block and is as the class says. *)
Definition has_class (c : string) (fd : Z) (m : gmap Z desc) : Prop :=
  is_class c /\
  (fd = SOCKET_INVALID \/ exists e, m !! fd = Some e /\ d_nonblock e = true /\ class_says c e).

(** The indices of a buffer are in order and inside it. *)
Definition sane (b : t_buffer) : Prop := (first b <= last b <= BUF_SIZE)%nat /\ length (data b) = BUF_SIZE.

(** The classes are registered as [tcp_open] does it. *)
Definition registered (r : registry) : Prop :=
  forall c, is_class c -> is_Some (r !! c) /\ auxiliar_getgroupudata r "tcp{any}" (Some c) = true /\
    forall name, method_of r (Some c) name = methods_in tcp !! name.

Record typed (w : world) : Prop := {
  typed_registry : registered (classes w);
  typed_invalid : descs (net w) !! SOCKET_INVALID = None;
  typed_object i o : objects w !! i = Some o ->
    sane (t_buf o) /\ exists c, class_of w !! i = Some c /\ has_class c (t_sock o) (descs (net w));
  (** no two objects have one descriptor *)
  typed_apart i j o p : objects w !! i = Some o -> objects w !! j = Some p ->
    t_sock o = t_sock p -> t_sock o <> SOCKET_INVALID -> i = j
}.

(** A descriptor that belongs to no object. *)
Definition foreign (w : world) (fd : Z) (e : desc) : Prop :=
  descs (net w) !! fd = Some e /\ forall i o, objects w !! i = Some o -> t_sock o <> fd.

(** The objects other than [mine] are as they were, and so are their
    descriptors. *)
Definition leaves_others (mine : option positive) (w w' : world) : Prop :=
  forall j p, mine <> Some j -> objects w !! j = Some p ->
    objects w' !! j = Some p /\ descs (net w') !! t_sock p = descs (net w) !! t_sock p.

(** The objects are well typed again, and what belongs to no object is as it was:
    nothing has leaked, and nothing else has been closed or touched. *)
Definition keeps_types (mine : option positive) (w w' : world) : Prop :=
  typed w' /\ passes patience (net w) (net w') /\ leaves_others mine w w' /\
  forall fd e, foreign w' fd e <-> foreign w fd e.

Lemma keeps_types_refl mine w : typed w -> keeps_types mine w w.
Proof. intros Hw. split; [done|]. split; [apply passes_refl|done]. Qed.

Lemma keeps_types_trans mine w1 w2 w3 :
  keeps_types mine w1 w2 -> keeps_types mine w2 w3 -> keeps_types mine w1 w3.
Proof.
  intros (_ & Hp & Ho & Hf) (Hw & Hp' & Ho' & Hf'). split; [done|]. split; [by eapply passes_trans|]. split.
  - intros j p Hj Hp1. destruct (Ho j p Hj Hp1) as [Hp2 Hd]. destruct (Ho' j p Hj Hp2) as [Hp3 Hd'].
    split; [done|congruence].
  - intros fd e. by rewrite Hf', Hf.
Qed.

(** The world with an object in a class. *)
Definition with_class (i : positive) (c : string) (w : world) : world :=
  World (classes w) (<[i := c]> (class_of w)) (objects w) (net w).

Lemma only_on_lookup fd k k' d : only_on descs fd k k' -> d <> fd -> descs k' !! d = descs k !! d.
Proof. intros [->|(e & e' & _ & _ & ->)] Hd; [done|]. by rewrite lookup_insert_ne. Qed.

Lemma only_on_closed fd k k' d : only_on descs fd k k' -> descs k !! d = None -> descs k' !! d = None.
Proof.
  intros [->|(e & e' & He & _ & ->)] Hd; [done|]. rewrite lookup_insert_ne; [done|]. intros ->. congruence.
Qed.

(** A method that works on its own descriptor. *)
Lemma types_update i o o' c w k :
  typed w -> objects w !! i = Some o -> t_sock o' = t_sock o -> sane (t_buf o') ->
  only_on descs (t_sock o) (net w) k -> passes patience (net w) k -> has_class c (t_sock o) (descs k) ->
  keeps_types (Some i) w (with_class i c (with_object i o' k w)).
Proof.
  intros Hw Ho Hsock Hb Hon Hp Hc. split; [split|split; [done|split]]; cbn.
  - apply Hw.
  - eapply only_on_closed; [done|apply Hw].
  - intros j p. destruct (decide (j = i)) as [->|Hj].
    + rewrite !lookup_insert_eq. intros [= <-]. split; [done|]. exists c. by rewrite Hsock.
    + rewrite !lookup_insert_ne by done. intros Hjp.
      destruct (typed_object _ Hw _ _ Hjp) as (Hbp & cp & Hcp & Hclass & Hfd). split; [done|].
      exists cp. split; [done|]. split; [done|]. destruct Hfd as [|(e & He & ?)]; [by left|].
      destruct (decide (t_sock p = SOCKET_INVALID)) as [|Hv]; [by left|right]. exists e.
      rewrite (only_on_lookup _ _ _ _ Hon); [done|]. intros Heq. by apply Hj, (typed_apart _ Hw _ _ p o).
  - intros j1 j2 p1 p2 H1 H2 Heq Hv.
    destruct (decide (j1 = i)) as [->|Hj1], (decide (j2 = i)) as [->|Hj2]; [done| | |];
      rewrite ?lookup_insert_eq, ?lookup_insert_ne in H1 by done;
      rewrite ?lookup_insert_eq, ?lookup_insert_ne in H2 by done; simplify_eq.
    + apply (typed_apart _ Hw i j2 o p2); congruence.
    + apply (typed_apart _ Hw j1 i p1 o); congruence.
    + by apply (typed_apart _ Hw j1 j2 p1 p2).
  - intros j p Hj Hjp. cbn. rewrite lookup_insert_ne by congruence. split; [done|].
    destruct (decide (t_sock p = t_sock o)) as [Heq|Hne]; [|by apply (only_on_lookup _ _ _ _ Hon)].
    destruct (decide (t_sock o = SOCKET_INVALID)) as [Hv|Hv].
    + rewrite Heq, Hv, (typed_invalid _ Hw). eapply only_on_closed; [done|apply Hw].
    + exfalso. apply Hj. f_equal. by apply (typed_apart _ Hw i j o p).
  - intros fd e. unfold foreign. cbn. split; intros [He Hall].
    + assert (fd <> t_sock o) as Hne
        by (intros ->; apply (Hall i o'); [by rewrite lookup_insert_eq|done]).
      rewrite (only_on_lookup _ _ _ _ Hon) in He by done. split; [done|]. intros j p Hj.
      destruct (decide (j = i)) as [->|]; [congruence|]. apply (Hall j). by rewrite lookup_insert_ne.
    + assert (fd <> t_sock o) as Hne by (intros ->; by apply (Hall i o)).
      rewrite (only_on_lookup _ _ _ _ Hon) by done. split; [done|]. intros j p.
      destruct (decide (j = i)) as [->|]; [rewrite lookup_insert_eq; congruence|].
      rewrite lookup_insert_ne by done. apply Hall.
Qed.

(** Closing the descriptor of an object. *)
Lemma types_close i o o' w k :
  typed w -> objects w !! i = Some o -> t_sock o' = SOCKET_INVALID -> t_buf o' = t_buf o ->
  passes patience (net w) k -> descs k = delete (t_sock o) (descs (net w)) ->
  keeps_types (Some i) w (with_object i o' k w).
Proof.
  intros Hw Ho Hsock Hb Hp Hd. destruct (typed_object _ Hw _ _ Ho) as (Hsane & c & Hc & Hclass & Hfd).
  split; [split|split; [done|split]]; cbn.
  - apply Hw.
  - rewrite Hd. apply lookup_delete_None. right. apply Hw.
  - intros j p. destruct (decide (j = i)) as [->|Hj].
    + rewrite !lookup_insert_eq. intros [= <-]. rewrite Hb. split; [done|]. exists c. split; [done|].
      split; [done|by left].
    + rewrite !lookup_insert_ne by done. intros Hjp.
      destruct (typed_object _ Hw _ _ Hjp) as (Hbp & cp & Hcp & Hclassp & Hfdp). split; [done|].
      exists cp. split; [done|]. split; [done|]. destruct Hfdp as [|(e & He & ?)]; [by left|].
      destruct (decide (t_sock p = SOCKET_INVALID)) as [|Hv]; [by left|right]. exists e.
      rewrite Hd, lookup_delete_ne; [done|]. intros Heq. by apply Hj, (typed_apart _ Hw _ _ p o).
  - intros j1 j2 p1 p2 H1 H2 Heq Hv.
    destruct (decide (j1 = i)) as [->|Hj1], (decide (j2 = i)) as [->|Hj2]; [done| | |];
      rewrite ?lookup_insert_eq, ?lookup_insert_ne in H1 by done;
      rewrite ?lookup_insert_eq, ?lookup_insert_ne in H2 by done; simplify_eq; [congruence..|].
    by apply (typed_apart _ Hw j1 j2 p1 p2).
  - intros j p Hj Hjp. cbn. rewrite lookup_insert_ne by congruence. split; [done|].
    rewrite Hd. destruct (decide (t_sock p = t_sock o)) as [Heq|Hne]; [|by rewrite lookup_delete_ne].
    rewrite <- Heq, lookup_delete_eq. destruct (decide (t_sock p = SOCKET_INVALID)) as [->|Hv];
      [by rewrite (typed_invalid _ Hw)|]. exfalso. apply Hj. f_equal. apply (typed_apart _ Hw i j o p); congruence.
  - intros fd e. unfold foreign. cbn. rewrite Hd. split; intros [He Hall].
    + apply lookup_delete_Some in He as [Hne He]. split; [done|]. intros j p Hj.
      destruct (decide (j = i)) as [->|]; [congruence|]. apply (Hall j). by rewrite lookup_insert_ne.
    + assert (fd <> t_sock o) as Hne by (intros ->; by apply (Hall i o)).
      rewrite lookup_delete_ne by done. split; [done|]. intros j p.
      destruct (decide (j = i)) as [->|]; [rewrite lookup_insert_eq|rewrite lookup_insert_ne by done; apply Hall].
      intros [= <-]. rewrite Hsock. intros <-. rewrite (typed_invalid _ Hw) in He. done.
Qed.

(** A new object with a descriptor that was free. *)
Lemma types_new mine i o c w k :
  typed w -> objects w !! i = None -> sane (t_buf o) -> passes patience (net w) k ->
  descs (net w) !! t_sock o = None -> t_sock o <> SOCKET_INVALID ->
  (exists e, descs k = <[t_sock o := e]> (descs (net w)) /\ d_nonblock e = true /\ class_says c e) -> is_class c ->
  keeps_types mine w (with_object i o k (with_class i c w)).
Proof.
  intros Hw Hi Hb Hp Hfree Hv (e & Hd & Hn & Hsays) Hc.
  assert (forall j p, objects w !! j = Some p -> t_sock p <> t_sock o) as Hother.
  { intros j p Hj Heq. destruct (typed_object _ Hw _ _ Hj) as (_ & cp & _ & _ & [?|(e' & He' & _)]); congruence. }
  split; [split|split; [done|split]]; cbn.
  - apply Hw.
  - rewrite Hd, lookup_insert_ne by done. apply Hw.
  - intros j p. destruct (decide (j = i)) as [->|Hj].
    + rewrite !lookup_insert_eq. intros [= <-]. split; [done|]. exists c. split; [done|]. split; [done|right].
      exists e. by rewrite Hd, lookup_insert_eq.
    + rewrite !lookup_insert_ne by done. intros Hjp.
      destruct (typed_object _ Hw _ _ Hjp) as (Hbp & cp & Hcp & Hclassp & Hfdp). split; [done|].
      exists cp. split; [done|]. split; [done|]. rewrite Hd, lookup_insert_ne; [done|]. intros Heq. by apply (Hother _ _ Hjp).
  - intros j1 j2 p1 p2 H1 H2 Heq Hv'.
    destruct (decide (j1 = i)) as [->|Hj1], (decide (j2 = i)) as [->|Hj2]; [done| | |];
      rewrite ?lookup_insert_eq, ?lookup_insert_ne in H1 by done;
      rewrite ?lookup_insert_eq, ?lookup_insert_ne in H2 by done; simplify_eq.
    + by destruct (Hother j2 p2).
    + by destruct (Hother j1 p1).
    + by apply (typed_apart _ Hw j1 j2 p1 p2).
  - intros j p _ Hjp. cbn. rewrite lookup_insert_ne by congruence. split; [done|].
    rewrite Hd, lookup_insert_ne; [done|]. intros Heq. by apply (Hother _ _ Hjp).
  - intros fd e'. unfold foreign. cbn. rewrite Hd. split; intros [He Hall].
    + assert (t_sock o <> fd) by (apply (Hall i); by rewrite lookup_insert_eq).
      rewrite lookup_insert_ne in He by done. split; [done|]. intros j p Hj. apply (Hall j).
      rewrite lookup_insert_ne; [done|]. congruence.
    + assert (t_sock o <> fd) by congruence. rewrite lookup_insert_ne by done. split; [done|]. intros j p.
      destruct (decide (j = i)) as [->|]; [by rewrite lookup_insert_eq; intros [= <-]|].
      rewrite lookup_insert_ne by done. apply Hall.
Qed.

(** ** Objects as pairs of streams *)

(** What the object has still to read, from its buffer and its peer, and what it
    has sent. *)
Definition incoming (w : world) (o : t_tcp) : bytes := held (t_buf o) ++ net_unread descs (t_sock o) (net w).
Definition outgoing (w : world) (o : t_tcp) : bytes := net_wire descs (t_sock o) (net w).

(** What a connection is to its script: the octets its buffer holds, those that
    are still with the system, and those it has sent. *)
Record conn : Type := Conn { c_buf : bytes; c_net : bytes; c_out : bytes }.
Definition c_in (x : conn) : bytes := c_buf x ++ c_net x.

Definition view (w : world) (o : t_tcp) : conn :=
  Conn (held (t_buf o)) (net_unread descs (t_sock o) (net w)) (outgoing w o).
Definition conn_of (w : world) (i : positive) : option conn := view w <$> objects w !! i.

(** What is left of it without a descriptor. *)
Definition unplugged (x : conn) : conn := Conn (c_buf x) [] [].

(** How a read ends that has taken [c] from the stream and leaves [rest]; as
    [receive_end], but for the stream that is left. *)
Definition read_end (p : pattern) (part c text : bytes) (err : Z) (rest : bytes) : Prop :=
  match p with
  | Bytes n => text = part ++ c /\ raw_end (n - Z.of_nat (length part)) c err
  | Text s =>
      if decide (s !! 1%nat = Some "l"%char) then
        exists line, text = part ++ line /\ line_end c line err
      else text = part ++ c /\ (err = IO_DONE -> c <> [] /\ rest = []) /\ (err = IO_CLOSED -> c = [] /\ rest = [])
  end.

Definition text_or_error (msg : option string) (text : bytes) (err : Z) : answer :=
  of_reply (if decide (err = IO_DONE) then (Some text, None, None) else (None, msg, Some text)).

Definition count_or_error (msg : option string) (last err : Z) : answer :=
  of_count (if decide (err = IO_DONE) then (Some last, None, None) else (None, msg, Some last)).

(** What a request does to the connection of its object.  An error of the script
    moves nothing.  Receiving takes octets from the front of the incoming stream
    and gives them to the script, sending adds octets of the script's data to the
    outgoing one.  An object that is closed, also because it could not be bound,
    keeps what it had read ahead; so does one whose streams become others, when it
    is connected, shut down or given another descriptor.  No other request moves
    an octet. *)
Definition own_step (r : request) (a : outcome answer) (x y : conn) : Prop :=
  match a with
  | Stop _ => c_in y = c_in x /\ c_out y = c_out x
  | Ok ans =>
      match r with
      | Receive p part => exists c text err msg,
          ans = text_or_error msg text err /\ c_in x = c ++ c_in y /\ c_out y = c_out x /\
          read_end p part c text err (c_in y)
      | Send d start fin => exists n err msg,
          ans = count_or_error msg (Z.of_nat n + slice_start (Z.of_nat (length d)) start - 1) err /\
          c_out y = c_out x ++ take n (slice d start fin) /\ c_in y = c_in x /\
          (n <= length (slice d start fin))%nat /\ (err = IO_DONE <-> n = length (slice d start fin))
      | Close => y = unplugged x
      | Bind _ _ => y = x \/ (ans <> done_1 /\ y = unplugged x)
      | Connect _ _ | Shutdown _ => c_buf y = c_buf x
      | Setfd fd => c_buf y = c_buf x /\ (fd = SOCKET_INVALID -> y = unplugged x)
      | _ => y = x
      end
  end.

(** A request to object [i]: its own connection makes that step, and no request
    touches another connection. *)
Definition stream_step (i : positive) (r : request) (a : outcome answer) (m m' : positive -> option conn) : Prop :=
  (forall j x, j <> i -> m j = Some x -> m' j = Some x) /\
  (forall x, m i = Some x -> exists y, m' i = Some y /\ own_step r a x y).

Lemma others_conn i w w' j x : leaves_others (Some i) w w' -> j <> i -> conn_of w j = Some x -> conn_of w' j = Some x.
Proof.
  intros Hl Hj. unfold conn_of. destruct (objects w !! j) as [p|] eqn:Hp; [|done]. intros [= <-].
  destruct (Hl j p ltac:(congruence) Hp) as [-> Hd]. cbn. unfold view, outgoing, net_unread, net_wire. by rewrite Hd.
Qed.

(** ** Methods keep objects well typed *)

(** The call answers or raises an error of the script, and keeps types. *)
Definition sound {A} (mine : option positive) (w : world) (o : outcome A) (w' : world) : Prop :=
  keeps_types mine w w' /\ ((exists a, o = Ok a) \/ exists msg, o = Stop (LuaError msg)).

(** The call is sound, and does to its own object what [own_step] says. *)
Definition does (i : positive) (r : request) (w : world) (a : outcome answer) (w' : world) : Prop :=
  sound (Some i) w a w' /\ forall x, conn_of w i = Some x -> exists y, conn_of w' i = Some y /\ own_step r a x y.

Lemma does_ok i r o o' w (a : answer) w' :
  keeps_types (Some i) w w' -> objects w !! i = Some o -> objects w' !! i = Some o' ->
  own_step r (Ok a) (view w o) (view w' o') -> does i r w (Ok a) w'.
Proof.
  intros Hk Ho Ho' Hs. split; [split; [done|left; by exists a]|]. unfold conn_of. rewrite Ho, Ho'. cbn.
  intros x [= <-]. by eexists.
Qed.

Lemma does_error i r w msg : typed w -> does i r w (Stop (LuaError msg)) w.
Proof.
  intros Hw. split; [split; [by apply keeps_types_refl|right; by exists msg]|]. intros x Hx. by exists x.
Qed.

(** A call that has moved no octet may raise an error in the end. *)
Lemma does_raise i r w msg w' :
  (forall x y, own_step r (Ok []) x y -> y = x) -> does i r w (Ok []) w' -> does i r w (Stop (LuaError msg)) w'.
Proof.
  intros Hr [[Hk _] Hx]. split; [split; [done|right; by exists msg]|]. intros x Hxw.
  destruct (Hx x Hxw) as (y & Hy & Hs). exists y. split; [done|]. by rewrite (Hr _ _ Hs).
Qed.

(** A request that moves no octet. *)
Definition still (r : request) : Prop := forall ans x, own_step r (Ok ans) x x.

Lemma does_nothing i r o w (a : answer) : typed w -> objects w !! i = Some o -> still r -> does i r w (Ok a) w.
Proof. intros Hw Ho Hs. by eapply does_ok; [apply keeps_types_refl|..]. Qed.

Lemma sound_error {A} mine w msg : typed w -> sound (A := A) mine w (Stop (LuaError msg)) w.
Proof. intros Hw. split; [by apply keeps_types_refl|]. right. by exists msg. Qed.

Lemma sound_ok {A} mine w (a : A) w' : keeps_types mine w w' -> sound mine w (Ok a) w'.
Proof. intros Hw. split; [done|]. left. by exists a. Qed.

(** The guards of the methods. *)
Lemma wp_checkclass c i r (m : C world answer) w o :
  typed w -> objects w !! i = Some o ->
  (class_of w !! i = Some c -> has_class c (t_sock o) (descs (net w)) -> wp m (does i r w) w) ->
  wp (checkclass c i ;;; m) (does i r w) w.
Proof.
  intros Hw Ho Hm. unfold checkclass. rewrite wp_bind, wp_bind, wp_get. cbn [then_post].
  unfold auxiliar_checkclass, auxiliar_getclassudata. case_bool_decide as Hc; cbn.
  - destruct Hc as [Hc _]. apply Hm; [done|]. by destruct (typed_object _ Hw _ _ Ho) as (_ & c' & Hc' & ?); simplify_eq.
  - by apply does_error.
Qed.

Lemma wp_checkgroup {A} i (m : C world A) Q w o :
  typed w -> objects w !! i = Some o ->
  (forall c, class_of w !! i = Some c -> has_class c (t_sock o) (descs (net w)) -> wp m Q w) ->
  wp (checkgroup i ;;; m) Q w.
Proof.
  intros Hw Ho Hm. destruct (typed_object _ Hw _ _ Ho) as (_ & c & Hc & Hclass).
  unfold checkgroup. rewrite wp_bind, wp_bind, wp_get. cbn [then_post]. rewrite Hc. unfold auxiliar_checkgroup.
  destruct (typed_registry _ Hw c) as (_ & -> & _); [apply Hclass|]. rewrite wp_ret. cbn [then_post]. by eapply Hm.
Qed.

Lemma wp_object {A} i o (k : t_tcp -> C world A) Q w :
  objects w !! i = Some o -> wp (let! o := object i in k o) Q w = wp (k o) Q w.
Proof. intros Ho. rewrite wp_bind. unfold object. rewrite wp_bind, wp_get. cbn [then_post]. by rewrite Ho. Qed.

Lemma wp_on_sock {A} i o (m : C (@sock N) A) Q w :
  objects w !! i = Some o ->
  wp (on_sock i m) Q w =
    wp m (fun r s => Q r (with_object i (TcpObject (fd s) (tm s) (t_buf o)) (os s) w)) (Sock (t_sock o) (t_tm o) (net w)).
Proof. intros Ho. unfold on_sock. rewrite (wp_object _ o) by done. by rewrite wp_zoom. Qed.

Lemma wp_setclass c i Q w :
  registered (classes w) -> is_class c -> wp (setclass c i) Q w = Q (Ok tt) (with_class i c w).
Proof.
  intros Hr Hc. unfold setclass. rewrite wp_modify. unfold auxiliar_setclass.
  rewrite decide_True by (by apply Hr). done.
Qed.

Lemma with_class_same i c w : class_of w !! i = Some c -> with_class i c w = w.
Proof. intros Hc. unfold with_class. rewrite insert_id by done. by destruct w. Qed.

(** A method on its own descriptor that leaves the class alone. *)
Lemma types_same_class i o o' c w k :
  typed w -> objects w !! i = Some o -> class_of w !! i = Some c -> t_sock o' = t_sock o -> sane (t_buf o') ->
  only_on descs (t_sock o) (net w) k -> passes patience (net w) k -> has_class c (t_sock o) (descs k) ->
  keeps_types (Some i) w (with_object i o' k w).
Proof.
  intros Hw Ho Hc Hsock Hb Hon Hp Hclass. rewrite <- (with_class_same i c (with_object i o' k w)) by done.
  by eapply types_update.
Qed.

Lemma has_class_settled c fd w : typed w -> has_class c fd (descs (net w)) -> settled fd (descs (net w)).
Proof.
  intros Hw (_ & [->|(e & He & Hn & _)]) e' He'; [|congruence]. rewrite (typed_invalid _ Hw) in He'. done.
Qed.

Lemma has_class_blocks c fd w :
  has_class c fd (descs (net w)) -> fd <> SOCKET_INVALID -> does_not_block descs fd (net w).
Proof. intros (_ & [?|(e & He & Hn & _)]) Hfd; [done|]. by exists e. Qed.

(** Whatever is done to it, the descriptor is one of a client. *)
Lemma has_class_client c fd w k :
  has_class c fd (descs (net w)) -> only_on descs fd (net w) k -> has_class "tcp{client}" fd (descs k).
Proof.
  intros (_ & Hfd) Hon. split; [auto with tcp|].
  destruct Hfd as [|(e & He & Hn & _)]; [by left|right].
  destruct Hon as [->|(e0 & e' & He0 & Hn' & ->)];
    [exists e; split; [done|]; split; [done|constructor]|]. exists e'. rewrite lookup_insert_eq.
  split; [done|]. split; [congruence|constructor].
Qed.

Lemma sane_object i o w : typed w -> objects w !! i = Some o -> sane (t_buf o).
Proof. intros Hw Ho. by destruct (typed_object _ Hw _ _ Ho). Qed.
#[local] Hint Resolve sane_object : core.

(** What the connection is of an object that has been updated. *)
Lemma view_updated o o' w w' :
  t_buf o' = t_buf o -> t_sock o' = t_sock o -> descs (net w') !! t_sock o = descs (net w) !! t_sock o ->
  view w' o' = view w o.
Proof. intros Hb Hs Hd. unfold view, outgoing, net_unread, net_wire. by rewrite Hb, Hs, Hd. Qed.

Lemma view_unplugged o o' w w' :
  typed w' -> t_buf o' = t_buf o -> t_sock o' = SOCKET_INVALID -> view w' o' = unplugged (view w o).
Proof.
  intros Hw Hb Hs. unfold view, outgoing, net_unread, net_wire. by rewrite Hb, Hs, (typed_invalid _ Hw).
Qed.

(** A method on its own descriptor that leaves class, descriptors and octets
    alone. *)
Lemma does_same i r o o' c w k (a : answer) :
  typed w -> objects w !! i = Some o -> class_of w !! i = Some c -> has_class c (t_sock o) (descs (net w)) ->
  t_sock o' = t_sock o -> t_buf o' = t_buf o -> descs k = descs (net w) -> passes patience (net w) k ->
  own_step r (Ok a) (view w o) (view w o) -> does i r w (Ok a) (with_object i o' k w).
Proof.
  intros Hw Ho Hc Hclass Hs Hb Hd Hp Hr. eapply does_ok; [|done|cbn; by rewrite lookup_insert_eq|].
  - eapply types_same_class; [done..|rewrite Hb; eauto|by left|done|by rewrite Hd].
  - rewrite (view_updated o o' w); [done..|]. cbn. by rewrite Hd.
Qed.

(** The object has been closed. *)
Lemma does_close i r o o' w k (a : answer) :
  typed w -> objects w !! i = Some o -> t_sock o' = SOCKET_INVALID -> t_buf o' = t_buf o ->
  passes patience (net w) k -> descs k = delete (t_sock o) (descs (net w)) ->
  own_step r (Ok a) (view w o) (unplugged (view w o)) -> does i r w (Ok a) (with_object i o' k w).
Proof.
  intros Hw Ho Hs Hb Hp Hd Hr. assert (keeps_types (Some i) w (with_object i o' k w)) as Hk by by eapply types_close.
  eapply does_ok; [done..|cbn; by rewrite lookup_insert_eq|].
  by rewrite (view_unplugged o o' w _ (proj1 Hk)).
Qed.

Lemma wp_meth_close i w o :
  typed w -> objects w !! i = Some o -> wp (meth_close i) (does i Close w) w.
Proof.
  intros Hw Ho. unfold meth_close. apply (wp_checkgroup _ _ _ _ o Hw Ho). intros c Hc Hclass.
  rewrite wp_bind, (wp_on_sock _ o) by done.
  eapply wp_mono; [apply (wp_socket_destroy descs patience delta)|].
  { cbn. intros ->. apply Hw. }
  cbn. intros r s (-> & Hf & Htm & Hp & Hd). cbn [then_post]. rewrite wp_ret.
  by apply (does_close i Close o).
Qed.

Lemma wp_meth_bind i address port w o :
  typed w -> objects w !! i = Some o -> 0 <= port < 65536 ->
  wp (meth_bind aton strerror hstrerror i address port) (does i (Bind address port) w) w.
Proof.
  intros Hw Ho Hport. unfold meth_bind. apply (wp_checkclass _ _ _ _ _ o Hw Ho). intros Hc Hclass.
  unfold checkport. rewrite decide_True by done. rewrite wp_bind, wp_ret. cbn [then_post].
  rewrite wp_bind, (wp_on_sock _ o) by done.
  eapply wp_mono; [apply (wp_trybind descs patience delta)|].
  { cbn. intros ->. apply Hw. }
  { by eapply has_class_settled. }
  cbn. intros r s (msg & -> & Htm & Hp & Hcases). cbn [then_post]. rewrite wp_ret.
  destruct Hcases as [[Hf Hd]|(Hmsg & Hf & Hd)].
  - by eapply (does_same i _ o); [done..|left].
  - eapply (does_close i _ o); [done..|right]. split; [|done]. by destruct msg.
Qed.

Lemma wp_meth_connect i address port w o :
  typed w -> objects w !! i = Some o -> 0 <= port < 65536 -> (patience (net w) < fuel)%nat ->
  wp (meth_connect fuel aton strerror hstrerror i address port) (does i (Connect address port) w) w.
Proof.
  intros Hw Ho Hport Hfuel. unfold meth_connect. apply (wp_checkgroup _ _ _ _ o Hw Ho). intros c Hc Hclass.
  unfold checkport. rewrite decide_True by done. rewrite wp_bind, wp_ret. cbn [then_post].
  rewrite wp_bind, (wp_on_sock _ o) by done. rewrite wp_bind. unfold timeout_start. rewrite wp_modify. cbn [then_post].
  eapply wp_mono; [apply (wp_tryconnect descs patience delta); [by eapply has_class_blocks|done]|].
  cbn. intros r s (msg & -> & (Hf & Htm & Hp) & Hon). cbn [then_post fd tm os] in *.
  rewrite wp_bind, wp_setclass; [|apply Hw|auto with tcp]. cbn [then_post]. rewrite wp_ret.
  eapply does_ok; [|done|cbn; by rewrite lookup_insert_eq|done].
  eapply types_update; [done..|cbn; eauto|done|done|by eapply has_class_client].
Qed.

Lemma wp_meth_listen i backlog w o :
  typed w -> objects w !! i = Some o -> wp (meth_listen strerror i backlog) (does i (Listen backlog) w) w.
Proof.
  intros Hw Ho. unfold meth_listen. apply (wp_checkclass _ _ _ _ _ o Hw Ho). intros Hc Hclass.
  rewrite wp_bind, (wp_on_sock _ o) by done.
  eapply wp_mono; [apply (wp_socket_listen descs patience delta); by eapply has_class_settled|].
  cbn. intros r s (e & -> & (Hf & Htm & Hp) & Hcases). cbn [then_post fd tm os] in *.
  destruct Hcases as [(-> & Hsome & Hd)|(He & Hd)].
  - rewrite decide_False by (by intros []). rewrite wp_bind, wp_setclass; [|apply Hw|auto with tcp].
    cbn [then_post]. rewrite wp_ret. destruct Hsome as [e He].
    assert (d_nonblock e = true) as Hn by (by eapply has_class_settled).
    assert (descs (os s) = <[t_sock o := set_listens e]> (descs (net w))) as Hd'.
    { rewrite Hd. rewrite <- (insert_id (descs (net w)) (t_sock o) e) at 1 by done. by rewrite alter_insert_eq. }
    eapply does_ok; [|done|cbn; by rewrite lookup_insert_eq|].
    + eapply types_update; [done..|cbn; eauto| |done|].
      * right. by exists e, (set_listens e).
      * split; [auto with tcp|right]. exists (set_listens e).
        rewrite Hd', lookup_insert_eq. split; [done|]. split; [done|]. by constructor.
    + cbn. unfold view, outgoing, net_unread, net_wire. cbn. by rewrite Hf, Hd', lookup_insert_eq, He.
  - rewrite decide_True by (unfold IO_DONE; lia). rewrite wp_bind, wp_get. cbn [then_post]. rewrite wp_ret.
    by eapply (does_same i _ o).
Qed.

Lemma wp_meth_shutdown i how w o :
  typed w -> objects w !! i = Some o -> wp (meth_shutdown i how) (does i (Shutdown how) w) w.
Proof.
  intros Hw Ho. unfold meth_shutdown. apply (wp_checkclass _ _ _ _ _ o Hw Ho). intros Hc Hclass. cbv zeta.
  assert (forall n, wp (on_sock i (socket_shutdown n);;; ret done_1) (does i (Shutdown how) w) w) as Hsd.
  { intros n. rewrite wp_bind, (wp_on_sock _ o) by done.
    eapply wp_mono; [apply (wp_socket_shutdown descs patience delta); by eapply has_class_settled|].
    cbn. intros r s (-> & (Hf & Htm & Hp) & Hon). cbn [then_post fd tm os] in *. rewrite wp_ret.
    eapply does_ok; [|done|cbn; by rewrite lookup_insert_eq|done].
    eapply types_same_class; [done..|cbn; eauto|done|done|by eapply has_class_client]. }
  assert (forall A m, wp (stop (A := A) (LuaError m) ;;; ret done_1) (does i (Shutdown how) w) w) as Hstop.
  { intros A m. rewrite wp_bind, wp_stop. by apply does_error. }
  assert (wp (ret tt ;;; ret done_1) (does i (Shutdown how) w) w) as Hskip
    by (rewrite wp_bind, wp_ret; cbn [then_post]; rewrite wp_ret; by eapply does_nothing).
  destruct (String.get 0 _) as [[[] [] [] [] [] [] [] []]|]; try apply Hskip; case_decide; done.
Qed.

Lemma wp_meth_settimeout i t mode w o :
  typed w -> objects w !! i = Some o -> wp (meth_settimeout i t mode) (does i (Settimeout t mode) w) w.
Proof.
  intros Hw Ho. unfold meth_settimeout. apply (wp_checkgroup _ _ _ _ o Hw Ho). intros c Hc Hclass.
  rewrite (wp_on_sock _ o) by done. unfold wp at 1. cbn. unfold timeout_meth_settimeout.
  assert (forall tm0 a, does i (Settimeout t mode) w (Ok a) (with_object i (TcpObject (t_sock o) tm0 (t_buf o)) (net w) w)) as Hk
    by (intros; by eapply (does_same i _ o); [done..|apply passes_refl|]).
  repeat case_decide; cbn; [apply Hk..|].
  by apply does_raise.
Qed.

(** Methods that only look. *)
Lemma wp_meth_getfd i w o : typed w -> objects w !! i = Some o -> wp (meth_getfd i) (does i Getfd w) w.
Proof.
  intros Hw Ho. unfold meth_getfd. apply (wp_checkgroup _ _ _ _ o Hw Ho). intros c Hc Hclass.
  rewrite (wp_object _ o) by done. rewrite wp_ret. by eapply does_nothing.
Qed.

Lemma wp_meth_dirty i w o : typed w -> objects w !! i = Some o -> wp (meth_dirty i) (does i Dirty w) w.
Proof.
  intros Hw Ho. unfold meth_dirty. apply (wp_checkgroup _ _ _ _ o Hw Ho). intros c Hc Hclass.
  rewrite (wp_object _ o) by done. rewrite wp_ret. by eapply does_nothing.
Qed.

Lemma wp_on_inet i r m w o :
  typed w -> objects w !! i = Some o -> still r -> (forall iw, exists n iw', m iw = (Ok n, iw')) ->
  wp (on_inet m) (does i r w) w.
Proof.
  intros Hw Ho Hr Hm. unfold on_inet. rewrite wp_bind, wp_get. cbn [then_post].
  destruct (Hm (Inet.World (Lua [] ∅ 1%positive) (net w))) as (n & iw' & ->). rewrite wp_ret.
  by eapply does_nothing.
Qed.

Lemma wp_meth_getpeername i w o :
  typed w -> objects w !! i = Some o -> wp (meth_getpeername i) (does i Getpeername w) w.
Proof.
  intros Hw Ho. unfold meth_getpeername. apply (wp_checkgroup _ _ _ _ o Hw Ho). intros c Hc Hclass.
  rewrite (wp_object _ o) by done. apply (wp_on_inet _ _ _ _ o); [done..|]. intros iw.
  unfold inet_meth_getpeername, bind, get. destruct (net_getpeername _ _); by do 2 eexists.
Qed.

Lemma wp_meth_getsockname i w o :
  typed w -> objects w !! i = Some o -> wp (meth_getsockname i) (does i Getsockname w) w.
Proof.
  intros Hw Ho. unfold meth_getsockname. apply (wp_checkgroup _ _ _ _ o Hw Ho). intros c Hc Hclass.
  rewrite (wp_object _ o) by done. apply (wp_on_inet _ _ _ _ o); [done..|]. intros iw.
  unfold inet_meth_getsockname, bind, get. destruct (net_getsockname _ _); by do 2 eexists.
Qed.

Lemma tcp_options_harmless v :
  fits v -> Forall (fun nf => forall fd, harmless descs patience (nf.2 fd v)) tcp_options.
Proof.
  intros Hv. unfold tcp_options. rewrite !Forall_cons.
  do 3 (split; [intros fd; by eapply opt_setboolean_harmless|]).
  split; [intros fd; by eapply opt_linger_harmless|done].
Qed.

Lemma wp_meth_setoption i name v w o :
  typed w -> objects w !! i = Some o -> fits v -> wp (meth_setoption i name v) (does i (Setoption name v) w) w.
Proof.
  intros Hw Ho Hv. unfold meth_setoption. apply (wp_checkgroup _ _ _ _ o Hw Ho). intros c Hc Hclass.
  rewrite (wp_object _ o) by done. rewrite wp_bind, (wp_on_sock _ o) by done. unfold on_os. rewrite wp_zoom.
  eapply wp_mono; [eapply setoption_harmless; by apply tcp_options_harmless|].
  cbn. intros r k (Hp & Hd & Hr).
  assert (forall a, does i (Setoption name v) w (Ok a) (with_object i (TcpObject (t_sock o) (t_tm o) (t_buf o)) k w)) as Hk
    by (intros; by eapply (does_same i _ o)).
  destruct r as [ok|f]; cbn [then_post]; [rewrite wp_ret; apply Hk|].
  destruct Hr as [e ->]. by apply does_raise.
Qed.

(** The buffer of an object, with its socket. *)
Lemma wp_on_buf {A} i o (m : Transport (@sock N) -> C (@Buffer.state (@sock N)) A) Q w :
  objects w !! i = Some o ->
  wp (on_buf fuel strerror i m) Q w =
    wp (m (object_io fuel strerror o))
      (fun r st => Q r (with_object i (TcpObject (fd (io st)) (tm (io st)) (buf st)) (os (io st)) w))
      (State (t_buf o) (Sock (t_sock o) (t_tm o) (net w))).
Proof. intros Ho. unfold on_buf. rewrite (wp_object _ o) by done. by rewrite wp_zoom. Qed.

Lemma wp_meth_getstats i w o :
  typed w -> objects w !! i = Some o -> wp (meth_getstats fuel strerror i) (does i Getstats w) w.
Proof.
  intros Hw Ho. unfold meth_getstats. apply (wp_checkclass _ _ _ _ _ o Hw Ho). intros Hc Hclass.
  rewrite wp_bind, (wp_on_buf _ o) by done. unfold buffer_meth_getstats. rewrite wp_gets. cbn [then_post]. rewrite wp_ret.
  by eapply (does_same i _ o); [done..|apply passes_refl|].
Qed.

(** The statistics are no part of what the buffer holds. *)
Lemma wp_meth_setstats i r s t w o :
  typed w -> objects w !! i = Some o -> wp (meth_setstats fuel strerror i r s t) (does i (Setstats r s t) w) w.
Proof.
  intros Hw Ho. unfold meth_setstats. apply (wp_checkclass _ _ _ _ _ o Hw Ho). intros Hc Hclass.
  rewrite wp_bind, (wp_on_buf _ o) by done. pose proof (sane_object _ _ _ Hw Ho) as Hb.
  unfold buffer_meth_setstats, modify_buf. destruct t; wp_simpl;
    (eapply does_ok; [|done|cbn; by rewrite lookup_insert_eq|done];
     eapply types_same_class; [done..|exact Hb|by left|apply passes_refl|done]).
Qed.

(** ** New objects *)

Hypothesis storage_size : length storage = BUF_SIZE.

Lemma wp_new_object c fd Q w :
  registered (classes w) -> is_class c ->
  (forall i o k, objects w !! i = None -> t_sock o = fd -> sane (t_buf o) -> passes patience (net w) k ->
     descs k = alter (set_nonblock true) fd (descs (net w)) ->
     Q (Ok i) (with_object i o k (with_class i c w))) ->
  wp (new_object storage noise c fd) Q w.
Proof.
  intros Hr Hc HQ. unfold new_object. rewrite wp_bind, wp_get. cbn [then_post].
  rewrite wp_bind, wp_setclass by done. cbn [then_post]. rewrite wp_bind, wp_modify. cbn [then_post]. rewrite wp_ret.
  set (tm0 := timeout_init _ _ _).
  pose proof (wp_socket_setnonblocking descs patience delta (Sock fd tm0 (net w))) as Hset. unfold wp in Hset. cbn in Hset.
  destruct Hset as (_ & (_ & _ & Hp) & Hd). apply HQ; [|done| |done|done].
  - apply not_elem_of_dom, is_fresh.
  - split; [cbn; lia|done].
Qed.

(** A descriptor the system has just opened becomes an object. *)
Lemma types_opened mine i o c w0 w k k' fd :
  typed w0 -> keeps_types mine w0 w -> objects w !! i = None -> t_sock o = fd -> sane (t_buf o) -> is_class c ->
  c <> "tcp{server}"%string -> opens descs fd (net w) k -> passes patience (net w) k -> passes patience k k' ->
  descs k' = alter (set_nonblock true) fd (descs k) ->
  keeps_types mine w0 (with_object i o k' (with_class i c w)).
Proof.
  intros Hw0 Hw Hi Hfd Hb Hc Hnot (Hpos & Hfree & e & Hlis & _ & Hk) Hp Hp' Hk'.
  eapply keeps_types_trans; [done|]. apply types_new; try done.
  - apply Hw.
  - by eapply passes_trans.
  - by rewrite Hfd.
  - rewrite Hfd. unfold SOCKET_INVALID. lia.
  - exists (set_nonblock true e). rewrite Hfd, Hk', Hk, alter_insert_eq.
    split; [done|]. split; [done|]. destruct (is_class_cases c Hc) as [-> | [-> | -> ] ]; [by constructor|constructor|done].
Qed.

(** Opening a descriptor leaves those alone that are in use. *)
Lemma opened_other d k0 fd k f :
  d = SOCKET_INVALID \/ (exists e, descs k0 !! d = Some e /\ d_nonblock e = true /\ class_says "tcp{server}" e) ->
  opens descs fd k0 k -> alter f fd (descs k) !! d = descs k0 !! d.
Proof.
  intros Hd (Hpos & Hfree & e & _ & _ & Hk). assert (d <> fd) as Hne.
  { intros ->. destruct Hd as [Hd|(e' & He' & _)]; [unfold SOCKET_INVALID in Hd; lia|congruence]. }
  by rewrite lookup_alter_ne, Hk, lookup_insert_ne by done.
Qed.

Lemma wp_meth_accept i w o :
  typed w -> objects w !! i = Some o -> (patience (net w) < fuel)%nat ->
  wp (meth_accept fuel strerror storage noise i) (does i Accept w) w.
Proof.
  intros Hw Ho Hfuel. unfold meth_accept. apply (wp_checkclass _ _ _ _ _ o Hw Ho). intros Hc Hclass.
  rewrite wp_bind, (wp_on_sock _ o) by done. rewrite wp_bind. unfold timeout_start. rewrite wp_modify. cbn [then_post].
  eapply wp_mono; [apply (wp_socket_accept descs patience delta); [by eapply has_class_blocks|done]|].
  cbn. intros r s (e & pa & -> & (Hf & Htm & Hp) & Hcases & _). cbn [then_post fd tm os] in *.
  set (o' := TcpObject _ _ _).
  assert (forall k, only_on descs (t_sock o) (net w) k -> passes patience (net w) k ->
    has_class "tcp{server}" (t_sock o) (descs k) -> keeps_types (Some i) w (with_object i o' k w)) as Hkeep
    by (intros; eapply types_same_class; [done..|cbn; eauto|done|done|done]).
  destruct Hcases as [[-> Hopens]|(He & -> & Hd)].
  - rewrite decide_True by done. rewrite wp_bind. apply wp_new_object; [apply Hw|auto with tcp|].
    cbn. intros j oj k Hj Hfd Hb Hpk Hk. cbn [then_post]. rewrite wp_ret.
    apply lookup_insert_None in Hj as [Hj Hij].
    eapply (does_ok _ _ o o'); [|done|cbn; by rewrite lookup_insert_ne, lookup_insert_eq|].
    + apply (types_opened _ j oj "tcp{client}" w (with_object i o' (net w) w) (os s) k pa); try done; [| |auto with tcp].
      * apply Hkeep; [by left|apply passes_refl|done].
      * cbn. by rewrite lookup_insert_ne.
    + rewrite (view_updated o o' w); [done|done|done|]. cbn. rewrite Hk.
      by apply (opened_other (t_sock o) (net w) pa (os s)); [destruct Hclass|].
  - rewrite decide_False by done. rewrite wp_bind, wp_get. cbn [then_post]. rewrite wp_ret.
    eapply (does_ok _ _ o o'); [apply Hkeep; [by left|done|by rewrite Hd]|done|cbn; by rewrite lookup_insert_eq|].
    rewrite (view_updated o o' w); [done|done|done|]. cbn. by rewrite Hd.
Qed.

(** Creating an object with a new socket. *)
Lemma wp_global_create fd w :
  typed w -> default (-1) fd < 1 -> wp (global_create strerror storage noise fd) (sound None w) w.
Proof.
  intros Hw Hfd. unfold global_create. cbv zeta. rewrite decide_True by done. rewrite wp_bind, wp_bind, wp_get. cbn [then_post].
  pose proof (wp_trycreate descs patience delta strerror SOCK_STREAM (Sock noise (Timeout noise noise noise) (net w))) as Htry.
  unfold wp in Htry. destruct (inet_trycreate _ _ _) as [r s]. cbn in Htry.
  destruct Htry as (msg & -> & _ & Hp & Hcases). rewrite wp_bind, wp_put. cbn [then_post]. rewrite wp_ret. cbn [then_post].
  destruct Hcases as [(-> & Hopens)|(Hmsg & _ & Hd)].
  - rewrite wp_bind. apply wp_new_object; [apply Hw|case_decide; auto with tcp|].
    cbn. intros j oj k Hj Hsock Hb Hpk Hk. cbn [then_post]. rewrite wp_ret. apply sound_ok.
    eapply (types_opened _ j oj _ w w (os s) k); try done.
    + case_decide; auto with tcp.
    + by case_decide.
  - destruct msg as [m|]; [|done]. rewrite wp_ret. apply sound_ok. cbn.
    split; [split|split; [done|split]]; cbn; rewrite ?Hd; try apply Hw.
    + intros j p _ Hj. cbn. by rewrite Hd.
    + intros d e. unfold foreign. cbn. by rewrite Hd.
Qed.

(** ** The stream of an object *)

Section Object.
Variables (w : world) (o : t_tcp) (c : string).
Hypothesis Hw : typed w.
Hypothesis Hclass : has_class c (t_sock o) (descs (net w)).
Hypothesis Hsane : sane (t_buf o).
Hypothesis Hfuel : (patience (net w) < fuel)%nat.

Definition sock0 : @sock N := Sock (t_sock o) (t_tm o) (net w).
Definition gone0 (k : N) : Prop := k = net w.
Definition usable0 : N -> Prop := streams_on descs patience (t_sock o) (net w).
Definition ready0 : @sock N -> Prop := socket_ready gone0 usable0 patience fuel sock0.
Definition unread0 : @sock N -> bytes := socket_unread (net_unread descs (t_sock o)).
Definition wire0 (s : @sock N) : bytes := net_wire descs (t_sock o) (os s).
Definition buf0 : @Buffer.state (@sock N) := State (t_buf o) sock0.

Lemma object_laws : @TransportLaws (@sock N) (object_io fuel strerror o) ready0 (fun _ _ => True) unread0 wire0.
Proof. eapply socket_laws. apply (net_kernel_laws descs patience delta). Qed.

Lemma object_good : good ready0 buf0.
Proof.
  destruct Hsane as [Hidx Hlen]. split; [done|]. split; [done|]. do 3 (split; [done|]). split; [|done].
  unfold live. cbn. case_decide as Hfd; [done|]. apply streams_on_start. by eapply has_class_blocks.
Qed.

(** The world after a transfer. *)
Definition world_of (i : positive) (st : @Buffer.state (@sock N)) : world :=
  with_object i (TcpObject (fd (io st)) (tm (io st)) (buf st)) (os (io st)) w.

Lemma object_after st :
  good ready0 st ->
  sane (buf st) /\ fd (io st) = t_sock o /\ only_on descs (t_sock o) (net w) (os (io st)) /\
  passes patience (net w) (os (io st)).
Proof.
  intros (Hidx & Hlen & Hf & _ & _ & Hl & _). do 2 (split; [done|]). unfold live in Hl. rewrite Hf in Hl. cbn in Hl.
  case_decide as Hfd.
  - rewrite Hl. split; [by left|apply passes_refl].
  - destruct Hl as (e & u & v & He & Hn & Hd & Hp). split; [|done]. right. by exists e, (set_streams u v e).
Qed.

Lemma world_of_types i st :
  objects w !! i = Some o -> class_of w !! i = Some "tcp{client}"%string -> good ready0 st ->
  keeps_types (Some i) w (world_of i st).
Proof.
  intros Ho Hc Hg. destruct (object_after st Hg) as (Hb & Hf & Hon & Hp).
  eapply types_same_class; [done..| |done|done|by eapply has_class_client]. done.
Qed.

(** The stream of the buffer is the stream of the object. *)
Lemma stream_incoming i st o' :
  good ready0 st -> objects (world_of i st) !! i = Some o' -> stream unread0 st = incoming (world_of i st) o'.
Proof.
  intros Hg Ho'. destruct (object_after st Hg) as (_ & Hf & Hon & _). cbn in Ho'.
  rewrite lookup_insert_eq in Ho'. injection Ho' as <-. unfold stream, incoming, unread0, socket_unread. cbn.
  rewrite Hf. case_decide as Hfd; [|done]. f_equal. unfold net_unread. rewrite Hfd.
  rewrite (only_on_closed _ _ _ _ Hon); [done|apply Hw].
Qed.

Lemma stream_incoming0 : stream unread0 buf0 = incoming w o.
Proof.
  unfold stream, incoming, unread0, socket_unread. cbn. case_decide as Hfd; [|done].
  f_equal. unfold net_unread. rewrite Hfd. by rewrite (typed_invalid _ Hw).
Qed.
End Object.

Lemma read_end_from unread p part c text err (st : @Buffer.state (@sock N)) :
  receive_end unread p part c text err st -> read_end p part c text err (stream unread st).
Proof. destruct p; [done|]. unfold receive_end, read_end, all_end. by case_decide. Qed.

Lemma wp_object_receive i p part w o :
  typed w -> objects w !! i = Some o -> class_of w !! i = Some "tcp{client}"%string ->
  (patience (net w) < fuel)%nat -> (length (incoming w o) < fuel)%nat -> acceptable p part ->
  wp (on_buf fuel strerror i (fun T => @buffer_meth_receive _ T fuel p part)) (fun r w' => exists c text err msg o',
    r = Ok (if decide (err = IO_DONE) then (Some text, None, None) else (None, msg, Some text)) /\
    keeps_types (Some i) w w' /\ objects w' !! i = Some o' /\
    incoming w o = c ++ incoming w' o' /\ outgoing w' o' = outgoing w o /\
    read_end p part c text err (incoming w' o')) w.
Proof.
  intros Hw Ho Hc Hfuel Hlen Hp. destruct (typed_object _ Hw _ _ Ho) as (Hb & c0 & Hc0 & Hclass).
  assert (c0 = "tcp{client}"%string) as -> by congruence. rewrite (wp_on_buf _ o) by done.
  eapply wp_mono; [eapply (@wp_receive _ (object_io fuel strerror o) fuel (ready0 w o) (fun _ _ => True) (unread0 o) (wire0 o)
    (object_laws w o)); [by eapply object_good|by rewrite <- (stream_incoming0 w o Hw) in Hlen|done]|].
  intros r st (c & text & err & -> & (Hg & Hs & Hwire & _) & Hend).
  pose proof (world_of_types w o _ Hw Hclass i st Ho Hc Hg) as Hk.
  assert (objects (world_of w i st) !! i = Some (TcpObject (fd (io st)) (tm (io st)) (buf st))) as Ho'
    by (cbn; by rewrite lookup_insert_eq).
  exists c, text, err, (@io_error _ (object_io fuel strerror o) (io st) err), (TcpObject (fd (io st)) (tm (io st)) (buf st)).
  split; [done|]. split; [done|]. split; [done|].
  change (stream _ _) with (stream (unread0 o) (buf0 w o)) in Hs at 1.
  rewrite (stream_incoming0 w o Hw), (stream_incoming w o Hw i st _ Hg Ho') in Hs.
  split; [done|]. apply read_end_from in Hend. rewrite (stream_incoming w o Hw i st _ Hg Ho') in Hend.
  split; [|done]. unfold outgoing. cbn. destruct (object_after w o st Hg) as (_ & -> & _). exact Hwire.
Qed.

Lemma wp_object_send i d start fin w o :
  typed w -> objects w !! i = Some o -> class_of w !! i = Some "tcp{client}"%string ->
  (patience (net w) < fuel)%nat -> (length d < fuel)%nat ->
  wp (on_buf fuel strerror i (fun T => @buffer_meth_send _ T fuel d start fin)) (fun r w' => exists n err msg o',
    let last := Z.of_nat n + slice_start (Z.of_nat (length d)) start - 1 in
    r = Ok (if decide (err = IO_DONE) then (Some last, None, None) else (None, msg, Some last)) /\
    keeps_types (Some i) w w' /\ objects w' !! i = Some o' /\
    outgoing w' o' = outgoing w o ++ take n (slice d start fin) /\ incoming w' o' = incoming w o /\
    (n <= length (slice d start fin))%nat /\ (err = IO_DONE <-> n = length (slice d start fin))) w.
Proof.
  intros Hw Ho Hc Hfuel Hlen. destruct (typed_object _ Hw _ _ Ho) as (Hb & c0 & Hc0 & Hclass).
  assert (c0 = "tcp{client}"%string) as -> by congruence. rewrite (wp_on_buf _ o) by done.
  destruct (@run_send _ (object_io fuel strerror o) fuel (ready0 w o) (fun _ _ => True) (unread0 o) (wire0 o)
    (object_laws w o) d start fin (buf0 w o) ltac:(by eapply object_good) Hlen ltac:(done))
    as (n & err & st & Hrun & Hg & Hwire & Hs & _ & Hn & Herr & _).
  unfold wp at 1. change (State _ _) with (buf0 w o). rewrite Hrun. cbn [fst snd].
  pose proof (world_of_types w o _ Hw Hclass i st Ho Hc Hg) as Hk.
  assert (objects (world_of w i st) !! i = Some (TcpObject (fd (io st)) (tm (io st)) (buf st))) as Ho'
    by (cbn; by rewrite lookup_insert_eq).
  exists n, err, (@io_error _ (object_io fuel strerror o) (io st) err), (TcpObject (fd (io st)) (tm (io st)) (buf st)).
  cbv zeta. split; [done|]. split; [done|]. split; [done|].
  rewrite (stream_incoming0 w o Hw), (stream_incoming w o Hw i st _ Hg Ho') in Hs.
  split; [|by split]. unfold outgoing. cbn. destruct (object_after w o st Hg) as (_ & -> & _). exact Hwire.
Qed.

(** A pattern that [receive] does not know is an error before anything is read. *)
Lemma wp_unknown_pattern i s part w o :
  typed w -> objects w !! i = Some o -> class_of w !! i = Some "tcp{client}"%string ->
  (patience (net w) < fuel)%nat -> ~ acceptable (Text s) part ->
  wp (on_buf fuel strerror i (fun T => @buffer_meth_receive _ T fuel (Text s) part)) (fun r w' => exists o',
    r = Stop (LuaError "invalid receive pattern") /\ keeps_types (Some i) w w' /\ objects w' !! i = Some o' /\
    incoming w' o' = incoming w o /\ outgoing w' o' = outgoing w o) w.
Proof.
  intros Hw Ho Hc Hfuel Hbad. destruct (typed_object _ Hw _ _ Ho) as (Hb & c0 & Hc0 & Hclass).
  assert (c0 = "tcp{client}"%string) as -> by congruence. rewrite (wp_on_buf _ o) by done.
  unfold buffer_meth_receive. cbv zeta.
  eapply (@wp_markstart _ (object_io fuel strerror o) (ready0 w o) (fun _ _ => True) (unread0 o) (wire0 o) (object_laws w o));
    [by eapply object_good|].
  intros st1 (Hg & _ & Hwire & _) Hs _. unfold acceptable in Hbad.
  rewrite decide_False by tauto. rewrite decide_False by tauto. rewrite wp_bind, wp_stop. cbn [then_post].
  change (with_object i _ _ w) with (world_of w i st1). change (State _ _) with (buf0 w o) in Hs.
  assert (objects (world_of w i st1) !! i = Some (TcpObject (fd (io st1)) (tm (io st1)) (buf st1))) as Ho'
    by (cbn; by rewrite lookup_insert_eq).
  eexists. split; [done|]. split; [by apply (world_of_types w o _ Hw Hclass)|]. split; [done|].
  rewrite (stream_incoming0 w o Hw), (stream_incoming w o Hw i st1 _ Hg Ho') in Hs. split; [done|].
  unfold outgoing. cbn. destruct (object_after w o st1 Hg) as (_ & -> & _). exact Hwire.
Qed.

Lemma pattern_cases p part :
  match p with Bytes n => Z.of_nat (length part) <= n < 2 ^ 64 | Text _ => True end ->
  acceptable p part \/ exists s, p = Text s /\ ~ acceptable p part.
Proof.
  destruct p as [n|s]; [by left|]. intros _. unfold acceptable.
  destruct (decide (s !! 0%nat = Some "*"%char /\ (s !! 1%nat = Some "l"%char \/ s !! 1%nat = Some "a"%char)));
    [by left|right; eauto].
Qed.

Lemma wp_meth_receive i p part w o :
  typed w -> objects w !! i = Some o -> (patience (net w) < fuel)%nat -> (length (incoming w o) < fuel)%nat ->
  match p with Bytes n => Z.of_nat (length part) <= n < 2 ^ 64 | Text _ => True end ->
  wp (meth_receive fuel strerror i p part) (does i (Receive p part) w) w.
Proof.
  intros Hw Ho Hfuel Hlen Hp. unfold meth_receive. apply (wp_checkclass _ _ _ _ _ o Hw Ho). intros Hc Hclass. rewrite wp_bind.
  destruct (pattern_cases p part Hp) as [Hacc|(s & -> & Hbad)].
  - eapply wp_mono; [by apply (wp_object_receive i p part w o)|].
    intros r w' (c & text & err & msg & o' & -> & Hk & Ho' & Hin & Hout & Hend). cbn [then_post]. rewrite wp_ret.
    eapply does_ok; [done..|]. by exists c, text, err, msg.
  - eapply wp_mono; [by apply (wp_unknown_pattern i s part w o)|].
    intros r w' (o' & -> & Hk & Ho' & Hin & Hout). cbn [then_post]. split; [split; [done|right; by eexists]|].
    unfold conn_of. rewrite Ho, Ho'. intros x [= <-]. by eexists.
Qed.

Lemma wp_meth_send i d start fin w o :
  typed w -> objects w !! i = Some o -> (patience (net w) < fuel)%nat -> (length d < fuel)%nat ->
  wp (meth_send fuel strerror i d start fin) (does i (Send d start fin) w) w.
Proof.
  intros Hw Ho Hfuel Hlen. unfold meth_send. apply (wp_checkclass _ _ _ _ _ o Hw Ho). intros Hc Hclass. rewrite wp_bind.
  eapply wp_mono; [by apply (wp_object_send i d start fin w o)|].
  intros r w' (n & err & msg & o' & -> & Hk & Ho' & Hout & Hin & Hn & Herr). cbn [then_post]. rewrite wp_ret.
  eapply does_ok; [done..|]. by exists n, err, msg.
Qed.

(** ** Descriptors that change hands

    A script may give an object another descriptor: none, or one the system has
    open, which does not block, is as the class of the object says and is no other
    object's.  What the object had before belongs to nobody then. *)
Definition adopts (w : world) (i : positive) (n : Z) : Prop :=
  n = SOCKET_INVALID \/ exists e, descs (net w) !! n = Some e /\ d_nonblock e = true /\
    (forall c, class_of w !! i = Some c -> class_says c e) /\
    forall j p, j <> i -> objects w !! j = Some p -> t_sock p <> n.

(** The object's own descriptor. *)
Definition own (w : world) (i : positive) (fd : Z) (e : desc) : Prop :=
  exists o, objects w !! i = Some o /\ t_sock o = fd /\ descs (net w) !! fd = Some e.

Lemma wp_meth_setfd i n w o :
  typed w -> objects w !! i = Some o -> adopts w i n ->
  wp (meth_setfd i n) (fun a w' => a = Ok [] /\ typed w' /\ net w' = net w /\ leaves_others (Some i) w w' /\
    (forall fd e, foreign w' fd e <-> (foreign w fd e \/ own w i fd e) /\ fd <> n) /\
    exists o', objects w' !! i = Some o' /\ own_step (Setfd n) a (view w o) (view w' o')) w.
Proof.
  intros Hw Ho Hn. unfold meth_setfd. apply (wp_checkgroup _ _ _ _ o Hw Ho). intros c Hc Hclass.
  rewrite (wp_object _ o) by done. rewrite wp_bind, wp_modify. cbn [then_post]. rewrite wp_ret.
  set (o' := TcpObject n (t_tm o) (t_buf o)). set (w' := with_object _ _ _ _).
  assert (forall j p, j <> i -> objects w !! j = Some p -> t_sock p = n -> n = SOCKET_INVALID) as Hapart.
  { intros j p Hj Hp Heq. destruct Hn as [?|(e & _ & _ & _ & Hno)]; [done|]. by destruct (Hno j p Hj Hp). }
  assert (typed w') as Hw'.
  { split; cbn; [apply Hw|apply Hw| |].
    - intros j p. destruct (decide (j = i)) as [->|Hj].
      + rewrite lookup_insert_eq. intros [= <-]. split; [cbn; eauto|]. exists c. split; [done|].
        split; [apply Hclass|]. destruct Hn as [?|(e & He & Hnb & Hsays & _)]; [by left|right]. exists e. auto.
      + rewrite lookup_insert_ne by done. apply Hw.
    - intros j1 j2 p1 p2 H1 H2 Heq Hv.
      destruct (decide (j1 = i)) as [->|Hj1], (decide (j2 = i)) as [->|Hj2]; [done| | |];
        rewrite ?lookup_insert_eq, ?lookup_insert_ne in H1 by done;
        rewrite ?lookup_insert_eq, ?lookup_insert_ne in H2 by done; simplify_eq.
      + destruct Hv. by apply (Hapart j2 p2).
      + destruct Hv. rewrite Heq. by apply (Hapart j1 p1).
      + by apply (typed_apart _ Hw j1 j2 p1 p2). }
  do 2 (split; [done|]). split; [done|]. split; [|split].
  - intros j p Hj Hp. cbn. by rewrite lookup_insert_ne by congruence.
  - intros fd e. unfold foreign, own. cbn. split.
    + intros [He Hall]. assert (fd <> n) as Hne
        by (intros ->; by apply (Hall i o'); [rewrite lookup_insert_eq|]).
      split; [|done]. destruct (decide (t_sock o = fd)) as [Heq|Hno]; [right; by exists o|left].
      split; [done|]. intros j p Hp. destruct (decide (j = i)) as [->|Hj]; [congruence|].
      apply (Hall j). by rewrite lookup_insert_ne.
    + intros [Hfd Hne].
      assert (descs (net w) !! fd = Some e) as He by (by destruct Hfd as [[? _]|(? & _ & _ & ?)]).
      split; [done|]. intros j p. destruct (decide (j = i)) as [->|Hj].
      * rewrite lookup_insert_eq. by intros [= <-].
      * rewrite lookup_insert_ne by done. intros Hp Heq. destruct Hfd as [[_ Hall]|(o2 & Ho2 & Hs2 & _)].
        -- by apply (Hall j p).
        -- assert (o2 = o) as -> by congruence. apply Hj. apply (typed_apart _ Hw j i p o); try done; [congruence|].
           intros Hinv. rewrite <- Heq, Hinv, (typed_invalid _ Hw) in He. done.
  - exists o'. split; [cbn; by rewrite lookup_insert_eq|]. split; [done|]. intros Hv.
    by apply view_unplugged.
Qed.

(** An object for a descriptor that is open and belongs to no other. *)
Lemma wp_create_with n w e :
  typed w -> 1 <= n -> foreign w n e ->
  wp (global_create strerror storage noise (Some n)) (fun a w' => (exists i, a = Ok [VObj i]) /\ typed w' /\
    passes patience (net w) (net w') /\ leaves_others None w w' /\
    forall fd d, foreign w' fd d <-> foreign w fd d /\ fd <> n) w.
Proof.
  intros Hw Hn [He Hno]. unfold global_create. cbn [default from_option id]. cbv zeta. rewrite decide_False by lia.
  rewrite wp_bind, wp_ret. cbn [then_post]. rewrite decide_True by lia. rewrite wp_bind.
  apply wp_new_object; [apply Hw|auto with tcp|]. intros i o k Hi Hfd Hb Hp Hd. cbn [then_post]. rewrite wp_ret.
  split; [by eexists|].
  assert (forall d, d <> n -> descs k !! d = descs (net w) !! d) as Hother
    by (intros d Hne; rewrite Hd; by apply lookup_alter_ne).
  split; [split|split; [done|split]]; cbn.
  - apply Hw.
  - rewrite Hother by (unfold SOCKET_INVALID; lia). apply Hw.
  - intros j p. destruct (decide (j = i)) as [->|Hj].
    + rewrite !lookup_insert_eq. intros [= <-]. split; [done|]. eexists. split; [done|]. split; [auto with tcp|right].
      exists (set_nonblock true e). rewrite Hd, Hfd, lookup_alter_eq, He. split; [done|]. split; [done|constructor].
    + rewrite !lookup_insert_ne by done. intros Hjp. destruct (typed_object _ Hw _ _ Hjp) as (Hbp & c & Hc & Hcl & Hs).
      split; [done|]. exists c. split; [done|]. split; [done|]. rewrite Hother by by eapply Hno. done.
  - intros j1 j2 p1 p2 H1 H2 Heq Hv.
    destruct (decide (j1 = i)) as [->|Hj1], (decide (j2 = i)) as [->|Hj2]; [done| | |];
      rewrite ?lookup_insert_eq, ?lookup_insert_ne in H1 by done;
      rewrite ?lookup_insert_eq, ?lookup_insert_ne in H2 by done; simplify_eq.
    + by destruct (Hno j2 p2).
    + by destruct (Hno j1 p1).
    + by apply (typed_apart _ Hw j1 j2 p1 p2).
  - intros j p _ Hjp. cbn. rewrite lookup_insert_ne by congruence. split; [done|]. apply Hother. by eapply Hno.
  - intros fd d. unfold foreign. cbn. split.
    + intros [Hfd' Hall]. assert (fd <> n) as Hne by (intros ->; by apply (Hall i o); [rewrite lookup_insert_eq|]).
      rewrite Hother in Hfd' by done. split; [|done]. split; [done|]. intros j p Hj. apply (Hall j).
      rewrite lookup_insert_ne; [done|]. congruence.
    + intros [[Hfd' Hall] Hne]. rewrite Hother by done. split; [done|]. intros j p.
      destruct (decide (j = i)) as [->|]; [rewrite lookup_insert_eq; congruence|].
      rewrite lookup_insert_ne by done. apply Hall.
Qed.

(** What a script may ask of object [i]: numbers are in the range of the C types
    they become, and a descriptor is one the object can have. *)
Definition valid (w : world) (i : positive) (r : request) : Prop :=
  match r with
  | Bind _ port | Connect _ port => 0 <= port < 65536
  | Setfd n => adopts w i n
  | Setoption _ v => fits v
  | Receive (Bytes n) part => Z.of_nat (length part) <= n < 2 ^ 64
  | _ => True
  end.

(** Fuel for the interruptions still to come and the octets to be moved. *)
Definition enough (w : world) (o : t_tcp) (r : request) : Prop :=
  (patience (net w) < fuel)%nat /\
  match r with
  | Receive _ _ => (length (incoming w o) < fuel)%nat
  | Send d _ _ => (length d < fuel)%nat
  | _ => True
  end.

(** The call ends with an answer, or with an error the script can catch. *)
Definition ends (a : outcome answer) : Prop := (exists l, a = Ok l) \/ exists msg, a = Stop (LuaError msg).

(** The descriptors that belong to no object, after a request to object [i]. *)
Definition foreign_after (i : positive) (r : request) (w w' : world) : Prop :=
  forall fd e, foreign w' fd e <->
    match r with
    | Setfd n => (foreign w fd e \/ own w i fd e) /\ fd <> n
    | _ => foreign w fd e
    end.

Lemma wp_serve i r w o :
  typed w -> objects w !! i = Some o -> valid w i r -> enough w o r ->
  wp (serve fuel aton strerror hstrerror storage noise i r) (fun a w' =>
    (typed w' /\ ends a /\ leaves_others (Some i) w w' /\ foreign_after i r w w') /\
    forall x, conn_of w i = Some x -> exists y, conn_of w' i = Some y /\ own_step r a x y) w.
Proof.
  intros Hw Ho Hv [Hfuel Hmore].
  assert (forall a w', (forall n, r <> Setfd n) -> does i r w a w' ->
    (typed w' /\ ends a /\ leaves_others (Some i) w w' /\ foreign_after i r w w') /\
    forall x, conn_of w i = Some x -> exists y, conn_of w' i = Some y /\ own_step r a x y) as Hdoes.
  { intros a w' Hr [[(Hw' & _ & Hl & Hf) Ha] Hx]. split; [|done]. do 3 (split; [done|]). intros fd e. rewrite Hf.
    destruct r; try done. by destruct (Hr fd0). }
  destruct r; cbn [serve valid] in *; try (eapply wp_mono; [|intros a w'; by apply Hdoes]).
  - by apply (wp_meth_accept i w o).
  - by apply (wp_meth_bind i address port w o).
  - by apply (wp_meth_close i w o).
  - by apply (wp_meth_connect i address port w o).
  - by apply (wp_meth_dirty i w o).
  - by apply (wp_meth_getfd i w o).
  - by apply (wp_meth_getpeername i w o).
  - by apply (wp_meth_getsockname i w o).
  - by apply (wp_meth_getstats i w o).
  - by apply (wp_meth_setstats i received sent age w o).
  - by apply (wp_meth_listen i backlog w o).
  - by apply (wp_meth_receive i p part w o).
  - by apply (wp_meth_send i d start fin w o).
  - eapply wp_mono; [by apply (wp_meth_setfd i fd w o)|].
    intros a w' (-> & Hw' & _ & Hl & Hf & o' & Ho' & Hs). split; [split; [done|]; split; [left; by eexists|done]|].
    unfold conn_of. rewrite Ho, Ho'. intros x [= <-]. by eexists.
  - by apply (wp_meth_setoption i name v w o).
  - by apply (wp_meth_settimeout i t mode w o).
  - by apply (wp_meth_shutdown i how w o).
Qed.

(** Collecting an object closes its descriptor. *)
Lemma types_delete i o w :
  typed w -> objects w !! i = Some o -> t_sock o = SOCKET_INVALID ->
  keeps_types (Some i) w (World (classes w) (delete i (class_of w)) (delete i (objects w)) (net w)).
Proof.
  intros Hw Ho Hsock. split; [split|split; [apply passes_refl|split]]; cbn.
  - apply Hw.
  - apply Hw.
  - intros j p [Hne Hj]%lookup_delete_Some. rewrite lookup_delete_ne by done. by apply Hw.
  - intros j1 j2 p1 p2 [_ H1]%lookup_delete_Some [_ H2]%lookup_delete_Some. by apply Hw.
  - intros j p Hne Hj. cbn. by rewrite lookup_delete_ne by congruence.
  - intros fd e. unfold foreign. cbn. split; intros [He Hall]; (split; [done|]); intros j p Hj.
    + destruct (decide (j = i)) as [->|Hne]; [|apply (Hall j); by rewrite lookup_delete_ne].
      intros Hfd. assert (fd = SOCKET_INVALID) as Hinv by congruence.
      rewrite Hinv, (typed_invalid _ Hw) in He. done.
    + apply lookup_delete_Some in Hj as [_ Hj]. by apply (Hall j).
Qed.

Lemma wp_collect_object i w o :
  typed w -> objects w !! i = Some o -> wp (collect i) (sound (Some i) w) w.
Proof.
  intros Hw Ho. unfold collect. rewrite wp_bind.
  destruct (typed_object _ Hw _ _ Ho) as (_ & c & Hc & Hclass).
  apply (wp_mono _ (fun r w' => r = Ok done_1 /\ keeps_types (Some i) w w' /\
    exists o', objects w' !! i = Some o' /\ t_sock o' = SOCKET_INVALID)).
  - unfold meth_close, checkgroup. rewrite wp_bind, wp_bind, wp_get. cbn [then_post]. rewrite Hc. unfold auxiliar_checkgroup.
    destruct (typed_registry _ Hw c) as (_ & -> & _); [apply Hclass|]. rewrite wp_ret. cbn [then_post].
    rewrite wp_bind, (wp_on_sock _ o) by done.
    eapply wp_mono; [apply (wp_socket_destroy descs patience delta)|].
    { cbn. intros ->. apply Hw. }
    cbn. intros r s (-> & Hf & Htm & Hp & Hd). cbn [then_post]. rewrite wp_ret. split; [done|].
    split; [by eapply types_close|]. eexists. cbn. by rewrite lookup_insert_eq.
  - intros r w' (-> & Hk & o' & Ho' & Hinv). cbn [then_post]. rewrite wp_modify. apply sound_ok.
    eapply keeps_types_trans; [done|]. eapply types_delete; [apply Hk|done|done].
Qed.
End Typing.

(** ** The classes [tcp_open] makes *)

Lemma add2group_flag c g r : is_Some (r !! c) -> auxiliar_getgroupudata (auxiliar_add2group c g r) g (Some c) = true.
Proof.
  intros [mt Hmt]. unfold auxiliar_getgroupudata, metatable, auxiliar_add2group. rewrite lookup_alter_eq, Hmt. cbn.
  rewrite lookup_insert_eq. by apply bool_decide_eq_true_2.
Qed.

Lemma add2group_keeps c g r c' :
  c' <> c -> auxiliar_getgroupudata (auxiliar_add2group c g r) g (Some c') = auxiliar_getgroupudata r g (Some c').
Proof. intros Hc. unfold auxiliar_getgroupudata, metatable. by rewrite add2group_other. Qed.

Lemma registered_tcp_open r : registered (tcp_open r).
Proof.
  unfold tcp_open. set (r1 := auxiliar_newclass "tcp{master}" tcp r). set (r2 := auxiliar_newclass "tcp{client}" tcp r1).
  set (r3 := auxiliar_newclass "tcp{server}" tcp r2).
  assert (forall c, is_class c -> is_Some (r3 !! c)) as H3.
  { intros c Hc. destruct (is_class_cases c Hc) as [Hm|[Hm|Hm]]; subst c.
    - unfold r3, r2. rewrite !newclass_other by done. apply newclass_is_class.
    - unfold r3. rewrite newclass_other by done. apply newclass_is_class.
    - apply newclass_is_class. }
  assert (forall c name, is_class c -> method_of r3 (Some c) name = methods_in tcp !! name) as Hm3.
  { intros c name Hc. destruct (is_class_cases c Hc) as [Hm|[Hm|Hm]]; subst c.
    - erewrite method_of_class by (unfold r3, r2; rewrite !newclass_other by done; reflexivity). apply newclass_methods.
    - erewrite method_of_class by (unfold r3; rewrite newclass_other by done; reflexivity). apply newclass_methods.
    - apply newclass_methods. }
  intros c Hc. split; [by rewrite !add2group_is_class; apply H3|]. split.
  - destruct (is_class_cases c Hc) as [Hm|[Hm|Hm]]; subst c.
    + rewrite !add2group_keeps by done. apply add2group_flag. by apply H3.
    + rewrite add2group_keeps by done. apply add2group_flag. rewrite add2group_is_class. by apply H3.
    + apply add2group_flag. rewrite !add2group_is_class. by apply H3.
  - intros name. rewrite !add2group_methods by done. by apply Hm3.
Qed.

(** What [object:name] runs, for an object of each class. *)
Lemma tcp_open_methods c : is_class c -> method_of (tcp_open ∅) (Some c) <$> ["send"; "setpeername"; "settimeout"]%string =
  [Some "meth_send"; Some "meth_connect"; Some "meth_settimeout"]%string.
Proof. intros Hc. destruct (is_class_cases c Hc) as [Hm|[Hm|Hm]]; subst c; vm_compute; reflexivity. Qed.

(** ** Sessions *)

Section Session.
Context {N : Type} (descs : N -> gmap Z desc) (patience : N -> nat) (delta : Z)
  `{NetLaws N descs patience delta} (aton : bytes -> option Z).
Context (strerror hstrerror : Z -> string) (storage : bytes) (noise : Z).
(** What happens between scripts and objects: a request to an object, the
    creation of one with a new socket or with a descriptor the script has, the
    collection of one. *)
Inductive event : Type :=
| Ask (i : positive) (r : request)
| Create (fd : option Z)
| Collect (i : positive).

Definition admissible (w : @world N) (e : event) : Prop :=
  match e with
  | Ask i r => is_Some (objects w !! i) /\ valid descs w i r
  | Create (Some n) => 1 <= n -> exists e, foreign descs w n e
  | Create None => True
  | Collect i => is_Some (objects w !! i)
  end.

(** What becomes of the descriptors that belong to no object: a script that gives
    an object another descriptor, or makes an object of one, takes that one from
    them, and what the object had before joins them. *)
Definition foreign_step (e : event) (w w' : @world N) : Prop :=
  match e with
  | Ask i r => foreign_after descs i r w w'
  | Create (Some n) => forall fd d, foreign descs w' fd d <-> foreign descs w fd d /\ (1 <= n -> fd <> n)
  | _ => forall fd d, foreign descs w' fd d <-> foreign descs w fd d
  end.

Definition hands_over (e : event) : Prop :=
  match e with Ask _ (Setfd _) => True | Create (Some n) => 1 <= n | _ => False end.

(** The event as the program runs it. *)
Definition run_event (fuel : nat) (e : event) : C (@world N) answer :=
  match e with
  | Ask i r => serve fuel aton strerror hstrerror storage noise i r
  | Create fd => global_create strerror storage noise fd
  | Collect i => collect i ;;; ret []
  end.

Definition enough_fuel (fuel : nat) (w : @world N) (e : event) : Prop :=
  match e with
  | Ask i r => forall o, objects w !! i = Some o -> enough descs patience fuel w o r
  | _ => True
  end.

Inductive session : @world N -> list event -> @world N -> Prop :=
| session_nil w : session w [] w
| session_event w e es fuel a w1 w2 :
    admissible w e -> enough_fuel fuel w e -> run_event fuel e w = (a, w1) -> session w1 es w2 ->
    session w (e :: es) w2.

(** Enough fuel exists. *)
Lemma enough_exists w e : exists fuel, enough_fuel fuel w e.
Proof.
  destruct e as [i r|fd|i]; [|by exists 0%nat..].
  destruct (objects w !! i) as [o|] eqn:Ho; [|exists 0%nat; cbn; congruence].
  exists (S (patience (net w) + length (incoming descs w o) + match r with Send d _ _ => length d | _ => 0%nat end)).
  intros o' Ho'. simplify_eq. split; [lia|]. destruct r; done || lia.
Qed.
Hypothesis storage_size : length storage = BUF_SIZE.

Lemma run_event_sound fuel e w :
  typed descs w -> admissible w e -> enough_fuel fuel w e ->
  exists a w', run_event fuel e w = (a, w') /\ typed descs w' /\ ends a /\ foreign_step e w w'.
Proof.
  intros Hw Hadm Hfuel.
  enough (wp (run_event fuel e) (fun a w' => typed descs w' /\ ends a /\ foreign_step e w w') w) as Hrun
    by by apply wp_run.
  assert (forall mine, wp (run_event fuel e) (sound descs patience mine w) w ->
    (forall w', (forall fd d, foreign descs w' fd d <-> foreign descs w fd d) -> foreign_step e w w') ->
    wp (run_event fuel e) (fun a w' => typed descs w' /\ ends a /\ foreign_step e w w') w) as Hsound.
  { intros mine Hs Hf. eapply wp_mono; [exact Hs|]. intros a w' [(Hw' & _ & _ & Hf') Ha]. by auto. }
  destruct e as [i r|[n|]|i]; cbn in *.
  - destruct Hadm as [[o Ho] Hv].
    eapply wp_mono; [by apply (wp_serve descs patience delta fuel aton strerror hstrerror storage noise storage_size i r w o); auto|].
    by intros a w' [(? & ? & _ & ?) _].
  - destruct (decide (1 <= n)) as [Hn|Hn].
    + destruct (Hadm Hn) as [d Hd].
      eapply wp_mono; [by apply (wp_create_with descs patience delta strerror storage noise storage_size n w d)|].
      intros a w' ([i ->] & Hw' & _ & _ & Hf). split; [done|]. split; [left; by eexists|]. intros fd x.
      rewrite Hf. naive_solver.
    + apply (Hsound None); [apply (wp_global_create descs patience delta); cbn; [done..|lia]|].
      intros w' Hf fd x. rewrite Hf. naive_solver lia.
  - apply (Hsound None); [by apply (wp_global_create descs patience delta)|done].
  - destruct Hadm as [o Ho]. apply (Hsound (Some i)); [|done]. rewrite wp_bind.
    eapply wp_mono; [by apply (wp_collect_object descs patience delta i w o)|].
    intros a w' [Hk [[x ->]|[msg ->]]]; cbn [then_post]; [rewrite wp_ret; by apply sound_ok|].
    split; [done|]. right. by exists msg.
Qed.

Lemma session_typed w es w' :
  session w es w' -> typed descs w ->
  typed descs w' /\
  (Forall (fun e => ~ hands_over e) es -> forall fd d, foreign descs w' fd d <-> foreign descs w fd d).
Proof.
  induction 1 as [|w e es fuel a w1 w2 Hadm Hfuel Hrun _ IH]; intros Hw; [done|].
  destruct (run_event_sound fuel e w Hw Hadm Hfuel) as (a' & w1' & Hrun' & Hw1 & _ & Hf).
  rewrite Hrun in Hrun'. simplify_eq. destruct (IH Hw1) as [Hw2 Hf2]. split; [done|].
  intros [He Hes]%Forall_cons fd d. rewrite (Hf2 Hes). destruct e as [i r|[n|]|i]; cbn in Hf, He.
  - specialize (Hf fd d). by destruct r.
  - rewrite (Hf fd d). naive_solver.
  - apply Hf.
  - apply Hf.
Qed.
End Session.

(** The world when [tcp_open] has run. *)
Definition opened {N} (r : registry) (k : N) : world := World (tcp_open r) ∅ ∅ k.

Lemma opened_typed {N} (descs : N -> gmap Z desc) r k :
  descs k !! SOCKET_INVALID = None -> typed descs (opened r k).
Proof. intros Hk. split; [apply registered_tcp_open|done|done|done]. Qed.

(** C13: connection objects are well typed, whatever scripts do with them within
    two rules: numbers fit the C types they are converted to (ports, the values of
    options, the count of [receive], which is not less than the octets given), and
    a descriptor that a script hands to an object ([setfd], [tcp(fd)]) is open and
    no other object's, and for [setfd] does not block and is as the class says.
    After any sequence of requests, creations and collections, an object that is
    not closed has a descriptor of its own, which the system has open, does not
    block and is what the object's class says of it (a server's listens, a
    master's does not); every further event ends, with an answer or an error the
    script can catch; and the descriptors that belong to no object change only
    where a script hands one over: none is leaked, closed twice or closed for
    somebody else. *)
Theorem tcp_session_types {N} descs patience delta `{NetLaws N descs patience delta}
    aton strerror hstrerror storage noise r (k : N) es w :
  length storage = BUF_SIZE -> descs k !! SOCKET_INVALID = None ->
  session descs patience aton strerror hstrerror storage noise (opened r k) es w ->
  typed descs w /\
  (Forall (fun e => ~ hands_over e) es -> forall fd d, foreign descs w fd d <-> descs k !! fd = Some d) /\
  (forall e, admissible descs w e -> exists fuel a w',
     run_event aton strerror hstrerror storage noise fuel e w = (a, w') /\ ends a /\ foreign_step descs e w w').
Proof.
  intros Hsize Hk Hs. pose proof (opened_typed descs r k Hk) as Hopen.
  destruct (session_typed descs patience delta aton strerror hstrerror storage noise Hsize _ _ _ Hs Hopen) as [Hw Hf].
  split; [done|]. split.
  - intros Hes fd d. rewrite (Hf Hes). unfold foreign. cbn. naive_solver.
  - intros e Hadm. destruct (enough_exists descs patience w e) as [fuel Hfuel].
    destruct (run_event_sound descs patience delta aton strerror hstrerror storage noise Hsize fuel e w Hw Hadm Hfuel)
      as (a & w' & Hrun & _ & Ha & Hstep). by exists fuel, a, w'.
Qed.

(** C14: connection objects are independent pairs of streams. Whatever is asked of
    an object (within the rules of [valid]: numbers fit their C types and handed
    descriptors are fit for the object), no octet of another object moves; what
    it receives is the front of its own stream of incoming octets, in order and
    without loss; what it sends is added to its own outgoing stream, exactly the
    part of the data the indices name or a prefix of it with an error; closing it
    keeps what was read ahead, and so do connecting it, shutting it down and
    giving it another descriptor, whose streams are the system's; and no other
    request, and no error of a script, moves an octet.  The objects with their
    buffers, time limits and shared system refine that specification. *)
Theorem tcp_refines_streams {N} descs patience delta `{NetLaws N descs patience delta}
    fuel aton strerror hstrerror storage noise i r o (w : @world N) :
  length storage = BUF_SIZE -> typed descs w -> objects w !! i = Some o -> valid descs w i r ->
  enough descs patience fuel w o r ->
  exists a w', serve fuel aton strerror hstrerror storage noise i r w = (a, w') /\
    stream_step i r a (conn_of descs w) (conn_of descs w').
Proof.
  intros Hsize Hw Ho Hv Hf.
  destruct (proj1 (wp_run _ _ _) (wp_serve descs patience delta fuel aton strerror hstrerror storage noise Hsize i r w o Hw Ho Hv Hf))
    as (a & w' & Hrun & (_ & _ & Hl & _) & Hx).
  exists a, w'. split; [done|]. split; [|done]. intros j x. by apply others_conn.
Qed.

(** ** A session with a server and its client *)

Definition storage0 : bytes := replicate BUF_SIZE NUL.
Lemma storage0_size : length storage0 = BUF_SIZE.
Proof. apply length_replicate. Qed.

(** Two connections are waiting; descriptors 3 and 5 are somebody else's. *)
Definition k0 : toynet :=
  ToyNet {[ 3 := Desc true true [] []; 5 := Desc false true [] [] ]} [of_string "hello"; of_string "world"] 2 0.
Definition w0 : @world toynet := opened ∅ k0.

Definition aton0 (p : bytes) : option Z := match inet_aton p with Ok a => a | Stop _ => None end.
Definition no_message (_ : Z) : string := "".

Definition events0 : list event :=
  [Create None; Ask 1 (Bind (of_string "*") 8080); Ask 1 (Listen None); Ask 1 Accept; Ask 2 Close; Ask 1 Accept;
   Create (Some 0); Collect 2].

Fixpoint run_events (es : list event) (w : @world toynet) : list (outcome answer) * @world toynet :=
  match es with
  | [] => ([], w)
  | e :: es' =>
      let '(a, w1) := run_event aton0 no_message no_message storage0 0 100 e w in
      let '(rest, w2) := run_events es' w1 in
      (a :: rest, w2)
  end.

Definition w1 : @world toynet := (run_events events0 w0).2.

(** The server is made, bound and set to listen; its clients are objects 2 and 3
    and the object made with descriptor 0 is 4, a client too. *)
Example answers0 :
  (run_events events0 w0).1 = [Ok [VObj 1]; Ok done_1; Ok done_1; Ok [VObj 2]; Ok done_1; Ok [VObj 3]; Ok [VObj 4]; Ok []].
Proof. vm_compute. reflexivity. Qed.

Example classes1 : class_of w1 = {[ 1%positive := "tcp{server}"; 3%positive := "tcp{client}"; 4%positive := "tcp{client}" ]}%string.
Proof. vm_compute. reflexivity. Qed.

(** The events can happen one after the other. *)
Fixpoint can_run (es : list event) (w : @world toynet) : Prop :=
  match es with
  | [] => True
  | e :: es' =>
      admissible t_table w e /\ enough_fuel t_table t_busy 100 w e /\
      can_run es' (run_event aton0 no_message no_message storage0 0 100 e w).2
  end.

Lemma can_run_session es w :
  can_run es w -> session t_table t_busy aton0 no_message no_message storage0 0 w es (run_events es w).2.
Proof.
  revert w. induction es as [|e es IH]; intros w; [constructor|]. intros (Hadm & Hfuel & Hrest). cbn [run_events].
  destruct (run_event _ _ _ _ _ _ e w) as [a w'] eqn:Hrun. apply IH in Hrest. cbn in Hrest.
  destruct (run_events es w') as [rest w2]. by econstructor.
Qed.

Lemma can_run0 : can_run events0 w0.
Proof.
  split; [cbn [admissible]; by_decide|]. split; [exact I|].
  do 5 (split; [split; [by_decide|cbn [valid]; lia || exact I]|]; split; [intros o _; split; [by_decide|exact I]|]).
  split; [cbn [admissible]; intros Hn; lia|]. split; [exact I|].
  split; [cbn [admissible]; by_decide|]. split; exact I.
Qed.

Lemma session0 : session t_table t_busy aton0 no_message no_message storage0 0 w0 events0 w1.
Proof. exact (can_run_session events0 w0 can_run0). Qed.

Lemma w1_typed : typed t_table w1.
Proof.
  eapply (session_typed t_table t_busy 0); [exact storage0_size|exact session0|]. by apply opened_typed.
Qed.

Example tcp_session_types_witness :
  typed t_table w1 /\
  (Forall (fun e => ~ hands_over e) events0 -> forall fd d, foreign t_table w1 fd d <-> t_table k0 !! fd = Some d) /\
  (forall e, admissible t_table w1 e -> exists fuel a w',
     run_event aton0 no_message no_message storage0 0 fuel e w1 = (a, w') /\ ends a /\ foreign_step t_table e w1 w').
Proof.
  apply (tcp_session_types t_table t_busy 0 aton0 no_message no_message storage0 0 ∅ k0 events0 w1
    storage0_size eq_refl session0).
Defined.

(** A script makes an object of descriptor 5, and lets go of it again, as [ssl.wrap]
    does. *)
Definition handover : list event := [Create (Some 5); Ask 5 (Setfd SOCKET_INVALID)].

Lemma can_run_handover : can_run handover w1.
Proof.
  split.
  - intros _. exists (Desc false true [] []). split; [vm_compute; reflexivity|]. intros i o Ho.
    apply (elem_of_map_to_list (objects w1)) in Ho. revert Ho. vm_compute.
    intros Ho. repeat (apply elem_of_cons in Ho as [Ho|Ho]; [by simplify_eq|]). by apply elem_of_nil in Ho.
  - split; [exact I|]. split; [split; [by_decide|by left]|]. split; [|exact I]. intros o _. split; [by_decide|exact I].
Qed.

(** The client that is left receives what its peer sends. *)
Definition client1 : t_tcp := default (TcpObject 0 (Timeout 0 0 0) (Buf 0 0 0 0 0 [])) (objects w1 !! 3%positive).

Example tcp_refines_streams_witness :
  exists a w', serve 100 aton0 no_message no_message storage0 0 3 (Receive (Text (of_string "*a")) []) w1 = (a, w') /\
    stream_step 3 (Receive (Text (of_string "*a")) []) a (conn_of t_table w1) (conn_of t_table w').
Proof.
  apply (tcp_refines_streams t_table t_busy 0 100 aton0 no_message no_message storage0 0 3
    (Receive (Text (of_string "*a")) []) client1 w1 storage0_size w1_typed); [vm_compute; reflexivity|exact I|].
  split; by_decide.
Defined.

Example received1 :
  (serve 100 aton0 no_message no_message storage0 0 3 (Receive (Text (of_string "*a")) []) w1).1 =
    Ok [VStr (of_string "world"); VNil; VNil].
Proof. vm_compute. reflexivity. Qed.
