(* ===== verification/Udp.v ===== *)
(** * UDP objects (luasocket's [udp.c])

    An object is a descriptor with time limits in one of two classes: connected to
    one peer, or not.  Datagrams are received through an array on the C stack,
    whose size bounds what a call may store. *)

From S2P Require Import Prelude CString Lua Auxiliar Transport Socket Net SocketOps Inet Tcp.
Open Scope Z_scope.

Definition UDP_DATAGRAMSIZE : nat := Z.to_nat 8192.
Definition SOCK_DGRAM : Z := 2.

(** [static luaL_reg udp[]] *)
Definition udp : list (string * string) := [
  ("__gc", "meth_close"); ("__tostring", "auxiliar_tostring"); ("close", "meth_close"); ("dirty", "meth_dirty");
  ("getfd", "meth_getfd"); ("getpeername", "meth_getpeername"); ("getsockname", "meth_getsockname");
  ("receive", "meth_receive"); ("receivefrom", "meth_receivefrom"); ("send", "meth_send"); ("sendto", "meth_sendto");
  ("setfd", "meth_setfd"); ("setoption", "meth_setoption"); ("setpeername", "meth_setpeername");
  ("setsockname", "meth_setsockname"); ("settimeout", "meth_settimeout")
]%string.

Definition udp_open (r : registry) : registry :=
  let r := auxiliar_newclass "udp{connected}" udp r in
  let r := auxiliar_newclass "udp{unconnected}" udp r in
  let r := auxiliar_add2group "udp{connected}" "udp{any}" r in
  let r := auxiliar_add2group "udp{unconnected}" "udp{any}" r in
  let r := auxiliar_add2group "udp{connected}" "select{able}" r in
  auxiliar_add2group "udp{unconnected}" "select{able}" r.

Record t_udp : Type := UdpObject { u_sock : Z; u_tm : t_timeout }.

Section Udp.
Context {N : Type} `{Net N} (fuel : nat) (aton : bytes -> option Z).
Context (strerror hstrerror : Z -> string).
(** What memory holds that has just been allocated. *)
Context (noise : Z).

Record world : Type := World {
  classes : registry;
  class_of : gmap positive string;
  objects : gmap positive t_udp;
  net : N
}.

Definition with_object (i : positive) (o : t_udp) (k : N) (w : world) : world :=
  World (classes w) (class_of w) (<[i := o]> (objects w)) k.

Definition object (i : positive) : C world t_udp :=
  let! w := get in
  match objects w !! i with
  | Some o => ret o
  | None => stop (Undefined "no such object")
  end.

Definition on_sock {A} (i : positive) (m : C (@sock N) A) : C world A :=
  let! o := object i in
  zoom (fun w => Sock (u_sock o) (u_tm o) (net w))
    (fun s => with_object i (UdpObject (fd s) (tm s)) (os s)) m.

Definition checkclass (c : string) (i : positive) : C world unit :=
  let! w := get in auxiliar_checkclass (classes w) c (class_of w !! i).
Definition checkgroup (i : positive) : C world unit :=
  let! w := get in auxiliar_checkgroup (classes w) "udp{any}" (class_of w !! i).
Definition setclass (c : string) (i : positive) : C world unit :=
  modify (fun w => World (classes w) (partial_alter (fun _ => auxiliar_setclass (classes w) c) i (class_of w))
    (objects w) (net w)).

(** The conversion of a number to a C type of [size] values from 0. *)
Definition to_unsigned (size n : Z) : C world Z :=
  if decide (0 <= n < size) then ret n else stop (Undefined "conversion of a number").

Definition udp_strerror (err : Z) : C world (option string) :=
  if decide (err = IO_CLOSED) then ret (Some "refused"%string)
  else
    let! w := get in
    ret (socket_strerror strerror (net_errno (net w)) err).

Definition refused (err : Z) : C world answer :=
  let! msg := udp_strerror err in ret (failed msg).

(** ** Methods *)

Definition meth_send (i : positive) (data : bytes) : C world answer :=
  checkclass "udp{connected}" i ;;;
  let! '(err, sent) := on_sock i (timeout_start ;;;
    let! s := get in @socket_send N (net_kernel (fd s)) fuel data) in
  if decide (err <> IO_DONE) then refused err
  else ret [VNum (Z.of_nat sent)].

Definition meth_sendto (i : positive) (data ip : bytes) (port : Z) : C world answer :=
  checkclass "udp{unconnected}" i ;;;
  let! port := to_unsigned 65536 port in
  match aton ip with
  | None => stop (LuaError "invalid ip address")
  | Some addr =>
      let! '(err, sent) := on_sock i (timeout_start ;;; socket_sendto fuel data (SockAddr AF_INET addr port)) in
      if decide (err <> IO_DONE) then refused err
      else ret [VNum (Z.of_nat sent)]
  end.

(** The count a script asks for, as a [size_t], and the part of it the array can
    hold. *)
Definition datagram_count (count : option Z) : C world nat :=
  let! count := to_unsigned (2 ^ 64) (default (Z.of_nat UDP_DATAGRAMSIZE) count) in
  ret (if decide (count < Z.of_nat UDP_DATAGRAMSIZE) then Z.to_nat count else UDP_DATAGRAMSIZE).

Definition meth_receive (i : positive) (count : option Z) : C world answer :=
  checkgroup i ;;;
  let! count := datagram_count count in
  let! '(err, got) := on_sock i (timeout_start ;;;
    let! s := get in @socket_recv N (net_kernel (fd s)) fuel count) in
  if decide (err <> IO_DONE) then refused err
  else ret [VStr got].

Definition meth_receivefrom (i : positive) (count : option Z) : C world answer :=
  checkclass "udp{unconnected}" i ;;;
  let! count := datagram_count count in
  let! '(err, got) := on_sock i (timeout_start ;;; socket_recvfrom fuel count) in
  match got with
  | Some (data, from) => ret [VStr data; VStr (inet_ntoa (sin_addr from)); VNum (sin_port from)]
  | None => refused err
  end.

Definition meth_getfd (i : positive) : C world answer :=
  checkgroup i ;;;
  let! o := object i in
  ret [VNum (u_sock o)].

Definition meth_setfd (i : positive) (fd : Z) : C world answer :=
  checkgroup i ;;;
  let! o := object i in
  modify (fun w => with_object i (UdpObject fd (u_tm o)) (net w) w) ;;;
  ret [].

Definition meth_dirty (i : positive) : C world answer :=
  checkgroup i ;;;
  ret [VBool false].

Definition on_inet (m : C (@Inet.world N) Z) : C world answer :=
  let! w := get in
  let '(o, w') := m (Inet.World (Lua [] ∅ 1%positive) (net w)) in
  match o with
  | Ok n => ret (of_lval <$> rev (take (Z.to_nat n) (stack (state_of w'))))
  | Stop f => stop f
  end.

Definition meth_getpeername (i : positive) : C world answer :=
  checkclass "udp{connected}" i ;;;
  let! o := object i in
  on_inet (inet_meth_getpeername (u_sock o)).

Definition meth_getsockname (i : positive) : C world answer :=
  checkgroup i ;;;
  let! o := object i in
  on_inet (inet_meth_getsockname (u_sock o)).

(** [static t_opt opt[]] *)
Definition udp_options : list (string * (Z -> optval -> C N bool)) := [
  ("dontroute", opt_dontroute); ("broadcast", opt_broadcast); ("reuseaddr", opt_reuseaddr)
]%string.

Definition meth_setoption (i : positive) (name : string) (v : optval) : C world answer :=
  checkgroup i ;;;
  let! o := object i in
  let! ok := on_sock i (on_os (opt_meth_setoption udp_options (u_sock o) name v)) in
  ret (if ok : bool then done_1 else failed (Some "setsockopt failed"%string)).

Definition meth_settimeout (i : positive) (t : Z) (mode : ascii) : C world answer :=
  checkgroup i ;;;
  on_sock i (fun s =>
    match timeout_meth_settimeout t mode (tm s) with
    | Ok tm => (Ok done_1, Sock (fd s) tm (os s))
    | Stop f => (Stop f, s)
    end).

(** [*] instead of an address ends a connection, and then the port may be left
    out.  The limits keep the start of an earlier call. *)
Definition meth_setpeername (i : positive) (address : bytes) (port : option Z) : C world answer :=
  checkgroup i ;;;
  let connecting := negb (str_eq address (of_string "*")) in
  let! port :=
    match port with
    | Some port => to_unsigned 65536 port
    | None => if connecting : bool then stop (LuaError "bad argument: number expected") else ret 0
    end in
  let! err := on_sock i (inet_tryconnect fuel aton strerror hstrerror address port) in
  match err with
  | Some _ => ret (failed err)
  | None =>
      setclass (if connecting then "udp{connected}" else "udp{unconnected}") i ;;;
      ret done_1
  end.

Definition meth_close (i : positive) : C world answer :=
  checkgroup i ;;;
  on_sock i socket_destroy ;;;
  ret done_1.

Definition meth_setsockname (i : positive) (address : bytes) (port : Z) : C world answer :=
  checkclass "udp{unconnected}" i ;;;
  let! port := to_unsigned 65536 port in
  let! err := on_sock i (inet_trybind aton strerror hstrerror address port) in
  ret (match err with Some _ => failed err | None => done_1 end).

Definition global_create : C world answer :=
  let! w := get in
  let '(o, s) := inet_trycreate strerror SOCK_DGRAM (Sock noise (Timeout noise noise noise) (net w)) in
  put (World (classes w) (class_of w) (objects w) (os s)) ;;;
  match o with
  | Stop f => stop f
  | Ok (Some msg) => ret (failed (Some msg))
  | Ok None =>
      let i := fresh (dom (objects w)) in
      setclass "udp{unconnected}" i ;;;
      modify (fun w =>
        let tm0 := timeout_init (-1000000) (-1000000) (Timeout noise noise noise) in
        let k := (socket_setnonblocking (Sock (Socket.fd s) tm0 (net w))).2 in
        with_object i (UdpObject (Socket.fd s) tm0) (os k) w) ;;;
      ret [VObj i]
  end.
End Udp.

(** ** Receiving a datagram *)

Section Receiving.
Context {N : Type} (descs : N -> gmap Z desc) (patience : N -> nat) (delta : Z)
  `{NetLaws N descs patience delta} (fuel : nat).
Context (strerror : Z -> string).

Local Abbreviation world := (@world N).

(** What a call to receive may take. *)
Definition limit_of (count : option Z) : nat := Nat.min (Z.to_nat (default 8192 count)) UDP_DATAGRAMSIZE.

Lemma wp_datagram_count count Q (w : world) :
  0 <= default 8192 count < 2 ^ 64 -> wp (datagram_count count) Q w = Q (Ok (limit_of count)) w.
Proof.
  intros Hc. unfold datagram_count, to_unsigned, limit_of. change (Z.of_nat UDP_DATAGRAMSIZE) with 8192.
  rewrite wp_bind, decide_True, wp_ret by done. cbn [then_post]. rewrite wp_ret. f_equal. f_equal.
  unfold UDP_DATAGRAMSIZE. case_decide; lia.
Qed.

Lemma wp_udp_class {A} c i (m : C world A) Q (w : world) :
  class_of w !! i = Some c -> is_Some (classes w !! c) -> wp m Q w -> wp (checkclass c i ;;; m) Q w.
Proof.
  intros Hc Hr Hm. unfold checkclass. rewrite wp_bind, wp_bind, wp_get. cbn [then_post]. unfold auxiliar_checkclass, auxiliar_getclassudata.
  rewrite bool_decide_true by done. by rewrite wp_ret.
Qed.

Lemma wp_udp_sock {A} i o (m : C (@sock N) A) Q (w : world) :
  objects w !! i = Some o ->
  wp (on_sock i m) Q w =
    wp m (fun r s => Q r (with_object i (UdpObject (fd s) (tm s)) (os s) w)) (Sock (u_sock o) (u_tm o) (net w)).
Proof.
  intros Ho. unfold on_sock, object. rewrite wp_bind, wp_bind, wp_get. cbn [then_post]. rewrite Ho.
  rewrite wp_ret. cbn [then_post]. by rewrite wp_zoom.
Qed.

Lemma wp_udp_refused err (w : world) :
  err <> IO_DONE -> wp (refused strerror err) (fun a w' => w' = w /\ exists msg, a = Ok [VNil; VStr (of_string msg)]) w.
Proof.
  intros Herr. unfold refused, udp_strerror. rewrite wp_bind. case_decide.
  - rewrite wp_ret. cbn [then_post]. rewrite wp_ret. split; [done|]. by eexists.
  - rewrite wp_bind, wp_get. cbn [then_post]. rewrite wp_ret. cbn [then_post]. rewrite wp_ret. split; [done|].
    destruct (socket_strerror _ _ err) as [msg|] eqn:Hmsg; [by exists msg|].
    by apply strerror_none in Hmsg.
Qed.

Lemma wp_receivefrom i count o (w : world) :
  objects w !! i = Some o -> class_of w !! i = Some "udp{unconnected}"%string ->
  is_Some (classes w !! "udp{unconnected}"%string) -> 0 <= default 8192 count < 2 ^ 64 ->
  (u_sock o <> SOCKET_INVALID -> does_not_block descs (u_sock o) (net w)) -> (patience (net w) < fuel)%nat ->
  let started := timeout_markstart (net_time (net w)) (u_tm o) in
  wp (meth_receivefrom fuel strerror i count)
    (fun a w' => objects w' = <[i := UdpObject (u_sock o) started]> (objects w) /\ class_of w' = class_of w /\
       descs (net w') = descs (net w) /\
       (forall D, deadline started = Some D ->
          net_time (net w') <= Z.max (net_time (net w)) D + overrun delta (patience (net w))) /\
       ((exists d from, a = Ok [VStr d; VStr (inet_ntoa (sin_addr from)); VNum (sin_port from)] /\
                        (0 < length d <= limit_of count)%nat) \/
        exists msg, a = Ok [VNil; VStr (of_string msg)])) w.
Proof.
  intros Ho Hc Hr Hcount Hnb Hfuel started. unfold meth_receivefrom. apply (wp_udp_class _ _ _ _ _ Hc Hr).
  rewrite wp_bind, wp_datagram_count by done. cbn [then_post].
  rewrite wp_bind, (wp_udp_sock i o) by done. unfold timeout_start. rewrite wp_bind, wp_modify. cbn [then_post fd tm os].
  eapply wp_mono; [by eapply (wp_socket_recvfrom descs patience delta)|].
  intros r s (e & got & -> & (Hf & Htm & Hp) & Hd & Ht & Hgot). cbn in Hf, Htm, Hd. cbn [then_post].
  set (w1 := with_object i _ _ w).
  assert (objects w1 = <[i := UdpObject (u_sock o) started]> (objects w)) as Hw1 by (cbn; by rewrite Hf, Htm).
  destruct got as [[d from]|].
  - rewrite wp_ret. do 4 (split; [done|]). left. exists d, from. split; [done|]. lia.
  - eapply wp_mono; [by apply wp_udp_refused|]. intros a w' (-> & msg & ->). do 4 (split; [done|]). right. by exists msg.
Qed.
End Receiving.

(** C20: a datagram object never takes more of a datagram than the array on the
    stack holds, whatever count from 0 up the script asks for: [receivefrom] ends within the
    object's time limit with at least one and at most that many octets and the
    address they came from, or with [nil] and a message, and leaves the object and
    all descriptors as they were. *)
Theorem udp_receivefrom_bounded {N} descs patience delta `{NetLaws N descs patience delta}
    fuel strerror i count o (w : @world N) :
  objects w !! i = Some o -> class_of w !! i = Some "udp{unconnected}"%string ->
  is_Some (classes w !! "udp{unconnected}"%string) -> 0 <= default 8192 count < 2 ^ 64 ->
  (u_sock o <> SOCKET_INVALID -> does_not_block descs (u_sock o) (net w)) -> (patience (net w) < fuel)%nat ->
  let started := timeout_markstart (net_time (net w)) (u_tm o) in
  exists a w', meth_receivefrom fuel strerror i count w = (Ok a, w') /\
    objects w' = <[i := UdpObject (u_sock o) started]> (objects w) /\ class_of w' = class_of w /\
    descs (net w') = descs (net w) /\
    (forall D, deadline started = Some D ->
       net_time (net w') <= Z.max (net_time (net w)) D + overrun delta (patience (net w))) /\
    ((exists d from, a = [VStr d; VStr (inet_ntoa (sin_addr from)); VNum (sin_port from)] /\
        (0 < length d <= UDP_DATAGRAMSIZE)%nat /\ (length d <= Z.to_nat (default 8192%Z count))%nat) \/
     exists msg, a = [VNil; VStr (of_string msg)]).
Proof.
  intros Ho Hc Hr Hcount Hnb Hfuel started.
  pose proof (wp_receivefrom descs patience delta fuel strerror i count o w Ho Hc Hr Hcount Hnb Hfuel) as Hwp.
  apply wp_run in Hwp as (a & w' & Hrun & Hobj & Hcl & Hd & Ht & [(d & from & -> & Hlen)|(msg & ->)]);
    eexists _, w'; do 5 (split; [done|]); [left|right; by exists msg].
  exists d, from. unfold limit_of in Hlen. split; [done|]. lia.
Qed.

(** An object of a session: made by [udp()]; its class is registered. *)
Definition udp0 : @world toynet :=
  (global_create (fun _ => ""%string) 0 (World (udp_open ∅) ∅ ∅ net0)).2.

Example udp_receivefrom_bounded_witness :
  let o := default (UdpObject 0 (Timeout 0 0 0)) (objects udp0 !! 1%positive) in
  let started := timeout_markstart (net_time (net udp0)) (u_tm o) in
  exists a w', meth_receivefrom 10 (fun _ => ""%string) 1 (Some 100000) udp0 = (Ok a, w') /\
    objects w' = <[1%positive := UdpObject (u_sock o) started]> (objects udp0) /\ class_of w' = class_of udp0 /\
    t_table (net w') = t_table (net udp0) /\
    (forall D, deadline started = Some D ->
       net_time (net w') <= Z.max (net_time (net udp0)) D + overrun 0 (t_busy (net udp0))) /\
    ((exists d from, a = [VStr d; VStr (inet_ntoa (sin_addr from)); VNum (sin_port from)] /\
        (0 < length d <= UDP_DATAGRAMSIZE)%nat /\ (length d <= Z.to_nat (default 8192%Z (Some 100000%Z)))%nat) \/
     exists msg, a = [VNil; VStr (of_string msg)]).
Proof.
  apply (udp_receivefrom_bounded t_table t_busy 0 10 (fun _ => ""%string) 1%positive (Some 100000)); try by_decide.
  - vm_compute. reflexivity.
  - intros _. eexists. split; [vm_compute; reflexivity|reflexivity].
Defined.
