(* ===== verification/Select.v ===== *)
(** * Waiting for many objects (luasocket's [select.c])

    [select] takes two Lua tables of objects, asks each for its descriptor, waits
    with one system call, and returns the objects that are ready.  An object may
    hold octets it has already read; it is then ready without a wait.  What the
    methods [getfd] and [dirty] of an object do is a parameter. *)

From S2P Require Import Prelude CString Lua Socket Net SocketOps.
Open Scope Z_scope.

Definition FD_SETSIZE : Z := 1024.

(** A descriptor outside the bit set is written outside its storage. *)
Definition FD_SET (fd : Z) (set : gset Z) : outcome (gset Z) :=
  if decide (0 <= fd < FD_SETSIZE) then Ok ({[fd]} ∪ set) else Stop (Undefined "descriptor outside fd_set").

Definition FD_CLR (fd : Z) (set : gset Z) : gset Z := set ∖ {[fd]}.

Section Select.
Context {S N : Type} `{Net N} (fuel : nat).

(** The objects and the system they share; what indexing an object with the name
    of a method and calling that on the object does ([None] without such a
    field). *)
Context (net : S -> N) (with_net : N -> S -> S) (ask : string -> lval -> C S (option lval)).

Record world : Type := World { state_of : lua; objects_of : S }.

Definition on_lua {A} (m : C lua A) : C world A := zoom state_of (fun l w => World l (objects_of w)) m.
Definition on_objects {A} (m : C S A) : C world A := zoom objects_of (fun s w => World (state_of w) s) m.
Definition on_net {A} (m : C N A) : C world A := on_objects (zoom net with_net m).
Definition lift {A} (o : outcome A) : C world A := fun w => (o, w).

(** The object on the top of the stack is asked. *)
Definition call_method (name : string) : C world (option lval) :=
  let! o := on_lua (at_index (-1) ret) in
  on_objects (ask name o).

Definition getfd : C world Z :=
  let! r := call_method "getfd" in
  ret (match r with Some (LNumber fd) => fd | _ => SOCKET_INVALID end).

Definition lua_toboolean (v : lval) : bool :=
  match v with LNil | LBool false => false | _ => true end.

Definition dirty : C world bool :=
  let! r := call_method "dirty" in
  ret (match r with Some v => lua_toboolean v | None => false end).

Definition lua_isnil (i : Z) : C lua bool :=
  let! t := lua_type i in ret (bool_decide (t = LUA_TNIL)).

(** The descriptors of the objects of a table: the greatest, and the set.  A round
    stores the object on the top at its descriptor. *)
Definition collect_round (itab i max_fd : Z) (set : gset Z) : C world (Z * Z * gset Z + Z * gset Z) :=
  let! fd := getfd in
  let! '(max_fd, set) :=
    if decide (fd <> SOCKET_INVALID) then
      let! set := lift (FD_SET fd set) in
      let max_fd := if decide (max_fd = SOCKET_INVALID \/ max_fd < fd) then fd else max_fd in
      on_lua (lua_pushnumber fd) ;;;
      on_lua (lua_pushvalue (-2)) ;;;
      on_lua (lua_settable itab) ;;;
      ret (max_fd, set)
    else ret (max_fd, set) in
  on_lua (lua_pop 1) ;;;
  ret (inl (i + 1, max_fd, set)).

Definition collect_fd (tab max_fd itab : Z) (set : gset Z) : C world (Z * gset Z) :=
  let! none := on_lua (lua_isnil tab) in
  if none : bool then ret (max_fd, set)
  else
    loop fuel (fun '(i, max_fd, set) =>
      on_lua (lua_pushnumber i) ;;;
      on_lua (lua_gettable tab) ;;;
      let! none := on_lua (lua_isnil (-1)) in
      if none : bool then on_lua (lua_pop 1) ;;; ret (inr (max_fd, set))
      else collect_round itab i max_fd set) (1, max_fd, set).

(** The objects of a table that hold octets already: how many, stored at [dtab],
    and the set without them. *)
Definition dirty_round (dtab i ndirty : Z) (set : gset Z) : C world (Z * Z * gset Z + Z * gset Z) :=
  let! fd := getfd in
  let! full := if decide (fd <> SOCKET_INVALID) then dirty else ret false in
  let! '(ndirty, set) :=
    if full : bool then
      on_lua (lua_pushnumber (ndirty + 1)) ;;;
      on_lua (lua_pushvalue (-2)) ;;;
      on_lua (lua_settable dtab) ;;;
      ret (ndirty + 1, FD_CLR fd set)
    else ret (ndirty, set) in
  on_lua (lua_pop 1) ;;;
  ret (inl (i + 1, ndirty, set)).

Definition check_dirty (tab dtab : Z) (set : gset Z) : C world (Z * gset Z) :=
  let! none := on_lua (lua_isnil tab) in
  if none : bool then ret (0, set)
  else
    loop fuel (fun '(i, ndirty, set) =>
      on_lua (lua_pushnumber i) ;;;
      on_lua (lua_gettable tab) ;;;
      let! none := on_lua (lua_isnil (-1)) in
      if none : bool then on_lua (lua_pop 1) ;;; ret (inr (ndirty, set))
      else dirty_round dtab i ndirty set) (1, 0, set).

(** The objects whose descriptors are left in the set, after the first [start]
    values of a table. *)
Definition return_fd (set : gset Z) (max_fd itab tab start : Z) : C world unit :=
  loop (Datatypes.S (Z.to_nat max_fd)) (fun '(fd, start) =>
    if decide (fd < max_fd) then
      if decide (fd ∈ set) then
        on_lua (lua_pushnumber (start + 1)) ;;;
        on_lua (lua_pushnumber fd) ;;;
        on_lua (lua_gettable itab) ;;;
        on_lua (lua_settable tab) ;;;
        ret (inl (fd + 1, start + 1))
      else ret (inl (fd + 1, start))
    else ret (inr tt)) (0, start).

(** A new table with the values of another, and their places. *)
Definition make_assoc (tab : Z) : C world unit :=
  on_lua lua_newtable ;;;
  let! atab := on_lua lua_gettop in
  loop fuel (fun i =>
    on_lua (lua_pushnumber i) ;;;
    on_lua (lua_gettable tab) ;;;
    let! none := on_lua (lua_isnil (-1)) in
    if negb none then
      on_lua (lua_pushnumber i) ;;;
      on_lua (lua_pushvalue (-2)) ;;;
      on_lua (lua_settable atab) ;;;
      on_lua (lua_pushnumber i) ;;;
      on_lua (lua_settable atab) ;;;
      ret (inl (i + 1))
    else on_lua (lua_pop 1) ;;; ret (inr tt)) 1.

(** The limit, in seconds; none without one. *)
Definition opt_limit : C lua Z :=
  at_index 3 (fun v => match v with
    | LNil => ret no_limit
    | LNumber t => ret (t * 1000000)
    | _ => stop (LuaError "bad argument: number expected")
    end).

(** What the script is given, after [select] answered [r]. *)
Definition select_answer (itab rtab wtab max_fd ndirty r : Z) (rset wset : gset Z) : C world Z :=
  if decide (0 < r \/ 0 < ndirty) then
    return_fd rset (max_fd + 1) itab rtab ndirty ;;;
    return_fd wset (max_fd + 1) itab wtab 0 ;;;
    make_assoc rtab ;;;
    make_assoc wtab ;;;
    ret 2
  else if decide (r = 0) then on_lua (lua_pushliteral "timeout") ;;; ret 3
  else on_lua (lua_pushliteral "error") ;;; ret 3.

(** What is done once the three tables were made. *)
Definition select_objects (itab rtab wtab t : Z) : C world Z :=
  let! '(max_fd, rset) := collect_fd 1 SOCKET_INVALID itab ∅ in
  let! '(ndirty, rset) := check_dirty 1 rtab rset in
  let t := if decide (0 < ndirty) then 0 else t in
  let! now := on_net (gets net_time) in
  let tm := timeout_markstart now (timeout_init t no_limit (Timeout 0 0 0)) in
  let! '(max_fd, wset) := collect_fd 2 max_fd itab ∅ in
  let! '(r, sets) := on_net (socket_select fuel (max_fd + 1) rset wset ∅ tm) in
  let '(rset, wset, _) := sets in
  select_answer itab rtab wtab max_fd ndirty r rset wset.

Definition global_select : C world Z :=
  let! t := on_lua opt_limit in
  on_lua (lua_settop 3) ;;;
  on_lua lua_newtable ;;;
  let! itab := on_lua lua_gettop in
  on_lua lua_newtable ;;;
  let! rtab := on_lua lua_gettop in
  on_lua lua_newtable ;;;
  let! wtab := on_lua lua_gettop in
  select_objects itab rtab wtab t.
End Select.

(** ** Tables *)

(** A table of objects, or nothing. *)
Definition objects_in (L : lua) (v : lval) (os : list positive) : Prop :=
  (v = LNil /\ os = []) \/
  exists t, v = LTable t /\ is_Some (tables L !! t) /\ array L t (LUserdata <$> os).

Lemma wp_isnil i v Q L : holds L i v -> wp (lua_isnil i) Q L = Q (Ok (bool_decide (v = LNil))) L.
Proof.
  intros Hi. unfold lua_isnil. rewrite wp_bind, (wp_lua_type _ _ _ _ Hi). cbn [then_post]. rewrite wp_ret.
  f_equal. f_equal. apply bool_decide_ext. by destruct v.
Qed.

Lemma array_ext L L' t l : (forall k, field L' t k = field L t k) -> array L t l -> array L' t l.
Proof. intros Hf Ha i Hi. rewrite Hf. by apply Ha. Qed.

Lemma array_extend L t l l' :
  array L t l -> array (add_values t (Z.of_nat (length l) + 1) l' L) t (l ++ l').
Proof.
  intros Ha i Hi. rewrite field_add_values. case_decide as Hin.
  - rewrite lookup_app_r by lia. do 2 f_equal. lia.
  - rewrite (Ha i Hi). f_equal. destruct (decide (i <= Z.of_nat (length l))) as [Hle|Hgt].
    + by rewrite lookup_app_l by lia.
    + rewrite !lookup_ge_None_2; [done|rewrite length_app; lia|lia].
Qed.


(** The members of a set of descriptors below a bound, in order. *)
Definition ascending (set : gset Z) (m : Z) : list Z := filter (fun fd => fd ∈ set) (seqZ 0 m).

Lemma ascending_snoc set n :
  ascending set (Z.of_nat n + 1) =
    if decide (Z.of_nat n ∈ set) then ascending set (Z.of_nat n) ++ [Z.of_nat n] else ascending set (Z.of_nat n).
Proof.
  unfold ascending. replace (Z.of_nat n + 1) with (Z.of_nat (Datatypes.S n)) by lia.
  rewrite seqZ_S, filter_app, filter_cons, filter_nil, Z.add_0_l. case_decide; [done|by rewrite app_nil_r].
Qed.

Lemma ascending_bound set m m' :
  0 <= m <= m' -> (forall fd, fd ∈ set -> fd < m) -> ascending set m = ascending set m'.
Proof.
  intros Hm Hset. unfold ascending. replace m' with (m + (m' - m)) at 1 by lia. rewrite seqZ_app, filter_app by lia.
  rewrite (filter_none _ (seqZ (0 + m) _)), app_nil_r; [done|].
  intros fd Hfd%elem_of_seqZ Hin. specialize (Hset fd Hin). lia.
Qed.

Lemma ascending_elem set m fd : fd ∈ ascending set m <-> fd ∈ set /\ 0 <= fd < m.
Proof. unfold ascending. rewrite list_elem_of_filter, elem_of_seqZ. split; intros [? ?]; (split; [done|lia]). Qed.

(** A change to one table, the stack as it was. *)
Definition writes (t : positive) (L L' : lua) : Prop :=
  stack L' = stack L /\ (forall t', is_Some (tables L !! t') -> is_Some (tables L' !! t')) /\
  forall t' k, t' <> t -> field L' t' k = field L t' k.

Lemma writes_refl t L : writes t L L.
Proof. by split. Qed.

Lemma writes_trans t L1 L2 L3 : writes t L1 L2 -> writes t L2 L3 -> writes t L1 L3.
Proof.
  intros (Hs1 & Ht1 & Hf1) (Hs2 & Ht2 & Hf2). split; [congruence|]. split; [auto|].
  intros t' k Ht. by rewrite Hf2, Hf1.
Qed.

Lemma writes_add_field t k v L : writes t L (add_field t k v L).
Proof.
  split; [done|]. split; [by intros t'; apply is_table_add_field|].
  intros t' k' Ht. by rewrite field_add_field, decide_False by naive_solver.
Qed.

Lemma writes_add_values t i l L : writes t L (add_values t i l L).
Proof.
  revert i L. induction l as [|x l IH]; intros i L; [apply writes_refl|]. cbn.
  eapply writes_trans; [apply writes_add_field|apply IH].
Qed.

Lemma keeps_writes t L0 L L' : tables L0 !! t = None -> keeps_tables L0 L -> writes t L L' -> keeps_tables L0 L'.
Proof.
  intros Hnew Hkeep (_ & Ht & Hf) t' Hold. destruct (Hkeep t' Hold) as [Hold' Hf']. split; [by apply Ht|].
  intros k. rewrite Hf; [by apply Hf'|]. intros ->. rewrite Hnew in Hold. by destruct Hold.
Qed.

Lemma keeps_new t L0 L st :
  keeps_tables L0 L -> tables L !! t = None ->
  keeps_tables L0 (Lua st (<[t := ∅]> (tables L)) (globals L)) /\ tables L0 !! t = None.
Proof.
  intros Hkeep Hnew. split.
  - intros t' Hold. destruct (Hkeep t' Hold) as [Hold' Hf]. assert (t' <> t) as Hne
      by (intros ->; rewrite Hnew in Hold'; by destruct Hold').
    cbn. rewrite lookup_insert_ne by done. split; [done|]. intros k. unfold field. cbn.
    rewrite lookup_insert_ne by done. apply Hf.
  - apply eq_None_not_Some. intros Hold. destruct (Hkeep t Hold) as [[? Hs] _]. congruence.
Qed.

(** Values and their places, both ways. *)
Fixpoint assoc_all (a : positive) (i : Z) (ps : list positive) (L : lua) : lua :=
  match ps with
  | [] => L
  | p :: ps' =>
      assoc_all a (i + 1) ps' (add_field a (KUser p) (LNumber i) (add_field a (KNum i) (LUserdata p) L))
  end.

Lemma assoc_all_snoc a i ps p L :
  assoc_all a i (ps ++ [p]) L =
    let j := i + Z.of_nat (length ps) in
    add_field a (KUser p) (LNumber j) (add_field a (KNum j) (LUserdata p) (assoc_all a i ps L)).
Proof.
  revert i L. induction ps as [|q ps IH]; intros i L; cbn [app assoc_all length]; [by rewrite Z.add_0_r|].
  rewrite IH. cbv zeta. by replace (i + 1 + Z.of_nat (length ps)) with (i + Z.of_nat (Datatypes.S (length ps))) by lia.
Qed.

Lemma stack_assoc_all a i ps L : stack (assoc_all a i ps L) = stack L.
Proof. revert i L. induction ps as [|p ps IH]; intros i L; [done|]. cbn. by rewrite IH. Qed.

Lemma field_assoc_all_other a i ps L t k : t <> a -> field (assoc_all a i ps L) t k = field L t k.
Proof.
  intros Ht. revert i L. induction ps as [|p ps IH]; intros i L; [done|]. cbn [assoc_all]. rewrite IH.
  by rewrite !field_add_field, !decide_False by naive_solver.
Qed.

Lemma writes_assoc_all t i ps L : writes t L (assoc_all t i ps L).
Proof.
  revert i L. induction ps as [|p ps IH]; intros i L; [apply writes_refl|]. cbn.
  do 2 (eapply writes_trans; [apply writes_add_field|]). apply IH.
Qed.

(** What a script gets: the objects from 1 on, and for each its place. *)
Definition assoc (L : lua) (a : positive) (ps : list positive) : Prop :=
  array L a (LUserdata <$> ps) /\
  forall p, (p ∉ ps -> field L a (KUser p) = LNil) /\
    (p ∈ ps -> exists n, ps !! n = Some p /\ field L a (KUser p) = LNumber (Z.of_nat n + 1)).

Lemma assoc_ext L L' a ps : (forall k, field L' a k = field L a k) -> assoc L a ps -> assoc L' a ps.
Proof. intros Hf [Ha Hp]. split; [by eapply array_ext|]. intros p. rewrite Hf. apply Hp. Qed.

Lemma assoc_assoc_all a ps L : (forall k, field L a k = LNil) -> assoc (assoc_all a 1 ps L) a ps.
Proof.
  intros Hnew. induction ps as [|q ps [Harr Hp]] using rev_ind.
  { split; [intros i Hi; by rewrite Hnew|]. intros p. rewrite Hnew. split; [done|set_solver]. }
  rewrite assoc_all_snoc. cbv zeta. set (j := 1 + Z.of_nat (length ps)). split.
  - intros i Hi. rewrite !field_add_field, decide_False by naive_solver. case_decide as Hij.
    + destruct Hij as [_ [= ->]]. replace (Z.to_nat (j - 1)) with (length (LUserdata <$> ps)) by (rewrite length_fmap; lia).
      rewrite fmap_app. cbn [fmap list_fmap]. by rewrite list_lookup_middle.
    + rewrite (Harr i Hi). f_equal. rewrite fmap_app. assert (i <> j) by naive_solver.
      destruct (decide (i < j)) as [Hlt|Hgt].
      * by rewrite lookup_app_l by (rewrite length_fmap; lia).
      * rewrite !lookup_ge_None_2; [done|rewrite length_app, length_fmap; cbn; lia|rewrite length_fmap; lia].
  - intros p. rewrite field_add_field. destruct (decide (p = q)) as [->|Hpq].
    + split; [set_solver|]. intros _. rewrite decide_True by done. exists (length ps).
      split; [by apply list_lookup_middle|f_equal; lia].
    + rewrite decide_False by naive_solver. rewrite field_add_field, decide_False by naive_solver.
      destruct (Hp p) as [Hno Hyes]. split; [intros Hn; apply Hno; set_solver|].
      intros [Hin|?%list_elem_of_singleton]%elem_of_app; [|done]. destruct (Hyes Hin) as (n & Hn & Hf).
      exists n. split; [by apply lookup_app_l_Some|done].
Qed.

(** ** Objects by descriptor *)

Section Index.
Context (g : positive -> Z).

(** Descriptors a set can hold. *)
Definition in_range (os : list positive) : Prop := forall p, p ∈ os -> g p = SOCKET_INVALID \/ 0 <= g p < FD_SETSIZE.

Lemma in_range_app os os' : in_range (os ++ os') <-> in_range os /\ in_range os'.
Proof. unfold in_range. setoid_rewrite elem_of_app. naive_solver. Qed.

(** An object with a descriptor. *)
Definition opened (p : positive) : Prop := g p <> SOCKET_INVALID.

#[global] Instance opened_dec p : Decision (opened p).
Proof. unfold opened. apply _. Defined.

Definition fds (os : list positive) : gset Z := list_to_set (g <$> filter opened os).

Lemma fds_snoc os p : fds (os ++ [p]) = if decide (opened p) then {[g p]} ∪ fds os else fds os.
Proof.
  unfold fds. rewrite filter_app, fmap_app, list_to_set_app_L, filter_cons, filter_nil. case_decide; cbn; set_solver.
Qed.

Lemma fds_elem os fd : fd ∈ fds os <-> exists p, p ∈ os /\ opened p /\ g p = fd.
Proof.
  unfold fds. rewrite elem_of_list_to_set, list_elem_of_fmap. setoid_rewrite list_elem_of_filter. naive_solver.
Qed.

(** Objects stored by descriptor. *)
Definition index_one (t : positive) (L : lua) (p : positive) : lua :=
  if decide (opened p) then add_field t (KNum (g p)) (LUserdata p) L else L.
Definition index_all (t : positive) (os : list positive) (L : lua) : lua := foldl (index_one t) L os.

Lemma stack_index_all t os L : stack (index_all t os L) = stack L.
Proof.
  revert L. induction os as [|p os IH]; intros L; [done|]. cbn. unfold index_all in IH. rewrite IH.
  unfold index_one. by case_decide.
Qed.

Lemma index_all_snoc it os p L : index_all it (os ++ [p]) L = index_one it (index_all it os L) p.
Proof. unfold index_all. by rewrite foldl_app. Qed.

Lemma field_index_all_other it os L t k : t <> it -> field (index_all it os L) t k = field L t k.
Proof.
  intros Ht. revert L. induction os as [|p os IH]; intros L; [done|]. cbn. unfold index_all in IH. rewrite IH.
  unfold index_one. case_decide; [|done]. by rewrite field_add_field, decide_False by naive_solver.
Qed.

Lemma writes_index_all t os L : writes t L (index_all t os L).
Proof.
  induction os as [|p os IH] using rev_ind; [apply writes_refl|]. rewrite index_all_snoc. unfold index_one.
  case_decide; [|done]. eapply writes_trans; [done|apply writes_add_field].
Qed.

Lemma field_index_all it os L fd :
  (exists p, p ∈ os /\ opened p /\ g p = fd /\ field (index_all it os L) it (KNum fd) = LUserdata p) \/
  (fd ∉ fds os /\ field (index_all it os L) it (KNum fd) = field L it (KNum fd)).
Proof.
  induction os as [|q os IH] using rev_ind; [right; split; [unfold fds; set_solver|done]|].
  rewrite index_all_snoc, fds_snoc. unfold index_one. case_decide as Hq.
  - rewrite field_add_field. destruct (decide (fd = g q)) as [->|Hne].
    + left. exists q. rewrite decide_True by done. set_solver.
    + rewrite decide_False by naive_solver. destruct IH as [(p & Hp & Ho & Hg & Hf)|[Hout Hf]]; [left|right; set_solver].
      exists p. set_solver.
  - destruct IH as [(p & Hp & Ho & Hg & Hf)|[Hout Hf]]; [left; exists p; set_solver|right; done].
Qed.

Definition max_one (m : Z) (p : positive) : Z :=
  if decide (opened p) then if decide (m = SOCKET_INVALID \/ m < g p) then g p else m else m.
Definition max_all (m : Z) (os : list positive) : Z := foldl max_one m os.

Lemma max_all_snoc m os p : max_all m (os ++ [p]) = max_one (max_all m os) p.
Proof. unfold max_all. by rewrite foldl_app. Qed.

Lemma max_all_bound m os :
  in_range os -> SOCKET_INVALID <= m < FD_SETSIZE ->
  m <= max_all m os < FD_SETSIZE /\ forall fd, fd ∈ fds os -> fd <= max_all m os.
Proof.
  intros Hr Hm. induction os as [|p os IH] using rev_ind.
  { split; [cbn; lia|]. intros fd Hfd%fds_elem. set_solver. }
  apply in_range_app in Hr as [Hr Hp]. destruct (IH Hr) as [Hb Hall]. specialize (Hp p ltac:(set_solver)).
  rewrite max_all_snoc. setoid_rewrite fds_snoc. unfold max_one, opened, SOCKET_INVALID, FD_SETSIZE in *.
  destruct (decide (g p <> -1)) as [Ho|Hc].
  - repeat case_decide; (split; [lia|]); intros fd [->%elem_of_singleton|Hfd]%elem_of_union; try lia; specialize (Hall _ Hfd); lia.
  - split; [done|]. intros fd Hfd. by apply Hall.
Qed.
End Index.

(** ** Loops over a table *)

Section Loops.
Context {S : Type} (fuel : nat) (s : S).

Local Abbreviation world := (@world S).
Local Abbreviation World L := (@Select.World S L s).

Lemma wp_on_lua {A} (m : C lua A) (Q : outcome A -> world -> Prop) L :
  wp (on_lua m) Q (World L) = wp m (fun o L' => Q o (World L')) L.
Proof. unfold on_lua. by rewrite wp_zoom. Qed.

(** The value of a table at the next index is pushed. *)
Lemma wp_next {A} i tab t (k : C world A) Q L :
  0 < tab -> holds L tab (LTable t) ->
  wp k Q (World (with_stack (field L t (KNum i) :: stack L) L)) ->
  wp (on_lua (lua_pushnumber i) ;;; on_lua (lua_gettable tab) ;;; k) Q (World L).
Proof.
  intros Htab Hh HQ. rewrite !wp_bind, wp_on_lua. unfold lua_pushnumber, push. rewrite wp_modify. cbn [then_post].
  rewrite wp_bind, wp_on_lua. rewrite (wp_gettable tab t (KNum i) (LNumber i) (stack L)); [done|done| |done].
  by apply (holds_push L tab _ [_]).
Qed.

(** The object on the top is stored at a number. *)
Lemma wp_store_top {A} z i t p st (k : C world A) Q L :
  0 < i -> stack L = LUserdata p :: st -> holds L i (LTable t) ->
  wp k Q (World (add_field t (KNum z) (LUserdata p) L)) ->
  wp (on_lua (lua_pushnumber z) ;;; on_lua (lua_pushvalue (-2)) ;;; on_lua (lua_settable i) ;;; k) Q (World L).
Proof.
  intros Hi Hs Hh HQ. rewrite wp_bind, wp_on_lua. unfold lua_pushnumber, push. rewrite wp_modify. cbn [then_post].
  rewrite wp_bind, wp_on_lua. rewrite (wp_pushvalue _ (LUserdata p)) by (apply (holds_top _ 1); [cbn; by rewrite Hs|done]).
  cbn [then_post]. rewrite wp_bind, wp_on_lua.
  rewrite (wp_settable i t (KNum z) (LNumber z) (LUserdata p) (stack L)); [|done..|].
  - cbn [then_post]. by destruct L.
  - by apply (holds_push L i _ [_; _]).
Qed.

Lemma wp_drop_top {A} v (k : C world A) Q L st :
  stack L = v :: st -> wp k Q (World (with_stack st L)) -> wp (on_lua (lua_pop 1) ;;; k) Q (World L).
Proof. intros Hs HQ. rewrite wp_bind, wp_on_lua. by erewrite wp_pop_one. Qed.

(** A loop over the objects of a table: [step] is what a round does with the
    object on the top of the stack, [I] what holds after the first of them. *)
Lemma wp_each {A B} tab t (os : list positive) (arg : A -> Z) (round : A -> C world (A + B)) (fin : A -> B)
    (I : list positive -> A -> lua -> Prop) Q :
  0 < tab ->
  (forall dn a L, I dn a L -> holds L tab (LTable t) /\ array L t (LUserdata <$> os) /\ arg a = Z.of_nat (length dn) + 1) ->
  (forall dn p rest a L, os = dn ++ p :: rest -> I dn a L ->
     wp (round a) (fun o w => exists a' L', o = Ok (inl a') /\ w = World L' /\ I (dn ++ [p]) a' L')
        (World (with_stack (LUserdata p :: stack L) L))) ->
  (forall a L, I os a L -> Q (Ok (fin a)) (World L)) ->
  (length os < fuel)%nat ->
  forall a L, I [] a L ->
  wp (loop fuel (fun a =>
        on_lua (lua_pushnumber (arg a)) ;;;
        on_lua (lua_gettable tab) ;;;
        let! none := on_lua (lua_isnil (-1)) in
        if none : bool then on_lua (lua_pop 1) ;;; ret (inr (fin a)) else round a) a) Q (World L).
Proof.
  intros Htab Hat Hround Hend Hfuel a0 L0 H0.
  apply (wp_loop_measure _ (fun a w => exists dn rest L, os = dn ++ rest /\ w = World L /\ I dn a L)
    (fun a _ => length os - Z.to_nat (arg a - 1))%nat).
  - intros a w (dn & rest & L & Hos & -> & HI). destruct (Hat _ _ _ HI) as (Hh & Harr & Harg).
    apply (wp_next (arg a) tab t); [done|done|]. rewrite (Harr (arg a)) by lia.
    replace (Z.to_nat (arg a - 1)) with (length dn + 0)%nat by lia.
    rewrite Hos, fmap_app, lookup_app_r, length_fmap, Nat.add_0_r, Nat.sub_diag by (rewrite length_fmap; lia).
    rewrite wp_bind, wp_on_lua. erewrite wp_isnil by by apply (holds_top _ 0).
    destruct rest as [|p rest]; cbn [fmap list_fmap lookup list_lookup default then_post].
    + rewrite bool_decide_true by done. rewrite wp_bind, wp_on_lua. erewrite wp_pop_one by done.
      cbn [then_post]. rewrite wp_ret. rewrite app_nil_r in Hos. subst dn. apply Hend.
      by destruct L.
    + rewrite bool_decide_false by done. eapply wp_mono; [by eapply Hround|].
      intros o w (a' & L' & -> & -> & HI'). destruct (Hat _ _ _ HI') as (_ & _ & Harg').
      rewrite length_app in Harg'. cbn in Harg'. split.
      * exists (dn ++ [p]), rest, L'. split; [by rewrite <- app_assoc|done].
      * rewrite length_app. cbn. lia.
  - by exists [], os, L0.
  - destruct (Hat _ _ _ H0) as (_ & _ & ->). cbn. lia.
Qed.

Lemma wp_return_fd set m itab it tab t start L Q :
  0 < itab -> 0 < tab -> 0 <= m -> holds L itab (LTable it) -> holds L tab (LTable t) -> it <> t ->
  (forall fd, fd ∈ set -> field L it (KNum fd) <> LNil) ->
  Q (Ok tt) (World (add_values t (start + 1) ((fun fd => field L it (KNum fd)) <$> ascending set m) L)) ->
  wp (return_fd set m itab tab start) Q (World L).
Proof.
  intros Hitab Htab Hm Hit Ht Hne Hfull HQ. unfold return_fd.
  set (vals := fun n => (fun fd => field L it (KNum fd)) <$> ascending set (Z.of_nat n)).
  apply (wp_loop_measure _ (fun a w => exists n, Z.of_nat n <= m /\
      a = (Z.of_nat n, start + Z.of_nat (length (vals n))) /\ w = World (add_values t (start + 1) (vals n) L))
    (fun a _ => Z.to_nat (m - a.1))); [| |cbn; lia].
  - intros a w (n & Hn & -> & ->). set (L1 := add_values t (start + 1) (vals n) L).
    assert (stack L1 = stack L) as HL1 by apply stack_add_values.
    destruct (decide (Z.of_nat n < m)) as [Hlt|Hge].
    + assert (vals (Datatypes.S n) = if decide (Z.of_nat n ∈ set) then vals n ++ [field L it (KNum (Z.of_nat n))] else vals n) as Hv.
      { unfold vals. replace (Z.of_nat (Datatypes.S n)) with (Z.of_nat n + 1) by lia. rewrite ascending_snoc.
        case_decide; [by rewrite fmap_app|done]. }
      destruct (decide (Z.of_nat n ∈ set)) as [Hin|Hout].
      * rewrite wp_bind, wp_on_lua. unfold lua_pushnumber, push. rewrite wp_modify. cbn [then_post].
        rewrite wp_bind, wp_on_lua, wp_modify. cbn [then_post]. rewrite wp_bind, wp_on_lua.
        rewrite (wp_gettable itab it (KNum (Z.of_nat n)) (LNumber (Z.of_nat n)) (LNumber (start + Z.of_nat (length (vals n)) + 1) :: stack L1));
          [|done|apply (holds_push L1 itab _ [_; _]); [done|by eapply holds_stack]|done].
        cbn [then_post]. rewrite wp_bind, wp_on_lua.
        assert (field L1 it (KNum (Z.of_nat n)) = field L it (KNum (Z.of_nat n))) as Hf
          by (unfold L1; by rewrite field_add_values, decide_False by naive_solver).
        rewrite !field_with_stack, Hf.
        rewrite (wp_settable tab t (KNum (start + Z.of_nat (length (vals n)) + 1)) (LNumber (start + Z.of_nat (length (vals n)) + 1))
          (field L it (KNum (Z.of_nat n))) (stack L1));
          [|done|by apply Hfull|done|apply (holds_push L1 tab _ [_; _]); [done|by eapply holds_stack]].
        cbn [then_post]. rewrite wp_ret. split; [|cbn; lia]. exists (Datatypes.S n). split; [lia|]. rewrite Hv, length_app.
        cbn [length]. split; [f_equal; lia|]. rewrite add_values_app. cbn [add_values].
        replace (start + 1 + Z.of_nat (length (vals n))) with (start + Z.of_nat (length (vals n)) + 1) by lia.
        fold L1. by destruct L1.
      * rewrite wp_ret. split; [|cbn; lia]. exists (Datatypes.S n). split; [lia|]. rewrite Hv. split; [f_equal; lia|done].
    + rewrite wp_ret. replace m with (Z.of_nat n) in HQ by lia. done.
  - exists 0%nat. split; [lia|]. change (vals 0%nat) with (@nil lval). split; [cbn; f_equal; lia|done].
Qed.

Lemma wp_make_assoc tab t ps L Q :
  0 < tab -> holds L tab (LTable t) -> is_Some (tables L !! t) -> array L t (LUserdata <$> ps) ->
  (length ps < fuel)%nat ->
  (forall a L', stack L' = LTable a :: stack L -> is_Some (tables L' !! a) -> keeps_tables L L' -> assoc L' a ps ->
     Q (Ok tt) (World L')) ->
  wp (make_assoc fuel tab) Q (World L).
Proof.
  intros Htab Ht Hold Harr Hfuel HQ. unfold make_assoc. rewrite wp_bind, wp_on_lua. apply wp_newtable.
  intros a Ha. cbn [then_post]. rewrite wp_bind, wp_on_lua, wp_gettop. cbn [then_post].
  set (L1 := Lua (LTable a :: stack L) _ _).
  assert (a <> t) as Hat by (intros ->; rewrite Ha in Hold; by destruct Hold).
  assert (holds L1 (Z.of_nat (length (stack L1))) (LTable a)) as Hh by by eapply (holds_above []).
  assert (holds L1 tab (LTable t)) as Ht1
    by (eapply (holds_stack (with_stack (LTable a :: stack L) L)); [done|by apply (holds_push L tab _ [_])]).
  assert (0 < Z.of_nat (length (stack L1))) as Hpos by (cbn; lia).
  set (round := fun i : Z =>
    on_lua (S := S) (lua_pushnumber i) ;;; on_lua (lua_pushvalue (-2)) ;;; on_lua (lua_settable (Z.of_nat (length (stack L1)))) ;;;
    on_lua (lua_pushnumber i) ;;; on_lua (lua_settable (Z.of_nat (length (stack L1)))) ;;; ret (@inl Z unit (i + 1))).
  apply (wp_loop_ext _ (fun i => on_lua (lua_pushnumber i) ;;; on_lua (lua_gettable tab) ;;;
    let! none := on_lua (lua_isnil (-1)) in
    if none : bool then on_lua (lua_pop 1) ;;; ret (inr tt) else round i)).
  { intros i w. unfold bind. destruct (on_lua (lua_pushnumber i) w) as [[[]|] w1]; [|done].
    destruct (on_lua (lua_gettable tab) w1) as [[[]|] w2]; [|done].
    by destruct (on_lua (lua_isnil (-1)) w2) as [[[]|] w3]. }
  apply (wp_each tab t ps (fun i => i) round (fun _ => tt)
    (fun dn i L' => i = Z.of_nat (length dn) + 1 /\ L' = assoc_all a 1 dn L1)); [done| | | |done|done].
  - intros dn i L' [-> ->]. split; [by eapply holds_stack; [apply stack_assoc_all|]|]. split; [|done].
    eapply array_ext; [intros k; by apply field_assoc_all_other|]. eapply array_ext; [|done].
    intros k. unfold field, L1. cbn. by rewrite lookup_insert_ne.
  - intros dn p rest i L' Hps [-> ->]. set (L2 := assoc_all a 1 dn L1).
    assert (stack L2 = stack L1) as HL2 by apply stack_assoc_all.
    assert (holds L2 (Z.of_nat (length (stack L1))) (LTable a)) as Hh2 by by eapply holds_stack.
    unfold round. eapply wp_store_top; [done|done|by apply (holds_push L2 _ _ [_])|].
    rewrite wp_bind, wp_on_lua. unfold lua_pushnumber, push. rewrite wp_modify. cbn [then_post].
    rewrite wp_bind, wp_on_lua.
    rewrite (wp_settable _ a (KUser p) (LUserdata p) (LNumber (Z.of_nat (length dn) + 1)) (stack L2));
      [|done|done|done|by apply (holds_push L2 _ _ [_; _])].
    cbn [then_post]. rewrite wp_ret. eexists _, _. split; [done|]. split; [done|]. rewrite length_app. cbn [length].
    split; [lia|]. rewrite assoc_all_snoc. cbv zeta. rewrite (Z.add_comm 1). fold L2. by destruct L2.
  - intros i L' [-> ->]. pose proof (writes_assoc_all a 1 ps L1) as Hw. pose proof Hw as (Hs & Ht' & _).
    destruct (keeps_new a L L (LTable a :: stack L)) as [Hk Hnew]; [done|done|].
    apply (HQ a); [by rewrite Hs|apply Ht'; cbn; by rewrite lookup_insert_eq|by eapply keeps_writes|].
    apply assoc_assoc_all. intros k. unfold field, L1. cbn. by rewrite lookup_insert_eq.
Qed.
End Loops.

(** ** Asking the objects *)

Section Asking.
Context {S : Type} (fuel : nat) (ask : string -> lval -> C S (option lval)).

(** The objects as they are when [select] asks them: their descriptors and
    whether they hold octets. *)
Context (g : positive -> Z) (full : positive -> bool) (s : S).

Local Abbreviation world := (@world S).
Local Abbreviation World L := (@Select.World S L s).

Definition answers (os : list positive) : Prop := forall p, p ∈ os ->
  ask "getfd" (LUserdata p) s = (Ok (Some (LNumber (g p))), s) /\
  ask "dirty" (LUserdata p) s = (Ok (Some (LBool (full p))), s).

Lemma answers_app os os' : answers (os ++ os') <-> answers os /\ answers os'.
Proof. unfold answers. setoid_rewrite elem_of_app. naive_solver. Qed.

(** One that is ready without a wait. *)
Definition held_back (p : positive) : Prop := opened g p /\ full p = true.

#[global] Instance held_back_dec p : Decision (held_back p).
Proof. unfold held_back. apply _. Defined.

(** The objects that hold octets already. *)
Definition dirties (os : list positive) : list positive := filter held_back os.

Lemma dirties_snoc os p : dirties (os ++ [p]) = if decide (held_back p) then dirties os ++ [p] else dirties os.
Proof.
  unfold dirties. rewrite filter_app, filter_cons, filter_nil. case_decide; [done|by rewrite app_nil_r].
Qed.

Lemma wp_getfd p os st L Q :
  answers os -> p ∈ os -> stack L = LUserdata p :: st -> Q (Ok (g p)) (World L) -> wp (getfd ask) Q (World L).
Proof.
  intros Hans Hp Hs HQ. destruct (Hans p Hp) as [Hfd _]. unfold getfd, call_method.
  rewrite !wp_bind, wp_on_lua, (wp_at_index _ (LUserdata p)) by (by apply (holds_top _ 0); [rewrite Hs|]).
  rewrite wp_ret. cbn [then_post]. unfold on_objects. rewrite wp_zoom. unfold wp. cbn. by rewrite Hfd.
Qed.

Lemma wp_dirty p os st L Q :
  answers os -> p ∈ os -> stack L = LUserdata p :: st -> Q (Ok (full p)) (World L) -> wp (dirty ask) Q (World L).
Proof.
  intros Hans Hp Hs HQ. destruct (Hans p Hp) as [_ Hd]. unfold dirty, call_method.
  rewrite !wp_bind, wp_on_lua, (wp_at_index _ (LUserdata p)) by (by apply (holds_top _ 0); [rewrite Hs|]).
  rewrite wp_ret. cbn [then_post]. unfold on_objects. rewrite wp_zoom. unfold wp. cbn. rewrite Hd. cbn.
  unfold lua_toboolean. by destruct (full p).
Qed.

Lemma wp_collect_fd tab v m itab it set os L Q :
  0 < tab -> 0 < itab -> holds L tab v -> holds L itab (LTable it) -> objects_in L v os -> v <> LTable it ->
  answers os -> in_range g os -> (length os < fuel)%nat ->
  Q (Ok (max_all g m os, fds g os ∪ set)) (World (index_all g it os L)) ->
  wp (collect_fd fuel ask tab m itab set) Q (World L).
Proof.
  intros Htab Hitab Hv Hit Hos Hne Hans Hrange Hfuel HQ. unfold collect_fd.
  rewrite wp_bind, wp_on_lua, (wp_isnil _ _ _ _ Hv). cbn [then_post].
  destruct Hos as [[-> ->]|(t & -> & _ & Harr)].
  { rewrite bool_decide_true by done. rewrite wp_ret. cbn in HQ. by rewrite (left_id_L ∅ (∪)) in HQ. }
  rewrite bool_decide_false by done.
  apply (wp_loop_ext _ (fun a => on_lua (lua_pushnumber a.1.1) ;;; on_lua (lua_gettable tab) ;;;
    let! none := on_lua (lua_isnil (-1)) in
    if none : bool then on_lua (lua_pop 1) ;;; ret (inr (a.1.2, a.2))
    else collect_round ask itab a.1.1 a.1.2 a.2)); [by intros [[i m1] set1] w|].
  apply (wp_each fuel s tab t os (fun a => a.1.1) (fun a => collect_round ask itab a.1.1 a.1.2 a.2) (fun a => (a.1.2, a.2))
    (fun dn a L' => a = (Z.of_nat (length dn) + 1, max_all g m dn, fds g dn ∪ set) /\ L' = index_all g it dn L));
    [done| | | |done|].
  - intros dn a L' [-> ->]. cbn. split; [by eapply holds_stack; [apply stack_index_all|]|]. split; [|done].
    eapply array_ext; [|done]. intros k. apply field_index_all_other. congruence.
  - intros dn p rest a L' Hos [-> ->]. cbn [fst snd]. unfold collect_round.
    assert (p ∈ os) as Hp by (rewrite Hos; set_solver).
    rewrite wp_bind. eapply wp_getfd; [done|done|done|]. cbn [then_post].
    set (L1 := index_all g it dn L) in *. assert (holds L1 itab (LTable it)) as Hit1
      by by eapply holds_stack; [apply stack_index_all|].
    rewrite wp_bind. destruct (decide (g p <> SOCKET_INVALID)) as [Hopen|Hclosed].
    + unfold FD_SET, lift. rewrite decide_True by (destruct (Hrange p Hp); [done|lia]).
      rewrite wp_bind. unfold wp at 1. cbn [fst snd then_post].
      eapply wp_store_top; [done|done|by apply (holds_push L1 itab _ [_])|]. rewrite wp_ret. cbn [then_post].
      eapply wp_drop_top; [done|]. rewrite wp_ret. eexists _, _. split; [done|]. split; [done|].
      rewrite index_all_snoc, max_all_snoc, fds_snoc, length_app. unfold max_one, index_one. fold L1.
      rewrite !(decide_True (P := opened g p)) by done. cbn [length]. split; [|by destruct L1].
      f_equal; [f_equal; lia|]. by rewrite (assoc_L (∪)).
    + rewrite wp_ret. cbn [then_post]. eapply wp_drop_top; [done|]. rewrite wp_ret. eexists _, _.
      split; [done|]. split; [done|].
      rewrite index_all_snoc, max_all_snoc, fds_snoc, length_app. unfold max_one, index_one. fold L1.
      rewrite !decide_False by done. cbn [length]. split; [f_equal; f_equal; lia|by destruct L1].
  - intros a L' [-> ->]. done.
  - cbn. by rewrite (left_id_L ∅ (∪)).
Qed.

Lemma wp_check_dirty tab v dtab dt set os L Q :
  0 < tab -> 0 < dtab -> holds L tab v -> holds L dtab (LTable dt) -> objects_in L v os -> v <> LTable dt ->
  answers os -> (length os < fuel)%nat ->
  Q (Ok (Z.of_nat (length (dirties os)), set ∖ fds g (dirties os)))
    (World (add_values dt 1 (LUserdata <$> dirties os) L)) ->
  wp (check_dirty fuel ask tab dtab set) Q (World L).
Proof.
  intros Htab Hdtab Hv Hdt Hos Hne Hans Hfuel HQ. unfold check_dirty.
  rewrite wp_bind, wp_on_lua, (wp_isnil _ _ _ _ Hv). cbn [then_post].
  destruct Hos as [[-> ->]|(t & -> & _ & Harr)].
  { rewrite bool_decide_true by done. rewrite wp_ret. cbn in HQ. by rewrite (difference_empty_L set) in HQ. }
  rewrite bool_decide_false by done.
  apply (wp_loop_ext _ (fun a => on_lua (lua_pushnumber a.1.1) ;;; on_lua (lua_gettable tab) ;;;
    let! none := on_lua (lua_isnil (-1)) in
    if none : bool then on_lua (lua_pop 1) ;;; ret (inr (a.1.2, a.2))
    else dirty_round ask dtab a.1.1 a.1.2 a.2)); [by intros [[i m1] set1] w|].
  apply (wp_each fuel s tab t os (fun a => a.1.1) (fun a => dirty_round ask dtab a.1.1 a.1.2 a.2) (fun a => (a.1.2, a.2))
    (fun dn a L' => a = (Z.of_nat (length dn) + 1, Z.of_nat (length (dirties dn)), set ∖ fds g (dirties dn)) /\
      L' = add_values dt 1 (LUserdata <$> dirties dn) L));
    [done| | | |done|].
  - intros dn a L' [-> ->]. cbn. split; [by eapply holds_stack; [apply stack_add_values|]|]. split; [|done].
    eapply array_ext; [|done]. intros k. rewrite field_add_values. destruct k; [|done..].
    rewrite decide_False; [done|]. intros [-> _]. congruence.
  - intros dn p rest a L' Hos [-> ->]. cbn [fst snd]. unfold dirty_round.
    assert (p ∈ os) as Hp by (rewrite Hos; set_solver).
    rewrite wp_bind. eapply wp_getfd; [done|done|done|]. cbn [then_post].
    set (L1 := add_values dt 1 (LUserdata <$> dirties dn) L) in *. assert (holds L1 dtab (LTable dt)) as Hdt1
      by by eapply holds_stack; [apply stack_add_values|].
    assert (forall Q', Q' (Ok (bool_decide (held_back p))) (World (with_stack (LUserdata p :: stack L1) L1)) ->
      wp (if decide (g p <> SOCKET_INVALID) then dirty ask else ret false) Q'
        (World (with_stack (LUserdata p :: stack L1) L1))) as Hdirty.
    { intros Q' HQ'. destruct (decide (g p <> SOCKET_INVALID)) as [Ho|Hc].
      - eapply wp_dirty; [done|done|done|]. replace (full p) with (bool_decide (held_back p)); [done|].
        case_bool_decide as Hb; unfold held_back, opened in Hb; destruct (full p); naive_solver.
      - rewrite wp_ret. by rewrite bool_decide_false in HQ' by (intros [? _]; naive_solver). }
    rewrite wp_bind. eapply wp_mono; [by apply (Hdirty (fun o w => o = Ok (bool_decide (held_back p)) /\
      w = World (with_stack (LUserdata p :: stack L1) L1)))|].
    intros o w [-> ->]. cbn [then_post]. rewrite wp_bind. case_bool_decide as Hfull.
    + eapply wp_store_top; [done|done|by apply (holds_push L1 dtab _ [_])|]. rewrite wp_ret. cbn [then_post].
      eapply wp_drop_top; [done|]. rewrite wp_ret. eexists _, _. split; [done|]. split; [done|].
      rewrite dirties_snoc, decide_True by done. rewrite fds_snoc, decide_True by apply Hfull.
      rewrite !length_app, fmap_app, add_values_app, length_fmap. fold L1. cbn [length fmap list_fmap add_values].
      split; [|rewrite (Z.add_comm 1); by destruct L1].
      f_equal; [f_equal; lia|]. unfold FD_CLR. set_solver.
    + rewrite wp_ret. cbn [then_post]. eapply wp_drop_top; [done|]. rewrite wp_ret. eexists _, _.
      split; [done|]. split; [done|].
      rewrite dirties_snoc, decide_False, length_app by done. fold L1. cbn [length].
      split; [f_equal; f_equal; lia|by destruct L1].
  - intros a L' [-> ->]. done.
  - cbn. by rewrite (difference_empty_L set).
Qed.
End Asking.

(** Values that are objects with the given descriptors. *)
Lemma values_objects (g : positive -> Z) (f : Z -> lval) (l : list Z) (os : list positive) :
  (forall fd, fd ∈ l -> exists p, p ∈ os /\ g p = fd /\ f fd = LUserdata p) ->
  exists ps, f <$> l = LUserdata <$> ps /\ g <$> ps = l /\ forall p, p ∈ ps -> p ∈ os.
Proof.
  induction l as [|fd l IH]; intros Hf; [exists []; set_solver|].
  destruct IH as (ps & Hv & Hg & Hin); [set_solver|]. destruct (Hf fd) as (p & Hp & <- & Hfp); [set_solver|].
  exists (p :: ps). cbn. rewrite Hfp, Hv, Hg. set_solver.
Qed.

(** ** Arguments *)

Definition arg (args : list lval) (n : nat) : lval := default LNil (args !! n).

Lemma wp_third {A} args (k : lval -> C lua A) Q L :
  stack L = rev args -> wp (at_index 3 k) Q L = wp (k (arg args 2)) Q L.
Proof.
  intros Hs. unfold at_index. rewrite wp_bind, wp_gets. cbn [then_post]. rewrite Hs. unfold position, arg.
  rewrite length_rev. destruct args as [|a [|b [|c rest]]]; [done..|].
  rewrite decide_True by (cbn; lia). rewrite lookup_rev by (cbn; lia). cbn [length].
  replace (_ - _)%nat with 2%nat by lia. done.
Qed.

Lemma wp_three args Q L :
  stack L = rev args -> wp (lua_settop 3) Q L = Q (Ok tt) (with_stack [arg args 2; arg args 1; arg args 0] L).
Proof.
  intros Hs. unfold lua_settop. rewrite wp_bind, wp_gets. cbn [then_post]. rewrite Hs, length_rev.
  rewrite decide_True by lia. rewrite wp_modify. do 2 f_equal.
  destruct args as [|a [|b [|c rest]]]; [done..|].
  rewrite decide_True by (cbn; lia). cbn [length rev]. rewrite <- !app_assoc. cbn [app].
  replace (_ - _)%nat with (length (rev rest)) by (rewrite length_rev; lia). by rewrite drop_app_length.
Qed.

(** ** The answer *)

(** Two tables with the objects whose descriptors are in the sets, in the order of
    their descriptors, after those that hold octets. *)
Definition reported (g : positive -> Z) (os full : list positive) (rset wset : gset Z) (L : lua) : Prop :=
  exists ar aw rl wl rest,
    stack L = LTable aw :: LTable ar :: rest /\ assoc L ar (full ++ rl) /\ assoc L aw wl /\
    g <$> rl = ascending rset FD_SETSIZE /\ g <$> wl = ascending wset FD_SETSIZE /\
    forall p, p ∈ rl \/ p ∈ wl -> p ∈ os.

(** Two empty tables and a reason. *)
Definition refused (why : string) (L : lua) : Prop :=
  exists rt wt rest,
    stack L = LString (of_string why) :: LTable wt :: LTable rt :: rest /\ array L rt [] /\ array L wt [].

Section Report.
Context {S : Type} (fuel : nat) (g : positive -> Z) (os full : list positive) (s : S).
Local Abbreviation World L := (@Select.World S L s).

(** The tables of a call: the index, the answers, and the arguments below. *)
Record laid_out (L0 L : lua) (it rt wt : positive) (args : list lval) : Prop := {
  laid_stack : stack L = LTable wt :: LTable rt :: LTable it :: args;
  laid_args : length args = 3%nat;
  laid_distinct : it <> rt /\ it <> wt /\ rt <> wt;
  laid_old : is_Some (tables L !! it) /\ is_Some (tables L !! rt) /\ is_Some (tables L !! wt);
  laid_new : tables L0 !! it = None /\ tables L0 !! rt = None /\ tables L0 !! wt = None;
  laid_keeps : keeps_tables L0 L
}.

Lemma laid_out_writes L0 L L' it rt wt args t :
  t = it \/ t = rt \/ t = wt -> laid_out L0 L it rt wt args -> writes t L L' -> laid_out L0 L' it rt wt args.
Proof.
  intros Ht [Hs Ha Hd Ho Hn Hk] Hw. pose proof Hw as (Hws & Hwt & _). split; [congruence|done|done| |done|].
  - destruct Ho as (? & ? & ?). auto.
  - destruct Hn as (? & ? & ?). eapply (keeps_writes t); [|done|done]. destruct Ht as [->|[->| ->]]; done.
Qed.

Lemma laid_out_holds L0 L it rt wt args :
  laid_out L0 L it rt wt args -> holds L 4 (LTable it) /\ holds L 5 (LTable rt) /\ holds L 6 (LTable wt).
Proof.
  intros [Hs Ha _ _ _ _]. split; [|split].
  - by apply (holds_above [LTable wt; LTable rt] _ args); [|rewrite Ha].
  - by apply (holds_above [LTable wt] _ (LTable it :: args)); [|cbn; rewrite Ha].
  - by apply (holds_above [] _ (LTable rt :: LTable it :: args)); [|cbn; rewrite Ha].
Qed.

Lemma wp_report L0 L it rt wt args rset wset m :
  laid_out L0 L it rt wt args -> array L rt (LUserdata <$> full) -> array L wt [] ->
  (forall fd, fd ∈ rset \/ fd ∈ wset -> fd <= m /\ exists p, p ∈ os /\ g p = fd /\ field L it (KNum fd) = LUserdata p) ->
  -1 <= m < FD_SETSIZE -> (length full + 1024 < fuel)%nat ->
  wp (return_fd rset (m + 1) 4 5 (Z.of_nat (length full)) ;;; return_fd wset (m + 1) 4 6 0 ;;;
      make_assoc fuel 5 ;;; make_assoc fuel 6 ;;; ret 2)
    (fun o w => exists L', o = Ok 2 /\ w = World L' /\ keeps_tables L0 L' /\ reported g os full rset wset L') (World L).
Proof.
  intros Hl Hrt Hwt Hin Hm Hfuel. destruct (laid_out_holds _ _ _ _ _ _ Hl) as (Hh4 & Hh5 & Hh6).
  destruct (laid_distinct _ _ _ _ _ _ Hl) as (Hir & Hiw & Hrw).
  destruct (values_objects g (fun fd => field L it (KNum fd)) (ascending rset (m + 1)) os) as (rl & Hrv & Hrg & Hro).
  { intros fd [Hfd _]%ascending_elem. by apply Hin; left. }
  destruct (values_objects g (fun fd => field L it (KNum fd)) (ascending wset (m + 1)) os) as (wl & Hwv & Hwg & Hwo).
  { intros fd [Hfd _]%ascending_elem. by apply Hin; right. }
  assert (forall set, (forall fd, fd ∈ set -> fd <= m) -> ascending set (m + 1) = ascending set FD_SETSIZE) as Hasc.
  { intros set Hset. apply ascending_bound; [lia|]. intros fd Hfd. specialize (Hset fd Hfd). lia. }
  rewrite Hasc in Hrg by (intros fd Hfd; apply Hin; by left).
  rewrite Hasc in Hwg by (intros fd Hfd; apply Hin; by right).
  assert (forall set ps, g <$> ps = ascending set FD_SETSIZE -> (length ps <= 1024)%nat) as Hlen.
  { intros set ps Hps. rewrite <- (length_fmap g), Hps. unfold ascending.
    etrans; [apply length_filter|]. by rewrite length_seqZ. }
  rewrite wp_bind. eapply wp_return_fd; try done; [lia| |].
  { intros fd Hfd. destruct (Hin fd (or_introl Hfd)) as (_ & p & _ & _ & ->). done. }
  cbn [then_post]. rewrite Hrv. set (L1 := add_values rt _ _ L).
  assert (writes rt L L1) as Hw1 by apply writes_add_values.
  assert (laid_out L0 L1 it rt wt args) as Hl1 by (eapply laid_out_writes; [|done|done]; tauto).
  destruct (laid_out_holds _ _ _ _ _ _ Hl1) as (Hh41 & Hh51 & Hh61). destruct Hw1 as (_ & _ & Hf1).
  rewrite wp_bind. eapply wp_return_fd; try done; [lia| |].
  { intros fd Hfd. rewrite Hf1 by done. destruct (Hin fd (or_intror Hfd)) as (_ & p & _ & _ & ->). done. }
  cbn [then_post]. rewrite (list_fmap_ext _ (fun fd => field L it (KNum fd)) (ascending wset (m + 1)))
    by (intros; by rewrite Hf1).
  rewrite Hwv. set (L2 := add_values wt _ _ L1).
  assert (writes wt L1 L2) as Hw2 by apply writes_add_values.
  assert (laid_out L0 L2 it rt wt args) as Hl2 by (eapply laid_out_writes; [|done|done]; tauto).
  destruct (laid_out_holds _ _ _ _ _ _ Hl2) as (_ & Hh52 & _). destruct Hw2 as (_ & _ & Hf2).
  assert (array L2 rt (LUserdata <$> (full ++ rl))) as Hr2.
  { eapply array_ext; [intros k; by apply Hf2|]. rewrite fmap_app. unfold L1.
    rewrite <- (length_fmap LUserdata full). by apply array_extend. }
  assert (array L2 wt (LUserdata <$> wl)) as Hwa2.
  { apply (array_extend L1 wt []). eapply array_ext; [intros k; by apply Hf1|done]. }
  rewrite wp_bind. eapply (wp_make_assoc fuel s 5 rt); [done|done|apply Hl2|done|rewrite length_app; specialize (Hlen _ _ Hrg); lia|].
  intros ar L3 Hs3 Har Hk3 Hassoc. cbn [then_post].
  assert (forall k, field L3 wt k = field L2 wt k) as Hf3 by (apply Hk3, Hl2).
  rewrite wp_bind. eapply (wp_make_assoc fuel s 6 wt); [done| |apply Hk3, Hl2|by eapply array_ext|specialize (Hlen _ _ Hwg); lia|].
  { apply (holds_stack (with_stack (LTable ar :: stack L2) L2)); [done|]. by apply (holds_push L2 6 _ [_]); [|apply (laid_out_holds _ _ _ _ _ _ Hl2)]. }
  intros aw L4 Hs4 Haw Hk4 Hassoc'. cbn [then_post]. rewrite wp_ret. exists L4. split; [done|]. split; [done|]. split.
  { eapply keeps_tables_trans; [apply Hl2|]. by eapply keeps_tables_trans. }
  exists ar, aw, rl, wl, (stack L2). rewrite Hs4, Hs3. split; [done|]. split.
  { eapply assoc_ext; [|done]. by apply Hk4. }
  split; [done|]. split; [done|]. split; [done|]. intros p [Hp|Hp]; auto.
Qed.
End Report.

(** ** The whole call *)

Lemma objects_in_keeps L L' v os : keeps_tables L L' -> objects_in L v os -> objects_in L' v os.
Proof.
  intros Hk [?|(t & -> & Ht & Ha)]; [by left|right]. exists t. destruct (Hk t Ht) as [Ht' Hf].
  split; [done|]. split; [done|]. by eapply array_ext.
Qed.

Lemma objects_in_old L v os t : objects_in L v os -> tables L !! t = None -> v <> LTable t.
Proof. intros [[-> _]|(t' & -> & [x Hx] & _)] Ht; [done|]. intros [= ->]. congruence. Qed.

Section Whole.
Context {S N : Type} (descs : N -> gmap Z desc) (patience : N -> nat) (delta : Z) `{NetLaws N descs patience delta}.
Context (fuel : nat) (net : S -> N) (with_net : N -> S -> S) (ask : string -> lval -> C S (option lval)).
Context (g : positive -> Z) (full : positive -> bool).
Hypothesis net_with : forall k s, net (with_net k s) = k.
Hypothesis with_same : forall s, with_net (net s) s = s.

Lemma wp_on_net {A} (m : C N A) Q L s :
  wp (on_net net with_net m) Q (World L s) = wp m (fun o k => Q o (World L (with_net k s))) (net s).
Proof. unfold on_net, on_objects. by rewrite !wp_zoom. Qed.

(** The limit of the third argument, in microseconds. *)
Definition limit (v : lval) : option Z :=
  match v with LNil => Some no_limit | LNumber t => Some (t * 1000000) | _ => None end.

Lemma wp_opt_limit args t Q L :
  stack L = rev args -> limit (arg args 2) = Some t -> wp opt_limit Q L = Q (Ok t) L.
Proof.
  intros Hs Ht. unfold opt_limit. rewrite (wp_third _ _ _ _ Hs). unfold limit in Ht.
  destruct (arg args 2); simplify_eq; by rewrite wp_ret.
Qed.

(** The set of the call, the tables [it], [rt] and [wt] on the stack. *)
Definition waited_for (rs : list positive) : gset Z := fds g rs ∖ fds g (dirties g full rs).

(** The system was asked about the open descriptors to read from, less those of
    objects that hold octets, and about those to write to, for the time given, and
    answered. *)
Definition answered (rs ws : list positive) (t : Z) (k : N) (r : Z) (rset wset : gset Z) (k' : N) : Prop :=
  exists m es, (forall fd, fd ∈ waited_for rs \/ fd ∈ fds g ws -> fd < m) /\
    select_calls m (waited_for rs) (fds g ws) ∅ (Timeout t no_limit (net_time k)) k r (rset, wset, es) k' /\
    selected (waited_for rs, fds g ws, ∅) r (rset, wset, es).

(** What a call has done when it ends with [n] values. *)
Record ended (L0 : lua) (s : S) (rs ws : list positive) (t : Z) (n : Z) (w : @world S) : Prop := {
  ended_objects : objects_of w = with_net (net (objects_of w)) s;
  ended_passes : passes patience (net s) (net (objects_of w));
  ended_descs : descs (net (objects_of w)) = descs (net s);
  ended_time : 0 <= t -> net_time (net (objects_of w)) <= net_time (net s) + t + overrun delta (patience (net s));
  ended_tables : keeps_tables L0 (state_of w);
  ended_answer : exists r rset wset,
    answered rs ws t (net s) r rset wset (net (objects_of w)) /\
    if decide (0 < r \/ dirties g full rs <> []) then
      n = 2 /\ reported g (rs ++ ws) (dirties g full rs) rset wset (state_of w)
    else n = 3 /\ refused (if decide (r = 0) then "timeout" else "error") (state_of w)
}.

Lemma wp_setup L0 s args t0 Q :
  stack L0 = rev args -> limit (arg args 2) = Some t0 ->
  (forall L it rt wt, laid_out L0 L it rt wt [arg args 2; arg args 1; arg args 0] ->
     (forall t k, t = it \/ t = rt \/ t = wt -> field L t k = LNil) -> wp (select_objects fuel net with_net ask 4 5 6 t0) Q (World L s)) ->
  wp (global_select fuel net with_net ask) Q (World L0 s).
Proof.
  intros Hs Ht0 HQ. unfold global_select.
  rewrite wp_bind, wp_on_lua, (wp_opt_limit args t0) by done. cbn [then_post].
  rewrite wp_bind, wp_on_lua, (wp_three args) by done. cbn [then_post].
  set (L1 := with_stack _ L0). assert (keeps_tables L0 L1) as Hk1 by (intros t Ht; done).
  rewrite wp_bind, wp_on_lua. apply wp_newtable. intros it Hit. cbn [then_post].
  destruct (keeps_new it L0 L1 (LTable it :: stack L1) Hk1 Hit) as [Hk2 Hit0]. set (L2 := Lua (LTable it :: _) _ _) in *.
  rewrite wp_bind, wp_on_lua, wp_gettop. cbn [then_post].
  rewrite wp_bind, wp_on_lua. apply wp_newtable. intros rt Hrt. cbn [then_post].
  destruct (keeps_new rt L0 L2 (LTable rt :: stack L2) Hk2 Hrt) as [Hk3 Hrt0]. set (L3 := Lua (LTable rt :: _) _ _) in *.
  rewrite wp_bind, wp_on_lua, wp_gettop. cbn [then_post].
  rewrite wp_bind, wp_on_lua. apply wp_newtable. intros wt Hwt. cbn [then_post].
  destruct (keeps_new wt L0 L3 (LTable wt :: stack L3) Hk3 Hwt) as [Hk4 Hwt0]. set (L4 := Lua (LTable wt :: _) _ _) in *.
  rewrite wp_bind, wp_on_lua, wp_gettop. cbn [then_post].
  assert (rt <> it) as Hri by (intros ->; unfold L2 in Hrt; cbn in Hrt; by rewrite lookup_insert_eq in Hrt).
  assert (wt <> rt) as Hwr by (intros ->; unfold L3 in Hwt; cbn in Hwt; by rewrite lookup_insert_eq in Hwt).
  assert (wt <> it) as Hwi
    by (intros ->; unfold L3, L2 in Hwt; cbn in Hwt; by rewrite lookup_insert_ne, lookup_insert_eq in Hwt).
  apply (HQ L4 it rt wt).
  - split; [done|done|done| |done|done]. unfold L4, L3, L2. cbn.
    rewrite lookup_insert_eq, !(lookup_insert_ne _ wt), lookup_insert_eq, !(lookup_insert_ne _ rt), lookup_insert_eq by done.
    done.
  - intros t k Ht. unfold field, L4, L3, L2. cbn.
    destruct Ht as [->|[->| ->]]; rewrite ?(lookup_insert_ne _ wt), ?(lookup_insert_ne _ rt), lookup_insert_eq by done; done.
Qed.

(** The tables once all objects were asked. *)
Record collected (L0 L : lua) (it rt wt : positive) (args : list lval) (m : Z) (rs ws : list positive) : Prop := {
  collected_laid : laid_out L0 L it rt wt args;
  collected_full : array L rt (LUserdata <$> dirties g full rs);
  collected_none : array L wt [];
  collected_max : -1 <= m < FD_SETSIZE;
  collected_index fd : fd ∈ fds g rs \/ fd ∈ fds g ws ->
    fd <= m /\ exists p, p ∈ rs ++ ws /\ g p = fd /\ field L it (KNum fd) = LUserdata p
}.

Lemma selected_within sets r rset wset es fd :
  selected sets r (rset, wset, es) -> fd ∈ rset \/ fd ∈ wset -> fd ∈ sets.1.1 \/ fd ∈ sets.1.2.
Proof. destruct sets as [[a b] c]. cbn. intros [[_ [= -> -> ->]]|(Hr & Hw & _)]; set_solver. Qed.

Lemma wp_select_answer L0 L s s' it rt wt args m rs ws t r rset wset :
  collected L0 L it rt wt args m rs ws ->
  answered rs ws t (net s) r rset wset (net s') ->
  s' = with_net (net s') s -> passes patience (net s) (net s') -> descs (net s') = descs (net s) ->
  (0 <= t -> net_time (net s') <= net_time (net s) + t + overrun delta (patience (net s))) ->
  (length rs + 1024 < fuel)%nat ->
  wp (select_answer fuel 4 5 6 m (Z.of_nat (length (dirties g full rs))) r rset wset)
    (fun o w => exists n, o = Ok n /\ ended L0 s rs ws t n w) (World L s').
Proof.
  intros [Hl Hrt Hwt Hm Hindex] Hans Hs' Hp Hd Ht Hfuel. pose proof Hans as (m' & es & _ & _ & Hsel).
  unfold select_answer.
  assert (0 < r \/ 0 < Z.of_nat (length (dirties g full rs)) <-> 0 < r \/ dirties g full rs <> []) as Hiff.
  { destruct (dirties g full rs); cbn; [|intuition lia || done]. intuition (lia || done). }
  destruct (decide (0 < r \/ 0 < Z.of_nat (length (dirties g full rs)))) as [Hyes|Hno].
  - eapply wp_mono; [eapply (wp_report _ _ (rs ++ ws)); try done|].
    + intros fd Hfd. apply Hindex. pose proof (selected_within _ _ _ _ _ fd Hsel Hfd) as Hin. unfold waited_for in Hin. set_solver.
    + pose proof (length_filter (held_back g full) rs). unfold dirties. lia.
    + intros o w (L' & -> & -> & Hk & Hrep). exists 2. split; [done|]. split; try done.
      exists r, rset, wset. split; [done|]. by rewrite decide_True by by apply Hiff.
  - assert (forall why, (if decide (r = 0) then "timeout" else "error")%string = why ->
      ended L0 s rs ws t 3 (World (with_stack (LString (of_string why) :: stack L) L) s')) as Hend.
    { intros why Hwhy. split; try done; [apply Hl|]. exists r, rset, wset. split; [done|].
      rewrite decide_False by by rewrite <- Hiff. split; [done|]. rewrite Hwhy.
      exists rt, wt, (LTable it :: args). cbn. split; [by rewrite (laid_stack _ _ _ _ _ _ Hl)|].
      split; [|done]. intros i Hi. rewrite field_with_stack. rewrite (Hrt i Hi).
      assert (dirties g full rs = []) as -> by (destruct (dirties g full rs); [done|]; exfalso; apply Hno; right; cbn; lia).
      done. }
    unfold lua_pushliteral, push.
    destruct (decide (r = 0)) as [Hr|Hr]; rewrite wp_bind, wp_on_lua, wp_modify; cbn [then_post]; rewrite wp_ret;
      exists 3; (split; [done|]); apply Hend; done.
Qed.

Lemma collected_after L0 L it rt wt args rs ws :
  laid_out L0 L it rt wt args -> (forall t k, t = it \/ t = rt \/ t = wt -> field L t k = LNil) ->
  in_range g (rs ++ ws) ->
  collected L0 (index_all g it ws (add_values rt 1 (LUserdata <$> dirties g full rs) (index_all g it rs L)))
    it rt wt args (max_all g (max_all g SOCKET_INVALID rs) ws) rs ws.
Proof.
  intros Hl Hnil [Hir Hiw]%in_range_app. destruct (laid_distinct _ _ _ _ _ _ Hl) as (Hitrt & Hitwt & Hrtwt).
  set (L5 := index_all g it rs L). set (L6 := add_values rt 1 _ L5).
  assert (forall t k, t <> it -> field L5 t k = field L t k) as Hf5 by (intros; by apply field_index_all_other).
  destruct (max_all_bound g SOCKET_INVALID rs Hir) as [Hm1 Hb1]; [unfold SOCKET_INVALID, FD_SETSIZE; lia|].
  destruct (max_all_bound g (max_all g SOCKET_INVALID rs) ws Hiw) as [Hm2 Hb2]; [done|].
  unfold SOCKET_INVALID at 1 in Hm1. split.
  - do 2 (eapply laid_out_writes; [|  |apply writes_index_all || apply writes_add_values]; [tauto|]).
    eapply laid_out_writes; [| |apply writes_index_all]; [tauto|done].
  - eapply array_ext; [intros k; by apply field_index_all_other|]. apply array_add_values.
    intros k. rewrite Hf5 by done. apply Hnil. tauto.
  - intros i Hi. rewrite field_index_all_other by done. unfold L6. rewrite field_add_values.
    rewrite decide_False by naive_solver. rewrite Hf5 by done. rewrite Hnil by tauto. done.
  - lia.
  - intros fd Hfd. split; [destruct Hfd as [Hfd|Hfd]; [specialize (Hb1 fd Hfd); lia|by apply Hb2]|].
    destruct (field_index_all g it ws L6 fd) as [(p & Hp & _ & Hg & Hf)|[Hout Hf]].
    { exists p. rewrite Hf. split; [set_solver|done]. }
    assert (field L6 it (KNum fd) = field L5 it (KNum fd)) as Hf6
      by (unfold L6; rewrite field_add_values; by rewrite decide_False by naive_solver).
    rewrite Hf, Hf6. destruct Hfd as [Hfd|Hfd]; [|done].
    destruct (field_index_all g it rs L fd) as [(p & Hp & _ & Hg & Hf')|[Hout' _]]; [|done].
    exists p. split; [set_solver|done].
Qed.

Lemma wp_select_objects L0 L s it rt wt args rs ws t0 :
  laid_out L0 L it rt wt [arg args 2; arg args 1; arg args 0] ->
  (forall t k, t = it \/ t = rt \/ t = wt -> field L t k = LNil) ->
  objects_in L0 (arg args 0) rs -> objects_in L0 (arg args 1) ws ->
  answers ask g full s (rs ++ ws) -> in_range g (rs ++ ws) ->
  (length rs + length ws + 1024 < fuel)%nat -> (patience (net s) < fuel)%nat ->
  wp (select_objects fuel net with_net ask 4 5 6 t0)
    (fun o w => exists n, o = Ok n /\
       ended L0 s rs ws (if decide (dirties g full rs <> []) then 0 else t0) n w) (World L s).
Proof.
  intros Hl Hnil Hrs Hws [Har Haw]%answers_app Hrange Hfuel Hpat. pose proof Hrange as [Hir Hiw]%in_range_app.
  pose proof (laid_keeps _ _ _ _ _ _ Hl) as Hk. destruct (laid_distinct _ _ _ _ _ _ Hl) as (Hitrt & Hitwt & Hrtwt).
  destruct (laid_new _ _ _ _ _ _ Hl) as (Hit0 & Hrt0 & Hwt0).
  unfold select_objects. destruct (laid_out_holds _ _ _ _ _ _ Hl) as (Hh4 & Hh5 & Hh6).
  assert (forall L', laid_out L0 L' it rt wt [arg args 2; arg args 1; arg args 0] ->
    holds L' 1 (arg args 0) /\ holds L' 2 (arg args 1)) as Hargs.
  { intros L' Hl'. split.
    - apply (holds_above [LTable wt; LTable rt; LTable it; arg args 2; arg args 1] _ []); [apply Hl'|done].
    - apply (holds_above [LTable wt; LTable rt; LTable it; arg args 2] _ [arg args 0]); [apply Hl'|done]. }
  rewrite wp_bind. eapply wp_collect_fd; [done|done|by apply Hargs|done|by eapply objects_in_keeps| |done|done|lia|].
  { by eapply objects_in_old. }
  cbn [then_post]. rewrite (right_id_L ∅ (∪)). set (L5 := index_all g it rs L).
  pose proof (writes_index_all g it rs L : writes it L L5) as Hw5.
  assert (laid_out L0 L5 it rt wt [arg args 2; arg args 1; arg args 0]) as Hl5 by (eapply laid_out_writes; [|done|done]; tauto).
  rewrite wp_bind. eapply wp_check_dirty;
    [done|done|by apply Hargs|by apply (laid_out_holds _ _ _ _ _ _ Hl5)|eapply objects_in_keeps; [apply Hl5|done]| |done|lia|].
  { by eapply objects_in_old. }
  cbn [then_post]. set (L6 := add_values rt 1 _ L5). cbv zeta.
  pose proof (writes_add_values rt 1 _ L5 : writes rt L5 L6) as Hw6.
  assert (laid_out L0 L6 it rt wt [arg args 2; arg args 1; arg args 0]) as Hl6 by (eapply laid_out_writes; [|done|done]; tauto).
  rewrite wp_bind, wp_on_net, wp_gets, with_same. cbn [then_post].
  rewrite wp_bind. eapply wp_collect_fd;
    [done|done|by apply Hargs|by apply (laid_out_holds _ _ _ _ _ _ Hl6)|eapply objects_in_keeps; [apply Hl6|done]| |done|done|lia|].
  { by eapply objects_in_old. }
  cbn [then_post]. rewrite (right_id_L ∅ (∪)). set (L7 := index_all g it ws L6).
  pose proof (collected_after L0 L it rt wt _ rs ws Hl Hnil Hrange : collected L0 L7 _ _ _ _ _ _ _) as Hc.
  rewrite wp_bind, wp_on_net. set (t := if decide (0 < Z.of_nat _) then 0 else t0).
  assert ((if decide (dirties g full rs <> []) then 0 else t0) = t) as ->.
  { unfold t. destruct (dirties g full rs); [by rewrite decide_False, decide_False by (cbn; lia || naive_solver)|].
    by rewrite !decide_True by (cbn; lia || done). }
  eapply wp_mono; [eapply (wp_socket_select descs patience delta fuel); done|].
  intros o k (r & [[rset wset] es] & -> & Hp & Hd & Hcalls & Hsel & Htime). cbn [then_post].
  eapply (wp_select_answer L0 L7 s (with_net k s)); [done| |by rewrite net_with|by rewrite net_with..|  |lia].
  { rewrite net_with. eexists _, es. split; [|split; [exact Hcalls|done]]. intros fd Hfd.
    assert (fd ∈ fds g rs \/ fd ∈ fds g ws) as Hin by (unfold waited_for in Hfd; set_solver).
    destruct (collected_index _ _ _ _ _ _ _ _ _ Hc fd Hin). lia. }
  rewrite net_with. intros Ht. specialize (Htime (net_time (net s) + t)). unfold deadline in Htime. cbn in Htime.
  rewrite decide_True, decide_False in Htime by (unfold no_limit; lia). specialize (Htime eq_refl). lia.
Qed.

Lemma wp_global_select L0 s args rs ws t0 :
  stack L0 = rev args -> objects_in L0 (arg args 0) rs -> objects_in L0 (arg args 1) ws ->
  limit (arg args 2) = Some t0 -> answers ask g full s (rs ++ ws) -> in_range g (rs ++ ws) ->
  (length rs + length ws + 1024 < fuel)%nat -> (patience (net s) < fuel)%nat ->
  wp (global_select fuel net with_net ask)
    (fun o w => exists n, o = Ok n /\
       ended L0 s rs ws (if decide (dirties g full rs <> []) then 0 else t0) n w) (World L0 s).
Proof.
  intros Hs Hrs Hws Ht0 Hans Hrange Hfuel Hpat. apply (wp_setup L0 s args t0 _ Hs Ht0). intros L it rt wt Hl Hnil.
  by eapply wp_select_objects.
Qed.
End Whole.
