(* ===== verification/TcpSelect.v ===== *)
(** * Waiting for many TCP objects

    [select] of [select.c] on the objects of [tcp.c]: the methods it asks are those
    the class of an object gives it, its descriptors those of the objects, and an
    object is full when its buffer holds octets. *)

From S2P Require Import Prelude CString Lua Auxiliar Socket Net SocketOps Buffer Tcp TcpTyping Select.
Open Scope Z_scope.

Section TcpSelect.
Context {N : Type} (descs : N -> gmap Z desc) (patience : N -> nat) (delta : Z)
  `{NetLaws N descs patience delta} (fuel : nat).

Local Abbreviation tcps := (@Tcp.world N).

Definition with_net (k : N) (w : tcps) : tcps := Tcp.World (classes w) (class_of w) (objects w) k.

(** The methods [select] calls. *)
Definition run_method (f : string) (i : positive) : C tcps answer :=
  if decide (f = "meth_getfd"%string) then meth_getfd i
  else if decide (f = "meth_dirty"%string) then meth_dirty i
  else stop (Undefined "a method select does not call").

Definition first_value (a : answer) : lval :=
  match a with
  | VNum z :: _ => LNumber z
  | VBool b :: _ => LBool b
  | _ => LNil
  end.

(** [object:name()], if indexing the object finds a method. *)
Definition tcp_ask (name : string) (v : lval) : C tcps (option lval) :=
  match v with
  | LUserdata i =>
      let! w := get in
      match index_table (classes w) (class_of w !! i) with
      | None => stop (LuaError "attempt to index a userdata value")
      | Some _ =>
          match method_of (classes w) (class_of w !! i) name with
          | None => ret None
          | Some f => let! a := run_method f i in ret (Some (first_value a))
          end
      end
  | _ => stop (LuaError "attempt to index a value")
  end.

Definition tcp_select : C (@Select.world tcps) Z := global_select fuel net with_net tcp_ask.

(** ** What the objects answer *)

Definition descriptor (w : tcps) (i : positive) : Z :=
  match objects w !! i with Some o => t_sock o | None => SOCKET_INVALID end.
Definition has_octets (w : tcps) (i : positive) : bool :=
  match objects w !! i with Some o => negb (buffer_isempty (t_buf o)) | None => false end.

Lemma tcp_method name i o w f :
  typed descs w -> objects w !! i = Some o -> methods_in tcp !! name = Some f ->
  tcp_ask name (LUserdata i) w = (let! a := run_method f i in ret (Some (first_value a))) w.
Proof.
  intros Hw Ho Hf. destruct (typed_object _ _ Hw i o Ho) as (_ & c & Hc & Hclass & _).
  destruct (typed_registry _ _ Hw c Hclass) as (_ & _ & Hm). specialize (Hm name). rewrite Hf in Hm.
  unfold tcp_ask, bind at 1, get. rewrite Hc. unfold method_of in Hm |- *.
  destruct (index_table (classes w) (Some c)) as [[]|]; [done|done| |done]. by rewrite Hm.
Qed.

Lemma tcp_checked i o w : typed descs w -> objects w !! i = Some o -> checkgroup i w = (Ok tt, w).
Proof.
  intros Hw Ho. destruct (typed_object _ _ Hw i o Ho) as (_ & c & Hc & Hclass & _).
  destruct (typed_registry _ _ Hw c Hclass) as (_ & Hg & _).
  unfold checkgroup, bind, get, auxiliar_checkgroup. by rewrite Hc, Hg.
Qed.

Lemma tcp_answers w os :
  typed descs w -> (forall i, i ∈ os -> is_Some (objects w !! i)) ->
  answers tcp_ask (descriptor w) (has_octets w) w os.
Proof.
  intros Hw Hos i Hi. destruct (Hos i Hi) as [o Ho]. pose proof (tcp_checked i o w Hw Ho) as Hcheck.
  unfold descriptor, has_octets. rewrite Ho. split.
  - rewrite (tcp_method "getfd" i o w "meth_getfd") by done. unfold run_method. rewrite decide_True by done.
    unfold meth_getfd, object, get, bind. rewrite Hcheck. cbn. by rewrite Ho.
  - rewrite (tcp_method "dirty" i o w "meth_dirty") by done. unfold run_method.
    rewrite decide_False, decide_True by done.
    unfold meth_dirty, object, get, bind. rewrite Hcheck. cbn. by rewrite Ho.
Qed.

Lemma typed_with_net k w :
  typed descs w -> descs k = descs (net w) -> typed descs (with_net k w).
Proof.
  intros [Hr Hi Ho Ha] Hk. split; cbn; [done|by rewrite Hk| |done]. rewrite Hk. done.
Qed.
End TcpSelect.

(** C15: [select] on TCP objects: given tables of objects (or [nil]) to read from
    and to write to, whose descriptors are closed or below FD_SETSIZE (1024), it
    ends within the limit, or at once when an object to read from has octets in
    its buffer; the scripts' tables and the objects are left as they were, and well
    typed.  The system's [select] is called, again after each interruption, on
    exactly the open descriptors of the objects to read from without those that
    have octets and those of the objects to write to, below the bound it is given,
    with what is left of the limit (no time at all when an object has octets); what
    the script gets is the answer of that call.  If no object has octets and the
    system reports none, the script gets two empty tables and the reason, "timeout"
    or, when the call failed, "error".  Otherwise it gets two tables, with the
    place of every object in them: to read from, first the objects with octets, in
    the order given, then those whose descriptors the call left in its set, and
    none that was not given; to write to, those the call left in the other. *)
Theorem tcp_select_spec {N} descs patience delta `{NetLaws N descs patience delta}
    fuel (L : lua) (w : @Tcp.world N) args rs ws t :
  typed descs w -> stack L = rev args ->
  objects_in L (arg args 0) rs -> objects_in L (arg args 1) ws -> limit (arg args 2) = Some t ->
  (forall i, i ∈ rs ++ ws -> is_Some (objects w !! i)) -> in_range (descriptor w) (rs ++ ws) ->
  (length rs + length ws + 1024 < fuel)%nat -> (patience (net w) < fuel)%nat ->
  let full := dirties (descriptor w) (has_octets w) rs in
  exists n L' w' r rset wset,
    tcp_select fuel (Select.World L w) = (Ok n, Select.World L' w') /\
    typed descs w' /\ objects w' = objects w /\ descs (net w') = descs (net w) /\ keeps_tables L L' /\
    (full <> [] \/ 0 <= t ->
       net_time (net w') <= net_time (net w) + (if decide (full <> []) then 0 else t) + overrun delta (patience (net w))) /\
    answered (descriptor w) (has_octets w) rs ws (if decide (full <> []) then 0 else t) (net w) r rset wset (net w') /\
    (if decide (0 < r \/ full <> []) then n = 2 /\ reported (descriptor w) (rs ++ ws) full rset wset L'
     else n = 3 /\ refused (if decide (r = 0) then "timeout" else "error") L').
Proof.
  intros Hw Hs Hrs Hws Ht Hos Hrange Hfuel Hpat full.
  pose proof (wp_global_select descs patience delta fuel net with_net tcp_ask (descriptor w) (has_octets w)
    ltac:(done) ltac:(by intros []) L w args rs ws t Hs Hrs Hws Ht (tcp_answers descs w _ Hw Hos) Hrange Hfuel Hpat) as Hwp.
  apply wp_run in Hwp as (o & [L' w'] & Hrun & n & -> & [Hobj _ Hd Htime Hk (r & rset & wset & Hsel & Hans)]).
  cbn in Hobj, Hd, Htime, Hk, Hans. destruct (ex_intro (fun k => w' = with_net k w) _ Hobj) as [k ->]. cbn in *.
  exists n, L', (with_net k w), r, rset, wset. split; [done|].
  split; [by apply typed_with_net|]. split; [done|]. split; [done|]. split; [done|]. split; [|done].
  intros Hcase. unfold full in *. destruct (decide (dirties _ _ rs <> [])) in Htime |- *; apply Htime; [lia|naive_solver].
Qed.

(** ** A server and its client *)

(** The client of the session has read two octets of five. *)
Definition w2 : @Tcp.world toynet :=
  (serve 100 aton0 no_message no_message storage0 0 3 (Receive (Bytes 2) []) w1).2.

Lemma w2_typed : typed t_table w2.
Proof.
  assert (objects w1 !! 3%positive = Some client1) as Ho by by vm_compute.
  pose proof (wp_serve t_table t_busy 0 100 aton0 no_message no_message storage0 0 storage0_size 3 (Receive (Bytes 2) [])
    w1 client1 w1_typed Ho ltac:(cbn; lia) ltac:(split; by_decide)) as Hs.
  apply wp_run in Hs as (a & w' & Hrun & Hk & _). unfold w2. rewrite Hrun. apply Hk.
Qed.

(** Wait for the client and the server to be read from, and the client to be
    written to. *)
Definition args0 : list lval := [LTable 1; LTable 2; LNumber 5].
Definition blank0 : lua := Lua (rev args0) {[ 1%positive := ∅; 2%positive := ∅; 3%positive := ∅ ]} 3.
Definition lua0 : lua :=
  add_values 2 1 (LUserdata <$> [3%positive]) (add_values 1 1 (LUserdata <$> [1%positive; 3%positive]) blank0).

Lemma objects_in_read : objects_in lua0 (LTable 1) [1%positive; 3%positive].
Proof.
  right. exists 1%positive. split; [done|]. split; [by_decide|].
  eapply array_ext; [|apply (array_add_values 1 _ blank0)].
  - intros k. unfold lua0. rewrite field_add_values. destruct k; [by rewrite decide_False by lia|done..].
  - intros k. unfold field, blank0. cbn [tables]. rewrite lookup_insert_eq. cbn. by destruct k.
Qed.

Lemma objects_in_written : objects_in lua0 (LTable 2) [3%positive].
Proof.
  right. exists 2%positive. split; [done|]. split; [by_decide|].
  apply array_add_values. intros k. rewrite field_add_values. unfold field, blank0. cbn [tables].
  rewrite lookup_insert_ne, lookup_insert_eq by done. by destruct k; [rewrite decide_False by naive_solver|..].
Qed.

Lemma given0 i : i ∈ [1%positive; 3%positive] ++ [3%positive] -> i = 1%positive \/ i = 3%positive.
Proof. set_solver. Qed.

Example tcp_select_spec_witness :
  let full := dirties (descriptor w2) (has_octets w2) [1%positive; 3%positive] in
  exists n L' w' r rset wset,
    tcp_select 1100 (Select.World lua0 w2) = (Ok n, Select.World L' w') /\
    typed t_table w' /\ objects w' = objects w2 /\ t_table (net w') = t_table (net w2) /\ keeps_tables lua0 L' /\
    (full <> [] \/ 0 <= 5000000 ->
       net_time (net w') <= net_time (net w2) + (if decide (full <> []) then 0 else 5000000) + overrun 0 (t_busy (net w2))) /\
    answered (descriptor w2) (has_octets w2) [1%positive; 3%positive] [3%positive]
      (if decide (full <> []) then 0 else 5000000) (net w2) r rset wset (net w') /\
    (if decide (0 < r \/ full <> []) then
       n = 2 /\ reported (descriptor w2) ([1%positive; 3%positive] ++ [3%positive]) full rset wset L'
     else n = 3 /\ refused (if decide (r = 0) then "timeout" else "error") L').
Proof.
  apply (tcp_select_spec t_table t_busy 0 1100 lua0 w2 args0 [1%positive; 3%positive] [3%positive] 5000000 w2_typed).
  - reflexivity.
  - exact objects_in_read.
  - exact objects_in_written.
  - reflexivity.
  - intros i Hi. destruct (given0 i Hi) as [->| ->]; by_decide.
  - intros i Hi. destruct (given0 i Hi) as [->| ->]; by_decide.
  - by_decide.
  - by_decide.
Defined.

(** The client is full, so nothing is waited for: the script reads from the
    client and the server, and writes to the client. *)
Example selected0 :
  let '(o, w) := tcp_select 1100 (Select.World lua0 w2) in
  let L := state_of w in
  o = Ok 2 /\ length (stack L) = 8%nat /\
  match stack L with
  | LTable aw :: LTable ar :: _ =>
      field L ar (KNum 1) = LUserdata 3 /\ field L ar (KNum 2) = LUserdata 1 /\ field L ar (KNum 3) = LNil /\
      field L ar (KUser 1) = LNumber 2 /\ field L aw (KNum 1) = LUserdata 3 /\ field L aw (KUser 1) = LNil
  | _ => False
  end.
Proof. vm_compute. repeat split. Qed.
