(* ===== verification/SslContext.v ===== *)
(** * TLS contexts (luasec's [context.c])

    A context holds what the connections made from it share: the protocol, the
    key, the certificates that are trusted, the verification wanted of a peer,
    and whether they are the client's or the server's end.  OpenSSL is a class of
    calls on the contexts and certificates it keeps. *)

From S2P Require Import Prelude CString Lua Transport Socket Net Auxiliar Buffer Tcp.
#[global] Open Scope Z_scope.

Inductive SSL_METHOD : Type := SSLv3_method | TLSv1_method | SSLv23_method.

Definition MD_CTX_INVALID : Z := 0.
Definition MD_CTX_SERVER : Z := 1.
Definition MD_CTX_CLIENT : Z := 2.

(** The pointer is null when OpenSSL could not make a context, and once the
    object has been collected. *)
Record t_context : Type := Context_ { context : option positive; mode : Z }.

(** The queue of errors, its first one being the oldest. *)
Class ErrorQueue (K : Type) : Type := {
  ERR_clear_error : K -> K;
  ERR_peek_error : K -> Z;
  ERR_get_error : K -> Z * K;
  ERR_reason_error_string : Z -> option string
}.

(** The calls on contexts; a null context is [None].  [SSL_OP] gives the values
    of the macros [SSL_OP_...]. *)
Class OpenSSLContexts (K : Type) : Type := {
  SSL_OP : string -> Z;
  SSL_CTX_new : SSL_METHOD -> K -> option positive * K;
  SSL_CTX_free : option positive -> K -> K;
  SSL_CTX_set_session_cache_mode : option positive -> Z -> K -> K;
  SSL_CTX_load_verify_locations : option positive -> option bytes -> option bytes -> K -> Z * K;
  SSL_CTX_get_cert_store : option positive -> K -> positive;
  BIO_new_mem_buf : bytes -> K -> positive * K;
  BIO_free : positive -> K -> K;
  PEM_read_bio_X509 : positive -> K -> option positive * K;
  X509_STORE_add_cert : positive -> positive -> K -> Z * K;
  SSL_CTX_use_certificate_chain_file : option positive -> bytes -> K -> Z * K;
  (** whether the callback of this file is the context's *)
  SSL_CTX_set_default_passwd_cb : option positive -> bool -> K -> K;
  (** runs the callback given when the context has one and the key is protected *)
  SSL_CTX_use_PrivateKey_file : option positive -> bytes -> (Z -> C K bytes) -> C K Z;
  SSL_CTX_set_cipher_list : option positive -> bytes -> K -> Z * K;
  SSL_CTX_set_verify_depth : option positive -> Z -> K -> K;
  SSL_CTX_set_verify : option positive -> Z -> K -> K;
  SSL_CTX_set_options : option positive -> Z -> K -> K
}.

Definition SSL_SESS_CACHE_OFF : Z := 0.
Definition SSL_VERIFY_NONE : Z := 0.
Definition SSL_VERIFY_PEER : Z := 1.
Definition SSL_VERIFY_FAIL_IF_NO_PEER_CERT : Z := 2.
Definition SSL_VERIFY_CLIENT_ONCE : Z := 4.

Section Context.
Context {K : Type} `{OpenSSLContexts K, ErrorQueue K}.
(** A call of a function of the script, with its result; [lua_tostring]. *)
Context (lua_call : lfn -> C K lval) (tostring : lval -> option bytes).

(** The options of OpenSSL 0.9.8f and above. *)
Definition ssl_options : list (string * Z) := [
  ("all", SSL_OP "ALL");
  ("cipher_server_preference", SSL_OP "CIPHER_SERVER_PREFERENCE");
  ("dont_insert_empty_fragments", SSL_OP "DONT_INSERT_EMPTY_FRAGMENTS");
  ("ephemeral_rsa", SSL_OP "EPHEMERAL_RSA");
  ("netscape_ca_dn_bug", SSL_OP "NETSCAPE_CA_DN_BUG");
  ("netscape_challenge_bug", SSL_OP "NETSCAPE_CHALLENGE_BUG");
  ("microsoft_big_sslv3_buffer", SSL_OP "MICROSOFT_BIG_SSLV3_BUFFER");
  ("microsoft_sess_id_bug", SSL_OP "MICROSOFT_SESS_ID_BUG");
  ("msie_sslv2_rsa_padding", SSL_OP "MSIE_SSLV2_RSA_PADDING");
  ("netscape_demo_cipher_change_bug", SSL_OP "NETSCAPE_DEMO_CIPHER_CHANGE_BUG");
  ("netscape_reuse_cipher_change_bug", SSL_OP "NETSCAPE_REUSE_CIPHER_CHANGE_BUG");
  ("no_session_resumption_on_renegotiation", SSL_OP "NO_SESSION_RESUMPTION_ON_RENEGOTIATION");
  ("no_sslv2", SSL_OP "NO_SSLv2");
  ("no_sslv3", SSL_OP "NO_SSLv3");
  ("no_tlsv1", SSL_OP "NO_TLSv1");
  ("pkcs1_check_1", SSL_OP "PKCS1_CHECK_1");
  ("pkcs1_check_2", SSL_OP "PKCS1_CHECK_2");
  ("single_dh_use", SSL_OP "SINGLE_DH_USE");
  ("ssleay_080_client_dh_bug", SSL_OP "SSLEAY_080_CLIENT_DH_BUG");
  ("sslref2_reuse_cert_type_bug", SSL_OP "SSLREF2_REUSE_CERT_TYPE_BUG");
  ("tls_block_padding_bug", SSL_OP "TLS_BLOCK_PADDING_BUG");
  ("tls_d5_bug", SSL_OP "TLS_D5_BUG");
  ("tls_rollback_bug", SSL_OP "TLS_ROLLBACK_BUG");
  ("cookie_exchange", SSL_OP "COOKIE_EXCHANGE");
  ("no_query_mtu", SSL_OP "NO_QUERY_MTU");
  ("single_ecdh_use", SSL_OP "SINGLE_ECDH_USE");
  ("no_ticket", SSL_OP "NO_TICKET")
]%string.

(** The new value of [*flag]; none when the name is not in the list. *)
Fixpoint find_option (opt : bytes) (p : list (string * Z)) (flag : Z) : option Z :=
  match p with
  | [] => None
  | (name, code) :: p' =>
      if str_eq opt (of_string name) then Some (Z.lor flag code) else find_option opt p' flag
  end.

Definition set_option_flag (opt : bytes) (flag : Z) : option Z := find_option opt ssl_options flag.

Definition str2method (method : bytes) : option SSL_METHOD :=
  if str_eq method (of_string "sslv3") then Some SSLv3_method
  else if str_eq method (of_string "tlsv1") then Some TLSv1_method
  else if str_eq method (of_string "sslv23") then Some SSLv23_method
  else None.

Definition set_verify_flag (str : bytes) (flag : Z) : option Z :=
  if str_eq str (of_string "none") then Some (Z.lor flag SSL_VERIFY_NONE)
  else if str_eq str (of_string "peer") then Some (Z.lor flag SSL_VERIFY_PEER)
  else if str_eq str (of_string "client_once") then Some (Z.lor flag SSL_VERIFY_CLIENT_ONCE)
  else if str_eq str (of_string "fail_if_no_peer_cert") then Some (Z.lor flag SSL_VERIFY_FAIL_IF_NO_PEER_CERT)
  else None.

(** [strncpy(buf, s, size); buf[size-1] = 0; return strlen(buf)]: the octets
    before the end of [buf]. *)
Definition copy_passwd (size : Z) (s : option bytes) : C K bytes :=
  match s with
  | None => stop (Undefined "use of a null pointer")
  | Some s =>
      if decide (size < 1) then stop (Undefined "write before the buffer")
      else ret (take (Z.to_nat (size - 1)) (cstr s))
  end.

(** The password as the third argument gives it; [args] are the arguments from
    the third on, and the last of them is the top of the stack. *)
Definition passwd_cb (args : list lval) (size : Z) : C K bytes :=
  match args with
  | LFunction f :: _ =>
      let! v := lua_call f in
      if decide (type_of v <> LUA_TSTRING) then ret []
      else copy_passwd size (tostring v)
  | LString _ :: _ => copy_passwd size (tostring (List.last args LNil))
  | _ => ret []
  end.

(** ** The functions of the module

    They work on one context, the first argument. *)
Record cworld : Type := CWorld { ctx : t_context; lib : K }.

Definition on_lib {A} (f : K -> A * K) : C cworld A :=
  let! w := get in
  let '(a, k) := f (lib w) in
  put (CWorld (ctx w) k) ;;; ret a.
Definition do_lib (f : K -> K) : C cworld unit := modify (fun w => CWorld (ctx w) (f (lib w))).

Definition the_context : C cworld (option positive) := gets (fun w => context (ctx w)).

(** [luaL_checkstring]; the argument is [None] when it is not a string. *)
Definition checkstring {W} (s : option bytes) : C W bytes :=
  match s with Some s => ret s | None => stop (LuaError "string expected") end.

(** [false] and the message, with OpenSSL's reason for [%s] when there is one. *)
Definition refused (msg : string) : C cworld answer := ret [VBool false; VStr (of_string msg)].
Definition refused_reason (msg : string) : C cworld answer :=
  let! e := on_lib ERR_get_error in
  refused (msg ++ " (" ++ default "(null)" (ERR_reason_error_string e) ++ ")").
Definition accepted : C cworld answer := ret [VBool true].

(** The object made, or the answer; it has no mode yet. *)
Definition create (protocol : option bytes) : C K (answer + t_context) :=
  let! s := checkstring protocol in
  match str2method s with
  | None => ret (inl (failed (Some "invalid protocol"%string)))
  | Some method =>
      let! k := get in
      let '(c, k) := SSL_CTX_new method k in
      put k ;;;
      match c with
      | None => ret (inl (failed (Some "error creating context"%string)))
      | Some p =>
          modify (SSL_CTX_set_session_cache_mode (Some p) SSL_SESS_CACHE_OFF) ;;;
          ret (inr (Context_ (Some p) MD_CTX_INVALID))
      end
  end.

(** Files that are not given are null pointers. *)
Definition load_locations (cafile capath : option bytes) : C cworld answer :=
  let! c := the_context in
  let! r := on_lib (SSL_CTX_load_verify_locations c cafile capath) in
  if decide (r <> 1) then refused_reason "error loading CA locations" else accepted.

Definition load_cert_from_memory (cert : option bytes) : C cworld answer :=
  let! c := the_context in
  let! cert := checkstring cert in
  let! w := get in
  let xstore := SSL_CTX_get_cert_store c (lib w) in
  let! mem := on_lib (BIO_new_mem_buf (cstr cert)) in
  let! x := on_lib (PEM_read_bio_X509 mem) in
  match x with
  | None =>
      let! a := refused_reason "error parsing cert:" in
      do_lib (BIO_free mem) ;;; ret a
  | Some x =>
      let! rv := on_lib (X509_STORE_add_cert xstore x) in
      if decide (rv <> 1) then
        let! a := refused_reason "error adding cert to x509 store" in
        do_lib (BIO_free mem) ;;; ret a
      else
        do_lib (BIO_free mem) ;;; accepted
  end.

Definition load_cert (filename : option bytes) : C cworld answer :=
  let! c := the_context in
  let! filename := checkstring filename in
  let! r := on_lib (SSL_CTX_use_certificate_chain_file c filename) in
  if decide (r <> 1) then refused_reason "error loading certificate" else accepted.

(** [args]: the arguments after the file name. *)
Definition load_key (filename : option bytes) (args : list lval) : C cworld answer :=
  let! c := the_context in
  let! filename := checkstring filename in
  let load :=
    let! r := zoom lib (fun k w => CWorld (ctx w) k) (SSL_CTX_use_PrivateKey_file c filename (passwd_cb args)) in
    let! a := (if decide (r = 1) then accepted else refused_reason "error loading private key") in
    do_lib (SSL_CTX_set_default_passwd_cb c false) ;;;
    ret a in
  match args with
  | LString _ :: _ | LFunction _ :: _ => do_lib (SSL_CTX_set_default_passwd_cb c true) ;;; load
  | LNil :: _ => load
  | _ => stop (LuaError "invalid callback value")
  end.

Definition set_cipher (list : option bytes) : C cworld answer :=
  let! c := the_context in
  let! list := checkstring list in
  let! r := on_lib (SSL_CTX_set_cipher_list c list) in
  if decide (r <> 1) then refused_reason "error setting cipher list" else accepted.

(** [luaL_checkint] made an [int] of the argument. *)
Definition set_depth (depth : Z) : C cworld answer :=
  let! c := the_context in
  do_lib (SSL_CTX_set_verify_depth c depth) ;;;
  accepted.

(** The loop over the arguments of [set_verify] and of [set_options]: the flag,
    none when one of them is not known. *)
Fixpoint collect_flags (set_flag : bytes -> Z -> option Z) (args : list (option bytes)) (flag : Z)
    : C cworld (option Z) :=
  match args with
  | [] => ret (Some flag)
  | a :: args' =>
      let! s := checkstring a in
      match set_flag s flag with
      | None => ret None
      | Some flag => collect_flags set_flag args' flag
      end
  end.

Definition set_verify (args : list (option bytes)) : C cworld answer :=
  let! c := the_context in
  match args with
  | [] => accepted
  | _ =>
      let! flag := collect_flags set_verify_flag args 0 in
      match flag with
      | None => refused "invalid verify option"
      | Some flag => do_lib (SSL_CTX_set_verify c flag) ;;; accepted
      end
  end.

Definition set_options (args : list (option bytes)) : C cworld answer :=
  let! c := the_context in
  match args with
  | [] => accepted
  | _ =>
      let! flag := collect_flags set_option_flag args 0 in
      match flag with
      | None => refused "invalid option"
      | Some flag => do_lib (SSL_CTX_set_options c flag) ;;; accepted
      end
  end.

Definition with_mode (m : Z) (w : cworld) : cworld := CWorld (Context_ (context (ctx w)) m) (lib w).

(** The last branch pushes [false] and the message and returns the last of
    them. *)
Definition set_mode (str : option bytes) : C cworld answer :=
  let! str := checkstring str in
  if str_eq (of_string "server") str then modify (with_mode MD_CTX_SERVER) ;;; accepted
  else if str_eq (of_string "client") str then modify (with_mode MD_CTX_CLIENT) ;;; accepted
  else ret (drop 1 [VBool false; VStr (of_string "invalid mode")]).

Definition raw_ctx : C cworld (option positive) := the_context.

(** [__gc] *)
Definition meth_destroy : C cworld unit :=
  let! c := the_context in
  if decide (c <> None) then
    do_lib (SSL_CTX_free c) ;;;
    modify (fun w => CWorld (Context_ None (mode (ctx w))) (lib w))
  else ret tt.

(** [address] is how [printf] shows the address of the object. *)
Definition meth_tostring (address : string) : string := ("SSL context: " ++ address)%string.

Definition ctx_getcontext (c : t_context) : option positive := context c.
Definition ctx_getmode (c : t_context) : Z := mode c.
End Context.
