(* ===== verification/SslStore.v ===== *)
(** * What TLS contexts own, and how their flags are put together

    The calls of [SslContext.v] against what is documented of OpenSSL's
    ownership: whatever a script does with a context, collecting it leaves
    nothing behind but the certificates it was given in memory; and the loop over
    the names of flags is the disjunction of a table's entries. *)

From S2P Require Import Prelude CString Lua Transport Socket Net Auxiliar Buffer Tcp SslContext.
#[global] Open Scope Z_scope.

(** ** Flags by name *)

Definition verify_options : list (string * Z) := [
  ("none", SSL_VERIFY_NONE); ("peer", SSL_VERIFY_PEER); ("client_once", SSL_VERIFY_CLIENT_ONCE);
  ("fail_if_no_peer_cert", SSL_VERIFY_FAIL_IF_NO_PEER_CERT)
]%string.

(** The code a table has for a name: the first one. *)
Definition code_of (table : list (string * Z)) (s : bytes) : option Z :=
  snd <$> head (filter (fun e => str_eq s (of_string e.1) = true) table).

(** The disjunction of the codes of some names, when a table has them all. *)
Definition flags_of (table : list (string * Z)) (l : list bytes) : option Z :=
  foldr Z.lor 0 <$> mapM (code_of table) l.

Lemma find_option_code table s flag : find_option s table flag = Z.lor flag <$> code_of table s.
Proof.
  unfold code_of. induction table as [|[name code] table IH]; [done|]. cbn [find_option].
  rewrite filter_cons. cbn [fst]. by destruct (str_eq s (of_string name)).
Qed.

Lemma set_verify_flag_code s flag : set_verify_flag s flag = Z.lor flag <$> code_of verify_options s.
Proof.
  rewrite <- find_option_code. unfold set_verify_flag, verify_options. cbn [find_option].
  by repeat case_match.
Qed.

(** The loop with the flag it has collected. *)
Lemma collect_flags_spec {K} set_flag table l flag (w : @cworld K) :
  (forall s f, set_flag s f = Z.lor f <$> code_of table s) ->
  collect_flags set_flag (Some <$> l) flag w = (Ok (Z.lor flag <$> flags_of table l), w).
Proof.
  intros Hset. revert flag. induction l as [|s l IH]; intros flag; cbn [collect_flags fmap list_fmap].
  - unfold flags_of. cbn. by rewrite Z.lor_0_r.
  - unfold bind, checkstring. cbn [ret]. rewrite Hset. unfold flags_of in *. cbn.
    destruct (code_of table s) as [c|]; cbn; [|done]. rewrite IH.
    destruct (mapM (code_of table) l); cbn; [|done]. by rewrite <- Z.lor_assoc.
Qed.

(** What becomes of the flag. *)
Lemma flags_run {K} set_flag table (call : Z -> K -> K) msg l (w : @cworld K) :
  (forall s f, set_flag s f = Z.lor f <$> code_of table s) ->
  (let! flag := collect_flags set_flag (Some <$> l) 0 in
   match flag with None => refused msg | Some flag => do_lib (call flag) ;;; accepted end) w =
  match flags_of table l with
  | Some f => (Ok [VBool true], CWorld (ctx w) (call f (lib w)))
  | None => (Ok [VBool false; VStr (of_string msg)], w)
  end.
Proof. intros Hset. unfold bind at 1. rewrite (collect_flags_spec _ table) by done. by destruct (flags_of table l). Qed.

Lemma mapM_perm {A B} (f : A -> option B) l l' :
  l ≡ₚ l' -> match mapM f l, mapM f l' with
             | Some x, Some y => x ≡ₚ y
             | None, None => True
             | _, _ => False
             end.
Proof.
  induction 1 as [|x l l' _ IH|x y l|l1 l2 l3 _ IH1 _ IH2]; cbn.
  - done.
  - destruct (f x); cbn; [|done]. destruct (mapM f l), (mapM f l'); cbn; try done. by constructor.
  - destruct (f x), (f y), (mapM f l); cbn; try done. by constructor.
  - destruct (mapM f l1), (mapM f l2), (mapM f l3); try done. by etrans.
Qed.

Lemma flags_of_perm table l l' : l ≡ₚ l' -> flags_of table l = flags_of table l'.
Proof.
  intros Hp. apply (mapM_perm (code_of table)) in Hp. unfold flags_of.
  destruct (mapM _ l) as [x|], (mapM _ l') as [y|]; try done. cbn. f_equal.
  induction Hp as [|a x y _ IH|a b x|x y z _ IH1 _ IH2]; cbn; [done|by rewrite IH| |congruence].
  by rewrite !Z.lor_assoc, (Z.lor_comm b).
Qed.

(** ** What a script asks of a context *)

Inductive crequest : Type :=
| LoadLocations (cafile capath : option bytes) | LoadCertFromMemory (cert : option bytes)
| LoadCert (filename : option bytes) | LoadKey (filename : option bytes) (args : list lval)
| SetCipher (l : option bytes) | SetDepth (depth : Z) | SetVerify (args : list (option bytes))
| SetOptions (args : list (option bytes)) | SetMode (str : option bytes).

(** What the caller of OpenSSL has been given and has to give back. *)
Record holdings : Type := Holdings { contexts : gset positive; bios : gset positive; certs : gset positive }.

Section Requests.
Context {K : Type} `{OpenSSLContexts K, ErrorQueue K} (lua_call : lfn -> C K lval) (tostring : lval -> option bytes).

Definition cserve (r : crequest) : C (@cworld K) answer :=
  match r with
  | LoadLocations f p => load_locations f p
  | LoadCertFromMemory c => load_cert_from_memory c
  | LoadCert f => load_cert f
  | LoadKey f args => load_key lua_call tostring f args
  | SetCipher l => set_cipher l
  | SetDepth d => set_depth d
  | SetVerify args => set_verify args
  | SetOptions args => set_options args
  | SetMode s => set_mode s
  end.

(** A script that goes on after errors. *)
Definition crun (rs : list crequest) (w : @cworld K) : @cworld K := foldl (fun w r => (cserve r w).2) w rs.
End Requests.

(** A certificate that is added to a store is shared with it, not given to it. *)
Class ContextLaws (K : Type) `{OpenSSLContexts K, ErrorQueue K} (owned : K -> holdings) : Prop := {
  ctx_new_law m k c k' : SSL_CTX_new m k = (c, k') ->
    match c with
    | Some p => p ∉ contexts (owned k) /\
        owned k' = Holdings ({[ p ]} ∪ contexts (owned k)) (bios (owned k)) (certs (owned k))
    | None => owned k' = owned k
    end;
  ctx_free_law p k : owned (SSL_CTX_free (Some p) k) =
    Holdings (contexts (owned k) ∖ {[ p ]}) (bios (owned k)) (certs (owned k));
  bio_new_law b k m k' : BIO_new_mem_buf b k = (m, k') -> m ∉ bios (owned k) /\
    owned k' = Holdings (contexts (owned k)) ({[ m ]} ∪ bios (owned k)) (certs (owned k));
  bio_free_law m k : owned (BIO_free m k) = Holdings (contexts (owned k)) (bios (owned k) ∖ {[ m ]}) (certs (owned k));
  pem_read_law m k x k' : PEM_read_bio_X509 m k = (x, k') ->
    match x with
    | Some x => x ∉ certs (owned k) /\
        owned k' = Holdings (contexts (owned k)) (bios (owned k)) ({[ x ]} ∪ certs (owned k))
    | None => owned k' = owned k
    end;
  get_error_owned k : owned (ERR_get_error k).2 = owned k;
  cache_mode_owned c m k : owned (SSL_CTX_set_session_cache_mode c m k) = owned k;
  locations_owned c f p k : owned (SSL_CTX_load_verify_locations c f p k).2 = owned k;
  add_cert_owned s x k : owned (X509_STORE_add_cert s x k).2 = owned k;
  chain_file_owned c f k : owned (SSL_CTX_use_certificate_chain_file c f k).2 = owned k;
  passwd_cb_owned c b k : owned (SSL_CTX_set_default_passwd_cb c b k) = owned k;
  cipher_list_owned c l k : owned (SSL_CTX_set_cipher_list c l k).2 = owned k;
  verify_depth_owned c d k : owned (SSL_CTX_set_verify_depth c d k) = owned k;
  verify_owned c f k : owned (SSL_CTX_set_verify c f k) = owned k;
  options_owned c f k : owned (SSL_CTX_set_options c f k) = owned k;
  (** the callback may be run, any number of times *)
  key_file_owned c f (cb : Z -> C K bytes) k :
    (forall size k, wp (cb size) (fun _ k' => owned k' = owned k) k) ->
    wp (SSL_CTX_use_PrivateKey_file c f cb) (fun _ k' => owned k' = owned k) k
}.

Section Owning.
Context {K : Type} (owned : K -> holdings) `{HC : OpenSSLContexts K, HE : ErrorQueue K, !ContextLaws K owned}.
Context (lua_call : lfn -> C K lval) (tostring : lval -> option bytes).
(** The functions of the script make and release none of these. *)
Hypothesis Hscript : forall f k, wp (lua_call f) (fun _ k' => owned k' = owned k) k.

Local Abbreviation world := (@cworld K).

(** The context is the same, and so is what is owned but for certificates, of
    which there are those of [X] besides. *)
Definition adds (X : gset positive) (w w' : world) : Prop :=
  context (ctx w') = context (ctx w) /\
  owned (lib w') = Holdings (contexts (owned (lib w))) (bios (owned (lib w))) (X ∪ certs (owned (lib w))).

Lemma adds_nothing w w' : context (ctx w') = context (ctx w) -> owned (lib w') = owned (lib w) -> adds ∅ w w'.
Proof. intros Hc Ho. split; [done|]. rewrite Ho. destruct (owned (lib w)). cbn. by rewrite union_empty_l_L. Qed.

Lemma adds_trans X Y w1 w2 w3 : adds X w1 w2 -> adds Y w2 w3 -> adds (Y ∪ X) w1 w3.
Proof.
  intros [Hc1 Ho1] [Hc2 Ho2]. split; [congruence|]. rewrite Ho2, Ho1. cbn. by rewrite assoc_L by apply _.
Qed.

(** What a call keeps, a program that goes on keeps. *)
Definition keeps {A} (m : C world A) : Prop := forall w, wp m (fun _ w' => adds ∅ w w') w.

Lemma keeps_ret {A} (a : A) : keeps (ret a).
Proof. intros w. rewrite wp_ret. by apply adds_nothing. Qed.

Lemma keeps_stop {A} f : @keeps A (stop f).
Proof. intros w. rewrite wp_stop. by apply adds_nothing. Qed.

Lemma keeps_gets {A} (f : world -> A) : keeps (gets f).
Proof. intros w. rewrite wp_gets. by apply adds_nothing. Qed.

Lemma keeps_let {A B} (m : C world A) (k : A -> C world B) :
  keeps m -> (forall a, keeps (k a)) -> keeps (bind m k).
Proof.
  intros Hm Hk w. rewrite wp_bind. eapply wp_mono; [apply Hm|]. intros [a|f] w1 H1; [|done].
  cbn [then_post]. eapply wp_mono; [apply Hk|]. intros o w2 H2.
  rewrite <- (union_empty_l_L (∅ : gset positive)). by eapply adds_trans.
Qed.

Lemma keeps_on_lib {A} (f : K -> A * K) : (forall k, owned (f k).2 = owned k) -> keeps (on_lib f).
Proof.
  intros Hf w. unfold on_lib. rewrite wp_bind, wp_get. cbn [then_post]. specialize (Hf (lib w)).
  destruct (f (lib w)) as [a k]. rewrite wp_bind, wp_put. cbn [then_post]. rewrite wp_ret. by apply adds_nothing.
Qed.

Lemma keeps_do_lib f : (forall k, owned (f k) = owned k) -> keeps (do_lib f).
Proof. intros Hf w. unfold do_lib. rewrite wp_modify. by apply adds_nothing; [|apply Hf]. Qed.

Lemma keeps_checkstring s : keeps (checkstring s).
Proof. destruct s; [apply keeps_ret|apply keeps_stop]. Qed.

Lemma keeps_if {A} (b : bool) (m1 m2 : C world A) : keeps m1 -> keeps m2 -> keeps (if b then m1 else m2).
Proof. by destruct b. Qed.

Lemma keeps_decide {A} P `{Decision P} (m1 m2 : C world A) : keeps m1 -> keeps m2 -> keeps (if decide P then m1 else m2).
Proof. by destruct (decide P). Qed.

Lemma keeps_refused msg : keeps (refused msg).
Proof. apply keeps_ret. Qed.

Lemma keeps_refused_reason msg : keeps (refused_reason msg).
Proof. apply keeps_let; [apply keeps_on_lib, get_error_owned|intros; apply keeps_refused]. Qed.

Lemma keeps_mode m : keeps (modify (with_mode m)).
Proof. intros w. rewrite wp_modify. by apply adds_nothing. Qed.

Lemma keeps_collect set_flag args flag : keeps (collect_flags set_flag args flag).
Proof.
  revert flag. induction args as [|a args IH]; intros flag; cbn; [apply keeps_ret|].
  apply keeps_let; [apply keeps_checkstring|]. intros s. destruct (set_flag s flag); [apply IH|apply keeps_ret].
Qed.

(** The password callback keeps what its function keeps. *)
Lemma passwd_cb_keeps args size k : wp (passwd_cb lua_call tostring args size) (fun _ k' => owned k' = owned k) k.
Proof.
  assert (forall s k1, owned k1 = owned k -> wp (copy_passwd size s) (fun _ k' => owned k' = owned k) k1) as Hcopy.
  { intros [s|] k1 Hk; unfold copy_passwd; [|by rewrite wp_stop]. case_decide; [by rewrite wp_stop|by rewrite wp_ret]. }
  unfold passwd_cb. destruct args as [|[] args]; try by rewrite wp_ret.
  - by apply Hcopy.
  - rewrite wp_bind. eapply wp_mono; [apply Hscript|]. intros [v|e] k1 Hk; [|done]. cbn [then_post].
    case_decide; [by rewrite wp_ret|by apply Hcopy].
Qed.

Lemma keeps_key_file c f args :
  keeps (zoom lib (fun k w => CWorld (ctx w) k) (SSL_CTX_use_PrivateKey_file c f (passwd_cb lua_call tostring args))).
Proof.
  intros w. rewrite wp_zoom. eapply wp_mono; [apply key_file_owned, passwd_cb_keeps|].
  intros o k Hk. by apply adds_nothing.
Qed.
End Owning.

Create HintDb context.
#[export] Hint Resolve keeps_ret keeps_stop keeps_gets keeps_checkstring keeps_refused keeps_refused_reason keeps_mode
  keeps_collect keeps_key_file : context.
#[export] Hint Resolve get_error_owned cache_mode_owned locations_owned add_cert_owned chain_file_owned passwd_cb_owned
  cipher_list_owned verify_depth_owned verify_owned options_owned : context.

(** Through a program, to the calls that are known. *)
Ltac keep :=
  repeat (intros; cbv zeta; first
    [ solve [eauto with context]
    | apply keeps_on_lib | apply keeps_do_lib | apply keeps_let | apply keeps_decide | apply keeps_if ]).

(** The certificate that is read from a text, if there is one in it. *)
Definition parsed {K} `{OpenSSLContexts K} (r : crequest) (k : K) : option positive :=
  match r with
  | LoadCertFromMemory (Some s) => let '(m, k1) := BIO_new_mem_buf (cstr s) k in (PEM_read_bio_X509 m k1).1
  | _ => None
  end.

(** How many of the requests of a script load a certificate from memory. *)
Fixpoint loaded {K} `{OpenSSLContexts K, ErrorQueue K} lua_call tostring (rs : list crequest) (w : @cworld K) : nat :=
  match rs with
  | [] => 0
  | r :: rs => (match parsed r (lib w) with Some _ => 1 | None => 0 end +
                loaded lua_call tostring rs (cserve lua_call tostring r w).2)%nat
  end.

Section Contexts.
Context {K : Type} (owned : K -> holdings) `{HC : OpenSSLContexts K, HE : ErrorQueue K, !ContextLaws K owned}.
Context (lua_call : lfn -> C K lval) (tostring : lval -> option bytes).
Hypothesis Hscript : forall f k, wp (lua_call f) (fun _ k' => owned k' = owned k) k.

Local Abbreviation adds := (adds owned).
Local Abbreviation keeps := (keeps owned).

(** What a request leaves behind. *)
Definition leak (x : option positive) : gset positive := match x with Some x => {[ x ]} | None => ∅ end.

Lemma parsed_fresh r k x : parsed r k = Some x -> x ∉ certs (owned k).
Proof.
  unfold parsed. destruct r; try done. case_match; [|done]. destruct (BIO_new_mem_buf _ _) as [m k1] eqn:Hbio.
  apply bio_new_law in Hbio as [_ Hk1]. destruct (PEM_read_bio_X509 m k1) as [y k2] eqn:Hpem. cbn. intros ->.
  apply pem_read_law in Hpem as [Hx _]. by rewrite Hk1 in Hx.
Qed.

Lemma wp_refused_reason msg (w : @cworld K) :
  wp (refused_reason msg) (fun o w' => (exists a, o = Ok a) /\ adds ∅ w w') w.
Proof.
  unfold refused_reason, on_lib, refused. rewrite !wp_bind, wp_get. cbn [then_post].
  pose proof (get_error_owned (lib w)) as He. destruct (ERR_get_error (lib w)) as [e k].
  rewrite wp_bind, wp_put. cbn [then_post]. rewrite wp_ret. cbn [then_post]. rewrite wp_ret.
  split; [by eexists|]. by apply adds_nothing.
Qed.

(** The buffer a certificate is read from is always freed, and the certificate
    never is. *)
Lemma wp_load_cert_from_memory cert w :
  wp (load_cert_from_memory cert) (fun _ => adds (leak (parsed (LoadCertFromMemory cert) (lib w))) w) w.
Proof.
  unfold load_cert_from_memory, the_context. rewrite wp_bind, wp_gets. cbn [then_post]. rewrite wp_bind.
  destruct cert as [s|]; unfold checkstring; [rewrite wp_ret|rewrite wp_stop; by apply adds_nothing].
  cbn [then_post]. rewrite wp_bind, wp_get. cbn [then_post]. cbv zeta. rewrite wp_bind. unfold on_lib at 1.
  rewrite wp_bind, wp_get. cbn [then_post parsed].
  destruct (BIO_new_mem_buf (cstr s) (lib w)) as [m k1] eqn:Hbio. destruct (bio_new_law _ _ _ _ Hbio) as [Hm Hk1].
  rewrite wp_bind, wp_put. cbn [then_post]. rewrite wp_ret. cbn [then_post]. rewrite wp_bind. unfold on_lib at 1.
  rewrite wp_bind, wp_get. cbn [then_post lib ctx].
  destruct (PEM_read_bio_X509 m k1) as [x k2] eqn:Hpem. pose proof (pem_read_law _ _ _ _ Hpem) as Hx.
  rewrite wp_bind, wp_put. cbn [then_post]. rewrite wp_ret. cbn [then_post fst].
  assert (forall w1, adds ∅ (CWorld (ctx w) k2) w1 -> adds (leak x) w (CWorld (ctx w1) (BIO_free m (lib w1)))) as Hfree.
  { intros w1 [Hc Ho]. cbn in Hc, Ho. split; [done|]. cbn. rewrite bio_free_law, Ho. cbn.
    destruct x as [x|]; [destruct Hx as [_ Hx]|]; rewrite Hx, Hk1; cbn; f_equal; set_solver. }
  assert (forall msg w1, adds ∅ (CWorld (ctx w) k2) w1 ->
    wp (let! a := refused_reason msg in do_lib (BIO_free m) ;;; ret a) (fun _ => adds (leak x) w) w1) as Hrefuse.
  { intros msg w1 Hw1. rewrite wp_bind. eapply wp_mono; [apply wp_refused_reason|]. intros o w2 [[a ->] Hw2].
    cbn [then_post]. unfold do_lib. rewrite wp_bind, wp_modify. cbn [then_post]. rewrite wp_ret. apply Hfree.
    rewrite <- (union_empty_l_L (∅ : gset positive)). by eapply adds_trans. }
  destruct x as [x|]; [|by apply Hrefuse, adds_nothing].
  rewrite wp_bind. unfold on_lib at 1. rewrite wp_bind, wp_get. cbn [then_post lib ctx].
  set (store := SSL_CTX_get_cert_store _ _). pose proof (add_cert_owned store x k2) as Hadd.
  destruct (X509_STORE_add_cert store x k2) as [rv k3]. rewrite wp_bind, wp_put. cbn [then_post].
  rewrite wp_ret. cbn [then_post]. case_decide; [by apply Hrefuse, adds_nothing|].
  unfold do_lib. rewrite wp_bind, wp_modify. cbn [then_post]. unfold accepted. rewrite wp_ret.
  by apply (Hfree (CWorld (ctx w) k3)), adds_nothing.
Qed.

Lemma wp_cserve r w : wp (cserve lua_call tostring r) (fun _ => adds (leak (parsed r (lib w))) w) w.
Proof.
  destruct r; [|apply wp_load_cert_from_memory|..]; cbn [parsed leak]; revert w;
    match goal with |- forall w, wp ?m _ w => change (keeps m) end; cbn [cserve].
  - unfold load_locations, the_context, accepted. keep.
  - unfold load_cert, the_context, accepted. keep.
  - unfold load_key, the_context, accepted. keep. destruct args as [|[] ?]; keep.
  - unfold set_cipher, the_context, accepted. keep.
  - unfold set_depth, the_context, accepted. keep.
  - unfold set_verify, the_context, accepted. keep. destruct args; keep. intros []; keep.
  - unfold set_options, the_context, accepted. keep. destruct args; keep. intros []; keep.
  - unfold set_mode, accepted. keep.
Qed.

(** What a script leaves owned that uses a context and goes on. *)
Definition owns_after (n : nat) (h h' : holdings) : Prop :=
  contexts h' = contexts h /\ bios h' = bios h /\ certs h ⊆ certs h' /\
  size (certs h') = (n + size (certs h))%nat.

Lemma crun_owns rs w :
  context (ctx (crun lua_call tostring rs w)) = context (ctx w) /\
  owns_after (loaded lua_call tostring rs w) (owned (lib w)) (owned (lib (crun lua_call tostring rs w))).
Proof.
  revert w. induction rs as [|r rs IH]; intros w; [by split_and!|].
  destruct (IH (cserve lua_call tostring r w).2) as (Hc & Hcs & Hb & Hsub & Hn).
  destruct (wp_cserve r w) as [Hc1 Ho1]. unfold crun in *. cbn [foldl loaded].
  rewrite Ho1 in Hcs, Hb, Hsub, Hn. cbn in Hcs, Hb, Hsub, Hn. split; [congruence|].
  split; [done|]. split; [done|]. split; [set_solver|]. rewrite Hn.
  destruct (parsed r (lib w)) as [x|] eqn:Hx; cbn [leak].
  - rewrite size_union by (apply parsed_fresh in Hx; set_solver). rewrite size_singleton. lia.
  - rewrite union_empty_l_L. lia.
Qed.

Lemma wp_ctx_create protocol k :
  wp (create protocol) (fun o k' =>
    match o with
    | Ok (inr c) => exists p, c = Context_ (Some p) MD_CTX_INVALID /\ p ∉ contexts (owned k) /\
        owned k' = Holdings ({[ p ]} ∪ contexts (owned k)) (bios (owned k)) (certs (owned k))
    | _ => owned k' = owned k
    end) k.
Proof.
  unfold create, checkstring. rewrite wp_bind. destruct protocol as [s|]; [|by rewrite wp_stop].
  rewrite wp_ret. cbn [then_post]. destruct (str2method s) as [m|]; [|by rewrite wp_ret].
  rewrite wp_bind, wp_get. cbn [then_post]. destruct (SSL_CTX_new m k) as [[p|] k1] eqn:Hnew;
    apply ctx_new_law in Hnew; rewrite wp_bind, wp_put; cbn [then_post]; [|by rewrite wp_ret].
  rewrite wp_bind, wp_modify. cbn [then_post]. rewrite wp_ret. exists p. by rewrite cache_mode_owned.
Qed.

(** Collecting frees the context, once. *)
Lemma wp_ctx_destroy p w :
  context (ctx w) = Some p ->
  wp meth_destroy (fun o w' => o = Ok tt /\ context (ctx w') = None /\
    owned (lib w') = Holdings (contexts (owned (lib w)) ∖ {[ p ]}) (bios (owned (lib w))) (certs (owned (lib w)))) w.
Proof.
  intros Hp. unfold meth_destroy, the_context, do_lib. rewrite wp_bind, wp_gets. cbn [then_post]. rewrite Hp.
  rewrite decide_True by done. rewrite wp_bind, wp_modify. cbn [then_post]. rewrite wp_modify.
  split; [done|]. split; [done|]. cbn. apply ctx_free_law.
Qed.
End Contexts.

(** ** Theorems *)

(** C19: contexts give back what they take: whatever a script does with a context
    between making and collecting it, errors included, no context and no buffer
    is left that was not there before, and collecting it again does nothing; what
    is left is one certificate for each that was loaded from memory.  The functions
    a script gives for passwords are taken to leave the library's objects alone. *)
Theorem contexts_released {K} (owned : K -> holdings) `{OpenSSLContexts K, ErrorQueue K, !ContextLaws K owned}
    lua_call tostring protocol k c k' rs :
  (forall f k, wp (lua_call f) (fun _ k' => owned k' = owned k) k) ->
  create protocol k = (Ok (inr c), k') ->
  let w := crun lua_call tostring rs (CWorld c k') in
  exists w', meth_destroy w = (Ok tt, w') /\ meth_destroy w' = (Ok tt, w') /\
    owns_after (loaded lua_call tostring rs (CWorld c k')) (owned k) (owned (lib w')).
Proof.
  intros Hscript Hcreate w. pose proof (wp_ctx_create owned protocol k) as Hnew. unfold wp in Hnew.
  rewrite Hcreate in Hnew. cbn in Hnew. destruct Hnew as (p & -> & Hp & Ho).
  destruct (crun_owns owned lua_call tostring Hscript rs (CWorld (Context_ (Some p) MD_CTX_INVALID) k'))
    as (Hc & Hcs & Hb & Hsub & Hn).
  destruct (proj1 (wp_run _ _ _) (wp_ctx_destroy owned p w Hc)) as (o & w' & Hrun & -> & Hnone & Ho').
  exists w'. split; [done|]. split.
  - unfold meth_destroy, the_context, bind, gets. by rewrite Hnone, decide_False by (intros Hx; by apply Hx).
  - fold w in Hcs, Hb, Hsub, Hn. cbn [lib] in *. rewrite Ho in Hcs, Hb, Hsub, Hn. cbn in Hcs, Hb, Hsub, Hn.
    rewrite Ho'. unfold owns_after. cbn. split; [set_solver|done].
Qed.

(** C35: the loops that collect flags give OpenSSL the disjunction of the codes of
    the names, whatever their order, when all of them are names; otherwise they
    say so and leave the context alone. *)
Theorem flags_by_name {K} `{OpenSSLContexts K, ErrorQueue K} l l' (w : @cworld K) :
  l ≡ₚ l' -> l <> [] ->
  set_verify (Some <$> l') w =
    match flags_of verify_options l with
    | Some f => (Ok [VBool true], CWorld (ctx w) (SSL_CTX_set_verify (context (ctx w)) f (lib w)))
    | None => (Ok [VBool false; VStr (of_string "invalid verify option")], w)
    end /\
  set_options (Some <$> l') w =
    match flags_of ssl_options l with
    | Some f => (Ok [VBool true], CWorld (ctx w) (SSL_CTX_set_options (context (ctx w)) f (lib w)))
    | None => (Ok [VBool false; VStr (of_string "invalid option")], w)
    end.
Proof.
  intros Hperm Hl. rewrite !(flags_of_perm _ _ _ Hperm).
  destruct l' as [|s l']; [by apply Permutation_nil_r in Hperm|]. split.
  - exact (flags_run set_verify_flag verify_options (SSL_CTX_set_verify (context (ctx w))) _ (s :: l') w set_verify_flag_code).
  - apply (flags_run set_option_flag ssl_options (SSL_CTX_set_options (context (ctx w))) _ (s :: l') w).
    intros. apply find_option_code.
Qed.

(** ** An OpenSSL with a ledger *)

(** It takes every text for a certificate. *)
#[local] Instance ledger_contexts : OpenSSLContexts holdings := {
  SSL_OP name := if decide (name = "NO_SSLv2"%string) then 2 ^ 24 else if decide (name = "NO_TICKET"%string) then 2 ^ 14 else 0;
  SSL_CTX_new _ k := let p := fresh (contexts k) in (Some p, Holdings ({[ p ]} ∪ contexts k) (bios k) (certs k));
  SSL_CTX_free c k := match c with Some p => Holdings (contexts k ∖ {[ p ]}) (bios k) (certs k) | None => k end;
  SSL_CTX_set_session_cache_mode _ _ k := k;
  SSL_CTX_load_verify_locations _ _ _ k := (1, k);
  SSL_CTX_get_cert_store _ _ := 1%positive;
  BIO_new_mem_buf _ k := let m := fresh (bios k) in (m, Holdings (contexts k) ({[ m ]} ∪ bios k) (certs k));
  BIO_free m k := Holdings (contexts k) (bios k ∖ {[ m ]}) (certs k);
  PEM_read_bio_X509 _ k := let x := fresh (certs k) in (Some x, Holdings (contexts k) (bios k) ({[ x ]} ∪ certs k));
  X509_STORE_add_cert _ _ k := (1, k);
  SSL_CTX_use_certificate_chain_file _ _ k := (0, k);
  SSL_CTX_set_default_passwd_cb _ _ k := k;
  SSL_CTX_use_PrivateKey_file _ _ cb := let! _ := cb 1024 in ret 1;
  SSL_CTX_set_cipher_list _ _ k := (1, k);
  SSL_CTX_set_verify_depth _ _ k := k;
  SSL_CTX_set_verify _ _ k := k;
  SSL_CTX_set_options _ _ k := k
}.

#[local] Instance ledger_errors : ErrorQueue holdings := {
  ERR_clear_error k := k; ERR_peek_error _ := 0; ERR_get_error k := (0, k); ERR_reason_error_string _ := None
}.

#[local] Instance ledger_laws : ContextLaws holdings id.
Proof.
  split; try done.
  - intros m k c k' [= <- <-]. split; [apply is_fresh|done].
  - intros b k m k' [= <- <-]. split; [apply is_fresh|done].
  - intros m k x k' [= <- <-]. split; [apply is_fresh|done].
  - intros c f cb k Hcb. cbn. rewrite wp_bind. eapply wp_mono; [apply Hcb|]. intros [a|e] k' Hk; [|done].
    cbn [then_post]. by rewrite wp_ret.
Qed.

Definition ledger0 : holdings := Holdings ∅ {[ 7%positive ]} ∅.
Definition no_call (_ : lfn) : C holdings lval := ret LNil.
Definition as_text (v : lval) : option bytes := match v with LString s => Some s | _ => None end.
Definition context1 : t_context := Context_ (Some 1%positive) MD_CTX_INVALID.
Definition ledger1 : holdings := Holdings {[ 1%positive ]} {[ 7%positive ]} ∅.
Definition requests0 : list crequest :=
  [SetMode (Some (of_string "client")); LoadCertFromMemory (Some (of_string "---")); LoadCert None;
   LoadCertFromMemory (Some (of_string "---"))].

Example contexts_released_witness :
  create (Some (of_string "tlsv1")) ledger0 = (Ok (inr context1), ledger1) /\
  let w := crun no_call as_text requests0 (CWorld context1 ledger1) in
  exists w', meth_destroy w = (Ok tt, w') /\ meth_destroy w' = (Ok tt, w') /\
    owns_after (loaded no_call as_text requests0 (CWorld context1 ledger1)) (id ledger0) (id (lib w')).
Proof.
  assert (create (Some (of_string "tlsv1")) ledger0 = (Ok (inr context1), ledger1)) as Hrun by (vm_compute; reflexivity).
  split; [exact Hrun|].
  apply (contexts_released id no_call as_text (Some (of_string "tlsv1")) ledger0 context1 ledger1 requests0); [|exact Hrun].
  intros f k. unfold no_call. by rewrite wp_ret.
Defined.

Example certificates_stay : loaded no_call as_text requests0 (CWorld context1 ledger1) = 2%nat.
Proof. vm_compute. reflexivity. Qed.

Definition names0 : list bytes := [of_string "no_ticket"; of_string "no_sslv2"].

Example flags_by_name_witness :
  flags_of ssl_options names0 = Some (2 ^ 24 + 2 ^ 14) /\
  set_verify (Some <$> reverse names0) (CWorld context1 ledger1) =
    match flags_of verify_options names0 with
    | Some f => (Ok [VBool true], CWorld context1 (SSL_CTX_set_verify (context context1) f ledger1))
    | None => (Ok [VBool false; VStr (of_string "invalid verify option")], CWorld context1 ledger1)
    end /\
  set_options (Some <$> reverse names0) (CWorld context1 ledger1) =
    match flags_of ssl_options names0 with
    | Some f => (Ok [VBool true], CWorld context1 (SSL_CTX_set_options (context context1) f ledger1))
    | None => (Ok [VBool false; VStr (of_string "invalid option")], CWorld context1 ledger1)
    end.
Proof.
  split; [vm_compute; reflexivity|].
  apply (flags_by_name names0 (reverse names0) (CWorld context1 ledger1)).
  - symmetry. apply reverse_Permutation.
  - discriminate.
Defined.
