(* ===== verification/Ssl.v ===== *)
(** * TLS connections (luasec's [ssl.c])

    A connection is an object a script makes from a context, gives the descriptor
    of a connected socket, takes through the handshake and then sends and receives
    with like a TCP object.  OpenSSL does the transfers and says after each call
    what it waits for; the functions here wait for it, within the time limits of
    the object.  luasec's own copies of [buffer.c] and [timeout.c] are luasocket's
    without the statistics of a buffer, which nothing here reads, so [Buffer.v]
    and [Socket.v] stand for them. *)

From S2P Require Import Prelude CString Lua Transport Socket Net SocketOps Auxiliar Buffer Tcp SslContext.
#[global] Open Scope Z_scope.

Definition IO_SSL : Z := -4.

Definition ST_SSL_NEW : Z := 1.
Definition ST_SSL_CONNECTED : Z := 2.
Definition ST_SSL_CLOSED : Z := 3.

Definition SSL_ERROR_NONE : Z := 0.
Definition SSL_ERROR_SSL : Z := 1.
Definition SSL_ERROR_WANT_READ : Z := 2.
Definition SSL_ERROR_WANT_WRITE : Z := 3.
Definition SSL_ERROR_WANT_X509_LOOKUP : Z := 4.
Definition SSL_ERROR_SYSCALL : Z := 5.
Definition SSL_ERROR_ZERO_RETURN : Z := 6.
Definition SSL_ERROR_WANT_CONNECT : Z := 7.
Definition SSL_ERROR_WANT_ACCEPT : Z := 8.

(** [SSL_MODE_ENABLE_PARTIAL_WRITE | SSL_MODE_ACCEPT_MOVING_WRITE_BUFFER] *)
Definition ssl_mode : Z := Z.lor 1 2.

(** The calls on OpenSSL's connections: the result, and what they store. *)
Class OpenSSL (K : Type) : Type := {
  SSL_new : option positive -> K -> option positive * K;
  SSL_free : positive -> K -> K;
  SSL_set_fd : positive -> Z -> K -> K;
  SSL_set_mode : positive -> Z -> K -> K;
  SSL_set_accept_state : positive -> K -> K;
  SSL_set_connect_state : positive -> K -> K;
  SSL_do_handshake : positive -> K -> Z * K;
  SSL_write : positive -> bytes -> Z -> K -> Z * K;
  SSL_read : positive -> Z -> K -> Z * bytes * K;
  SSL_shutdown : positive -> K -> K;
  SSL_pending : positive -> K -> Z;
  SSL_want : positive -> K -> Z;
  SSL_get_error : positive -> Z -> K -> Z
}.

Section Ssl.
Context {K : Type} `{Net K, ErrorQueue K, OpenSSL K} (fuel : nat).
Context (strerror : Z -> string).
(** What memory holds that has just been allocated; how scripts hold the object. *)
Context (storage : bytes) (noise : Z) (self : positive).

(** [t_ssl] less its buffer; the socket comes with its limits and the system. *)
Record t_ssl : Type := Ssl { sk : @sock K; ssl : option positive; state : Z; error : Z }.

Definition sys (s : t_ssl) : K := os (sk s).
Definition with_sk (x : @sock K) (s : t_ssl) : t_ssl := Ssl x (ssl s) (state s) (error s).
Definition with_sys (k : K) (s : t_ssl) : t_ssl := with_sk (with_os k (sk s)) s.
Definition with_state (st : Z) (s : t_ssl) : t_ssl := Ssl (sk s) (ssl s) st (error s).
Definition with_error (e : Z) (s : t_ssl) : t_ssl := Ssl (sk s) (ssl s) (state s) e.

Definition on_sk {A} (m : C (@sock K) A) : C t_ssl A := zoom sk with_sk m.

(** A call on the object's connection. *)
Definition on_ssl {A} (f : positive -> K -> A * K) : C t_ssl A :=
  let! s := get in
  match ssl s with
  | Some p => let '(a, k) := f p (sys s) in put (with_sys k s) ;;; ret a
  | None => stop (Undefined "use of a null pointer")
  end.
Definition do_ssl (f : positive -> K -> K) : C t_ssl unit := on_ssl (fun p k => (tt, f p k)).

(** ** The socket (luasec's [usocket.c])

    Its functions are luasocket's under other names. *)

Definition lsec_socket_waitfd (sw : Z) : C (@sock K) Z := waitfd fuel sw.
Definition lsec_socket_setblocking : C (@sock K) unit := socket_setblocking.
Definition lsec_socket_setnonblocking : C (@sock K) unit := socket_setnonblocking.
Definition lsec_socket_destroy : C (@sock K) unit := socket_destroy.

(** [EADDRINUSE] and the others, as on Linux. *)
Definition lsec_socket_strerror (errno err : Z) : option string :=
  if decide (err <= 0) then io_strerror err
  else match err with
  | 98 => Some "address already in use"
  | 106 => Some "already connected"
  | 13 => Some "permission denied"
  | 111 => Some "connection refused"
  | 103 => Some "closed"
  | 104 => Some "closed"
  | 32 => Some "closed"
  | 110 => Some "timeout"
  | _ => Some (strerror errno)
  end%string.

(** The error number the last system call left. *)
Definition lsec_socket_error : C t_ssl Z := gets (fun s => net_errno (sys s)).

(** ** Transfers *)

Definition ssl_ioerror (err : Z) : C t_ssl (option string) :=
  let! s := get in
  if decide (err = IO_SSL) then
    match error s with
    | 0 => ret (Some "No error"%string)
    | 6 => ret (Some "closed"%string)
    | 2 => ret (Some "wantread"%string)
    | 3 => ret (Some "wantwrite"%string)
    | 7 => ret (Some "'connect' not completed"%string)
    | 8 => ret (Some "'accept' not completed"%string)
    | 4 => ret (Some "Waiting for callback"%string)
    | 5 => ret (Some "System error"%string)
    | 1 =>
        let '(e, k) := ERR_get_error (sys s) in
        put (with_sys k s) ;;; ret (ERR_reason_error_string e)
    | _ => ret (Some "Unknown SSL error"%string)
    end
  else ret (lsec_socket_strerror (net_errno (sys s)) err).

(** A call of OpenSSL on an empty queue of errors, and what it says of it. *)
Definition ssl_call {A} (f : positive -> K -> Z * A * K) : C t_ssl (Z * A) :=
  modify (fun s => with_sys (ERR_clear_error (sys s)) s) ;;;
  let! '(err, a) := on_ssl f in
  let! s := get in
  match ssl s with
  | Some p => put (with_error (SSL_get_error p err (sys s)) s) ;;; ret (err, a)
  | None => stop (Undefined "use of a null pointer")
  end.

(** Waiting for what OpenSSL wants. *)
Definition want {B} (sw : Z) (none : B) : C t_ssl (unit + Z * B) :=
  let! err := on_sk (lsec_socket_waitfd sw) in
  ret (if decide (err = IO_TIMEOUT) then inr (IO_SSL, none)
       else if decide (err <> IO_DONE) then inr (err, none)
       else inl tt).

(** The cases of the [switch] that the three loops share; [none] is what is
    reported with an error. *)
Definition other_cases {B} (err : Z) (none : B) : C t_ssl (unit + Z * B) :=
  let! s := get in
  if decide (error s = SSL_ERROR_WANT_READ) then want WAITFD_R none
  else if decide (error s = SSL_ERROR_WANT_WRITE) then want WAITFD_W none
  else if decide (error s = SSL_ERROR_SYSCALL) then
    if decide (ERR_peek_error (sys s) <> 0) then
      put (with_error SSL_ERROR_SSL s) ;;; ret (inr (IO_SSL, none))
    else if decide (err = 0) then ret (inr (IO_CLOSED, none))
    else let! e := lsec_socket_error in ret (inr (e, none))
  else ret (inr (IO_SSL, none)).

Definition handshake : C t_ssl Z :=
  modify (fun s => with_sk (Sock (fd (sk s)) (timeout_markstart (net_time (sys s)) (tm (sk s))) (sys s)) s) ;;;
  let! s := get in
  if decide (state s = ST_SSL_CLOSED) then ret IO_CLOSED
  else
    let! '(e, _) := loop fuel (fun _ : unit =>
      let! '(err, _) := ssl_call (fun p k => let '(r, k) := SSL_do_handshake p k in (r, tt, k)) in
      let! s := get in
      if decide (error s = SSL_ERROR_NONE) then
        put (with_state ST_SSL_CONNECTED s) ;;; ret (inr (IO_DONE, tt))
      else other_cases err tt) tt in
    ret e.

(** The error code and [*sent], when it has been stored; [int] arguments and
    [size_t] results are converted as C does. *)
Definition ssl_send (data : bytes) : C t_ssl (Z * option Z) :=
  let! s := get in
  if decide (state s = ST_SSL_CLOSED) then ret (IO_CLOSED, None)
  else
    loop fuel (fun _ : unit =>
      let! '(err, _) := ssl_call (fun p k =>
        let '(r, k) := SSL_write p data (i32 (Z.of_nat (length data))) k in (r, tt, k)) in
      let! s := get in
      if decide (error s = SSL_ERROR_NONE) then ret (inr (IO_DONE, Some (u64 err)))
      else other_cases err (Some 0)) tt.

(** The error code, [*got], and what has been stored at [data]. *)
Definition ssl_recv (count : nat) : C t_ssl (Z * (option Z * bytes)) :=
  let! s := get in
  if decide (state s = ST_SSL_CLOSED) then ret (IO_CLOSED, (None, []))
  else
    loop fuel (fun _ : unit =>
      let! '(err, data) := ssl_call (fun p => SSL_read p (i32 (Z.of_nat count))) in
      let! s := get in
      if decide (error s = SSL_ERROR_NONE) then ret (inr (IO_DONE, (Some (u64 err), data)))
      else if decide (error s = SSL_ERROR_ZERO_RETURN) then ret (inr (IO_CLOSED, (Some (u64 err), data)))
      else other_cases err (Some 0, [])) tt.

(** The driver [io_init] makes of them for [buffer.c].  There the counts are
    locals that only these functions set, and they are read in any case.  The
    error of [ssl_ioerror] is taken off the queue; the next call empties it. *)
#[local] Instance ssl_io : Transport t_ssl := {
  io_send data :=
    let! '(e, sent) := ssl_send data in
    match sent with
    | Some n => ret (e, Z.to_nat n)
    | None => stop (Undefined "read of an uninitialized count")
    end;
  io_recv n :=
    let! '(e, (got, data)) := ssl_recv n in
    match got with
    | Some g =>
        if decide (g = Z.of_nat (length data)) then ret (e, data)
        else stop (Undefined "read past the octets received")
    | None => stop (Undefined "read of an uninitialized count")
    end;
  io_error s err := match (ssl_ioerror err s).1 with Ok m => m | Stop _ => None end;
  io_markstart s :=
    with_sk (Sock (fd (sk s)) (timeout_markstart (net_time (sys s)) (tm (sk s))) (sys s)) s
}.

(** ** Methods *)

Local Abbreviation conn := (@Buffer.state t_ssl).

Definition on_conn {A} (m : C t_ssl A) : C conn A := on_io m.

(** [__gc], and the work of [close]. *)
Definition meth_destroy : C conn unit :=
  let! w := get in
  match ssl (io w) with
  | Some _ => on_conn (
      on_sk lsec_socket_setblocking ;;;
      do_ssl SSL_shutdown ;;;
      on_sk lsec_socket_destroy ;;;
      do_ssl SSL_free ;;;
      modify (fun s => Ssl (sk s) None (state s) (error s)))
  | None => ret tt
  end.

(** The object made from a context, or the answer.  [sock], [error] and the
    start of the limits are left as the memory was. *)
Definition meth_create (c : t_context) : C K (answer + conn) :=
  let mode := ctx_getmode c in
  let ctx := ctx_getcontext c in
  if decide (mode = MD_CTX_INVALID) then ret (inl (failed (Some "invalid mode"%string)))
  else
    let! k := get in
    let '(p, k) := SSL_new ctx k in
    put k ;;;
    match p with
    | None => ret (inl (failed (Some "error creating SSL object"%string)))
    | Some p =>
        modify (SSL_set_fd p SOCKET_INVALID) ;;;
        modify (SSL_set_mode p ssl_mode) ;;;
        modify (if decide (mode = MD_CTX_SERVER) then SSL_set_accept_state p else SSL_set_connect_state p) ;;;
        let! k := get in
        let tm0 := timeout_init (-1000000) (-1000000) (Timeout noise noise noise) in
        let s := Ssl (Sock noise tm0 k) (Some p) ST_SSL_NEW noise in
        ret (inr (buffer_init (fun _ => 0) storage s))
    end.

Definition meth_send (d : bytes) (start fin : Z) : C conn answer :=
  let! r := buffer_meth_send fuel d start fin in ret (of_count r).

Definition meth_receive (p : pattern) (part : bytes) : C conn answer :=
  let! r := buffer_meth_receive fuel p part in ret (of_reply r).

Definition meth_getfd : C conn answer := gets (fun w => [VNum (fd (sk (io w)))]).

Definition meth_setfd (n : Z) : C conn answer :=
  let! w := get in
  if decide (state (io w) <> ST_SSL_NEW) then stop (LuaError "invalid SSL object state")
  else on_conn (
    modify (fun s => with_sk (Sock n (tm (sk s)) (sys s)) s) ;;;
    on_sk lsec_socket_setnonblocking ;;;
    do_ssl (fun p => SSL_set_fd p n) ;;;
    ret []).

Definition text (m : option string) : value := match m with Some m => VStr (of_string m) | None => VNil end.

Definition meth_handshake : C conn answer :=
  on_conn (
    let! err := handshake in
    if decide (err = IO_DONE) then ret [VBool true]
    else let! m := ssl_ioerror err in ret [VBool false; text m]).

Definition meth_close : C conn answer :=
  meth_destroy ;;;
  on_conn (modify (with_state ST_SSL_CLOSED)) ;;;
  ret [].

Definition meth_settimeout (t : Z) (mode : ascii) : C conn answer :=
  let! w := get in
  match timeout_meth_settimeout t mode (tm (sk (io w))) with
  | Ok tm => on_conn (modify (fun s => with_sk (Sock (fd (sk s)) tm (sys s)) s)) ;;; ret done_1
  | Stop f => stop f
  end.

Definition meth_dirty : C conn answer :=
  let! w := get in
  if decide (state (io w) <> ST_SSL_CLOSED) then
    if buffer_isempty (buf w) then
      let! n := on_conn (on_ssl (fun p k => (SSL_pending p k, k))) in
      ret [VBool (bool_decide (n <> 0))]
    else ret [VBool true]
  else ret [VBool false].

(** [SSL_NOTHING] is 1; for any other answer nothing is pushed, and the object
    itself is returned. *)
Definition meth_want : C conn answer :=
  let! w := get in
  let! code := (if decide (state (io w) = ST_SSL_CLOSED) then ret 1
                else on_conn (on_ssl (fun p k => (SSL_want p k, k)))) in
  ret [match code with
       | 1 => VStr (of_string "nothing")
       | 3 => VStr (of_string "read")
       | 2 => VStr (of_string "write")
       | 4 => VStr (of_string "x509lookup")
       | _ => VObj self
       end].

Definition meth_rawconn : C conn (option positive) := gets (fun w => ssl (io w)).

(** ** What scripts ask for *)

Inductive request : Type :=
| Close | Getfd | Dirty | Dohandshake | Receive (p : pattern) (part : bytes)
| Send (d : bytes) (start fin : Z) | Settimeout (t : Z) (mode : ascii) | Want.

Definition serve (r : request) : C conn answer :=
  match r with
  | Close => meth_close
  | Getfd => meth_getfd
  | Dirty => meth_dirty
  | Dohandshake => meth_handshake
  | Receive p part => meth_receive p part
  | Send d s e => meth_send d s e
  | Settimeout t m => meth_settimeout t m
  | Want => meth_want
  end.
End Ssl.

(** [static luaL_Reg meta[]], with the [__gc] that [luaopen_ssl_core] adds. *)
Definition meta : list (string * string) := [
  ("close", "meth_close"); ("getfd", "meth_getfd"); ("dirty", "meth_dirty");
  ("dohandshake", "meth_handshake"); ("receive", "meth_receive"); ("send", "meth_send");
  ("settimeout", "meth_settimeout"); ("want", "meth_want")
]%string.
