(* ===== verification/SslSession.v ===== *)
(** * TLS connections are streams with a life

    What is documented of OpenSSL's connections, and what follows of the objects
    of [Ssl.v]: every operation ends within the time limits, a connection that
    has not been closed is a pair of streams, and the three states are those a
    script is told. *)

From S2P Require Import Prelude CString Lua Transport Socket Net SocketOps Auxiliar Buffer Tcp SslContext Ssl.
#[global] Open Scope Z_scope.

(** ** What is documented of OpenSSL

    A connection has the descriptor it was given, an end once it was told, the
    octets the peer has still to deliver and has been sent, and the data of a
    write that has to be repeated, if any: OpenSSL has begun to send it. *)
Record tls : Type := Tls {
  c_fd : Z; c_server : option bool; c_unread : bytes; c_wire : bytes; c_pending : option bytes
}.

Definition read_to (u : bytes) (c : tls) : tls := Tls (c_fd c) (c_server c) u (c_wire c) (c_pending c).
Definition written (w : bytes) (q : option bytes) (c : tls) : tls := Tls (c_fd c) (c_server c) (c_unread c) w q.

(** A write that has to be repeated has to be repeated with the same data. *)
Definition repeats (data : bytes) (q : option bytes) : Prop := q = None \/ q = Some data.

Section Calls.
Context {K : Type} `{Net K, ErrorQueue K, OpenSSL K}.
Context (descs : K -> gmap Z desc) (patience : K -> nat) (delta : Z) (conns : K -> gmap positive tls).

(** A call that changes nothing here but perhaps the queue of errors. *)
Definition inert (k k' : K) : Prop :=
  descs k' = descs k /\ conns k' = conns k /\ patience k' = patience k /\ net_time k' = net_time k.

(** A transfer on connection [p], which answered [r]: it uses no descriptor but
    its own, and what it wants next is named; it wants something only of an open
    descriptor, and not for ever. *)
Definition tls_call (p : positive) (c c' : tls) (r : Z) (k k' : K) : Prop :=
  let e := SSL_get_error p r k' in
  quick patience delta k k' /\ only_on descs (c_fd c) k k' /\
  conns k' = <[p := c']> (conns k) /\ c_fd c' = c_fd c /\ c_server c' = c_server c /\
  (e = SSL_ERROR_NONE <-> 0 < r) /\ (e = SSL_ERROR_ZERO_RETURN -> r = 0) /\
  (e = SSL_ERROR_WANT_READ \/ e = SSL_ERROR_WANT_WRITE ->
     (patience k' < patience k)%nat /\ is_Some (descs k !! c_fd c)) /\
  (e = SSL_ERROR_SYSCALL -> ERR_peek_error k' = 0 -> r <> 0 -> 0 < net_errno k').

(** A connection whose descriptor, if it has one, does not block, and an empty
    queue of errors. *)
Definition can_call (p : positive) (c : tls) (k : K) : Prop :=
  conns k !! p = Some c /\ settled (c_fd c) (descs k) /\ ERR_peek_error k = 0.
End Calls.

(** The end of the stream is reported by a [ZERO_RETURN], or by a call that
    failed with 0 and no error at all. *)
Definition at_end {K} `{ErrorQueue K, OpenSSL K} (p : positive) (r : Z) (k : K) : Prop :=
  SSL_get_error p r k = SSL_ERROR_ZERO_RETURN \/
  (SSL_get_error p r k = SSL_ERROR_SYSCALL /\ ERR_peek_error k = 0 /\ r = 0).

Class OpenSSLLaws (K : Type) `{Net K, ErrorQueue K, OpenSSL K} (descs : K -> gmap Z desc)
    (patience : K -> nat) (delta : Z) (conns : K -> gmap positive tls) : Prop := {
  clear_error_law k : inert descs patience conns k (ERR_clear_error k) /\ ERR_peek_error (ERR_clear_error k) = 0;
  get_error_law k e k' : ERR_get_error k = (e, k') -> inert descs patience conns k k';
  new_law x k r k' : SSL_new x k = (r, k') ->
    descs k' = descs k /\ passes patience k k' /\
    match r with
    | Some p => conns k !! p = None /\ exists u, conns k' = <[p := Tls SOCKET_INVALID None u [] None]> (conns k)
    | None => conns k' = conns k
    end;
  free_law p k : descs (SSL_free p k) = descs k /\ passes patience k (SSL_free p k) /\
    conns (SSL_free p k) = delete p (conns k);
  set_fd_law p n k c : conns k !! p = Some c ->
    descs (SSL_set_fd p n k) = descs k /\ passes patience k (SSL_set_fd p n k) /\
    exists u, conns (SSL_set_fd p n k) = <[p := Tls n (c_server c) u (c_wire c) (c_pending c)]> (conns k);
  set_mode_law p m k : descs (SSL_set_mode p m k) = descs k /\ passes patience k (SSL_set_mode p m k) /\
    conns (SSL_set_mode p m k) = conns k;
  set_state_law p k c : conns k !! p = Some c ->
    (descs (SSL_set_accept_state p k) = descs k /\ passes patience k (SSL_set_accept_state p k) /\
     conns (SSL_set_accept_state p k) = <[p := Tls (c_fd c) (Some true) (c_unread c) (c_wire c) (c_pending c)]> (conns k)) /\
    (descs (SSL_set_connect_state p k) = descs k /\ passes patience k (SSL_set_connect_state p k) /\
     conns (SSL_set_connect_state p k) = <[p := Tls (c_fd c) (Some false) (c_unread c) (c_wire c) (c_pending c)]> (conns k));
  (** the handshake transfers nothing of the streams *)
  handshake_law p c k r k' : can_call descs conns p c k -> SSL_do_handshake p k = (r, k') ->
    tls_call descs patience delta conns p c c r k k' /\ (0 < r -> is_Some (descs k !! c_fd c));
  write_law p c data k r k' : can_call descs conns p c k -> data <> [] -> repeats data (c_pending c) ->
    SSL_write p data (Z.of_nat (length data)) k = (r, k') ->
    r <= Z.of_nat (length data) /\
    exists q, repeats data q /\ (0 < r -> q = None) /\
      tls_call descs patience delta conns p c (written (c_wire c ++ take (Z.to_nat r) data) q c) r k k';
  read_law p c n k r data k' : can_call descs conns p c k -> 0 < n -> SSL_read p n k = (r, data, k') ->
    r <= n /\ Z.of_nat (length data) = Z.max 0 r /\
    exists u, c_unread c = data ++ u /\ (at_end p r k' -> c_unread c = []) /\
      tls_call descs patience delta conns p c (read_to u c) r k k';
  (** a close notification is no part of the stream *)
  shutdown_law p c k : conns k !! p = Some c ->
    passes patience k (SSL_shutdown p k) /\ only_on descs (c_fd c) k (SSL_shutdown p k) /\
    conns (SSL_shutdown p k) = conns k;
  (** the system knows nothing of OpenSSL *)
  setfl_keeps fd fl k : conns (net_setfl fd fl k) = conns k;
  close_keeps fd k : conns (net_close fd k) = conns k;
  select_keeps n rfds wfds efds t k r rfds' wfds' efds' errno k' :
    net_select n rfds wfds efds t k = (r, rfds', wfds', efds', errno, k') -> conns k' = conns k
}.

Section Session.
Context {K : Type} (descs : K -> gmap Z desc) (patience : K -> nat) (delta : Z) (conns : K -> gmap positive tls)
  `{HN : Net K, HE : ErrorQueue K, HO : OpenSSL K}
  `{!NetLaws K descs patience delta, !OpenSSLLaws K descs patience delta conns} (fuel : nat).
Context (strerror : Z -> string).

Local Abbreviation passes := (passes patience).
Local Abbreviation on_time s0 s := (@on_time K patience delta (net_kernel (fd s0)) s0 s).
Local Abbreviation in_time := (in_time patience delta).
Local Abbreviation tls_call := (tls_call descs patience delta conns).

Lemma only_on_settled d k k' : only_on descs d k k' -> settled d (descs k) -> settled d (descs k').
Proof.
  intros [->|(e & e' & He & Hn & ->)] Hs; [done|]. intros x. rewrite lookup_insert_eq. intros [= <-].
  rewrite Hn. by apply Hs.
Qed.

Lemma only_on_none d k k' x : only_on descs d k k' -> descs k !! x = None -> descs k' !! x = None.
Proof.
  intros [->|(e & e' & He & _ & ->)] Hx; [done|]. rewrite lookup_insert_ne; [done|]. intros ->. congruence.
Qed.

(** The object has connection [p], in state [c], on its socket or on none. *)
Record bound (s : @t_ssl K) (p : positive) (c : tls) : Prop := {
  bound_ssl : ssl s = Some p;
  bound_conn : conns (sys s) !! p = Some c;
  bound_fd : c_fd c = fd (sk s) \/ c_fd c = SOCKET_INVALID;
  bound_settled : settled (c_fd c) (descs (sys s));
  bound_invalid : descs (sys s) !! SOCKET_INVALID = None
}.

(** From [s0], with connection [p] in state [c0], to [s] with it in state [c]:
    nothing else has changed but the octets in the buffers of its descriptor. *)
Record moves (p : positive) (c0 : tls) (s0 s : @t_ssl K) (c : tls) : Prop := {
  moves_ssl : ssl s = ssl s0;
  moves_fd : fd (sk s) = fd (sk s0);
  moves_tm : tm (sk s) = tm (sk s0);
  moves_passes : passes (sys s0) (sys s);
  moves_descs : only_on descs (c_fd c0) (sys s0) (sys s);
  moves_conns : conns (sys s) = <[p := c]> (conns (sys s0));
  moves_c_fd : c_fd c = c_fd c0;
  moves_c_server : c_server c = c_server c0
}.

Lemma moves_refl p c s : conns (sys s) !! p = Some c -> moves p c s s c.
Proof. intros Hc. split; try done; [by left|by rewrite insert_id]. Qed.

Lemma moves_trans p c0 c1 c2 s0 s1 s2 : moves p c0 s0 s1 c1 -> moves p c1 s1 s2 c2 -> moves p c0 s0 s2 c2.
Proof.
  intros [] []. split; try congruence.
  - by eapply passes_trans.
  - eapply only_on_trans; [done|]. congruence.
  - rewrite moves_conns1, moves_conns0. by rewrite insert_insert_eq.
Qed.

Lemma moves_bound p c0 s0 s c : bound s0 p c0 -> moves p c0 s0 s c -> bound s p c.
Proof.
  intros [] []. split; [congruence| | | |].
  - by rewrite moves_conns0, lookup_insert_eq.
  - rewrite moves_c_fd0, moves_fd0. done.
  - rewrite moves_c_fd0. by eapply only_on_settled.
  - by eapply only_on_none.
Qed.

(** Fields that the relations above do not look at. *)
Lemma moves_with_error p c0 s0 s c e : moves p c0 s0 s c -> moves p c0 s0 (with_error e s) c.
Proof. by intros []. Qed.
Lemma moves_with_state p c0 s0 s c st : moves p c0 s0 s c -> moves p c0 s0 (with_state st s) c.
Proof. by intros []. Qed.

(** A call of OpenSSL, from an empty queue of errors. *)
Lemma moves_call p c0 s0 s c c' r k :
  moves p c0 s0 s c -> tls_call p c c' r (ERR_clear_error (sys s)) k -> moves p c0 s0 (with_sys k s) c'.
Proof.
  intros [] ([Hp _] & Hon & Hk & Hf & Hsv & _). destruct (clear_error_law (sys s)) as [(Hd & Hc & Hpat & Ht) _].
  split; try done; cbn; try congruence.
  - eapply passes_trans; [done|]. unfold Net.passes in *. rewrite Hpat, Ht in Hp. done.
  - eapply only_on_trans; [done|]. rewrite <- moves_c_fd0. revert Hon. unfold only_on. by rewrite Hd.
  - rewrite Hk, Hc, moves_conns0. apply insert_insert_eq.
Qed.

Lemma wp_waitfd_conns sw s0 : wp (waitfd fuel sw) (fun _ s => conns (os s) = conns (os s0)) s0.
Proof.
  unfold waitfd, socket_waitfd. rewrite wp_bind, wp_get. cbn [then_post]. rewrite wp_bind, wp_get. cbn [then_post].
  case_match; [by rewrite wp_ret|]. rewrite wp_bind.
  apply (wp_loop _ (fun _ s => conns (os s) = conns (os s0))); [|done|done].
  intros _ s Hs. rewrite wp_bind, wp_get. cbn [then_post sys_select net_kernel].
  destruct (net_select _ _ _ _ _ _) as [[[[[r rfds] wfds] efds] errno] k] eqn:Hsel.
  apply select_keeps in Hsel. rewrite wp_bind, wp_put. cbn [then_post]. rewrite wp_ret.
  assert (conns k = conns (os s0)) as Hk by congruence. by case_decide.
Qed.

(** ** One round of a transfer *)

Lemma wp_ssl_call {A} (f : positive -> K -> Z * A * K) Q s p :
  ssl s = Some p ->
  wp (ssl_call f) Q s =
    (let '(r, a, k) := f p (ERR_clear_error (sys s)) in
     Q (Ok (r, a)) (with_error (SSL_get_error p r k) (with_sys k s))).
Proof.
  intros Hs. destruct s as [x l st e]. cbn in Hs. subst l. unfold ssl_call, on_ssl. rewrite wp_bind, wp_modify.
  cbn [then_post]. rewrite !wp_bind, wp_get. cbn [then_post ssl with_sys with_sk sys].
  unfold sys at 1. cbn [sk with_sys with_sk os with_os].
  destruct (f p (ERR_clear_error (os x))) as [[r a] k] eqn:Hf. unfold sys. cbn [sk]. rewrite Hf.
  rewrite wp_bind, wp_put. cbn [then_post]. rewrite wp_ret. cbn [then_post]. rewrite wp_bind, wp_get.
  by cbn [then_post ssl with_sys with_sk].
Qed.

(** The time a transfer from [s0] has left. *)
Definition on_time_tls (s0 s : @t_ssl K) : Prop := on_time (sk s0) (sk s).

(** Nothing has been transferred since [s0], and what has to be repeated is as
    [P] says. *)
Definition at_rest (P : option bytes -> Prop) (c0 c : tls) : Prop :=
  c_unread c = c_unread c0 /\ c_wire c = c_wire c0 /\ P (c_pending c).
Definition stays (P : option bytes -> Prop) (p : positive) (c0 : tls) (s0 s : @t_ssl K) : Prop :=
  exists c, moves p c0 s0 s c /\ at_rest P c0 c.

(** Where a round stands that has not ended the transfer begun in [s0]. *)
Definition waiting (P : option bytes -> Prop) (p : positive) (c0 : tls) (s0 s : @t_ssl K) : Prop :=
  stays P p c0 s0 s /\ state s = state s0 /\ on_time_tls s0 s.

Lemma waiting_start (P : option bytes -> Prop) p c s : bound s p c -> P (c_pending c) -> waiting P p c s s.
Proof.
  intros Hb HP. split; [|split; [done|apply on_time_start]]. exists c. split; [apply moves_refl, Hb|done].
Qed.

(** A call takes no time to speak of, and ends in time. *)
Lemma call_in_time p c0 c c' s0 s r k x :
  bound s0 p c0 -> moves p c0 s0 s c -> on_time_tls s0 s ->
  tls_call p c c' r (ERR_clear_error (sys s)) k -> fd x = fd (sk s) -> tm x = tm (sk s) -> os x = k ->
  in_time (sk s0) x.
Proof.
  intros Hb Hm Ht ([Hp Hq] & _) Hf Htm Hk D HD. subst k. pose proof net_delta.
  destruct (clear_error_law (sys s)) as [(_ & _ & Hpat & Hnow) _]. unfold Net.passes in Hp. rewrite Hpat, Hnow in *.
  pose proof (moves_passes _ _ _ _ _ Hm) as [Hps _]. pose proof (moves_tm _ _ _ _ _ Hm) as Htms.
  unfold on_time_tls in Ht. specialize (Ht D). rewrite Htms in Ht. destruct (Ht HD) as [Hs _].
  unfold spent, latest, overrun in *. rewrite HD in Hs. cbn in *. unfold sys in *. nia.
Qed.

Lemma in_time_of_on_time s0 s : tm (sk s) = tm (sk s0) -> on_time_tls s0 s -> in_time (sk s0) (sk s).
Proof.
  intros Htm Ht D HD. pose proof net_delta. destruct (Ht D) as [Hs _]; [by rewrite Htm|].
  unfold spent, latest, overrun in *. rewrite HD in Hs. cbn in *. nia.
Qed.

(** A call that found nothing to do leaves time to wait. *)
Lemma time_after_call s0 s k :
  on_time_tls s0 s -> tm (sk s) = tm (sk s0) -> (patience k < patience (sys s))%nat ->
  net_time k <= net_time (sys s) + delta ->
  forall D, deadline (tm (sk s)) = Some D ->
    net_spent patience delta k <= @latest K patience delta (net_kernel (fd (sk s0))) (sk s0) - delta /\
    D + 2 * delta * Z.of_nat (patience k) <= @latest K patience delta (net_kernel (fd (sk s0))) (sk s0) - delta.
Proof.
  intros Ht Htm Hless Hq D HD. pose proof net_delta. destruct (Ht D HD) as [Hs HD'].
  unfold net_spent, spent in *. cbn in *. unfold sys in *. nia.
Qed.

(** What the system does without OpenSSL. *)
Lemma moves_quiet p c0 s0 s c x :
  moves p c0 s0 s c -> same_socket patience (sk s) x -> descs (os x) = descs (sys s) ->
  conns (os x) = conns (sys s) -> moves p c0 s0 (with_sk x s) c.
Proof.
  intros [] (Hf & Ht & Hp) Hd Hc. split; try done; cbn; try congruence.
  - by eapply passes_trans.
  - eapply only_on_trans; [done|]. by left.
  - unfold sys in *. cbn. congruence.
Qed.

(** Waiting on the connection's own descriptor, after a call that wants it. *)
Lemma wp_want {B} P sw (none : B) p c0 c c' s0 s r k e :
  bound s0 p c0 -> moves p c0 s0 s c -> at_rest P c0 c' ->
  state s = state s0 -> on_time_tls s0 s -> (patience (sys s0) < fuel)%nat -> sw <> WAITFD_C ->
  tls_call p c c' r (ERR_clear_error (sys s)) k -> (patience k < patience (sys s))%nat ->
  is_Some (descs (sys s) !! c_fd c) ->
  wp (want fuel sw none) (fun o s' =>
    (o = Ok (inl tt) /\ waiting P p c0 s0 s' /\ (patience (sys s') < patience (sys s))%nat) \/
    (exists x, o = Ok (inr (x, none)) /\ x <> IO_DONE /\ x <> IO_CLOSED /\ waiting P p c0 s0 s'))
    (with_error e (with_sys k s)).
Proof.
  intros Hb Hm Hrest Hst Ht Hfuel Hsw Hcall Hless Hopen.
  pose proof (moves_bound _ _ _ _ _ Hb Hm) as Hbs. pose proof (moves_call _ _ _ _ _ _ _ _ Hm Hcall) as Hm'.
  destruct Hcall as ([Hp Hq] & Hon & _). destruct (clear_error_law (sys s)) as [(Hd & _ & Hpat & Hnow) _].
  rewrite Hnow in Hq.
  assert (c_fd c = fd (sk s) /\ fd (sk s) <> SOCKET_INVALID) as [Hf Hfd].
  { destruct Hbs as [_ _ [Hf|Hf] _ Hinv]; [|rewrite Hf, Hinv in Hopen; by destruct Hopen].
    split; [done|]. intros Heq. rewrite Hf, Heq, Hinv in Hopen. by destruct Hopen. }
  pose proof (time_after_call s0 s k Ht (moves_tm _ _ _ _ _ Hm) Hless Hq) as Hwait.
  unfold want. rewrite wp_bind. unfold on_sk. rewrite wp_zoom.
  assert (does_not_block descs (fd (sk s)) k) as Hnb.
  { rewrite <- Hf. eapply only_on_blocks; [done|]. destruct Hopen as [x Hx]. exists x. rewrite Hd. split; [done|].
    by apply (bound_settled _ _ _ Hbs). }
  cbn [sk with_error with_sys with_sk].
  eapply wp_mono; [apply (wp_and _ _ _ _ (wp_net_waitfd descs patience delta fuel _ sw (with_os k (sk s))
    Hfd Hnb ltac:(cbn; pose proof (moves_passes _ _ _ _ _ Hm) as [? _]; lia) Hwait) (wp_waitfd_conns _ _))|].
  intros o x [(err & -> & (Hfx & Htx & [Hpx Hnx]) & Hdx & Hcl & Htime) Hcx]. cbn [os with_os fd tm] in *.
  cbn [then_post]. rewrite wp_ret.
  assert (waiting P p c0 s0 (with_sk x (with_error e (with_sys k s)))) as Hwt.
  { split; [exists c'; split; [|done]|split; [done|]].
    - apply moves_quiet; [by apply moves_with_error|split; [done|by split]|done|done].
    - intros D HD. cbn in HD. rewrite Htx in HD. pose proof net_delta. destruct (Hwait D HD). split; [by eapply Htime|].
      cbn. nia. }
  assert (err <> IO_CLOSED) as Hopen' by (intros Hc; by apply Hsw, Hcl).
  assert (patience (os x) < patience (sys s))%nat as Hlt by lia.
  repeat case_decide; [right; exists IO_SSL|right; exists err|left]; done.
Qed.

(** The cases of the [switch] that end no transfer: the connection is waited for,
    or the transfer ends with an error and within its time. *)
Lemma wp_other_cases {B} P (none : B) p c0 c c' s0 s r k :
  bound s0 p c0 -> moves p c0 s0 s c -> at_rest P c0 c' ->
  state s = state s0 -> on_time_tls s0 s -> (patience (sys s0) < fuel)%nat ->
  tls_call p c c' r (ERR_clear_error (sys s)) k -> SSL_get_error p r k <> SSL_ERROR_NONE ->
  wp (other_cases fuel r none) (fun o s' =>
    (o = Ok (inl tt) /\ waiting P p c0 s0 s' /\ (patience (sys s') < patience (sys s))%nat) \/
    (exists x, o = Ok (inr (x, none)) /\ x <> IO_DONE /\ (x = IO_CLOSED -> at_end p r k) /\
       stays P p c0 s0 s' /\ state s' = state s0 /\ in_time (sk s0) (sk s')))
    (with_error (SSL_get_error p r k) (with_sys k s)).
Proof.
  intros Hb Hm Hrest Hst Ht Hfuel Hcall Hne. set (e := SSL_get_error p r k) in *.
  pose proof (moves_with_error _ _ _ _ _ e (moves_call _ _ _ _ _ _ _ _ Hm Hcall)) as Hm'.
  assert (in_time (sk s0) (sk (with_error e (with_sys k s)))) as Hin by by apply (call_in_time p c0 c c' s0 s r k).
  pose proof Hcall as (_ & _ & _ & _ & _ & _ & _ & Hwants & Herrno). fold e in Hwants, Herrno.
  destruct (clear_error_law (sys s)) as [(Hd & _ & Hpat & _) _]. rewrite Hpat, Hd in Hwants.
  assert (forall sw, sw <> WAITFD_C -> e = SSL_ERROR_WANT_READ \/ e = SSL_ERROR_WANT_WRITE ->
    wp (want fuel sw none) (fun o s' =>
      (o = Ok (inl tt) /\ waiting P p c0 s0 s' /\ (patience (sys s') < patience (sys s))%nat) \/
      (exists x, o = Ok (inr (x, none)) /\ x <> IO_DONE /\ (x = IO_CLOSED -> at_end p r k) /\
         stays P p c0 s0 s' /\ state s' = state s0 /\ in_time (sk s0) (sk s')))
    (with_error e (with_sys k s))) as Hwant.
  { intros sw Hsw He. destruct (Hwants He) as [Hless Hopen].
    eapply wp_mono; [by eapply wp_want|]. intros o s' [?|(x & -> & Hx & Hx' & Hs & Hst' & Ht')]; [by left|].
    right. exists x. do 2 (split; [done|]). split; [done|]. split; [done|]. split; [done|].
    destruct Hs as (c2 & [] & _). by apply in_time_of_on_time. }
  assert (stays P p c0 s0 (with_error e (with_sys k s))) as Hs by by exists c'.
  unfold other_cases. rewrite wp_bind, wp_get. cbn [then_post error with_error].
  case_decide; [apply Hwant; [done|by left]|]. case_decide; [apply Hwant; [done|by right]|].
  case_decide as Hsys; [case_decide as Hpeek; [|case_decide as Hr]|].
  - rewrite wp_bind, wp_put. cbn [then_post]. rewrite wp_ret. right. exists IO_SSL. do 2 (split; [done|]).
    split; [done|]. split; [|done]. exists c'. split; [by apply moves_with_error|done].
  - rewrite wp_ret. right. exists IO_CLOSED. do 2 (split; [done|]). split; [|done]. intros _. right.
    split; [done|]. split; [|done]. by destruct (decide (ERR_peek_error k = 0)).
  - unfold lsec_socket_error. rewrite wp_bind, wp_gets. cbn [then_post]. rewrite wp_ret. right.
    eexists. split; [done|]. assert (0 < net_errno k) as Hpos.
    { apply Herrno; [done| |done]. by destruct (decide (ERR_peek_error k = 0)). }
    cbn. unfold IO_DONE, IO_CLOSED. split; [lia|]. split; [lia|done].
  - rewrite wp_ret. right. exists IO_SSL. do 2 (split; [done|]). by split.
Qed.

(** ** The handshake *)

(** The object with the start of an operation marked. *)
Definition marked (s : @t_ssl K) : @t_ssl K := @io_markstart _ (ssl_io fuel strerror) s.

Lemma bound_marked s p c : bound s p c -> bound (marked s) p c.
Proof. by intros []. Qed.

(** A loop of calls on the connection: a call that ends it satisfies [Q], any
    other is as [wp_other_cases] says. *)
Lemma wp_transfer {A B} (P : option bytes -> Prop) (f : positive -> K -> Z * A * K) (body : Z -> A -> C (@t_ssl K) (unit + Z * B))
    Q p c0 s0 :
  bound s0 p c0 -> P (c_pending c0) -> (patience (sys s0) < fuel)%nat ->
  (forall s c r a k, moves p c0 s0 s c -> at_rest P c0 c ->
     state s = state s0 -> on_time_tls s0 s -> can_call descs conns p c (ERR_clear_error (sys s)) ->
     f p (ERR_clear_error (sys s)) = (r, a, k) ->
     wp (body r a) (fun o s' =>
       (o = Ok (inl tt) /\ waiting P p c0 s0 s' /\ (patience (sys s') < patience (sys s))%nat) \/
       exists x, o = Ok (inr x) /\ Q (Ok x) s')
       (with_error (SSL_get_error p r k) (with_sys k s))) ->
  wp (loop fuel (fun _ : unit => let! '(err, a) := ssl_call f in body err a) tt) Q s0.
Proof.
  intros Hb HP Hfuel Hbody.
  apply (wp_loop_measure _ (fun _ => waiting P p c0 s0) (fun _ s => patience (sys s)));
    [|by eapply waiting_start|done].
  intros _ s ((c & Hm & Hrest) & Hst & Ht). pose proof (moves_bound _ _ _ _ _ Hb Hm) as Hbs.
  rewrite wp_bind. rewrite (wp_ssl_call f _ s p (bound_ssl _ _ _ Hbs)).
  destruct (f p (ERR_clear_error (sys s))) as [[r a] k] eqn:Hf. cbn [then_post].
  destruct (clear_error_law (sys s)) as [(Hd & Hc & _) Hpeek].
  eapply wp_mono; [eapply Hbody; try done|].
  - split; [rewrite Hc; apply Hbs|]. split; [rewrite Hd; apply Hbs|done].
  - intros o s' [(-> & ? & ?)|(x & -> & ?)]; done.
Qed.

(** The handshake ends in time; the connection is connected exactly when it says
    so, and nothing of the streams has been used. *)
Lemma wp_handshake s p c :
  bound s p c -> state s <> ST_SSL_CLOSED -> (patience (sys s) < fuel)%nat ->
  wp (handshake fuel) (fun o s' => exists e, o = Ok e /\ stays (eq (c_pending c)) p c (marked s) s' /\
    ((e = IO_DONE /\ state s' = ST_SSL_CONNECTED) \/ (e <> IO_DONE /\ state s' = state s)) /\
    in_time (sk (marked s)) (sk s')) s.
Proof.
  intros Hb Hst Hfuel. unfold handshake. rewrite wp_bind, wp_modify. cbn [then_post].
  change (with_sk _ s) with (marked s). rewrite wp_bind, wp_get. cbn [then_post].
  rewrite decide_False by done. rewrite wp_bind.
  eapply (wp_transfer (eq (c_pending c)) _ _ _ p c); [by apply bound_marked|done|done|].
  intros s1 c1 r [] k Hm Hrest Hst1 Ht Hcan Hcall.
  destruct (SSL_do_handshake p (ERR_clear_error (sys s1))) as [r' k'] eqn:Hh. simplify_eq.
  destruct (handshake_law _ _ _ _ _ Hcan Hh) as [Htls _].
  rewrite wp_bind, wp_get. cbn [then_post error with_error]. case_decide as Hnone.
  - rewrite wp_bind, wp_put. cbn [then_post]. rewrite wp_ret. right. exists (IO_DONE, tt). split; [done|].
    cbn [then_post]. rewrite wp_ret. exists IO_DONE. split; [done|]. split; [|split; [by left|]].
    + exists c1. split; [|done]. by eapply moves_with_state, moves_with_error, moves_call.
    + by apply (call_in_time p c c1 c1 (marked s) s1 r k); [apply bound_marked|..].
  - eapply wp_mono; [by eapply (wp_other_cases _ tt p c c1 c1 (marked s)); [apply bound_marked|..]|].
    intros o s' [?|(x & -> & Hx & _ & Hs & Hst' & Hin)]; [by left|right]. exists (x, tt). split; [done|].
    cbn [then_post]. rewrite wp_ret. exists x. split; [done|]. split; [done|]. split; [|done]. right. split; [done|]. by rewrite Hst'.
Qed.

(** ** Receiving and sending *)

Lemma wp_ssl_recv n s0 p c0 :
  (0 < n)%nat -> Z.of_nat n < 2 ^ 31 -> bound s0 p c0 -> state s0 <> ST_SSL_CLOSED -> (patience (sys s0) < fuel)%nat ->
  wp (ssl_recv fuel n) (fun o s => exists e data c,
    o = Ok (e, (Some (Z.of_nat (length data)), data)) /\ moves p c0 s0 s c /\ state s = state s0 /\
    in_time (sk s0) (sk s) /\ c_unread c0 = data ++ c_unread c /\ c_wire c = c_wire c0 /\
    (length data <= n)%nat /\ (e = IO_DONE <-> data <> []) /\ (e = IO_CLOSED -> c_unread c0 = []) /\
    c_pending c = c_pending c0) s0.
Proof.
  intros Hn Hint Hb Hst Hfuel. unfold ssl_recv. rewrite wp_bind, wp_get. cbn [then_post].
  rewrite decide_False by done. rewrite i32_small by lia.
  eapply (wp_transfer (eq (c_pending c0)) _ _ _ p c0); [done..|].
  intros s c r data k Hm (Hu & Hw & Hq) Hst1 Ht Hcan Hcall.
  assert (0 < Z.of_nat n) as Hn' by lia.
  destruct (read_law _ _ _ _ _ _ _ Hcan Hn' Hcall) as (Hr & Hlen & u & Hunread & Hend & Htls).
  pose proof Htls as (_ & _ & _ & _ & _ & Hnone & Hzero & _).
  pose proof (moves_with_error _ _ _ _ _ (SSL_get_error p r k) (moves_call _ _ _ _ _ _ _ _ Hm Htls)) as Hm'.
  assert (in_time (sk s0) (sk (with_error (SSL_get_error p r k) (with_sys k s)))) as Hin
    by by eapply (call_in_time p c0 c _ s0 s r k).
  rewrite wp_bind, wp_get. cbn [then_post error with_error].
  assert (0 < r \/ r <= 0 /\ data = []) as Hcases.
  { destruct (Z.lt_ge_cases 0 r); [by left|right]. split; [done|]. apply nil_length_inv. lia. }
  case_decide as He; [|case_decide as Hz].
  - apply Hnone in He. rewrite wp_ret. right. eexists. split; [done|]. exists IO_DONE, data, (read_to u c).
    split; [unfold u64; rewrite Z.mod_small by lia; do 4 f_equal; lia|]. do 3 (split; [done|]).
    split; [by rewrite <- Hu|]. split; [done|]. split; [lia|]. split; [|by split]. split; [|done]. intros _ ->. cbn in Hlen. lia.
  - assert (r = 0) as -> by by apply Hzero. destruct Hcases as [|[_ ->]]; [lia|].
    rewrite wp_ret. right. eexists. split; [done|]. exists IO_CLOSED, [], (read_to u c).
    split; [done|]. do 3 (split; [done|]).
    split; [by rewrite <- Hu|]. split; [done|]. split; [cbn; lia|]. split; [done|]. split; [|done]. intros _. rewrite <- Hu. apply Hend. by left.
  - destruct Hcases as [Hpos|[Hneg ->]]; [by apply Hnone in Hpos|]. cbn in Hunread.
    eapply wp_mono; [apply (wp_other_cases (eq (c_pending c0)) _ p c0 c (read_to u c) s0); try done; split; cbn; [congruence|done]|].
    intros o s' [?|(x & -> & Hx & Hcl & (c2 & Hm2 & Hu2 & Hw2 & Hq2) & Hst' & Hin')]; [by left|right].
    eexists. split; [done|]. exists x, [], c2. split; [done|]. do 3 (split; [done|]). split; [done|]. split; [done|].
    split; [cbn; lia|]. split; [done|]. split; [|done]. intros Hc. rewrite <- Hu. by apply Hend, Hcl.
Qed.

Lemma wp_ssl_send data s0 p c0 :
  data <> [] -> Z.of_nat (length data) < 2 ^ 31 -> bound s0 p c0 -> state s0 <> ST_SSL_CLOSED ->
  repeats data (c_pending c0) -> (patience (sys s0) < fuel)%nat ->
  wp (ssl_send fuel data) (fun o s => exists e sent c,
    o = Ok (e, Some (Z.of_nat sent)) /\ moves p c0 s0 s c /\ state s = state s0 /\
    in_time (sk s0) (sk s) /\ c_unread c = c_unread c0 /\ c_wire c = c_wire c0 ++ take sent data /\
    (sent <= length data)%nat /\ (e = IO_DONE <-> (0 < sent)%nat) /\
    repeats data (c_pending c) /\ (e = IO_DONE -> c_pending c = None)) s0.
Proof.
  intros Hd Hint Hb Hst Hrep Hfuel. unfold ssl_send. rewrite wp_bind, wp_get. cbn [then_post].
  rewrite decide_False by done. rewrite i32_small by lia.
  eapply (wp_transfer (repeats data) _ _ _ p c0); [done..|].
  intros s c r [] k Hm (Hu & Hw & Hq) Hst1 Ht Hcan Hcall.
  destruct (SSL_write p data (Z.of_nat (length data)) (ERR_clear_error (sys s))) as [r' k'] eqn:Hwr. simplify_eq.
  destruct (write_law _ _ _ _ _ _ Hcan Hd Hq Hwr) as (Hr & q & Hrq & Hnq & Htls).
  pose proof Htls as (_ & _ & _ & _ & _ & Hnone & _).
  pose proof (moves_with_error _ _ _ _ _ (SSL_get_error p r k) (moves_call _ _ _ _ _ _ _ _ Hm Htls)) as Hm'.
  rewrite wp_bind, wp_get. cbn [then_post error with_error]. case_decide as He.
  - apply Hnone in He. rewrite wp_ret. right. eexists. split; [done|]. eexists IO_DONE, (Z.to_nat r), _.
    split; [unfold u64; rewrite Z.mod_small by lia; do 3 f_equal; lia|]. split; [done|]. split; [done|].
    split; [by eapply (call_in_time p c0 c _ s0 s r k)|]. split; [done|]. split; [cbn; by rewrite Hw|]. split; [lia|].
    split; [split; [lia|done]|]. split; [done|]. intros _. by apply Hnq.
  - assert (~ 0 < r) as Hneg by by rewrite <- Hnone. replace (Z.to_nat r) with 0%nat in * by lia.
    eapply wp_mono; [apply (wp_other_cases (repeats data) _ p c0 c (written (c_wire c ++ take 0 data) q c) s0); try done; split; cbn; [done|by rewrite take_0, app_nil_r]|].
    intros o s' [?|(x & -> & Hx & _ & (c2 & Hm2 & Hu2 & Hw2 & Hq2) & Hst' & Hin')]; [by left|right].
    eexists. split; [done|]. exists x, 0%nat, c2. split; [done|]. do 4 (split; [done|]).
    split; [by rewrite take_0, app_nil_r|]. split; [lia|]. split; [split; [done|lia]|]. split; [done|done].
Qed.

(** ** Connections are a transport *)

Section Instance.
Context (p : positive) (c0 : tls) (s0 : @t_ssl K).
Hypothesis Hbound : bound s0 p c0.
Hypothesis Hopen : state s0 <> ST_SSL_CLOSED.
Hypothesis Hfuel : (patience (sys s0) < fuel)%nat.

(** The object with another start of its limits. *)
Definition started (st : Z) (s : @t_ssl K) : @t_ssl K :=
  with_sk (Sock (fd (sk s)) (Timeout (block (tm (sk s))) (total (tm (sk s))) st) (sys s)) s.

(** The object is as it was in [s0], but for the start of its limits and what
    [moves] says. *)
Definition tls_ready (s : @t_ssl K) : Prop :=
  state s = state s0 /\ exists c st, moves p c0 (started st s0) s c.

Definition the_tls (s : @t_ssl K) : tls := default c0 (conns (sys s) !! p).
Definition tls_sendable (s : @t_ssl K) (d : bytes) : Prop := repeats d (c_pending (the_tls s)).
Definition tls_unread (s : @t_ssl K) : bytes := c_unread (the_tls s).
Definition tls_wire (s : @t_ssl K) : bytes := c_wire (the_tls s).

Lemma the_tls_moved s1 c1 s c : moves p c1 s1 s c -> the_tls s = c.
Proof. intros []. unfold the_tls. by rewrite moves_conns0, lookup_insert_eq. Qed.

Lemma tls_ready_bound s : tls_ready s -> bound s p (the_tls s) /\ state s <> ST_SSL_CLOSED /\ (patience (sys s) < fuel)%nat.
Proof.
  intros (Hst & c & st & Hm). rewrite (the_tls_moved _ _ _ _ Hm). split; [|split].
  - eapply moves_bound; [|done]. by destruct Hbound.
  - congruence.
  - pose proof (moves_passes _ _ _ _ _ Hm) as [Hp _]. cbn in Hp. unfold sys in *. lia.
Qed.

Lemma tls_ready_moves s s' c : tls_ready s -> moves p (the_tls s) s s' c -> state s' = state s -> tls_ready s'.
Proof.
  intros (Hst & c1 & st & Hm) Hm' Hst'. split; [congruence|]. exists c, st. eapply moves_trans; [done|].
  by rewrite (the_tls_moved _ _ _ _ Hm) in Hm'.
Qed.

Lemma tls_laws : @TransportLaws (@t_ssl K) (ssl_io fuel strerror) tls_ready tls_sendable tls_unread tls_wire.
Proof.
  split.
  - intros n s Hn Hint Hs. destruct (tls_ready_bound s Hs) as (Hb & Hst & Hf).
    destruct (proj1 (wp_run _ _ _) (wp_ssl_recv n s p _ Hn Hint Hb Hst Hf))
      as (o & s' & Hrun & e & data & c & -> & Hm & Hst' & _ & Hu & Hw & Hlen & Hok & Hcl & Hq).
    exists e, data, s'. cbn. unfold bind at 1. rewrite Hrun, decide_True by done. split; [done|].
    split; [by eapply tls_ready_moves|]. unfold tls_unread, tls_wire, tls_sendable. rewrite (the_tls_moved _ _ _ _ Hm).
    do 5 (split; [done|]). intros d. by rewrite Hq.
  - intros data s Hd Hint Hs Hsend. destruct (tls_ready_bound s Hs) as (Hb & Hst & Hf).
    destruct (proj1 (wp_run _ _ _) (wp_ssl_send data s p _ Hd Hint Hb Hst Hsend Hf))
      as (o & s' & Hrun & e & n & c & -> & Hm & Hst' & _ & Hu & Hw & Hlen & Hok & Hrep & Hnone).
    exists e, n, s'. cbn. unfold bind at 1. rewrite Hrun, Nat2Z.id. split; [done|].
    split; [by eapply tls_ready_moves|]. unfold tls_unread, tls_wire, tls_sendable. rewrite (the_tls_moved _ _ _ _ Hm).
    do 4 (split; [done|]). intros d [He|Heq]; [left; by apply Hnone|by subst d].
  - intros s (Hst & c & st & Hm). split.
    + split; [done|]. exists c, (net_time (sys s)). destruct Hm. split; try done. cbn in *. by rewrite moves_tm0.
    + done.
Qed.
End Instance.
End Session.
