(* ===== verification/SslToy.v ===== *)
(** * A system with TLS

    The network of [Net.v] with an OpenSSL whose peers greet and take what they
    are sent, and which is busy as long as the network is: it satisfies the laws
    of [SslSession.v]. *)

From S2P Require Import Prelude CString Lua Transport Socket Net SocketOps Auxiliar Buffer Tcp SslContext Ssl SslSession.
#[global] Open Scope Z_scope.

Definition toysys : Type := toynet * gmap positive tls.
Definition y_table (k : toysys) : gmap Z desc := t_table k.1.
Definition y_busy (k : toysys) : nat := t_busy k.1.
Definition y_conns (k : toysys) : gmap positive tls := k.2.

#[global] Instance toysys_net : Net toysys := {
  net_socket a b c k := let '(r, e, n) := net_socket a b c k.1 in (r, e, (n, k.2));
  net_close fd k := (net_close fd k.1, k.2);
  net_getfl fd k := net_getfl fd k.1;
  net_setfl fd f k := (net_setfl fd f k.1, k.2);
  net_bind fd a k := let '(r, e, n) := net_bind fd a k.1 in (r, e, (n, k.2));
  net_listen fd a k := let '(r, e, n) := net_listen fd a k.1 in (r, e, (n, k.2));
  net_connect fd a k := let '(r, e, n) := net_connect fd a k.1 in (r, e, (n, k.2));
  net_accept fd k := let '(r, e, n) := net_accept fd k.1 in (r, e, (n, k.2));
  net_shutdown fd h k := (net_shutdown fd h k.1, k.2);
  net_read fd c k := let '(r, d, e, n) := net_read fd c k.1 in (r, d, e, (n, k.2));
  net_send fd d k := let '(r, e, n) := net_send fd d k.1 in (r, e, (n, k.2));
  net_recvfrom fd c k := let '(r, d, a, e, n) := net_recvfrom fd c k.1 in (r, d, a, e, (n, k.2));
  net_sendto fd d a k := let '(r, e, n) := net_sendto fd d a k.1 in (r, e, (n, k.2));
  net_recv fd c k := let '(r, e, n) := net_recv fd c k.1 in (r, e, (n, k.2));
  net_select m a b c t k := let '(r, a, b, c, e, n) := net_select m a b c t k.1 in (r, a, b, c, e, (n, k.2));
  net_setsockopt fd l m v k := let '(r, n) := net_setsockopt fd l m v k.1 in (r, (n, k.2));
  net_getpeername fd k := net_getpeername fd k.1;
  net_getsockname fd k := net_getsockname fd k.1;
  net_gethostname k := net_gethostname k.1;
  net_gethostbyname m k := let '(h, a, b, n) := net_gethostbyname m k.1 in (h, a, b, (n, k.2));
  net_gethostbyaddr m k := let '(h, a, b, n) := net_gethostbyaddr m k.1 in (h, a, b, (n, k.2));
  net_time k := net_time k.1;
  net_errno k := net_errno k.1
}.

(** A law of the system is the law of its network, for the same call. *)
Ltac lift_law E law :=
  unfold toysys_net at 1 in E; cbv beta iota in E;
  repeat match type of E with (match ?x with _ => _ end) = _ => destruct x eqn:? end;
  simplify_eq; eapply law; eassumption.

#[global] Instance toysys_netlaws : NetLaws toysys y_table y_busy 0.
Proof.
  split.
  - done.
  - intros dom type proto k r errno k' E. unfold net_socket at 1 in E. lift_law E (net_socket_law (N := toynet)).
  - intros fd k. apply (net_close_law (N := toynet) fd k.1).
  - intros fd f k. apply (net_setfl_law (N := toynet) fd f k.1).
  - intros fd a k r errno k' E. unfold net_bind at 1 in E. lift_law E (net_bind_law (N := toynet)).
  - intros fd b k r errno k' E. unfold net_listen at 1 in E. lift_law E (net_listen_law (N := toynet)).
  - intros fd h k. apply (net_shutdown_law (N := toynet) fd h k.1).
  - intros fd a k r errno k' E Hb. unfold net_connect at 1 in E. lift_law E (net_connect_law (N := toynet)).
  - intros fd k r errno k' E Hb. unfold net_accept at 1 in E. lift_law E (net_accept_law (N := toynet)).
  - intros fd n k r errno k' E Hb. unfold net_recv at 1 in E. lift_law E (net_recv_law (N := toynet)).
  - intros fd n k taken data errno k' e E He Hn Hp. unfold net_read at 1 in E. lift_law E (net_read_law (N := toynet)).
  - intros fd d k sent errno k' e E He Hn. unfold net_send at 1 in E. lift_law E (net_send_law (N := toynet)).
  - intros fd d a k sent errno k' E Hb. unfold net_sendto at 1 in E. lift_law E (net_sendto_law (N := toynet)).
  - intros fd n k taken data a errno k' E Hb. unfold net_recvfrom at 1 in E. lift_law E (net_recvfrom_law (N := toynet)).
  - intros n a b c t k r a' b' c' errno k' E Ht. unfold net_select at 1 in E. lift_law E (net_select_law (N := toynet)).
  - intros fd l m v k r k' E. unfold net_setsockopt at 1 in E. lift_law E (net_setsockopt_law (N := toynet)).
  - intros m k hp a e k' E. unfold net_gethostbyname at 1 in E. lift_law E (net_gethostbyname_law (N := toynet)).
  - intros m k hp a e k' E. unfold net_gethostbyaddr at 1 in E. lift_law E (net_gethostbyaddr_law (N := toynet)).
Qed.

(** ** An OpenSSL that is busy for a while *)

#[global] Instance toysys_errors : ErrorQueue toysys := {
  ERR_clear_error k := k;
  ERR_peek_error _ := 0;
  ERR_get_error k := (0, k);
  ERR_reason_error_string _ := None
}.

Definition y_with (p : positive) (f : tls -> tls) (k : toysys) : toysys :=
  match k.2 !! p with Some c => (k.1, <[p := f c]> k.2) | None => k end.

(** A transfer: -2 without a descriptor, -1 while the network is busy. *)
Definition y_call (p : positive) (k : toysys) (wait : tls -> tls) (f : tls -> Z * tls) : Z * toysys :=
  match k.2 !! p with
  | None => (-2, k)
  | Some c =>
      match t_table k.1 !! c_fd c with
      | None => (-2, k)
      | Some _ =>
          match t_busy k.1 with
          | S b => (-1, (ToyNet (t_table k.1) (t_backlog k.1) b (t_clock k.1), <[p := wait c]> k.2))
          | O => let '(r, c') := f c in (r, (k.1, <[p := c']> k.2))
          end
      end
  end.

#[global] Instance toysys_openssl : OpenSSL toysys := {
  SSL_new x k :=
    match x with
    | None => (None, k)
    | Some _ => let p := fresh (dom k.2) in
        (Some p, (k.1, <[p := Tls SOCKET_INVALID None (of_string "hello" ++ [LF]) [] None]> k.2))
    end;
  SSL_free p k := (k.1, delete p k.2);
  SSL_set_fd p n := y_with p (fun c => Tls n (c_server c) (c_unread c) (c_wire c) (c_pending c));
  SSL_set_mode _ _ k := k;
  SSL_set_accept_state p := y_with p (fun c => Tls (c_fd c) (Some true) (c_unread c) (c_wire c) (c_pending c));
  SSL_set_connect_state p := y_with p (fun c => Tls (c_fd c) (Some false) (c_unread c) (c_wire c) (c_pending c));
  SSL_do_handshake p k := y_call p k id (fun c => (1, c));
  SSL_write p d n k := y_call p k (fun c => written (c_wire c) (Some d) c) (fun c => (n, written (c_wire c ++ d) None c));
  SSL_read p n k :=
    let got := default [] ((fun c => take (Z.to_nat n) (c_unread c)) <$> k.2 !! p) in
    let '(r, k') := y_call p k id (fun c => (Z.of_nat (length got), read_to (drop (Z.to_nat n) (c_unread c)) c)) in
    (r, if decide (0 < r) then got else [], k');
  SSL_shutdown _ k := k;
  SSL_pending _ _ := 0;
  SSL_want _ _ := 1;
  SSL_get_error _ r _ :=
    if decide (0 < r) then SSL_ERROR_NONE
    else if decide (r = 0) then SSL_ERROR_ZERO_RETURN
    else if decide (r = -1) then SSL_ERROR_WANT_READ
    else SSL_ERROR_SSL
}.

Lemma y_with_some p f k c : y_conns k !! p = Some c -> y_with p f k = (k.1, <[p := f c]> k.2).
Proof. unfold y_with, y_conns. by intros ->. Qed.

Lemma y_passes k c : passes y_busy k (k.1, c).
Proof. by split. Qed.

(** What a transfer comes to: it was done, or nothing came of it yet. *)
Lemma y_call_law p c k wait f r k' :
  y_conns k !! p = Some c -> y_call p k wait f = (r, k') ->
  c_fd (wait c) = c_fd c -> c_server (wait c) = c_server c ->
  c_fd (f c).2 = c_fd c -> c_server (f c).2 = c_server c -> 0 <= (f c).1 ->
  exists c', tls_call y_table y_busy 0 y_conns p c c' r k k' /\
    ((r = (f c).1 /\ c' = (f c).2 /\ is_Some (y_table k !! c_fd c)) \/ (r < 0 /\ (c' = wait c \/ c' = c))).
Proof.
  unfold y_call, y_conns, y_table. intros Hc E Hw1 Hw2 Hf1 Hf2 Hr. rewrite Hc in E.
  assert (forall k2 c2 r2, quick y_busy 0 k k2 -> only_on y_table (c_fd c) k k2 ->
    y_conns k2 = <[p := c2]> k.2 -> c_fd c2 = c_fd c -> c_server c2 = c_server c ->
    (r2 = -1 -> (y_busy k2 < y_busy k)%nat /\ is_Some (y_table k !! c_fd c)) ->
    tls_call y_table y_busy 0 y_conns p c c2 r2 k k2) as Hcall.
  { intros k2 c2 r2 Hq Ho Hcs Hfd Hsv Hm. do 5 (split; [done|]).
    unfold SSL_get_error, toysys_openssl, SSL_ERROR_NONE, SSL_ERROR_ZERO_RETURN, SSL_ERROR_WANT_READ,
      SSL_ERROR_WANT_WRITE, SSL_ERROR_SYSCALL, SSL_ERROR_SSL.
    repeat case_decide; split_and!; try done; try lia; intros [?|?]; lia || by apply Hm. }
  assert (quick y_busy 0 k k) as Hrefl by (split; [by split|lia]).
  destruct (t_table k.1 !! c_fd c) eqn:Hfd.
  - destruct (t_busy k.1) as [|b] eqn:Hb.
    + destruct (f c) as [r1 c1] eqn:Hfc. cbn in *. simplify_eq. exists c1. split; [|left; by split_and!].
      apply Hcall; try done; [by left|]. intros ?; lia.
    + simplify_eq. exists (wait c). split; [|by right; split; [lia|left]].
      apply Hcall; try done; [split; [split; cbn; unfold y_busy; lia|cbn; lia]|by left|]. intros _. unfold y_busy. cbn. rewrite Hb. split; [lia|]. by eexists.
  - simplify_eq. exists c. split; [|by right; split; [lia|right]].
    apply Hcall; try done; [by left|]. unfold y_conns. by rewrite insert_id.
Qed.

Lemma y_at_end p r (k : toysys) : at_end p r k -> r = 0.
Proof.
  unfold at_end. cbn. unfold SSL_ERROR_NONE, SSL_ERROR_ZERO_RETURN, SSL_ERROR_WANT_READ, SSL_ERROR_SYSCALL, SSL_ERROR_SSL.
  repeat case_decide; intros [?|(? & _)]; done.
Qed.

#[global] Instance toysys_laws : OpenSSLLaws toysys y_table y_busy 0 y_conns.
Proof.
  split; try done.
  - intros k e k' [= <- <-]. done.
  - intros [x|] k r k' [= <- <-]; (split; [done|]); (split; [by split|]); [|done].
    split; [|by eexists]. apply not_elem_of_dom, is_fresh.
  - intros p n k c Hc. cbn. rewrite (y_with_some _ _ _ _ Hc). split; [done|]. split; [apply y_passes|]. by eexists.
  - intros p k c Hc. cbn. rewrite !(y_with_some _ _ _ _ Hc). split; (split; [done|]); by split; [apply y_passes|].
  - intros p c k r k' (Hc & _ & _) E. destruct (y_call_law p c k id (fun c => (1, c)) r k' Hc E) as (c' & Ht & Hcases); try done.
    destruct Hcases as [(-> & -> & Ho)|[Hr [-> | ->]]]; (split; [done|]); done || lia.
  - intros p c d k r k' (Hc & _ & _) Hd Hq E.
    destruct (y_call_law p c k _ _ r k' Hc E) as (c' & Ht & Hcases); try done; cbn in *; [lia|].
    destruct Hcases as [(-> & -> & Ho)|[Hr Hc']].
    + split; [done|]. exists None. split; [by left|]. split; [done|]. by rewrite Nat2Z.id, firstn_all.
    + split; [lia|]. replace (Z.to_nat r) with 0%nat by lia. rewrite take_0, app_nil_r.
      destruct Hc' as [-> | ->]; [exists (Some d); split; [by right|]|exists (c_pending c); split; [done|]];
        (split; [lia|]); [done|]. by destruct c.
  - intros p c n k r d k' (Hc & _ & _) Hn E. cbn in E. unfold y_conns in Hc. rewrite Hc in E. cbn in E.
    destruct (y_call _ _ _ _) as [r0 k0] eqn:Ec. simplify_eq.
    destruct (y_call_law p c k _ _ r k' Hc Ec) as (c' & Ht & Hcases); try done; cbn in *; [lia|].
    destruct Hcases as [(-> & -> & Ho)|[Hr Hc']].
    + set (got := take (Z.to_nat n) (c_unread c)) in *.
      assert (Z.of_nat (length got) <= n) as Hle by (unfold got; rewrite length_take; lia).
      assert ((if decide (0 < Z.of_nat (length got)) then got else []) = got) as Hgot.
      { case_decide; [done|]. destruct got; [done|cbn in *; lia]. }
      split; [done|]. rewrite Hgot. split; [lia|]. exists (drop (Z.to_nat n) (c_unread c)).
      split; [unfold got; by rewrite take_drop|]. split; [|done]. intros Hend%y_at_end.
      assert (length got = 0%nat) as Hz by lia. unfold got in Hz. rewrite length_take in Hz. apply nil_length_inv. lia.
    + rewrite decide_False by lia. split; [lia|]. split; [cbn; lia|]. exists (c_unread c). split; [done|].
      split; [intros Hend%y_at_end; lia|]. by destruct Hc' as [-> | ->], c.
  - intros p c k Hc. split; [by split|]. by split; [left|].
  - intros n a b d t k r a' b' d' errno k' E. unfold net_select at 1, toysys_net at 1 in E.
    repeat match type of E with (match ?x with _ => _ end) = _ => destruct x end. by simplify_eq.
Qed.
