(* ===== verification/SslLink.v ===== *)
(** * What scripts see of a TLS connection

    An abstract connection: two streams while it lives, with the data of a send
    that has to be repeated, and what was read ahead once it is closed.  The
    objects of [Ssl.v] refine it; what they do outside of it is stated too. *)

From S2P Require Import Prelude CString Lua Transport Socket Net SocketOps Auxiliar Buffer Tcp TcpTyping SslContext Ssl SslSession SslToy.
#[global] Open Scope Z_scope.

(** ** The abstract connection *)

Inductive link : Type :=
| Live (connected : bool) (incoming outgoing : bytes) (unsent : option bytes)
| Gone (read_ahead : bytes).

(** What could be sent before can be sent after. *)
Definition eases (q q' : option bytes) : Prop := forall d, repeats d q -> repeats d q'.

(** How [send] of data [d] ends that has sent [n] octets: after an error the
    rest can be sent, and after all of it anything. *)
Definition sent_so_far (d : bytes) (n : nat) (err : Z) (q q' : option bytes) : Prop :=
  (n <= length d)%nat /\ (err = IO_DONE <-> n = length d) /\
  (drop n d <> [] -> repeats (take STEPSIZE (drop n d)) q') /\
  (n = length d -> forall x, (d = [] -> repeats x q) -> repeats x q').

Definition timeout_answer (mode : ascii) : outcome answer :=
  if decide (mode = "b"%char \/ mode = "r"%char \/ mode = "t"%char) then Ok done_1
  else Stop (LuaError "invalid timeout mode").

#[global] Instance acceptable_dec p part : Decision (acceptable p part).
Proof. unfold acceptable. destruct p; apply _. Defined.

Definition live_step (r : request) (a : outcome answer) (up : bool) (i o : bytes) (q : option bytes) (l : link) : Prop :=
  match r with
  | Close => a = Ok [] /\ exists rest, l = Gone rest /\ exists lost, i = rest ++ lost
  | Getfd => l = Live up i o q /\ exists n, a = Ok [VNum n]
  | Dirty => l = Live up i o q /\ exists b, a = Ok [VBool b]
  | Dohandshake =>
      (a = Ok [VBool true] /\ l = Live true i o q) \/ (exists m, a = Ok [VBool false; m] /\ l = Live up i o q)
  | Receive p part => exists q', eases q q' /\
      match p with
      | Bytes _ => exists c text err msg rest, i = c ++ rest /\ l = Live up rest o q' /\
          a = Ok (text_or_error msg text err) /\ read_end p part c text err rest
      | Text s =>
          if decide (acceptable p part) then exists c text err msg rest, i = c ++ rest /\ l = Live up rest o q' /\
            a = Ok (text_or_error msg text err) /\ read_end p part c text err rest
          else a = Stop (LuaError "invalid receive pattern") /\ l = Live up i o q'
      end
  | Send d start fin => exists n err msg q', l = Live up i (o ++ take n (slice d start fin)) q' /\
      a = Ok (count_or_error msg (Z.of_nat n + slice_start (Z.of_nat (length d)) start - 1) err) /\
      sent_so_far (slice d start fin) n err q q'
  | Settimeout _ mode => l = Live up i o q /\ a = timeout_answer mode
  | Want => l = Live up i o q /\ exists v, a = Ok [v]
  end.

Definition gone_step (r : request) (a : outcome answer) (rest : bytes) (l : link) : Prop :=
  l = Gone rest /\
  match r with
  | Close => a = Ok []
  | Getfd => a = Ok [VNum SOCKET_INVALID]
  | Dirty => a = Ok [VBool false]
  | Dohandshake => a = Ok [VBool false; VStr (of_string "closed")]
  | Send d start _ => a = Ok (count_or_error None (slice_start (Z.of_nat (length d)) start - 1) IO_DONE)
  | Settimeout _ mode => a = timeout_answer mode
  | Want => a = Ok [VStr (of_string "nothing")]
  | Receive _ _ => False
  end.

Definition link_step (r : request) (a : outcome answer) (l l' : link) : Prop :=
  match l with
  | Live up i o q => live_step r a up i o q l'
  | Gone rest => gone_step r a rest l'
  end.

(** What a script may ask for.  Data is sent again after an error; a number to
    receive is not less than what is there; once the connection is closed nothing
    is received, and nothing sent. *)
Definition permitted (r : request) (l : link) : Prop :=
  match r, l with
  | Send d start fin, Live _ _ _ q => slice d start fin <> [] -> repeats (take STEPSIZE (slice d start fin)) q
  | Send d start fin, Gone _ => slice d start fin = []
  | Receive (Bytes n) part, Live _ _ _ _ => Z.of_nat (length part) <= n < 2 ^ 64
  | Receive _ _, Gone _ => False
  | _, _ => True
  end.

(** ** The objects refine it *)

Section Link.
Context {K : Type} (descs : K -> gmap Z desc) (patience : K -> nat) (delta : Z) (conns : K -> gmap positive tls)
  `{HN : Net K, HE : ErrorQueue K, HO : OpenSSL K}
  `{!NetLaws K descs patience delta, !OpenSSLLaws K descs patience delta conns} (fuel : nat).
Context (strerror : Z -> string) (self : positive).

Local Abbreviation conn := (@Buffer.state (@t_ssl K)).
Local Abbreviation passes := (passes patience).
Local Abbreviation bound := (bound descs conns).
Local Abbreviation moves := (moves descs patience conns).

Definition conn_of (s : @t_ssl K) : option tls :=
  match ssl s with Some p => conns (sys s) !! p | None => None end.

Definition link_of (w : conn) : link :=
  match conn_of (io w) with
  | Some c => Live (bool_decide (state (io w) = ST_SSL_CONNECTED)) (held (buf w) ++ c_unread c) (c_wire c) (c_pending c)
  | None => Gone (held (buf w))
  end.

(** An object that lives has a connection on its descriptor, and one that does
    not has neither. *)
Inductive status (s : @t_ssl K) : Prop :=
| status_live p c : bound s p c -> state s = ST_SSL_NEW \/ state s = ST_SSL_CONNECTED -> status s
| status_gone : ssl s = None -> state s = ST_SSL_CLOSED -> fd (sk s) = SOCKET_INVALID ->
    descs (sys s) !! SOCKET_INVALID = None -> status s.

Definition valid (w : conn) : Prop := sane (buf w) /\ status (io w).

(** Only the object's own descriptor and connection are touched. *)
Definition frame (w w' : conn) : Prop :=
  passes (sys (io w)) (sys (io w')) /\
  (forall d, d <> fd (sk (io w)) -> descs (sys (io w')) !! d = descs (sys (io w)) !! d) /\
  (forall q, ssl (io w) <> Some q -> conns (sys (io w')) !! q = conns (sys (io w)) !! q).

Lemma link_frame_refl w : frame w w.
Proof. split; [apply passes_refl|done]. Qed.

Lemma open_not_closed (s : @t_ssl K) : state s = ST_SSL_NEW \/ state s = ST_SSL_CONNECTED -> state s <> ST_SSL_CLOSED.
Proof. by intros [-> | ->]. Qed.

Lemma link_of_live w p c :
  bound (io w) p c ->
  link_of w = Live (bool_decide (state (io w) = ST_SSL_CONNECTED)) (held (buf w) ++ c_unread c) (c_wire c) (c_pending c).
Proof. intros []. unfold link_of, conn_of. by rewrite bound_ssl, bound_conn. Qed.

(** The frame of what [moves] the object's connection. *)
Lemma moves_frame w p c0 s0 s b c :
  bound (io w) p c0 -> moves p c0 s0 s c -> ssl s0 = ssl (io w) -> sys s0 = sys (io w) -> frame w (State b s).
Proof.
  intros Hb [_ _ _ Hp Hd Hc _ _] Hl Hs. rewrite Hs in Hp, Hd, Hc. split; [done|]. split; cbn.
  - intros d Hne. destruct Hd as [->|(e & e' & He & _ & ->)]; [done|].
    rewrite lookup_insert_ne; [done|]. intros Heq.
    destruct (bound_fd _ _ _ _ _ Hb) as [Hf|Hf]; [congruence|].
    by rewrite Hf, (bound_invalid _ _ _ _ _ Hb) in He.
  - intros q Hq. rewrite Hc, lookup_insert_ne; [done|]. intros Heq. subst q. apply Hq, Hb.
Qed.

(** Where an operation on a live object ends: the object lives on. *)
Lemma moves_live w p c0 s0 s b c :
  bound (io w) p c0 -> moves p c0 s0 s c -> ssl s0 = ssl (io w) -> sys s0 = sys (io w) -> fd (sk s0) = fd (sk (io w)) ->
  state s = ST_SSL_NEW \/ state s = ST_SSL_CONNECTED -> sane b ->
  valid (State b s) /\ frame w (State b s) /\
  link_of (State b s) = Live (bool_decide (state s = ST_SSL_CONNECTED)) (held b ++ c_unread c) (c_wire c) (c_pending c).
Proof.
  intros Hb Hm Hl Hs Hf Hst Hsane.
  assert (bound s p c) as Hbs.
  { eapply moves_bound; [|done]. destruct Hb as [? ? ? ? ?]. split; rewrite ?Hl, ?Hs, ?Hf; done. }
  split; [split; [done|by eapply status_live]|]. split; [by eapply moves_frame|]. by apply (link_of_live (State b s) p c).
Qed.

(** Asking for the message of an error takes it off the queue at most. *)
Lemma wp_ssl_ioerror err s :
  wp (ssl_ioerror strerror err) (fun o s' => exists m, o = Ok m /\
    exists k, inert descs patience conns (sys s) k /\ s' = with_sys k s) s.
Proof.
  assert (inert descs patience conns (sys s) (sys s) /\ s = with_sys (sys s) s) as Hsame
    by (split; [done|]; by destruct s as [[f t k] l st e]).
  unfold ssl_ioerror. rewrite wp_bind, wp_get. cbn [then_post]. case_decide; [|rewrite wp_ret; eauto].
  destruct (ERR_get_error (sys s)) as [e k] eqn:He. apply (get_error_law (conns := conns)) in He.
  repeat case_match; try (rewrite wp_ret; by eauto).
  rewrite wp_bind, wp_put. cbn [then_post]. rewrite wp_ret. eauto.
Qed.

Lemma moves_inert p c0 s0 s c k :
  moves p c0 s0 s c -> inert descs patience conns (sys s) k -> moves p c0 s0 (with_sys k s) c.
Proof.
  intros [Hl Hf Ht Hp Hd Hc Hcf Hcs] (Hkd & Hkc & Hkp & Hkt). split; try done; cbn.
  - unfold Net.passes in *. by rewrite Hkp, Hkt.
  - eapply only_on_trans; [done|by left].
  - congruence.
Qed.

(** The conditions under which requests to a live object are served. *)
Section Live.
Context (w : conn) (p : positive) (c : tls).
Hypothesis Hb : bound (io w) p c.
Hypothesis Hst : state (io w) = ST_SSL_NEW \/ state (io w) = ST_SSL_CONNECTED.
Hypothesis Hsane : sane (buf w).
Hypothesis Hfuel : (patience (sys (io w)) < fuel)%nat.

Local Abbreviation up := (bool_decide (state (io w) = ST_SSL_CONNECTED)).
Local Abbreviation i := (held (buf w) ++ c_unread c).
Local Abbreviation io := (@Buffer.io (@t_ssl K)).

(** What [serve] has to establish. *)
Definition served (r : request) (a : outcome answer) (w' : conn) : Prop :=
  valid w' /\ frame w w' /\ live_step r a up i (c_wire c) (c_pending c) (link_of w').

Lemma served_same r a : live_step r a up i (c_wire c) (c_pending c) (link_of w) -> served r a w.
Proof. intros Hs. split; [split; [done|by eapply status_live]|]. split; [apply link_frame_refl|done]. Qed.

Lemma link_w : link_of w = Live up i (c_wire c) (c_pending c).
Proof. by apply (link_of_live w p c). Qed.

Local Abbreviation ready := (tls_ready descs patience conns p c (io w)).
Local Abbreviation sendable := (tls_sendable conns p c).
Local Abbreviation laws := (tls_laws descs patience delta conns fuel strerror p c (io w) Hb (open_not_closed _ Hst) Hfuel).

Lemma good_w : good ready w.
Proof.
  destruct Hsane as [Hidx Hlen]. split; [done|]. split; [done|]. split; [done|].
  exists c, (start (tm (sk (io w)))). destruct w as [b [[f [] k] l st e]]. by apply moves_refl, Hb.
Qed.

Lemma the_tls_w : the_tls conns p c (io w) = c.
Proof. unfold the_tls. by rewrite (bound_conn _ _ _ _ _ Hb). Qed.

Lemma ready_after st :
  good ready st -> valid st /\ frame w st /\
  link_of st = Live up (stream (tls_unread conns p c) st) (tls_wire conns p c (io st)) (c_pending (the_tls conns p c (io st))).
Proof.
  intros (Hidx & Hlen & Hstate & c' & t & Hm). destruct st as [b s]. cbn in *.
  assert (the_tls conns p c s = c') as Ht by by eapply the_tls_moved.
  unfold stream, tls_unread, tls_wire. cbn. rewrite Ht, <- Hstate.
  apply (moves_live w p c (started t (io w)) s b c'); try done. by rewrite Hstate.
Qed.

Lemma wp_live_receive q part :
  (length i < fuel)%nat -> permitted (Receive q part) (link_of w) ->
  wp (meth_receive fuel strerror q part) (served (Receive q part)) w.
Proof.
  intros Hlen Hp. rewrite link_w in Hp.
  assert (stream (tls_unread conns p c) w = i) as Hstream by (unfold stream, tls_unread; by rewrite the_tls_w).
  unfold meth_receive. rewrite wp_bind.
  destruct (pattern_cases q part) as [Hacc|(s & -> & Hbad)]; [by destruct q| |].
  - eapply wp_mono; [eapply (@wp_receive _ (ssl_io fuel strerror) fuel ready sendable _ _ laws); [apply good_w|by rewrite Hstream|done]|].
    intros o st (d & text & err & -> & (Hg & Hs & Hw & _ & _ & Hsd) & Hend). cbn [then_post]. rewrite wp_ret.
    destruct (ready_after st Hg) as (Hv & Hf & Hlink). split; [done|]. split; [done|]. rewrite Hlink.
    unfold live_step. exists (c_pending (the_tls conns p c (io st))). split.
    { intros x Hx. apply Hsd. unfold tls_sendable. by rewrite the_tls_w. }
    assert (exists c0 text0 err0 msg rest, i = c0 ++ rest /\
      Live up (stream (tls_unread conns p c) st) (tls_wire conns p c (io st)) (c_pending (the_tls conns p c (io st))) =
        Live up rest (c_wire c) (c_pending (the_tls conns p c (io st))) /\
      Ok (of_reply (@reply_of _ (ssl_io fuel strerror) (io st) text err)) = Ok (text_or_error msg text0 err0) /\
      read_end q part c0 text0 err0 rest) as Hex.
    { exists d, text, err, (@io_error _ (ssl_io fuel strerror) (io st) err), (stream (tls_unread conns p c) st).
      split; [by rewrite <- Hstream|]. split; [rewrite Hw; unfold tls_wire; by rewrite the_tls_w|]. split; [done|].
      destruct q; [done|]. unfold receive_end, all_end, read_end in *. done. }
    destruct q; [exact Hex|]. rewrite decide_True by done. exact Hex.
  - unfold buffer_meth_receive. cbv zeta. unfold acceptable in Hbad.
    eapply (@wp_markstart _ (ssl_io fuel strerror) ready sendable _ _ laws); [apply good_w|].
    intros st (Hg & _ & Hw & _ & _ & Hsd) Hs _. rewrite decide_False by tauto. rewrite decide_False by tauto.
    rewrite wp_bind, wp_stop. cbn [then_post].
    destruct (ready_after st Hg) as (Hv & Hf & Hlink). split; [done|]. split; [done|]. rewrite Hlink.
    unfold live_step. exists (c_pending (the_tls conns p c (io st))). split.
    { intros x Hx. apply Hsd. unfold tls_sendable. by rewrite the_tls_w. }
    rewrite decide_False by done. split; [done|]. rewrite Hs, Hstream, Hw. unfold tls_wire. by rewrite the_tls_w.
Qed.

Lemma wp_live_send d start fin :
  (length d < fuel)%nat -> permitted (Send d start fin) (link_of w) ->
  wp (meth_send fuel strerror d start fin) (served (Send d start fin)) w.
Proof.
  intros Hlen Hp. rewrite link_w in Hp. unfold meth_send. rewrite wp_bind.
  destruct (@run_send _ (ssl_io fuel strerror) fuel ready sendable _ _ laws d start fin w good_w Hlen) as
    (n & err & st & Hrun & Hg & Hw & Hs & _ & Hn & Herr & Hmay & Hall).
  { intros Hne. unfold tls_sendable. rewrite the_tls_w. by apply Hp. }
  unfold wp at 1. rewrite Hrun. cbn [fst snd then_post]. rewrite wp_ret.
  destruct (ready_after st Hg) as (Hv & Hf & Hlink). split; [done|]. split; [done|]. rewrite Hlink.
  exists n, err, (@io_error _ (ssl_io fuel strerror) (io st) err), (c_pending (the_tls conns p c (io st))).
  split; [|split; [done|]].
  - f_equal; [rewrite Hs; unfold stream, tls_unread; by rewrite the_tls_w|].
    rewrite Hw. unfold tls_wire. by rewrite the_tls_w.
  - split; [done|]. split; [done|]. split; [exact Hmay|]. intros Hz x Hx. apply (Hall Hz). intros Hnil.
    unfold tls_sendable. rewrite the_tls_w. by apply Hx.
Qed.

Lemma wp_live_handshake : wp (meth_handshake fuel strerror) (served Dohandshake) w.
Proof.
  unfold meth_handshake, on_conn, on_io. rewrite wp_zoom, wp_bind.
  eapply wp_mono; [apply (wp_handshake descs patience delta conns fuel strerror _ p c Hb (open_not_closed _ Hst) Hfuel)|].
  intros o s (e & -> & (c' & Hm & Hu & Hw & Hq) & Hcases & _). cbn [then_post].
  assert (forall a s', moves p c (marked fuel strerror (io w)) s' c' -> state s' = state s ->
    (a = Ok [VBool true] /\ state s = ST_SSL_CONNECTED \/ (exists m, a = Ok [VBool false; m]) /\ state s = state (io w)) ->
    served Dohandshake a (State (buf w) s')) as Hserved.
  { intros a s' Hm' Hs Ha. destruct (moves_live w p c (marked fuel strerror (io w)) s' (buf w) c') as (Hv & Hf & Hl); try done.
    { rewrite Hs. destruct Ha as [[_ ->]|[_ ->]]; [by right|done]. }
    split; [done|]. split; [done|]. rewrite Hl, Hu, Hw, <- Hq. unfold live_step.
    destruct Ha as [[-> Hstate]|[[m ->] Hstate]]; [left|right; exists m]; (split; [done|]); by rewrite Hs, Hstate. }
  destruct Hcases as [[-> Hs]|[He Hs]].
  - rewrite decide_True by done. rewrite wp_ret. by apply Hserved; [| |left].
  - rewrite decide_False by done. rewrite wp_bind. eapply wp_mono; [apply wp_ssl_ioerror|].
    intros o s' (m & -> & k & Hk & ->). cbn [then_post]. rewrite wp_ret.
    apply Hserved; [by apply moves_inert|done|right]. split; [by eexists|done].
Qed.

(** Calls that look at the connection. *)
Lemma wp_look {A} (f : positive -> K -> A) Q :
  wp (on_conn (on_ssl (fun p k => (f p k, k)))) Q w = Q (Ok (f p (sys (io w)))) w.
Proof.
  unfold on_conn, on_io. rewrite wp_zoom. unfold on_ssl. rewrite wp_bind, wp_get. cbn [then_post].
  rewrite (bound_ssl _ _ _ _ _ Hb), wp_bind, wp_put. cbn [then_post]. rewrite wp_ret.
  by destruct w as [b [[f0 t0 k0] l st e]].
Qed.

Lemma wp_live_dirty : wp meth_dirty (served Dirty) w.
Proof.
  unfold meth_dirty. rewrite wp_bind, wp_get. cbn [then_post].
  rewrite decide_True by (by apply open_not_closed). case_match.
  - rewrite wp_bind, wp_look. cbn [then_post]. rewrite wp_ret. apply served_same. split; [apply link_w|by eexists].
  - rewrite wp_ret. apply served_same. split; [apply link_w|by eexists].
Qed.

Lemma wp_live_want : wp (meth_want self) (served Want) w.
Proof.
  unfold meth_want. rewrite wp_bind, wp_get. cbn [then_post].
  rewrite decide_False by (by apply open_not_closed). rewrite wp_bind, wp_look. cbn [then_post]. rewrite wp_ret.
  apply served_same. split; [apply link_w|by eexists].
Qed.

Lemma wp_live_settimeout t m : wp (meth_settimeout t m) (served (Settimeout t m)) w.
Proof.
  unfold meth_settimeout. rewrite wp_bind, wp_get. cbn [then_post].
  set (set_tm := fun x : t_timeout => @on_conn K _ (modify (fun s => with_sk (Sock (fd (sk s)) x (sys s)) s))).
  assert (forall x, wp (set_tm x ;;; ret done_1) (fun o w' => o = Ok done_1 /\ valid w' /\ frame w w' /\
    link_of w' = Live up i (c_wire c) (c_pending c)) w) as Hset.
  { intros x. unfold set_tm, on_conn, on_io. rewrite wp_bind, wp_zoom, wp_modify. cbn [then_post]. rewrite wp_ret.
    split; [done|]. set (s' := with_sk _ _).
    apply (moves_live w p c s' s' (buf w) c); try done. apply moves_refl. apply Hb. }
  unfold timeout_meth_settimeout, served, live_step, timeout_answer.
  destruct (decide (m = "b"%char)) as [H1|H1]; [|destruct (decide (m = "r"%char \/ m = "t"%char)) as [H2|H2]].
  - eapply wp_mono; [exact (Hset _)|]. intros o w' (-> & ? & ? & ?). rewrite decide_True by tauto. done.
  - eapply wp_mono; [exact (Hset _)|]. intros o w' (-> & ? & ? & ?). rewrite decide_True by tauto. done.
  - rewrite wp_stop. rewrite decide_False by tauto. split; [split; [done|by eapply status_live]|].
    split; [apply link_frame_refl|]. split; [apply link_w|done].
Qed.

(** ** Closing *)

Lemma wp_setblocking_conns (s0 : @sock K) : wp socket_setblocking (fun _ s => conns (os s) = conns (os s0)) s0.
Proof. unfold socket_setblocking. rewrite wp_bind, wp_get. cbn [then_post]. rewrite wp_put. apply setfl_keeps. Qed.

Lemma wp_destroy_conns (s0 : @sock K) : wp socket_destroy (fun _ s => conns (os s) = conns (os s0)) s0.
Proof.
  unfold socket_destroy. rewrite wp_bind, wp_get. cbn [then_post]. case_decide; [|by rewrite wp_ret].
  rewrite wp_bind. eapply wp_mono; [apply wp_setblocking_conns|]. intros [[]|f] s Hs; [|done]. cbn [then_post].
  rewrite wp_bind, wp_modify. cbn [then_post]. rewrite wp_modify. cbn. by rewrite close_keeps.
Qed.

Lemma only_on_alter_none f d k k' x :
  descs k !! x = None -> descs k' = alter f d (descs k) -> descs k' !! x = None.
Proof.
  intros Hx ->. destruct (decide (d = x)) as [->|]; [by rewrite lookup_alter_eq, Hx|by rewrite lookup_alter_ne].
Qed.

(** Collecting or closing an object gives its descriptor and its connection
    back, and no others. *)
Lemma wp_ssl_destroy :
  wp meth_destroy (fun o w' => o = Ok tt /\ buf w' = buf w /\ ssl (io w') = None /\ state (io w') = state (io w) /\
    fd (sk (io w')) = SOCKET_INVALID /\ frame w w' /\ descs (sys (io w')) !! fd (sk (io w)) = None /\
    conns (sys (io w')) !! p = None /\ descs (sys (io w')) !! SOCKET_INVALID = None) w.
Proof.
  unfold meth_destroy. rewrite wp_bind, wp_get. cbn [then_post]. destruct Hb as [Hl Hc Hfd _ Hinv]. rewrite Hl.
  unfold on_conn, on_io. rewrite wp_zoom, wp_bind. unfold on_sk at 1. rewrite wp_zoom.
  eapply wp_mono; [apply (wp_and _ _ _ _ (wp_socket_setblocking descs patience delta _) (wp_setblocking_conns _))|].
  intros o x1 [(-> & (Hf1 & Ht1 & Hp1) & Hd1) Hc1]. cbn [then_post].
  assert (descs (os x1) !! SOCKET_INVALID = None) as Hinv1 by by eapply only_on_alter_none.
  rewrite wp_bind. unfold do_ssl at 1, on_ssl at 1. rewrite wp_bind, wp_get. cbn [then_post ssl with_sk].
  rewrite Hl, wp_bind, wp_put. cbn [then_post]. rewrite wp_ret. cbn [then_post].
  unfold sys. cbn [sk with_sk]. set (k2 := SSL_shutdown p (os x1)).
  destruct (shutdown_law (conns := conns) p c (os x1)) as (Hp2 & Hon2 & Hc2); [by rewrite Hc1|]. fold k2 in Hp2, Hon2, Hc2.
  rewrite wp_bind. unfold on_sk at 1. rewrite wp_zoom. cbn [sk with_sk with_sys].
  assert (descs k2 !! SOCKET_INVALID = None) as Hinv2 by by eapply only_on_none.
  eapply wp_mono; [apply (wp_and _ _ _ _ (wp_socket_destroy descs patience delta (with_os k2 x1)
    ltac:(intros Hx; by rewrite Hx)) (wp_destroy_conns _))|].
  intros o x3 [(-> & Hf3 & Ht3 & Hp3 & Hd3) Hc3]. cbn [then_post]. cbn [os fd with_os] in *.
  rewrite wp_bind. unfold do_ssl at 1, on_ssl at 1. rewrite wp_bind, wp_get. cbn [then_post ssl with_sk with_sys].
  rewrite Hl, wp_bind, wp_put. cbn [then_post]. rewrite wp_ret. cbn [then_post]. rewrite wp_modify.
  unfold sys. cbn [sk ssl state with_sk with_sys fd os with_os Buffer.buf Buffer.io].
  destruct (free_law (conns := conns) (descs := descs) (patience := patience) (delta := delta) p (os x3)) as (Hd4 & Hp4 & Hc4).
  do 3 (split; [done|]). split; [done|]. split; [done|]. unfold frame, sys. cbn [Buffer.io sk os with_os fd].
  rewrite Hd4, Hd3, Hf1. split; [split; [|split]|split; [|split]].
  - eapply passes_trans; [exact Hp1|]. eapply passes_trans; [exact Hp2|]. by eapply passes_trans.
  - intros d Hd. rewrite lookup_delete_ne by done.
    assert (descs k2 !! d = descs (os x1) !! d) as ->; [|rewrite Hd1; by apply lookup_alter_ne].
    destruct Hon2 as [->|(e & e' & He & _ & ->)]; [done|]. apply lookup_insert_ne. intros Heq.
    destruct Hfd as [Hfd|Hfd]; [congruence|]. by rewrite Hfd, Hinv1 in He.
  - intros q Hq. rewrite Hc4, lookup_delete_ne by (intros ->; by apply Hq). by rewrite Hc3, Hc2, Hc1.
  - apply lookup_delete_eq.
  - rewrite Hc4. apply lookup_delete_eq.
  - destruct (decide (fd (sk (io w)) = SOCKET_INVALID)) as [->|]; [apply lookup_delete_eq|by rewrite lookup_delete_ne].
Qed.

Lemma wp_live_close : wp meth_close (fun a w' => served Close a w' /\ ssl (io w') = None /\
  descs (sys (io w')) !! fd (sk (io w)) = None /\ conns (sys (io w')) !! p = None) w.
Proof.
  unfold meth_close. rewrite wp_bind. eapply wp_mono; [apply wp_ssl_destroy|].
  intros o w' (-> & Hbuf & Hl & Hs & Hf & (Hp & Hd & Hc) & Hgone & Hconn & Hinv). cbn [then_post].
  unfold on_conn, on_io. rewrite wp_bind, wp_zoom, wp_modify. cbn [then_post]. rewrite wp_ret.
  split; [|done]. unfold served, valid, link_of, conn_of. cbn. rewrite Hl, Hbuf. split; [split; [done|by apply status_gone]|].
  split; [done|]. split; [done|]. eexists. split; [done|]. by eexists.
Qed.
End Live.

(** ** Requests to an object that was closed *)

Section Gone.
Context (w : conn).
Hypothesis Hl : ssl (io w) = None.
Hypothesis Hst : state (io w) = ST_SSL_CLOSED.
Hypothesis Hfd : fd (sk (io w)) = SOCKET_INVALID.
Hypothesis Hinv : descs (sys (io w)) !! SOCKET_INVALID = None.
Hypothesis Hsane : sane (buf w).

Definition gone_served (r : request) (a : outcome answer) (w' : conn) : Prop :=
  valid w' /\ frame w w' /\ gone_step r a (held (buf w)) (link_of w').

(** The object may have other limits, and nothing else. *)
Lemma gone_with_tm t r a :
  gone_step r a (held (buf w)) (Gone (held (buf w))) ->
  gone_served r a (State (buf w) (with_sk (Sock (fd (sk (io w))) t (sys (io w))) (io w))).
Proof.
  intros Hs. split; [split; [done|by apply status_gone]|]. split; [split; [apply passes_refl|done]|].
  unfold link_of, conn_of. cbn. by rewrite Hl.
Qed.

Lemma gone_same r a : gone_step r a (held (buf w)) (Gone (held (buf w))) -> gone_served r a w.
Proof.
  intros Hs. split; [split; [done|by apply status_gone]|]. split; [apply link_frame_refl|].
  unfold link_of, conn_of. by rewrite Hl.
Qed.

Lemma wp_gone_close : wp meth_close (gone_served Close) w.
Proof.
  unfold meth_close. rewrite wp_bind. unfold meth_destroy. rewrite wp_bind, wp_get. cbn [then_post].
  rewrite Hl, wp_ret. cbn [then_post]. unfold on_conn, on_io. rewrite wp_bind, wp_zoom, wp_modify. cbn [then_post].
  rewrite wp_ret. assert (State (buf w) (with_state ST_SSL_CLOSED (io w)) = w) as ->
    by (destruct w as [b [x l st e]]; cbn in *; by subst). by apply gone_same.
Qed.

Lemma wp_gone_handshake : wp (meth_handshake fuel strerror) (gone_served Dohandshake) w.
Proof.
  unfold meth_handshake, on_conn, on_io. rewrite wp_zoom, wp_bind. unfold handshake.
  rewrite wp_bind, wp_modify. cbn [then_post]. rewrite wp_bind, wp_get. cbn [then_post state with_sk].
  rewrite Hst, decide_True by done. rewrite wp_ret. cbn [then_post].
  rewrite decide_False by done. rewrite wp_bind. unfold ssl_ioerror. rewrite wp_bind, wp_get. cbn [then_post].
  rewrite decide_False by done. rewrite wp_ret. cbn [then_post]. rewrite wp_ret. by apply gone_with_tm.
Qed.

Lemma wp_gone_send d start fin :
  slice d start fin = [] -> wp (meth_send fuel strerror d start fin) (gone_served (Send d start fin)) w.
Proof.
  intros Hz. unfold meth_send. rewrite wp_bind. apply wp_buffer_send. unfold markstart. rewrite wp_bind, wp_modify.
  cbn [then_post]. rewrite wp_bind, decide_True by done. rewrite wp_ret. cbn [then_post]. unfold send_reply.
  rewrite wp_bind, wp_get. cbn [then_post]. rewrite wp_ret. cbn [then_post]. rewrite wp_ret. by apply gone_with_tm.
Qed.

Lemma wp_gone_settimeout t m : wp (meth_settimeout t m) (gone_served (Settimeout t m)) w.
Proof.
  unfold meth_settimeout. rewrite wp_bind, wp_get. cbn [then_post]. unfold timeout_meth_settimeout.
  assert (forall x r, r = timeout_answer m -> gone_served (Settimeout t m) r
    (State (buf w) (with_sk (Sock (fd (sk (io w))) x (sys (io w))) (io w)))) as Hok
    by (intros x r ->; by apply gone_with_tm).
  unfold timeout_answer in Hok.
  destruct (decide (m = "b"%char)) as [H1|H1]; [|destruct (decide (m = "r"%char \/ m = "t"%char)) as [H2|H2]].
  - unfold on_conn, on_io. rewrite wp_bind, wp_zoom, wp_modify. cbn [then_post]. rewrite wp_ret.
    apply Hok. by rewrite decide_True by tauto.
  - unfold on_conn, on_io. rewrite wp_bind, wp_zoom, wp_modify. cbn [then_post]. rewrite wp_ret.
    apply Hok. by rewrite decide_True by tauto.
  - rewrite wp_stop. apply gone_same. split; [done|]. unfold timeout_answer. by rewrite decide_False by tauto.
Qed.
End Gone.

(** ** Every request *)

(** More fuel than interruptions and answers that ask to wait still to come, than
    octets to come and than octets to send. *)
Definition enough (r : request) (w : conn) : Prop :=
  (patience (sys (io w)) < fuel)%nat /\
  match r, link_of w with
  | Receive _ _, Live _ i _ _ => (length i < fuel)%nat
  | Send d _ _, _ => (length d < fuel)%nat
  | _, _ => True
  end.

(** The object's own descriptor and connection have been given back. *)
Definition released (w w' : conn) : Prop :=
  descs (sys (io w')) !! fd (sk (io w)) = None /\
  forall p, ssl (io w) = Some p -> conns (sys (io w')) !! p = None.

Lemma wp_ssl_serve r w :
  valid w -> permitted r (link_of w) -> enough r w ->
  wp (serve fuel strerror self r) (fun a w' => valid w' /\ frame w w' /\ link_step r a (link_of w) (link_of w') /\
    (r = Close -> released w w')) w.
Proof.
  intros [Hsane [p c Hb Hst|Hl Hst Hfd Hinv]] Hp [Hpat Hf].
  - pose proof (link_of_live w p c Hb) as Hlink. unfold link_step. rewrite Hlink in Hf |- *.
    assert (forall a w', served w c r a w' -> r <> Close -> valid w' /\ frame w w' /\
      live_step r a (bool_decide (state (io w) = ST_SSL_CONNECTED)) (held (buf w) ++ c_unread c) (c_wire c)
        (c_pending c) (link_of w') /\ (r = Close -> released w w')) as Hok by (by intros a w' (? & ? & ?)).
    destruct r as [| | | |q part|d start fin|t m|]; cbn [serve].
    + eapply wp_mono; [by eapply wp_live_close|]. intros a w' [(? & ? & ?) (Hl & Hd & Hc)]. do 3 (split; [done|]).
      intros _. split; [done|]. intros p' Hp'. rewrite (bound_ssl _ _ _ _ _ Hb) in Hp'. by simplify_eq.
    + unfold meth_getfd. rewrite wp_gets. apply Hok; [|done]. apply (served_same w p c); try done.
      split; [done|by eexists].
    + eapply wp_mono; [by eapply wp_live_dirty|]. intros. by apply Hok.
    + eapply wp_mono; [by eapply wp_live_handshake|]. intros. by apply Hok.
    + eapply wp_mono; [by eapply wp_live_receive|]. intros. by apply Hok.
    + eapply wp_mono; [by eapply wp_live_send|]. intros. by apply Hok.
    + eapply wp_mono; [by eapply wp_live_settimeout|]. intros. by apply Hok.
    + eapply wp_mono; [by eapply wp_live_want|]. intros. by apply Hok.
  - assert (link_of w = Gone (held (buf w))) as Hlink by (unfold link_of, conn_of; by rewrite Hl).
    unfold link_step. rewrite Hlink in Hf, Hp |- *.
    assert (forall a w', gone_served w r a w' -> r <> Close -> valid w' /\ frame w w' /\
      gone_step r a (held (buf w)) (link_of w') /\ (r = Close -> released w w')) as Hok by (by intros a w' (? & ? & ?)).
    destruct r as [| | | |q part|d start fin|t m|]; cbn [serve].
    + eapply wp_mono; [by apply wp_gone_close|]. intros a w' (Hv & Hfr & Hs). do 3 (split; [done|]). intros _.
      split; [|by rewrite Hl]. rewrite Hfd. destruct Hv as [_ [p c Hb _|_ _ _ ?]]; [apply Hb|done].
    + unfold meth_getfd. rewrite wp_gets, Hfd. by apply Hok; [apply gone_same|].
    + unfold meth_dirty. rewrite wp_bind, wp_get. cbn [then_post]. rewrite Hst, decide_False by (by intros []).
      rewrite wp_ret. by apply Hok; [apply gone_same|].
    + eapply wp_mono; [by apply wp_gone_handshake|]. intros. by apply Hok.
    + by destruct q.
    + eapply wp_mono; [by apply wp_gone_send|]. intros. by apply Hok.
    + eapply wp_mono; [by apply wp_gone_settimeout|]. intros. by apply Hok.
    + unfold meth_want. rewrite wp_bind, wp_get. cbn [then_post]. rewrite Hst, decide_True by done.
      rewrite wp_bind, wp_ret. cbn [then_post]. rewrite wp_ret. by apply Hok; [apply gone_same|].
Qed.

(** ** Sending and receiving once it is closed *)

Definition garbage : failure := Undefined "read of an uninitialized count".

(** Requests that go to the transport. *)
Definition asks_for_octets (r : request) : Prop :=
  match r with
  | Send d start fin => slice d start fin <> []
  | Receive p part => acceptable p part
  | _ => False
  end.

Lemma wp_gone_get {A} (k : Z * bytes -> C conn A) (Q : outcome A -> conn -> Prop) w :
  state (io w) = ST_SSL_CLOSED -> held (buf w) = [] -> sane (buf w) -> Q (Stop garbage) w ->
  wp (bind (@buffer_get _ (ssl_io fuel strerror)) k) Q w.
Proof.
  intros Hst Hheld [Hidx Hlen] HQ. apply (f_equal length) in Hheld. unfold held in Hheld.
  rewrite length_take, length_drop in Hheld. cbn in Hheld.
  rewrite wp_bind. unfold buffer_get. rewrite wp_bind, wp_get. cbn [then_post]. unfold buffer_isempty.
  rewrite bool_decide_eq_true_2 by lia. rewrite !wp_bind. unfold on_io. rewrite wp_zoom. cbn [io_recv ssl_io].
  rewrite wp_bind. unfold ssl_recv. rewrite wp_bind, wp_get. cbn [then_post]. rewrite Hst, decide_True by done.
  rewrite wp_ret. cbn [then_post]. rewrite wp_stop. cbn [then_post]. by destruct w.
Qed.

(** The first round of a loop ends it all. *)
Lemma wp_loop_stops {W S A} n (body : S -> C W (S + A)) s Q w :
  (0 < n)%nat -> wp (body s) (fun o w' => exists f, o = Stop f /\ Q (Stop f) w') w -> wp (loop n body s) Q w.
Proof.
  intros Hn Hb. destruct n as [|n]; [lia|]. rewrite loop_S, wp_bind. eapply wp_mono; [exact Hb|].
  by intros o w' (f & -> & ?).
Qed.

Lemma wp_gone_octets r w :
  state (io w) = ST_SSL_CLOSED -> held (buf w) = [] -> sane (buf w) -> (0 < fuel)%nat -> asks_for_octets r ->
  wp (serve fuel strerror self r) (fun o _ => o = Stop garbage) w.
Proof.
  intros Hst Hheld Hsane Hfuel Hr.
  destruct r as [| | | |q part|d start fin|t m|]; try done; cbn [serve].
  - unfold meth_receive. rewrite wp_bind. unfold buffer_meth_receive. cbv zeta. rewrite wp_bind. unfold markstart.
    rewrite wp_modify. cbn [then_post]. rewrite wp_bind. destruct q as [z|s].
    + unfold recvraw. apply wp_loop_stops; [done|]. apply wp_gone_get; try done. by exists garbage.
    + destruct Hr as [Hr0 Hr1]. destruct (decide (s !! 1%nat = Some "l"%char)) as [Hl|Hl].
      * rewrite decide_True by done. unfold recvline. apply wp_loop_stops; [done|]. apply wp_gone_get; try done.
        by exists garbage.
      * rewrite decide_False by tauto. rewrite decide_True by tauto. unfold recvall. rewrite wp_bind.
        apply wp_loop_stops; [done|]. apply wp_gone_get; try done. by exists garbage.
  - unfold meth_send. rewrite wp_bind. apply wp_buffer_send. rewrite wp_bind. unfold markstart. rewrite wp_modify.
    cbn [then_post]. cbn in Hr. rewrite decide_False by done. unfold sendraw. rewrite !wp_bind.
    apply wp_loop_stops; [done|]. rewrite decide_True; [|split; [|done]; by destruct (slice d start fin); [|cbn; lia]].
    rewrite wp_bind. unfold on_io. rewrite wp_zoom. cbn [io_send ssl_io]. rewrite wp_bind. unfold ssl_send.
    rewrite wp_bind, wp_get. cbn [then_post io]. cbn [state io_markstart ssl_io with_sk]. rewrite Hst, decide_True by done.
    rewrite wp_ret. cbn [then_post]. rewrite wp_stop. cbn [then_post]. by exists garbage.
Qed.

(** ** Making a connection *)

Lemma wp_setnonblocking_conns (s0 : @sock K) : wp socket_setnonblocking (fun _ s => conns (os s) = conns (os s0)) s0.
Proof. unfold socket_setnonblocking. rewrite wp_bind, wp_get. cbn [then_post]. rewrite wp_put. apply setfl_keeps. Qed.

(** Giving an object that is new a descriptor: it has it, non-blocking, and so
    has its connection, whose peer decides what is to come. *)
Lemma wp_setfd n w p c :
  bound (io w) p c -> sane (buf w) -> state (io w) = ST_SSL_NEW ->
  wp (meth_setfd n) (fun o w' => o = Ok [] /\ valid w' /\ state (io w') = ST_SSL_NEW /\ fd (sk (io w')) = n /\
    passes (sys (io w)) (sys (io w')) /\
    descs (sys (io w')) = alter (set_nonblock true) n (descs (sys (io w))) /\
    exists u, link_of w' = Live false (held (buf w) ++ u) (c_wire c) (c_pending c) /\
      conns (sys (io w')) = <[p := Tls n (c_server c) u (c_wire c) (c_pending c)]> (conns (sys (io w)))) w.
Proof.
  intros [Hl Hc Hfd Hset Hinv] Hsane Hnew.
  unfold meth_setfd. rewrite wp_bind, wp_get. cbn [then_post]. rewrite decide_False by (intros Hn; by apply Hn).
  unfold on_conn, on_io. rewrite wp_zoom, wp_bind, wp_modify. cbn [then_post]. rewrite wp_bind. unfold on_sk. rewrite wp_zoom.
  eapply wp_mono; [apply (wp_and _ _ _ _ (wp_socket_setnonblocking descs patience delta _) (wp_setnonblocking_conns _))|].
  intros o x [(-> & (Hf & Ht & Hp) & Hd) Hcx]. cbn [then_post]. rewrite wp_bind. unfold do_ssl, on_ssl.
  rewrite wp_bind, wp_get. cbn [then_post ssl with_sk]. rewrite Hl, wp_bind, wp_put. cbn [then_post].
  rewrite !wp_ret. cbn [then_post]. rewrite wp_ret. unfold sys in *. cbn [sk with_sk with_sys fd os with_os tm] in *.
  rewrite <- Hcx in Hc.
  destruct (set_fd_law (descs := descs) (patience := patience) (delta := delta) p n (os x) c Hc) as (Hd2 & Hp2 & u & Hc2).
  rewrite Hcx in Hc2. rewrite Hd in Hd2. set (k := SSL_set_fd p n (os x)) in *.
  set (s' := with_sys _ _). set (c' := Tls n (c_server c) u (c_wire c) (c_pending c)) in *.
  assert (bound s' p c') as Hb'.
  { split; [done| | | |].
    - cbn. by rewrite Hc2, lookup_insert_eq.
    - by left.
    - intros e. cbn. rewrite Hd2, lookup_alter_eq. by intros (e0 & _ & ->)%fmap_Some.
    - cbn. by apply (only_on_alter_none (set_nonblock true) n (os (sk (Buffer.io w)))). }
  split; [done|]. split; [split; [done|]; by apply (status_live _ p c'); [|left]|].
  split; [done|]. split; [done|]. split; [by eapply passes_trans|]. split; [done|]. exists u. split; [|done].
  rewrite (link_of_live (State (buf w) s') p c' Hb'). cbn. rewrite Hnew. by rewrite bool_decide_eq_false_2.
Qed.

(** What a script is given that asks for a connection in a context, and what
    becomes of the system. *)
Definition created (storage : bytes) (noise : Z) (c : t_context) (k : K) (o : outcome (answer + conn)) (k' : K) : Prop :=
  descs k' = descs k /\ passes k k' /\
  ((mode c = MD_CTX_INVALID /\ o = Ok (inl (failed (Some "invalid mode"%string))) /\ k' = k) \/
   (mode c <> MD_CTX_INVALID /\ o = Ok (inl (failed (Some "error creating SSL object"%string))) /\ conns k' = conns k) \/
   (mode c <> MD_CTX_INVALID /\ exists w p u, o = Ok (inr w) /\ sys (io w) = k' /\ conns k !! p = None /\
      conns k' = <[p := Tls SOCKET_INVALID (Some (bool_decide (mode c = MD_CTX_SERVER))) u [] None]> (conns k) /\
      ssl (io w) = Some p /\ state (io w) = ST_SSL_NEW /\ fd (sk (io w)) = noise /\
      deadline (tm (sk (io w))) = None /\ buf w = Buf 0 0 0 0 0 storage)).

Lemma wp_create storage noise c k :
  wp (meth_create storage noise c) (created storage noise c k) k.
Proof.
  unfold meth_create, created, ctx_getmode, ctx_getcontext. cbv zeta. case_decide as Hmode.
  { rewrite wp_ret. split; [done|]. split; [apply passes_refl|by left]. }
  rewrite wp_bind, wp_get. cbn [then_post]. destruct (SSL_new _ k) as [[p|] k1] eqn:Hnew;
    apply (new_law (descs := descs) (patience := patience) (delta := delta) (conns := conns)) in Hnew as (Hd & Hp & Hc);
    rewrite wp_bind, wp_put; cbn [then_post]; [|rewrite wp_ret; do 2 (split; [done|]); right; by left].
  destruct Hc as (Hnone & u0 & Hc). rewrite wp_bind, wp_modify. cbn [then_post].
  destruct (set_fd_law (descs := descs) (patience := patience) (delta := delta) (conns := conns) p SOCKET_INVALID k1 _
    ltac:(rewrite Hc; apply lookup_insert_eq)) as (Hd2 & Hp2 & u & Hc2). cbn [c_server c_wire c_pending] in Hc2.
  rewrite Hc, insert_insert_eq in Hc2. set (k2 := SSL_set_fd _ _ _) in *. rewrite wp_bind, wp_modify. cbn [then_post].
  destruct (set_mode_law (descs := descs) (patience := patience) (delta := delta) (conns := conns) p ssl_mode k2)
    as (Hd3 & Hp3 & Hc3). set (k3 := SSL_set_mode _ _ _) in *. rewrite wp_bind, wp_modify. cbn [then_post].
  destruct (set_state_law (descs := descs) (patience := patience) (delta := delta) (conns := conns) p k3 _
    ltac:(rewrite Hc3, Hc2; apply lookup_insert_eq)) as [(Hda & Hpa & Hca) (Hdb & Hpb & Hcb)].
  cbn [c_fd c_unread c_wire c_pending] in Hca, Hcb. rewrite Hc3, Hc2, insert_insert_eq in Hca, Hcb.
  rewrite wp_bind, wp_get. cbn [then_post]. rewrite wp_ret.
  assert (passes k k3) as Hp' by (eapply passes_trans; [exact Hp|]; by eapply passes_trans).
  case_decide as Hs; (split; [by congruence|]; split; [by eapply passes_trans|]; do 2 right; split; [done|]);
    eexists _, p, u; (split; [done|]); (split; [done|]); (split; [done|]); split; try done.
  - by rewrite bool_decide_eq_true_2.
  - by rewrite bool_decide_eq_false_2.
Qed.

(** An object that has just been made is bound to its connection, which has no
    descriptor, whatever the object's own field holds. *)
Lemma created_bound storage noise c k w k' :
  created storage noise c k (Ok (inr w)) k' -> length storage = BUF_SIZE -> descs k !! SOCKET_INVALID = None ->
  descs (sys (io w)) = descs k /\ state (io w) = ST_SSL_NEW /\ fd (sk (io w)) = noise /\ sane (buf w) /\
  held (buf w) = [] /\
  exists p u, bound (io w) p (Tls SOCKET_INVALID (Some (bool_decide (mode c = MD_CTX_SERVER))) u [] None).
Proof.
  intros (Hd & _ & [(_ & ? & _)|[(_ & ? & _)|(_ & w' & p & u & Ho & Hk & _ & Hc & Hl & Hst & Hf & _ & Hbuf)]]) Hlen Hinv; [done..|].
  simplify_eq. rewrite Hd, Hbuf. do 3 (split; [done|]). split; [split; [cbn; lia|done]|]. split; [done|].
  exists p, u. split; [done| |by right| |by rewrite Hd].
  - rewrite Hc. apply lookup_insert_eq.
  - intros e. cbn. by rewrite Hd, Hinv.
Qed.

(** The handshake, as a run. *)
Definition handshaken (s : @t_ssl K) (p : positive) (c : tls) (e : Z) (s' : @t_ssl K) : Prop :=
  conns (sys s') = <[p := c]> (conns (sys s)) /\ only_on descs (c_fd c) (sys s) (sys s') /\
  ((e = IO_DONE /\ state s' = ST_SSL_CONNECTED) \/ (e <> IO_DONE /\ state s' = state s)).
End Link.

(** ** Connections refine the abstract ones *)

(** C16: tLS connections are what they promise, whatever a script asks of them: a
    live connection is a pair of streams, of which [receive] takes the front, in
    order and without loss, and to which [send] adds the part of the data the
    indices name, or a prefix of it with an error after which exactly the rest can
    be sent; the handshake reports success exactly when the connection becomes
    connected; closing gives the object's own descriptor and connection back, and
    no request touches those of another.  A closed object answers what does not
    need the connection, and stays closed. *)
Theorem ssl_refines_link {K} descs patience delta conns `{OpenSSLLaws K descs patience delta conns}
    `{!NetLaws K descs patience delta} fuel strerror self r w :
  valid descs conns w -> permitted r (link_of conns w) -> enough patience conns fuel r w ->
  exists a w', serve fuel strerror self r w = (a, w') /\
    valid descs conns w' /\ frame descs patience conns w w' /\
    link_step r a (link_of conns w) (link_of conns w') /\ (r = Close -> released descs conns w w').
Proof.
  intros Hv Hp Hf.
  apply (proj1 (wp_run _ _ _) (wp_ssl_serve descs patience delta conns fuel strerror self r w Hv Hp Hf)).
Qed.

(** C17: the handshake always ends, and in time: whatever the peer and OpenSSL ask
    to wait for, it is over by the deadline the script set, but for the time of
    the calls already begun.  It becomes connected exactly when it says so, uses
    nothing of the streams of its connection, and touches no other. *)
Theorem ssl_handshake_in_time {K} descs patience delta conns `{OpenSSLLaws K descs patience delta conns}
    `{!NetLaws K descs patience delta} fuel (s : @t_ssl K) p c :
  bound descs conns s p c -> state s <> ST_SSL_CLOSED -> (patience (sys s) < fuel)%nat ->
  exists e s', handshake fuel s = (Ok e, s') /\
    (forall D, deadline (timeout_markstart (net_time (sys s)) (tm (sk s))) = Some D ->
       net_time (sys s') <= Z.max (net_time (sys s)) D + overrun delta (patience (sys s))) /\
    handshaken descs conns s p c e s'.
Proof.
  intros Hb Hst Hf. set (strerror := fun _ : Z => ""%string).
  destruct (proj1 (wp_run _ _ _) (wp_handshake descs patience delta conns fuel strerror s p c Hb Hst Hf))
    as (o & s' & Hrun & e & -> & (c' & [] & Hu & Hw & Hq) & Hcases & Ht).
  exists e, s'. split; [done|]. split; [exact Ht|]. split; [|by split].
  assert (c' = c) as -> by (destruct c', c; cbn in *; congruence). done.
Qed.

(** C34: once a connection has been closed nothing is said of the octets a transfer
    has moved: the counts the transport should store are not, and the caller reads
    them all the same.  Every request that gets as far as the transport does. *)
Theorem closed_connection_undefined {K} descs patience delta conns `{OpenSSLLaws K descs patience delta conns}
    `{!NetLaws K descs patience delta} fuel strerror self r w :
  valid descs conns w -> state (io w) = ST_SSL_CLOSED -> held (buf w) = [] -> (0 < fuel)%nat ->
  asks_for_octets r ->
  exists w', serve fuel strerror self r w = (Stop garbage, w').
Proof.
  intros [Hsane _] Hst Hheld Hf Hr.
  destruct (proj1 (wp_run _ _ _) (wp_gone_octets delta fuel strerror self r w Hst Hheld Hsane Hf Hr))
    as (o & w' & Hrun & ->). by exists w'.
Qed.

(** C18: making a connection object: a context whose mode is not set and a failure
    of OpenSSL are reported, and otherwise the object has a connection of its own
    with the role of the mode, new, without limits and with an empty buffer; once
    it is given a descriptor it is a live connection on it, and the descriptor
    does not block.  Until then the object's descriptor is whatever its memory
    held, and that descriptor is closed when the object is. *)
Theorem ssl_create_spec {K} descs patience delta conns `{OpenSSLLaws K descs patience delta conns}
    `{!NetLaws K descs patience delta} storage noise c k :
  length storage = BUF_SIZE -> descs k !! SOCKET_INVALID = None ->
  exists o k', meth_create storage noise c k = (o, k') /\ created descs patience conns storage noise c k o k' /\
    forall w, o = Ok (inr w) ->
      (forall n, exists w', meth_setfd n w = (Ok [], w') /\ valid descs conns w' /\ fd (sk (io w')) = n /\
         descs (sys (io w')) = alter (set_nonblock true) n (descs k) /\
         exists u, link_of conns w' = Live false u [] None) /\
      (exists w', meth_close w = (Ok [], w') /\ valid descs conns w' /\ (exists rest, link_of conns w' = Gone rest) /\
         descs (sys (io w')) !! noise = None).
Proof.
  intros Hlen Hinv.
  destruct (proj1 (wp_run _ _ _) (wp_create descs patience delta conns storage noise c k)) as (o & k' & Hrun & Hc).
  exists o, k'. split; [done|]. split; [done|]. intros w ->.
  destruct (created_bound descs patience conns storage noise c k w k' Hc Hlen Hinv)
    as (Hd & Hst & Hfd & Hsane & Hheld & p & u & Hb). split.
  - intros n. destruct (proj1 (wp_run _ _ _) (wp_setfd descs patience delta conns n w p _ Hb Hsane Hst))
      as (o & w' & Hr & -> & Hv & _ & Hn & _ & Hdn & v & Hl & _).
    exists w'. rewrite Hheld in Hl. rewrite Hd in Hdn. do 4 (split; [done|]). by exists v.
  - destruct (proj1 (wp_run _ _ _) (wp_live_close descs patience delta conns w p _ Hb Hsane))
      as (o & w' & Hr & (Hv & _ & Hs) & _ & Hgone & _).
    destruct Hs as [-> (rest & Hl & _)]. exists w'. rewrite <- Hfd. do 2 (split; [done|]). split; [by exists rest|done].
Qed.

(** ** A session with a server *)

(** Descriptors 3 and 5 are open; the second is somebody else's, and its number is
    what the memory of the new object holds. *)
Definition y_start : toysys :=
  (ToyNet {[ 3 := Desc true false [] []; 5 := Desc false true [] [] ]} [] 2 0, ∅).
Definition y_context : t_context := Context_ (Some 1%positive) MD_CTX_CLIENT.
Definition y_noise : Z := 5.
Definition y_made : outcome (answer + @Buffer.state (@t_ssl toysys)) * toysys :=
  meth_create storage0 y_noise y_context y_start.

Definition y_or_closed (r : outcome (answer + @Buffer.state (@t_ssl toysys)) * toysys) : @Buffer.state (@t_ssl toysys) :=
  match r with
  | (Ok (inr w), _) => w
  | (_, k) => buffer_init (fun _ => 0) storage0 (Ssl (Sock SOCKET_INVALID (Timeout (-1) (-1) 0) k) None ST_SSL_CLOSED 0)
  end.
Definition y_new : @Buffer.state (@t_ssl toysys) := y_or_closed y_made.
Definition y_given : @Buffer.state (@t_ssl toysys) := (meth_setfd 3 y_new).2.
Definition y_session : @Buffer.state (@t_ssl toysys) := (serve 100 no_message 1 Dohandshake y_given).2.
Definition y_closed : @Buffer.state (@t_ssl toysys) := (serve 100 no_message 1 Close y_session).2.

Definition y_tls : tls := Tls 3 (Some false) (of_string "hello" ++ [LF]) [] None.

Ltac y_bound :=
  split; [vm_compute; reflexivity|vm_compute; reflexivity|left; vm_compute; reflexivity
         |let e := fresh in intros e; vm_compute; by intros [= <-]|vm_compute; reflexivity].

Lemma y_session_bound : bound y_table y_conns (io y_session) 1 y_tls.
Proof. y_bound. Qed.

Lemma y_session_valid : valid y_table y_conns y_session.
Proof.
  split; [split; [vm_compute; lia|vm_compute; reflexivity]|].
  eapply (status_live _ _ _ 1 y_tls); [exact y_session_bound|right; vm_compute; reflexivity].
Qed.

Lemma y_closed_valid : valid y_table y_conns y_closed.
Proof. split; [split; [vm_compute; lia|vm_compute; reflexivity]|]. apply status_gone; vm_compute; reflexivity. Qed.

Example ssl_refines_link_witness :
  exists a w', serve 100 no_message 1 (Receive (Text (of_string "*l")) []) y_session = (a, w') /\
    valid y_table y_conns w' /\ frame y_table y_busy y_conns y_session w' /\
    link_step (Receive (Text (of_string "*l")) []) a (link_of y_conns y_session) (link_of y_conns w') /\
    (Receive (Text (of_string "*l")) [] = Close -> released y_table y_conns y_session w').
Proof.
  apply (ssl_refines_link y_table y_busy 0 y_conns 100 no_message 1 (Receive (Text (of_string "*l")) []) y_session y_session_valid).
  - vm_compute. exact I.
  - split; vm_compute; lia.
Defined.

Example y_received :
  (serve 100 no_message 1 (Receive (Text (of_string "*l")) []) y_session).1 = Ok [VStr (of_string "hello"); VNil; VNil].
Proof. vm_compute. reflexivity. Qed.

(** The handshake has to wait twice. *)
Lemma y_given_bound : bound y_table y_conns (io y_given) 1 y_tls.
Proof. y_bound. Qed.

Example ssl_handshake_in_time_witness :
  exists e s', handshake 100 (io y_given) = (Ok e, s') /\
    (forall D, deadline (timeout_markstart (net_time (sys (io y_given))) (tm (sk (io y_given)))) = Some D ->
       net_time (sys s') <= Z.max (net_time (sys (io y_given))) D + overrun 0 (y_busy (sys (io y_given)))) /\
    handshaken y_table y_conns (io y_given) 1 y_tls e s'.
Proof.
  apply (ssl_handshake_in_time y_table y_busy 0 y_conns 100 (io y_given) 1 y_tls y_given_bound).
  - vm_compute. discriminate.
  - vm_compute. lia.
Defined.

Example closed_connection_undefined_witness :
  exists w', serve 100 no_message 1 (Send (of_string "more") 1 (-1)) y_closed = (Stop garbage, w').
Proof.
  apply (closed_connection_undefined y_table y_busy 0 y_conns 100 no_message 1 (Send (of_string "more") 1 (-1)) y_closed y_closed_valid).
  - vm_compute. reflexivity.
  - vm_compute. reflexivity.
  - lia.
  - vm_compute. discriminate.
Defined.

Example ssl_create_spec_witness :
  exists o k', meth_create storage0 y_noise y_context y_start = (o, k') /\
    created y_table y_busy y_conns storage0 y_noise y_context y_start o k' /\
    forall w, o = Ok (inr w) ->
      (forall n, exists w', meth_setfd n w = (Ok [], w') /\ valid y_table y_conns w' /\ fd (sk (io w')) = n /\
         y_table (sys (io w')) = alter (set_nonblock true) n (y_table y_start) /\
         exists u, link_of y_conns w' = Live false u [] None) /\
      (exists w', meth_close w = (Ok [], w') /\ valid y_table y_conns w' /\
         (exists rest, link_of y_conns w' = Gone rest) /\ y_table (sys (io w')) !! y_noise = None).
Proof.
  apply (ssl_create_spec y_table y_busy 0 y_conns storage0 y_noise y_context y_start storage0_size).
  vm_compute. reflexivity.
Defined.

(** Closing what was never given a descriptor closes somebody else's. *)
Example y_closes_another :
  y_table y_start !! 5 <> None /\ y_table (sys (io (serve 100 no_message 1 Close y_new).2)) !! 5 = None.
Proof. split; [vm_compute; discriminate|vm_compute; reflexivity]. Qed.
